(** * ext3grep: a shallow embedding of the reconstruction core

    The definitions below follow [src/ext3grep.cc].  Conventions:

    - every C++ integer is a [Z]; a [uint32_t] is kept in [0, 2^32) and the
      places where the source computes in 32 bits and may lose bits are
      written out with [u32] (wrap-around) and [s64_of_int] (widening of an
      [int] to [size_t]);
    - [std::map<int, T>] is a [gmap Z T]; its keys are the 32-bit patterns
      of the block / inode / sequence numbers stored in it;
    - [assert] failures and failed device reads terminate the process; a
      function that can hit one returns an [option], [None] being the abort;
    - a callback [void (*action)(int, void*)] together with the globals it
      updates is a state transformer [Z -> S -> S]. *)

From Stdlib Require Import ZArith Lia Sorting.Sorted.
From stdpp Require Import gmap list strings sorting.

Local Open Scope Z_scope.

(** ** Fixed-width arithmetic *)

Definition u32 (x : Z) : Z := x mod 2 ^ 32.
Definition u64 (x : Z) : Z := x mod 2 ^ 64.

(** Reading of a 32-bit pattern as an [int]. *)
Definition int_of_u32 (x : Z) : Z := if x <? 2 ^ 31 then x else x - 2 ^ 32.

(** Conversion of an [int] to a 64-bit [size_t] (sign extension). *)
Definition size_t_of_int (x : Z) : Z := u64 x.

(** ** Bitmaps: [get_bitmap_mask] *)

(** [struct bitmap_ptr]: the anonymous union of [mask] and [byte[8]] is kept
    as its eight bytes in memory order; [mask] is their reading as one
    [uint64_t] on the little-endian hosts the program runs on (it reads the
    [__le32] on-disk fields without conversion). *)
Record bitmap_ptr := { index : Z; byte : list Z }.

Fixpoint le_word (bytes : list Z) : Z :=
  match bytes with
  | [] => 0
  | b :: rest => b + 256 * le_word rest
  end.

Definition mask (p : bitmap_ptr) : Z := le_word (byte p).

Definition get_bitmap_mask (bit : Z) : bitmap_ptr :=
  let zero := replicate 8 0 in
  {| index := Z.shiftr bit 6;
     byte := <[Z.to_nat (Z.shiftr (Z.land bit 63) 3) := Z.shiftl 1 (Z.land bit 7)]> zero |}.

(** A bitmap block as [load_meta_data] reads it: the raw bytes of the block
    land in an array of [uint64_t], eight bytes per word. *)
Fixpoint words_of_bytes (fuel : nat) (bytes : list Z) : list Z :=
  match fuel with
  | O => []
  | S k => le_word (take 8 bytes) :: words_of_bytes k (drop 8 bytes)
  end.

Definition load_bitmap (block : list Z) : list Z :=
  words_of_bytes (length block / 8)%nat block.

(** The query every user of a bitmap performs:
    [bitmap[bmp.index] & bmp.mask], converted to [bool]. *)
Definition bitmap_test (bitmap : list Z) (bit : Z) : bool :=
  let bmp := get_bitmap_mask bit in
  negb (Z.land (nth (Z.to_nat (index bmp)) bitmap 0) (mask bmp) =? 0).

(** ** Inodes *)

(** The fields of [ext3_inode] that the modelled functions read.
    [i_block] holds the 15 pointer slots. *)
Record Inode := {
  i_mode : Z;
  i_atime : Z;
  i_dtime : Z;
  i_blocks : Z;
  i_block : list Z
}.

(** Modelled from the spec: the constants of [ext3.h], which is not part of
    the sources at hand: "12 direct block pointers, 1 indirect,
    1 double-indirect, 1 triple-indirect". *)
Definition EXT3_NDIR_BLOCKS : nat := 12.
Definition EXT3_IND_BLOCK : nat := 12.
Definition EXT3_DIND_BLOCK : nat := 13.
Definition EXT3_TIND_BLOCK : nat := 14.

Definition is_directory (inode : Inode) : bool :=
  Z.land (i_mode inode) 0xf000 =? 0x4000.

Definition is_symlink (inode : Inode) : bool :=
  Z.land (i_mode inode) 0xf000 =? 0xa000.

Definition is_block_number (block_count_ : Z) (block_number : Z) : bool :=
  block_number <? block_count_.

(** ** Indirect blocks *)

Definition direct_bit : Z := 1.
Definition indirect_bit : Z := 2.

Definition has_bit (indirect_mask bit : Z) : bool :=
  negb (Z.land indirect_mask bit =? 0).

Section Walker.
Context {S : Type}.
(** [block_count_], the device ([get_block] followed by the cast of the
    buffer to [__le32*]: [None] when the read fails and [assert] aborts)
    and the callback. *)
Variable block_count_ : Z.
Variable get_block_ptrs : Z -> option (list Z).
Variable action : Z -> S -> S.

(** The [while] loop of [iterate_over_all_blocks_of_indirect_block] over
    the slots that are left; the flag is [i < block_size_ / sizeof(__le32)]
    after the loop, that is, whether the loop was left by [break]. *)
Fixpoint indirect_block_loop (block_ptr : list Z) (s : S) : bool * S :=
  match block_ptr with
  | [] => (false, s)
  | p :: rest =>
      if p =? 0 then indirect_block_loop rest s
      else if negb (is_block_number block_count_ p) then (true, s)
      else indirect_block_loop rest (action (int_of_u32 p) s)
  end.

Definition iterate_over_all_blocks_of_indirect_block
    (block : Z) (s : S) : option (bool * S) :=
  block_ptr ← get_block_ptrs block;
  Some (indirect_block_loop block_ptr s).

Fixpoint double_indirect_block_loop (indirect_mask : Z) (block_ptr : list Z) (s : S)
    : option (bool * S) :=
  match block_ptr with
  | [] => Some (false, s)
  | p :: rest =>
      if p =? 0 then double_indirect_block_loop indirect_mask rest s
      else if negb (is_block_number block_count_ p) then Some (true, s)
      else
        let s1 := if has_bit indirect_mask indirect_bit
                  then action (int_of_u32 p) s else s in
        if has_bit indirect_mask direct_bit then
          match iterate_over_all_blocks_of_indirect_block (int_of_u32 p) s1 with
          | None => None
          | Some (true, s2) => Some (true, s2)
          | Some (false, s2) => double_indirect_block_loop indirect_mask rest s2
          end
        else double_indirect_block_loop indirect_mask rest s1
  end.

Definition iterate_over_all_blocks_of_double_indirect_block
    (block : Z) (indirect_mask : Z) (s : S) : option (bool * S) :=
  block_ptr ← get_block_ptrs block;
  double_indirect_block_loop indirect_mask block_ptr s.

Fixpoint tripple_indirect_block_loop (indirect_mask : Z) (block_ptr : list Z) (s : S)
    : option (bool * S) :=
  match block_ptr with
  | [] => Some (false, s)
  | p :: rest =>
      if p =? 0 then tripple_indirect_block_loop indirect_mask rest s
      else if negb (is_block_number block_count_ p) then Some (true, s)
      else
        let s1 := if has_bit indirect_mask indirect_bit
                  then action (int_of_u32 p) s else s in
        match iterate_over_all_blocks_of_double_indirect_block
                (int_of_u32 p) indirect_mask s1 with
        | None => None
        | Some (true, s2) => Some (true, s2)
        | Some (false, s2) => tripple_indirect_block_loop indirect_mask rest s2
        end
  end.

Definition iterate_over_all_blocks_of_tripple_indirect_block
    (block : Z) (indirect_mask : Z) (s : S) : option (bool * S) :=
  block_ptr ← get_block_ptrs block;
  tripple_indirect_block_loop indirect_mask block_ptr s.

(** The [for] loop over the direct slots. *)
Fixpoint direct_blocks_loop (block_ptr : list Z) (s : S) : S :=
  match block_ptr with
  | [] => s
  | p :: rest =>
      direct_blocks_loop rest (if p =? 0 then s else action (int_of_u32 p) s)
  end.

(** The three [if (block_ptr[...])] statements of
    [iterate_over_all_blocks_of], one per top-level slot. *)
Definition walk_ind_slot (p : Z) (indirect_mask : Z) (s : S) : option (bool * S) :=
  if p =? 0 then Some (false, s)
  else
    let s := if has_bit indirect_mask indirect_bit
             then action (int_of_u32 p) s else s in
    if has_bit indirect_mask direct_bit
    then iterate_over_all_blocks_of_indirect_block (int_of_u32 p) s
    else Some (false, s).

Definition walk_dind_slot (p : Z) (indirect_mask : Z) (s : S) : option (bool * S) :=
  if p =? 0 then Some (false, s)
  else
    let s := if has_bit indirect_mask indirect_bit
             then action (int_of_u32 p) s else s in
    iterate_over_all_blocks_of_double_indirect_block (int_of_u32 p) indirect_mask s.

Definition walk_tind_slot (p : Z) (indirect_mask : Z) (s : S) : option (bool * S) :=
  if p =? 0 then Some (false, s)
  else
    let s := if has_bit indirect_mask indirect_bit
             then action (int_of_u32 p) s else s in
    iterate_over_all_blocks_of_tripple_indirect_block (int_of_u32 p) indirect_mask s.

(** The part of [iterate_over_all_blocks_of] after the direct slots: the
    three statements in turn, each returning [true] at once when its
    subtree reported a reused or corrupted block. *)
Definition walk_indirect_slots (block_ptr : list Z) (indirect_mask : Z) (s : S)
    : option (bool * S) :=
  match walk_ind_slot (nth EXT3_IND_BLOCK block_ptr 0) indirect_mask s with
  | None => None
  | Some (true, s) => Some (true, s)
  | Some (false, s) =>
      match walk_dind_slot (nth EXT3_DIND_BLOCK block_ptr 0) indirect_mask s with
      | None => None
      | Some (true, s) => Some (true, s)
      | Some (false, s) =>
          match walk_tind_slot (nth EXT3_TIND_BLOCK block_ptr 0) indirect_mask s with
          | None => None
          | Some (true, s) => Some (true, s)
          | Some (false, s) => Some (false, s)
          end
      end
  end.

(** Returns [true] if an indirect block was encountered that does not
    look like an indirect block anymore. *)
Definition iterate_over_all_blocks_of
    (inode : Inode) (indirect_mask : Z) (s : S) : option (bool * S) :=
  if is_symlink inode && (i_blocks inode =? 0) then Some (false, s)
  else
    let block_ptr := i_block inode in
    let s := if has_bit indirect_mask direct_bit
             then direct_blocks_loop (take EXT3_NDIR_BLOCKS block_ptr) s else s in
    walk_indirect_slots block_ptr indirect_mask s.
End Walker.

(** The callback that records the blocks it is called with, in order. *)
Definition record_action (blocknr : Z) (emitted : list Z) : list Z :=
  emitted ++ [blocknr].

(** ** Geometry *)

(** The constants [init_consts] caches from the super block, and the
    [bg_inode_table] column of [group_descriptor_table]. *)
Record Geometry := {
  first_data_block : Z;
  blocks_per_group : Z;
  inodes_per_group_ : Z;
  inode_size_ : Z;
  block_size_ : Z;
  bg_inode_table : Z -> Z
}.

(** [int] division truncates towards zero. *)
Definition block_to_group (g : Geometry) (block : Z) : Z :=
  Z.quot (block - first_data_block g) (blocks_per_group g).

Definition inode_to_group (g : Geometry) (inode_number : Z) : Z :=
  Z.quot (inode_number - 1) (inodes_per_group_ g).

Definition int_of_size_t (x : Z) : Z := int_of_u32 (u32 x).

(** The comparison of byte offsets is carried out in [size_t]. *)
Definition in_inode_table (g : Geometry) (block : Z) : bool :=
  let inode_table := bg_inode_table g (block_to_group g block) in
  (inode_table <=? block) &&
  (u64 (block_size_ g * (block + 1)) <=?
   u64 (block_size_ g * inode_table + inodes_per_group_ g * inode_size_ g)).

Definition is_inode (g : Geometry) (block : Z) : bool := in_inode_table g block.

(** Only valid when [is_inode] returns true: the [assert] repeats its test. *)
Definition block_to_inode (g : Geometry) (block : Z) : option Z :=
  let group := block_to_group g block in
  let inode_table := bg_inode_table g group in
  if in_inode_table g block then
    Some (int_of_size_t
            (1 + group * inodes_per_group_ g +
             u64 (block_size_ g * (block - inode_table)) / inode_size_ g))
  else None.

Definition inode_to_block (g : Geometry) (inode : Z) : Z :=
  let group := inode_to_group g inode in
  int_of_size_t
    (bg_inode_table g group +
     u64 ((inode - 1 - group * inodes_per_group_ g) * inode_size_ g) / block_size_ g).

(** ** Journal descriptors *)

Inductive descriptor_type_nt := dt_unknown | dt_tag | dt_revoke | dt_commit.

(** [Descriptor] and its three subclasses.  [M_block] is the block number
    in the journal, [M_blocknr] of a tag the block number on the file
    system. *)
Inductive Descriptor :=
| DescriptorTag (M_block M_sequence M_blocknr M_flags : Z)
| DescriptorRevoke (M_block M_sequence : Z) (M_blocks : list Z)
| DescriptorCommit (M_block M_sequence : Z).

Definition descriptor_type (d : Descriptor) : descriptor_type_nt :=
  match d with
  | DescriptorTag _ _ _ _ => dt_tag
  | DescriptorRevoke _ _ _ => dt_revoke
  | DescriptorCommit _ _ => dt_commit
  end.

(** [Descriptor::block()]. *)
Definition Descriptor_block (d : Descriptor) : Z :=
  match d with
  | DescriptorTag b _ _ _ | DescriptorRevoke b _ _ | DescriptorCommit b _ => b
  end.

Definition sequence (d : Descriptor) : Z :=
  match d with
  | DescriptorTag _ s _ _ | DescriptorRevoke _ s _ | DescriptorCommit _ s => s
  end.

Record Transaction := {
  T_block : Z;
  T_sequence : Z;
  T_committed : bool;
  T_descriptor : list Descriptor
}.

(** [Transaction()], value-initialised. *)
Definition Transaction_new : Transaction :=
  {| T_block := 0; T_sequence := 0; T_committed := false; T_descriptor := [] |}.

Definition Transaction_init (t : Transaction) (block seq : Z) : Transaction :=
  {| T_block := block; T_sequence := seq; T_committed := false;
     T_descriptor := T_descriptor t |}.

Definition Transaction_append (t : Transaction) (d : Descriptor) : Transaction :=
  {| T_block := T_block t; T_sequence := T_sequence t; T_committed := T_committed t;
     T_descriptor := T_descriptor t ++ [d] |}.

Definition Transaction_set_committed (t : Transaction) : option Transaction :=
  if T_committed t then None
  else Some {| T_block := T_block t; T_sequence := T_sequence t; T_committed := true;
               T_descriptor := T_descriptor t |}.

(** The maps [init_journal] fills. *)
Record JournalIndex := {
  sequence_transaction_map : gmap Z Transaction;
  block_to_descriptors_map : gmap Z (list Descriptor);
  block_in_journal_to_descriptors_map : gmap Z Descriptor
}.

Definition JournalIndex_empty : JournalIndex :=
  {| sequence_transaction_map := ∅; block_to_descriptors_map := ∅;
     block_in_journal_to_descriptors_map := ∅ |}.

Definition add_block_descriptor (block : Z) (descriptor : Descriptor)
    (m : gmap Z (list Descriptor)) : gmap Z (list Descriptor) :=
  let key := int_of_u32 block in
  match m !! key with
  | None => <[key := [descriptor]]> m
  | Some l => <[key := l ++ [descriptor]]> m
  end.

Definition add_block_in_journal_descriptor (descriptor : Descriptor)
    (m : gmap Z Descriptor) : option (gmap Z Descriptor) :=
  let key := int_of_u32 (Descriptor_block descriptor) in
  match m !! key with
  | None => Some (<[key := descriptor]> m)
  | Some _ => None
  end.

Definition add_block_descriptors (d : Descriptor) (ix : JournalIndex)
    : option JournalIndex :=
  let b2d :=
    match d with
    | DescriptorTag _ _ blocknr _ => add_block_descriptor blocknr d (block_to_descriptors_map ix)
    | DescriptorRevoke _ _ blocks =>
        foldl (fun m b => add_block_descriptor b d m) (block_to_descriptors_map ix) blocks
    | DescriptorCommit _ _ => block_to_descriptors_map ix
    end in
  j2d ← add_block_in_journal_descriptor d (block_in_journal_to_descriptors_map ix);
  Some {| sequence_transaction_map := sequence_transaction_map ix;
          block_to_descriptors_map := b2d;
          block_in_journal_to_descriptors_map := j2d |}.

Definition set_transactions (ix : JournalIndex) (m : gmap Z Transaction) : JournalIndex :=
  {| sequence_transaction_map := m;
     block_to_descriptors_map := block_to_descriptors_map ix;
     block_in_journal_to_descriptors_map := block_in_journal_to_descriptors_map ix |}.

(** One round of the first [for] loop of [init_journal] over the sorted
    [all_descriptors]. *)
Definition index_descriptor (d : Descriptor) (ix : JournalIndex) : option JournalIndex :=
  let seq := int_of_u32 (sequence d) in
  let found := sequence_transaction_map ix !! seq in
  match descriptor_type d with
  | dt_tag | dt_revoke =>
      let t := match found with
               | None => Transaction_init Transaction_new (int_of_u32 (Descriptor_block d)) seq
               | Some t => t
               end in
      add_block_descriptors d
        (set_transactions ix (<[seq := Transaction_append t d]> (sequence_transaction_map ix)))
  | dt_commit =>
      match found with
      | None => Some ix
      | Some t =>
          t' ← Transaction_set_committed t;
          Some (set_transactions ix (<[seq := t']> (sequence_transaction_map ix)))
      end
  | dt_unknown => None
  end.

Fixpoint index_descriptors (all_descriptors : list Descriptor) (ix : JournalIndex)
    : option JournalIndex :=
  match all_descriptors with
  | [] => Some ix
  | d :: rest =>
      match index_descriptor d ix with
      | None => None
      | Some ix' => index_descriptors rest ix'
      end
  end.

(** [AllDescriptorsPred]: what [std::sort] leaves behind is a list in
    which no descriptor precedes one of smaller sequence number. *)
Definition AllDescriptorsPred (d1 d2 : Descriptor) : bool := sequence d1 <? sequence d2.

Definition sequence_le (d1 d2 : Descriptor) : Prop := sequence d1 <= sequence d2.

(** ** [block_to_dir_inode_map] *)

Definition directory_inode_action (inode_number : Z) (blocknr : Z) (m : gmap Z Z)
    : gmap Z Z :=
  match m !! blocknr with
  | None => <[blocknr := inode_number]> m
  | Some _ => <[blocknr := inode_number]> m
  end.

Section JournalDirInodes.
Context {D : Type}.
Variable g : Geometry.
Variable block_count_ : Z.
(** The device seen through [get_block]: a block as an array of [__le32]
    and as an array of [Inode] ([sizeof(Inode) == inode_size_]). *)
Variable get_block_ptrs : Z -> option (list Z).
Variable get_block_inodes : Z -> option (list Inode).
(** The loops are written over the callback, which is told the sequence
    number of the tag, the inode number and the block; [init_journal]
    runs them with [directory_inode_action]. *)
Variable inode_action : Z -> Z -> Z -> D -> D.

(** "Run over all inodes in the journal block." *)
Fixpoint journal_block_inodes_loop (seq : Z) (inodes : list Inode) (inode_number : Z)
    (m : D) : option D :=
  match inodes with
  | [] => Some m
  | inode :: rest =>
      if negb (is_directory inode) then
        journal_block_inodes_loop seq rest (inode_number + 1) m
      else if negb (i_dtime inode =? 0) || (i_atime inode =? 0)
              || (nth 0 (i_block inode) 0 =? 0) then
        journal_block_inodes_loop seq rest (inode_number + 1) m
      else
        match iterate_over_all_blocks_of block_count_ get_block_ptrs
                (inode_action seq inode_number) inode direct_bit m with
        | None => None
        | Some (_, m') => journal_block_inodes_loop seq rest (inode_number + 1) m'
        end
  end.

(** "Run over all descriptors, in increasing sequence number." *)
Fixpoint journal_dir_inodes_loop (all_descriptors : list Descriptor) (m : D)
    : option D :=
  match all_descriptors with
  | [] => Some m
  | DescriptorTag M_block M_sequence block_nr _ :: rest =>
      if is_inode g (int_of_u32 block_nr) then
        inode_number ← block_to_inode g (int_of_u32 block_nr);
        inodes ← get_block_inodes (int_of_u32 M_block);
        m' ← journal_block_inodes_loop M_sequence inodes inode_number m;
        journal_dir_inodes_loop rest m'
      else journal_dir_inodes_loop rest m
  | _ :: rest => journal_dir_inodes_loop rest m
  end.
End JournalDirInodes.

(** [init_journal] from the sorted [all_descriptors] on: the index, then
    [block_to_dir_inode_map]. *)
Definition init_journal (g : Geometry) (block_count_ : Z)
    (get_block_ptrs : Z -> option (list Z)) (get_block_inodes : Z -> option (list Inode))
    (all_descriptors : list Descriptor) : option (JournalIndex * gmap Z Z) :=
  ix ← index_descriptors all_descriptors JournalIndex_empty;
  m ← journal_dir_inodes_loop g block_count_ get_block_ptrs get_block_inodes
        (fun _ inode_number => directory_inode_action inode_number) all_descriptors ∅;
  Some (ix, m).

Section JournalInodes.
Variable g : Geometry.
Variable get_block_inodes : Z -> option (list Inode).

(** ** Historical copies of an inode *)

Definition find_largest_journal_sequence_number (ix : JournalIndex) (block : Z) : Z :=
  match block_to_descriptors_map ix !! block with
  | None => 0
  | Some descriptors =>
      match last descriptors with
      | Some d => sequence d
      | None => 0
      end
  end.

(** The reverse iteration of [get_inodes_from_journal] over the
    descriptors of the inode's table block, already reversed. *)
Fixpoint journal_copies_loop (block : Z) (slot : Z) (descriptors : list Descriptor)
    : option (list (Z * Inode)) :=
  match descriptors with
  | [] => Some []
  | d :: rest =>
      match d with
      | DescriptorTag M_block M_sequence M_blocknr _ =>
          if negb (M_blocknr =? block) then None
          else
            inodes ← get_block_inodes (int_of_u32 M_block);
            inode ← (if slot <? 0 then None else inodes !! Z.to_nat slot);
            more ← journal_copies_loop block slot rest;
            Some ((int_of_u32 M_sequence, inode) :: more)
      | _ => journal_copies_loop block slot rest
      end
  end.

Definition get_inodes_from_journal (ix : JournalIndex) (inode : Z)
    : option (list (Z * Inode)) :=
  let block := u32 (inode_to_block g inode) in
  first ← block_to_inode g (int_of_u32 block);
  let slot := inode - first in
  match block_to_descriptors_map ix !! int_of_u32 block with
  | None => Some []
  | Some descriptors => journal_copies_loop block slot (reverse descriptors)
  end.
End JournalInodes.

Inductive get_undeleted_inode_type :=
  ui_no_inode | ui_real_inode | ui_journal_inode | ui_inode_too_old.

(** The [for] loop of [get_undeleted_inode] over the copies found in the
    journal.  The result carries what was stored through [inode] and
    [sequence], if anything. *)
Fixpoint undeleted_copies_loop (commandline_after : Z) (inodes : list (Z * Inode))
    : get_undeleted_inode_type * option Inode * option Z :=
  match inodes with
  | [] => (ui_no_inode, None, None)
  | (seq, journal_inode) :: rest =>
      if i_dtime journal_inode =? 0 then (ui_journal_inode, Some journal_inode, Some seq)
      else if negb (commandline_after =? 0) && (i_dtime journal_inode <? commandline_after)
      then (ui_inode_too_old, None, None)
      else undeleted_copies_loop commandline_after rest
  end.

Definition get_undeleted_inode (g : Geometry)
    (get_inode : Z -> option Inode) (get_block_inodes : Z -> option (list Inode))
    (ix : JournalIndex) (commandline_after : Z) (inodenr : Z)
    : option (get_undeleted_inode_type * option Inode * option Z) :=
  real_inode ← get_inode inodenr;
  if i_dtime real_inode =? 0 then Some (ui_real_inode, Some real_inode, None)
  else
    inodes ← get_inodes_from_journal g get_block_inodes ix inodenr;
    Some (undeleted_copies_loop commandline_after inodes).

(** ** [blocknr_vector_type] *)

(** The union of a [size_t] and a pointer to an array whose first element
    is its length.  [bv_blocknr w] is the union read through [blocknr] when
    no array is allocated: [0] (empty) or [(b << 1) | 1].  [bv_vector v] is
    the union holding a pointer returned by [new uint32_t[]] (non-null and
    even), together with the array [v] it points to. *)
Inductive blocknr_vector_type :=
| bv_blocknr (blocknr : Z)
| bv_vector (blocknr_vector : list Z).

Definition bv_empty (bv : blocknr_vector_type) : bool :=
  match bv with
  | bv_blocknr w => w =? 0
  | bv_vector _ => false
  end.

(** [BVASSERT(!empty())]; a non-zero even word that is not a pointer to an
    array is never stored, reading through it has no defined result. *)
Definition bv_is_vector (bv : blocknr_vector_type) : option bool :=
  match bv with
  | bv_blocknr w => if w =? 0 then None else if Z.land w 1 =? 0 then None else Some false
  | bv_vector _ => Some true
  end.

Definition bv_size (bv : blocknr_vector_type) : option Z :=
  match bv with
  | bv_blocknr _ => is_v ← bv_is_vector bv; Some 1
  | bv_vector v => v !! 0%nat
  end.

Definition bv_first_entry (bv : blocknr_vector_type) : option Z :=
  match bv with
  | bv_blocknr w => is_v ← bv_is_vector bv; Some (u32 (Z.shiftr w 1))
  | bv_vector v => v !! 1%nat
  end.

(** [operator[]]. *)
Definition bv_index (bv : blocknr_vector_type) (i : Z) : option Z :=
  size ← bv_size bv;
  if (0 <=? i) && (i <? size) then
    if i =? 0 then bv_first_entry bv
    else match bv with
         | bv_blocknr _ => None
         | bv_vector v => v !! Z.to_nat (i + 1)
         end
  else None.

Definition bv_erase (bv : blocknr_vector_type) : option blocknr_vector_type :=
  is_v ← bv_is_vector bv; Some (bv_blocknr 0).

(** The tagged single value: [(bnr << 1) | 1] is evaluated in [uint32_t]
    and then widened to [size_t]. *)
Definition tag_u32 (bnr : Z) : Z := Z.lor (u32 (Z.shiftl bnr 1)) 1.

(** The same expression on an [int], as in [remove]: evaluated in [int]
    (two's complement) and then converted to [size_t]. *)
Definition tag_int (last_block : Z) : Z :=
  size_t_of_int (Z.lor (int_of_u32 (u32 (Z.shiftl last_block 1))) 1).

Definition bv_push_back (bv : blocknr_vector_type) (bnr : Z) : option blocknr_vector_type :=
  if bv_empty bv then
    if bnr =? 0 then None else Some (bv_blocknr (tag_u32 bnr))
  else
    match bv with
    | bv_vector v =>
        old ← v !! 0%nat;
        let size := u32 (old + 1) in
        Some (bv_vector (size :: take (Z.to_nat (size - 1)) (drop 1 v) ++ [bnr]))
    | bv_blocknr w =>
        is_v ← bv_is_vector bv;
        Some (bv_vector [2; u32 (Z.shiftr w 1); bnr])
    end.

(** Position (from 1) of the first of the [size] entries equal to [blknr]. *)
Fixpoint bv_find (blknr : Z) (entries : list Z) (j : nat) : option nat :=
  match entries with
  | [] => None
  | e :: rest => if e =? blknr then Some j else bv_find blknr rest (1 + j)%nat
  end.

Definition bv_remove (bv : blocknr_vector_type) (blknr : Z) : option blocknr_vector_type :=
  match bv with
  | bv_blocknr _ => None
  | bv_vector v =>
      size ← v !! 0%nat;
      found ← bv_find blknr (take (Z.to_nat size) (drop 1 v)) 1;
      moved ← v !! Z.to_nat size;
      let size' := u32 (size - 1) in
      let v' := <[0%nat := size']> (<[found := moved]> v) in
      if size' =? 1 then
        last_block ← v' !! 1%nat;
        Some (bv_blocknr (tag_int (int_of_u32 last_block)))
      else Some (bv_vector v')
  end.

(** [operator=(std::vector<uint32_t> const&)]. *)
Definition bv_assign (bv : blocknr_vector_type) (vec : list Z) : option blocknr_vector_type :=
  cleared ← (if bv_empty bv then Some bv else bv_erase bv);
  match vec with
  | [] => Some cleared
  | [b] => Some (bv_blocknr (tag_u32 b))
  | _ => Some (bv_vector (u32 (Z.of_nat (length vec)) :: vec))
  end.

(** The entries read back with [size()] and [operator[]], as every loop
    over a [blocknr_vector_type] does. *)
Fixpoint bv_read_from (bv : blocknr_vector_type) (j : Z) (count : nat) : option (list Z) :=
  match count with
  | O => Some []
  | S k =>
      e ← bv_index bv j;
      rest ← bv_read_from bv (j + 1) k;
      Some (e :: rest)
  end.

Definition bv_to_list (bv : blocknr_vector_type) : option (list Z) :=
  if bv_empty bv then Some []
  else size ← bv_size bv; bv_read_from bv 0 (Z.to_nat size).

(** ** Allocation bitmaps and the inode table *)

(** [assert(bit < 8U * block_size_)], then the bitmap query. *)
Definition is_allocated (g : Geometry) (inode_bitmap : Z -> list Z) (inode : Z)
    : option bool :=
  let group := Z.quot (inode - 1) (inodes_per_group_ g) in
  let bit := u32 (inode - 1 - group * inodes_per_group_ g) in
  if bit <? u32 (8 * block_size_ g) then Some (bitmap_test (inode_bitmap group) bit)
  else None.

Definition get_inode (g : Geometry) (all_inodes : Z -> list Inode) (inode : Z)
    : option Inode :=
  let group := Z.quot (inode - 1) (inodes_per_group_ g) in
  let bit := u32 (inode - 1 - group * inodes_per_group_ g) in
  if bit <? u32 (8 * block_size_ g) then all_inodes group !! Z.to_nat bit
  else None.

(** ** Journal blocks *)

Record JournalBlocks := {
  s_journal_dev : Z;
  min_journal_block : Z;
  max_journal_block : Z;
  journal_block_bitmap : list Z
}.

Definition is_in_journal (jb : JournalBlocks) (blocknr : Z) : bool :=
  (min_journal_block jb <=? blocknr) && (blocknr <? max_journal_block jb).

(** With an external journal [main] refuses [--journal], so the [assert]
    of that branch holds. *)
Definition is_journal (jb : JournalBlocks) (blocknr : Z) : bool :=
  if negb (s_journal_dev jb =? 0) then false
  else if negb (is_in_journal jb blocknr) then false
  else bitmap_test (journal_block_bitmap jb) (u32 (blocknr - min_journal_block jb)).

(** ** Stage 2: [init_dir_inode_to_block_cache] *)

Record DirEntry := {
  M_file_type : Z;
  M_inode : Z;
  M_name : list Z;
  index_next : Z
}.

Record DirectoryBlock := {
  DB_block : Z;
  DB_dir_entry : list DirEntry
}.

Section Stage2.
Variable g : Geometry.
Variable inode_bitmap : Z -> list Z.
Variable all_inodes : Z -> list Inode.
Variable jb : JournalBlocks.
Variable ix : JournalIndex.
(** [DirectoryBlock::read_block]: the decoded entries of a block, [None]
    when the read or its [assert(size >= 2)] fails. *)
Variable read_block : Z -> option (list DirEntry).

(** The body of the first [for] loop over the inodes, for inode [i] with
    [bv = dir_inode_to_block_cache[i]]: the new value of that cache slot. *)
Definition allocated_directory_step (i : Z) (bv : blocknr_vector_type)
    : option blocknr_vector_type :=
  allocated ← is_allocated g inode_bitmap i;
  if allocated : bool then
    inode ← get_inode g all_inodes i;
    if is_directory inode then
      let first_block := nth 0 (i_block inode) 0 in
      if first_block =? 0 then None
      else if bv_empty bv then Some bv
      else
        entries ← bv_to_list bv;
        let count := if existsb (Z.eqb first_block) entries then 1 else 0 in
        if negb (count =? 1) then None
        else
          erased ← bv_erase bv;
          bv_push_back erased first_block
    else Some bv
  else Some bv.

(** The [std::list<DirectoryBlock> dirs(size)] filled from [bv]. *)
Fixpoint read_dirs (blocks : list Z) : option (list DirectoryBlock) :=
  match blocks with
  | [] => Some []
  | b :: rest =>
      entries ← read_block (int_of_u32 b);
      more ← read_dirs rest;
      Some ({| DB_block := int_of_u32 b; DB_dir_entry := entries |} :: more)
  end.

(** First [while] loop of the journal rule: counts and the highest
    sequence number, stopping at the first block outside the journal. *)
Fixpoint journal_scan_loop (dirs : list DirectoryBlock)
    (highest_sequence journal_block_count total_block_count : Z)
    : option (Z * Z * Z) :=
  match dirs with
  | [] => Some (highest_sequence, journal_block_count, total_block_count)
  | d :: rest =>
      let total_block_count := total_block_count + 1 in
      if is_journal jb (DB_block d) then
        match block_in_journal_to_descriptors_map ix !! DB_block d with
        | None => None
        | Some descriptor =>
            journal_scan_loop rest (Z.max highest_sequence (sequence descriptor))
              (journal_block_count + 1) total_block_count
        end
      else Some (highest_sequence, journal_block_count, total_block_count)
  end.

(** Second [while] loop: erase the journal blocks from [dirs] and from
    the cache slot [bv]; [size] is the [uint32_t] counter of the source. *)
Fixpoint journal_prune_loop (need_keep_one_journal : bool) (highest_sequence : Z)
    (dirs : list DirectoryBlock) (bv : blocknr_vector_type) (size : Z)
    : option (list DirectoryBlock * blocknr_vector_type * Z) :=
  match dirs with
  | [] => Some ([], bv, size)
  | d :: rest =>
      if is_journal jb (DB_block d) then
        keep ← (if need_keep_one_journal then
                  descriptor ← block_in_journal_to_descriptors_map ix !! DB_block d;
                  Some (sequence descriptor =? highest_sequence)
                else Some false);
        if keep : bool then
          '(dirs', bv', size') ← journal_prune_loop need_keep_one_journal
                                   highest_sequence rest bv size;
          Some (d :: dirs', bv', size')
        else
          bv1 ← (if 1 <? size then bv_remove bv (u32 (DB_block d)) else bv_erase bv);
          journal_prune_loop need_keep_one_journal highest_sequence rest bv1
            (u32 (size - 1))
      else
        '(dirs', bv', size') ← journal_prune_loop need_keep_one_journal
                                 highest_sequence rest bv size;
        Some (d :: dirs', bv', size')
  end.

(** The journal rule as a whole, for one inode whose cache slot [bv]
    holds more than one block: the remaining [dirs], cache slot and [size]. *)
Definition journal_rule (bv : blocknr_vector_type)
    : option (list DirectoryBlock * blocknr_vector_type * Z) :=
  size ← bv_size bv;
  blocks ← bv_to_list bv;
  dirs ← read_dirs blocks;
  '(highest_sequence, journal_block_count, total_block_count) ←
    journal_scan_loop dirs 0 0 0;
  let need_keep_one_journal := total_block_count =? journal_block_count in
  journal_prune_loop need_keep_one_journal highest_sequence dirs bv size.
End Stage2.

(** ** Directory blocks *)

Record ext3_dir_entry_2 := {
  de_inode : Z;
  de_rec_len : Z;
  de_name_len : Z;
  de_file_type : Z;
  de_name : list Z
}.

(** Modelled from the spec: the constants of [ext3.h], which is not part of
    the sources at hand: records are "[rec_len]-padded to 4" and
    "[rec_len >= round_up(8 + name_len, 4)]"; [EXT3_FT_DIR] is the index of
    the directory mode in [mode_map]. *)
Definition EXT3_DIR_PAD : Z := 4.
Definition EXT3_DIR_REC_LEN (name_len : Z) : Z := Z.land (name_len + 8 + 3) (Z.lnot 3).
Definition EXT3_FT_DIR : Z := 2.

Definition char_dot : Z := 46.

(** ** Tallies and candidate start blocks *)

Record extended_directory_action_data_st := {
  ed_linked : gmap Z Z;
  ed_unlinked : gmap Z Z
}.

Definition dir_inode_to_block (inode_count_ : Z)
    (dir_inode_to_block_cache : list blocknr_vector_type) (inode : Z) : option Z :=
  if (0 <? inode) && (inode <=? inode_count_) then
    bv ← dir_inode_to_block_cache !! Z.to_nat inode;
    if bv_empty bv then Some (-1)
    else e ← bv_index bv 0; Some (int_of_u32 e)
  else None.

Definition count_vote (key : Z) (inode_to_count : gmap Z Z) : gmap Z Z :=
  match inode_to_count !! key with
  | None => <[key := 1]> inode_to_count
  | Some c => <[key := c + 1]> inode_to_count
  end.


Record Directory := {
  M_inode_number : Z;
  M_blocks : list DirectoryBlock
}.

(** ** Iterating over directories *)

(** [mode_map]: the mode bits that go with each file type of a directory
    entry. *)
Definition mode_map (file_type : Z) : Z :=
  nth (Z.to_nat file_type)
    [0x10000; 0x8000; 0x4000; 0x2000; 0x6000; 0x1000; 0xC000; 0xA000] 0.

(** The command line options that [filter_dir_entry] reads. *)
Record Commandline := {
  commandline_zeroed_inodes : bool;
  commandline_allocated : bool;
  commandline_unallocated : bool;
  commandline_deleted : bool;
  commandline_directory : bool;
  commandline_reallocated : bool;
  commandline_after : Z;
  commandline_before : Z;
  commandline_depth : Z
}.

Definition set_commandline_depth (cl : Commandline) (depth : Z) : Commandline :=
  {| commandline_zeroed_inodes := commandline_zeroed_inodes cl;
     commandline_allocated := commandline_allocated cl;
     commandline_unallocated := commandline_unallocated cl;
     commandline_deleted := commandline_deleted cl;
     commandline_directory := commandline_directory cl;
     commandline_reallocated := commandline_reallocated cl;
     commandline_after := commandline_after cl;
     commandline_before := commandline_before cl;
     commandline_depth := depth |}.

(** [struct Parent] without its [M_parent]: a [Parent*] is the chain of
    the objects it leads to through [M_parent], the object it points to
    first, and the null pointer is the empty chain.  [M_dir_entry] and
    [M_inode] are pointers that may be null. *)
Record Parent := {
  M_dir_entry : option ext3_dir_entry_2;
  Parent_M_inode : option Inode;
  M_inodenr : Z
}.

Definition char_slash : Z := 47.

(** [std::string(dir_entry.name, dir_entry.name_len)]. *)
Definition entry_name (dir_entry : ext3_dir_entry_2) : list Z :=
  (fun c => nth c (de_name dir_entry) 0) <$> seq 0 (Z.to_nat (de_name_len dir_entry)).

(** The [for] loop of [Parent::dirname(false)]; [lparent->M_dir_entry] on
    a null [lparent] has no defined result. *)
Fixpoint dirname_loop (lparent : list Parent) (path : list Z) : option (list Z) :=
  match lparent with
  | [] => None
  | p :: lparent' =>
      match M_dir_entry p with
      | None => Some path
      | Some dir_entry =>
          dirname_loop lparent' (entry_name dir_entry ++ [char_slash] ++ path)
      end
  end.

Definition dirname (this : list Parent) : option (list Z) :=
  match this with
  | [] => None
  | p :: M_parent =>
      match M_dir_entry p with
      | None => Some []
      | Some dir_entry => dirname_loop M_parent (entry_name dir_entry)
      end
  end.

(** The statics that the recursion over directories goes through: [depth],
    the vector [inodes] of [filter_dir_entry] and the [using_static_buffer]
    flags of the three functions that walk an indirect block, beside the
    data of the callback. *)
Record iterate_state (D : Type) := {
  callback_data : D;
  depth : Z;
  inodes : list Z;
  using_static_buffer_indirect : bool;
  using_static_buffer_double : bool;
  using_static_buffer_tripple : bool
}.
Arguments callback_data {D} _.
Arguments depth {D} _.
Arguments inodes {D} _.
Arguments using_static_buffer_indirect {D} _.
Arguments using_static_buffer_double {D} _.
Arguments using_static_buffer_tripple {D} _.

Definition set_callback_data {D E : Type} (s : iterate_state D) (data : E)
    : iterate_state E :=
  {| callback_data := data; depth := depth s; inodes := inodes s;
     using_static_buffer_indirect := using_static_buffer_indirect s;
     using_static_buffer_double := using_static_buffer_double s;
     using_static_buffer_tripple := using_static_buffer_tripple s |}.

Definition set_depth {D : Type} (s : iterate_state D) (d : Z) (v : list Z)
    : iterate_state D :=
  {| callback_data := callback_data s; depth := d; inodes := v;
     using_static_buffer_indirect := using_static_buffer_indirect s;
     using_static_buffer_double := using_static_buffer_double s;
     using_static_buffer_tripple := using_static_buffer_tripple s |}.

Definition set_using_static_buffer {D : Type} (s : iterate_state D)
    (indirect double tripple : bool) : iterate_state D :=
  {| callback_data := callback_data s; depth := depth s; inodes := inodes s;
     using_static_buffer_indirect := indirect;
     using_static_buffer_double := double;
     using_static_buffer_tripple := tripple |}.

(** The walker over the blocks of an inode once more, for a callback that
    can abort and can call the walker again, as the one of
    [filter_dir_entry] does: each of the three functions that read an
    indirect block into their static buffer trips
    [assert(!using_static_buffer)] when it is entered while it is
    running. *)
Module WithStatics.
Section Walker.
Context {D : Type}.
Variable block_count_ : Z.
Variable get_block_ptrs : Z -> option (list Z).
Variable action : Z -> iterate_state D -> option (iterate_state D).

Fixpoint indirect_block_loop (block_ptr : list Z) (s : iterate_state D)
    : option (bool * iterate_state D) :=
  match block_ptr with
  | [] => Some (false, s)
  | p :: rest =>
      if p =? 0 then indirect_block_loop rest s
      else if negb (is_block_number block_count_ p) then Some (true, s)
      else
        s1 ← action (int_of_u32 p) s;
        indirect_block_loop rest s1
  end.

Definition iterate_over_all_blocks_of_indirect_block (block : Z) (s : iterate_state D)
    : option (bool * iterate_state D) :=
  if using_static_buffer_indirect s then None
  else
    block_ptr ← get_block_ptrs block;
    '(flag, s1) ← indirect_block_loop block_ptr
                    (set_using_static_buffer s true (using_static_buffer_double s)
                       (using_static_buffer_tripple s));
    Some (flag, set_using_static_buffer s1 false (using_static_buffer_double s1)
                  (using_static_buffer_tripple s1)).

Fixpoint double_indirect_block_loop (indirect_mask : Z) (block_ptr : list Z)
    (s : iterate_state D) : option (bool * iterate_state D) :=
  match block_ptr with
  | [] => Some (false, s)
  | p :: rest =>
      if p =? 0 then double_indirect_block_loop indirect_mask rest s
      else if negb (is_block_number block_count_ p) then Some (true, s)
      else
        s1 ← (if has_bit indirect_mask indirect_bit
              then action (int_of_u32 p) s else Some s);
        if has_bit indirect_mask direct_bit then
          '(flag, s2) ← iterate_over_all_blocks_of_indirect_block (int_of_u32 p) s1;
          if flag : bool then Some (true, s2)
          else double_indirect_block_loop indirect_mask rest s2
        else double_indirect_block_loop indirect_mask rest s1
  end.

Definition iterate_over_all_blocks_of_double_indirect_block
    (block : Z) (indirect_mask : Z) (s : iterate_state D)
    : option (bool * iterate_state D) :=
  if using_static_buffer_double s then None
  else
    block_ptr ← get_block_ptrs block;
    '(flag, s1) ← double_indirect_block_loop indirect_mask block_ptr
                    (set_using_static_buffer s (using_static_buffer_indirect s) true
                       (using_static_buffer_tripple s));
    Some (flag, set_using_static_buffer s1 (using_static_buffer_indirect s1) false
                  (using_static_buffer_tripple s1)).

Fixpoint tripple_indirect_block_loop (indirect_mask : Z) (block_ptr : list Z)
    (s : iterate_state D) : option (bool * iterate_state D) :=
  match block_ptr with
  | [] => Some (false, s)
  | p :: rest =>
      if p =? 0 then tripple_indirect_block_loop indirect_mask rest s
      else if negb (is_block_number block_count_ p) then Some (true, s)
      else
        s1 ← (if has_bit indirect_mask indirect_bit
              then action (int_of_u32 p) s else Some s);
        '(flag, s2) ← iterate_over_all_blocks_of_double_indirect_block
                        (int_of_u32 p) indirect_mask s1;
        if flag : bool then Some (true, s2)
        else tripple_indirect_block_loop indirect_mask rest s2
  end.

Definition iterate_over_all_blocks_of_tripple_indirect_block
    (block : Z) (indirect_mask : Z) (s : iterate_state D)
    : option (bool * iterate_state D) :=
  if using_static_buffer_tripple s then None
  else
    block_ptr ← get_block_ptrs block;
    '(flag, s1) ← tripple_indirect_block_loop indirect_mask block_ptr
                    (set_using_static_buffer s (using_static_buffer_indirect s)
                       (using_static_buffer_double s) true);
    Some (flag, set_using_static_buffer s1 (using_static_buffer_indirect s1)
                  (using_static_buffer_double s1) false).

Fixpoint direct_blocks_loop (block_ptr : list Z) (s : iterate_state D)
    : option (iterate_state D) :=
  match block_ptr with
  | [] => Some s
  | p :: rest =>
      s1 ← (if p =? 0 then Some s else action (int_of_u32 p) s);
      direct_blocks_loop rest s1
  end.

Definition iterate_over_all_blocks_of
    (inode : Inode) (indirect_mask : Z) (s : iterate_state D)
    : option (bool * iterate_state D) :=
  if is_symlink inode && (i_blocks inode =? 0) then Some (false, s)
  else
    let block_ptr := i_block inode in
    s ← (if has_bit indirect_mask direct_bit
         then direct_blocks_loop (take EXT3_NDIR_BLOCKS block_ptr) s else Some s);
    '(flag, s) ←
      (let p := nth EXT3_IND_BLOCK block_ptr 0 in
       if p =? 0 then Some (false, s)
       else
         s ← (if has_bit indirect_mask indirect_bit
              then action (int_of_u32 p) s else Some s);
         if has_bit indirect_mask direct_bit
         then iterate_over_all_blocks_of_indirect_block (int_of_u32 p) s
         else Some (false, s));
    if flag : bool then Some (true, s)
    else
      '(flag, s) ←
        (let p := nth EXT3_DIND_BLOCK block_ptr 0 in
         if p =? 0 then Some (false, s)
         else
           s ← (if has_bit indirect_mask indirect_bit
                then action (int_of_u32 p) s else Some s);
           iterate_over_all_blocks_of_double_indirect_block (int_of_u32 p)
             indirect_mask s);
      if flag : bool then Some (true, s)
      else
        '(flag, s) ←
          (let p := nth EXT3_TIND_BLOCK block_ptr 0 in
           if p =? 0 then Some (false, s)
           else
             s ← (if has_bit indirect_mask indirect_bit
                  then action (int_of_u32 p) s else Some s);
             iterate_over_all_blocks_of_tripple_indirect_block (int_of_u32 p)
               indirect_mask s);
        Some (flag, s).
End Walker.
End WithStatics.

(** The callbacks of [iterate_over_directory]: entry, inode (null for an
    entry with a zero inode), [deleted], [allocated], [reallocated],
    [zero_inode], [linked], [filtered], parent and data; [None] when one of
    its [assert]s fails. *)
Definition dir_entry_action (D : Type) : Type :=
  ext3_dir_entry_2 -> option Inode -> bool -> bool -> bool -> bool -> bool -> bool ->
  list Parent -> D -> option (bool * D).

Section Directories.
Context {D : Type}.
Variable g : Geometry.
Variable inode_bitmap : Z -> list Z.
Variable all_inodes : Z -> list Inode.
Variable block_count_ : Z.
Variable inode_count_ : Z.
(** The device: a block as an array of [__le32], a block read at a byte
    offset as an [ext3_dir_entry_2], and the verdict of
    [is_directory(block, blocknr, false, false, offset)] on a block. *)
Variable get_block_ptrs : Z -> option (list Z).
Variable get_block_entry : Z -> option (Z -> ext3_dir_entry_2).
Variable is_directory_at : Z -> Z -> bool.
Variable dir_inode_to_block_cache : list blocknr_vector_type.
Variable cl : Commandline.
(** The counter [no_filtering] when [iterate_over_directory] is called,
    the callback, and whether the callback is [read_block_action]. *)
Variable no_filtering : Z.
Variable action : dir_entry_action D.
Variable action_is_read_block_action : bool.

(** The loop that looks for the [dtime] of the parent, or of a parent of
    the parent. *)
Fixpoint parent_dtime (parent_iter : list Parent) : option Z :=
  match parent_iter with
  | [] => Some 0
  | p :: M_parent =>
      inode ← Parent_M_inode p;
      if i_dtime inode =? 0 then parent_dtime M_parent else Some (i_dtime inode)
  end.

(** The first part of [filter_dir_entry]: the inode of the entry (null for
    a zero inode) and the values of [deleted], [allocated], [reallocated]
    and [filtered] that the callback gets. *)
Definition filter_dir_entry_flags (dir_entry : ext3_dir_entry_2) (deleted : bool)
    : option (option Inode * bool * bool * bool * bool) :=
  let file_type := Z.land (de_file_type dir_entry) 7 in
  let zero_inode := de_inode dir_entry =? 0 in
  if zero_inode
  then Some (None, deleted, false, false,
             zero_inode && negb (commandline_zeroed_inodes cl))
  else
    inode ← get_inode g all_inodes (int_of_u32 (de_inode dir_entry));
    allocated ← is_allocated g inode_bitmap (int_of_u32 (de_inode dir_entry));
    let reallocated :=
      (deleted && allocated) || (deleted && (i_dtime inode =? 0))
      || negb (mode_map file_type =? Z.land (i_mode inode) 0xf000) in
    let deleted := deleted || negb (i_dtime inode =? 0) in
    let filtered :=
      negb ((negb (commandline_allocated cl) || allocated)
            && (negb (commandline_unallocated cl) || negb allocated)
            && (negb (commandline_deleted cl) || deleted)
            && (negb (commandline_directory cl) || (file_type =? EXT3_FT_DIR))
            && (negb reallocated || commandline_reallocated cl)
            && (reallocated
                || ((i_dtime inode =? 0) && negb (commandline_deleted cl))
                || ((commandline_after cl <=? i_dtime inode)
                    && ((commandline_before cl =? 0)
                        || (i_dtime inode <? commandline_before cl))))) in
    Some (Some inode, deleted, allocated, reallocated, filtered).

Section Level.
(** The calls of [iterate_over_directory] one level further down, from
    [iterate_over_directory_action] and
    [iterate_over_existing_directory_action]. *)
Variable iterate_over_directory_below :
  Z -> (Z -> ext3_dir_entry_2) -> list Parent -> iterate_state D ->
  option (iterate_state D).

Definition iterate_over_directory_action (block_buf : Z -> ext3_dir_entry_2)
    (parent : list Parent) (blocknr : Z) (s : iterate_state D)
    : option (iterate_state D) :=
  iterate_over_directory_below blocknr block_buf parent s.

Definition iterate_over_existing_directory_action (parent : list Parent)
    (blocknr : Z) (s : iterate_state D) : option (iterate_state D) :=
  block_buf ← get_block_entry blocknr;
  iterate_over_directory_below blocknr block_buf parent s.

(** "Handle recursion.": the part of [filter_dir_entry] behind the test
    [parent && file_type == EXT3_FT_DIR && depth < commandline_depth]. *)
Definition filter_dir_entry_recursion (dir_entry : ext3_dir_entry_2)
    (inode : option Inode) (deleted allocated reallocated : bool)
    (parent : list Parent) (s : iterate_state D) : option (iterate_state D) :=
  if ((de_name_len dir_entry =? 1) && (nth 0 (de_name dir_entry) 0 =? char_dot))
     || ((de_name_len dir_entry =? 2) && (nth 0 (de_name dir_entry) 0 =? char_dot)
         && (nth 1 (de_name dir_entry) 0 =? char_dot))
  then Some s
  else
    let new_parent :=
      {| M_dir_entry := Some dir_entry; Parent_M_inode := inode;
         M_inodenr := de_inode dir_entry |} :: parent in
    let resized :=
      if Z.of_nat (length (inodes s)) <? depth s + 1
      then inodes s ++ replicate (length (inodes s)) 0 else inodes s in
    if existsb (fun d => nth (Z.to_nat d) resized 0 =? de_inode dir_entry)
         (seqZ 1 (depth s - 1))
    then
      (* "Detected loop for inode ...": the message names the directory. *)
      _ ← dirname new_parent;
      Some (set_depth s (depth s) resized)
    else if negb ((0 <=? depth s) && (depth s <? Z.of_nat (length resized))) then None
    else
      let s := set_depth s (depth s + 1)
                 (<[Z.to_nat (depth s) := de_inode dir_entry]> resized) in
      s ← (if negb deleted && allocated && negb reallocated then
             existing ← get_inode g all_inodes (int_of_u32 (de_inode dir_entry));
             '(reused_or_corrupted_indirect_block3, s) ←
               WithStatics.iterate_over_all_blocks_of block_count_ get_block_ptrs
                 (iterate_over_existing_directory_action new_parent)
                 existing direct_bit s;
             if reused_or_corrupted_indirect_block3 : bool then None else Some s
           else
             blocknr ← dir_inode_to_block inode_count_ dir_inode_to_block_cache
                         (de_inode dir_entry);
             if blocknr =? -1 then Some s
             else
               dtime ← parent_dtime parent;
               go ← (if dtime =? 0 then Some true
                     else inode ← inode; Some (i_dtime inode <=? u32 (dtime + 60)));
               if go : bool then
                 block_buf ← get_block_entry blocknr;
                 let dir_entry1 := block_buf 0 in
                 if negb ((de_name_len dir_entry1 =? 1)
                          && (nth 0 (de_name dir_entry1) 0 =? char_dot)) then None
                 else
                   let dir_entry2 := block_buf (de_rec_len dir_entry1) in
                   if negb ((de_name_len dir_entry2 =? 2)
                            && (nth 0 (de_name dir_entry2) 0 =? char_dot)
                            && (nth 1 (de_name dir_entry2) 0 =? char_dot)) then None
                   else
                     p ← head parent;
                     if de_inode dir_entry2 =? M_inodenr p
                     then iterate_over_directory_action block_buf new_parent blocknr s
                     else
                       (* "The directory ... is lost." *)
                       _ ← dirname new_parent;
                       Some s
               else Some s);
      Some (set_depth s (depth s - 1) (inodes s)).

(** [filter_dir_entry], entered with the value [no_filtering] has at that
    moment. *)
Definition filter_dir_entry (no_filtering : Z) (dir_entry : ext3_dir_entry_2)
    (deleted linked : bool) (parent : list Parent) (s : iterate_state D)
    : option (iterate_state D) :=
  let file_type := Z.land (de_file_type dir_entry) 7 in
  let zero_inode := de_inode dir_entry =? 0 in
  '(inode, deleted, allocated, reallocated, filtered) ←
    filter_dir_entry_flags dir_entry deleted;
  if negb (no_filtering =? 0) then
    '(_, data) ← action dir_entry inode deleted allocated reallocated zero_inode
                   linked filtered parent (callback_data s);
    Some (set_callback_data s data)
  else if negb filtered then
    '(abort, data) ← action dir_entry inode deleted allocated reallocated zero_inode
                       linked filtered parent (callback_data s);
    let s := set_callback_data s data in
    if abort : bool then Some s
    else if negb (bool_decide (parent = []))
            && (file_type =? EXT3_FT_DIR) && (depth s <? commandline_depth cl)
    then filter_dir_entry_recursion dir_entry inode deleted allocated reallocated
           parent s
    else Some s
  else Some s.

(** The chain of live entries from [offset] on; [map] collects the slots
    [offset / EXT3_DIR_PAD] that were visited.  The source does not leave
    this loop when a [rec_len] is zero: the fuel runs out. *)
Fixpoint live_entries_loop (fuel : nat) (no_filtering : Z)
    (block_buf : Z -> ext3_dir_entry_2) (parent : list Parent)
    (offset : Z) (map : list Z) (s : iterate_state D)
    : option (list Z * iterate_state D) :=
  match fuel with
  | O => if block_size_ g <=? offset then Some (map, s) else None
  | S k =>
      if block_size_ g <=? offset then Some (map, s)
      else
        let dir_entry := block_buf offset in
        s1 ← filter_dir_entry no_filtering dir_entry false true parent s;
        live_entries_loop k no_filtering block_buf parent
          (offset + de_rec_len dir_entry) (Z.quot offset EXT3_DIR_PAD :: map) s1
  end.

(** "Search for deleted entries." *)
Fixpoint deleted_entries_loop (fuel : nat) (no_filtering : Z) (blocknr : Z)
    (block_buf : Z -> ext3_dir_entry_2) (parent : list Parent)
    (offset : Z) (map : list Z) (s : iterate_state D)
    : option (iterate_state D) :=
  match fuel with
  | O => if offset <=? 0 then Some s else None
  | S k =>
      if offset <=? 0 then Some s
      else
        s1 ← (if negb (existsb (Z.eqb (Z.quot offset EXT3_DIR_PAD)) map)
                 && is_directory_at blocknr offset
              then filter_dir_entry no_filtering (block_buf offset) true false parent s
              else Some s);
        deleted_entries_loop k no_filtering blocknr block_buf parent
          (offset - EXT3_DIR_PAD) map s1
  end.

(** The body of [iterate_over_directory]. *)
Definition iterate_over_directory_level (blocknr : Z)
    (block_buf : Z -> ext3_dir_entry_2) (parent : list Parent) (s : iterate_state D)
    : option (iterate_state D) :=
  let no_filtering :=
    if action_is_read_block_action then no_filtering + 1 else no_filtering in
  '(map, s1) ← live_entries_loop (Z.to_nat (block_size_ g)) no_filtering
                 block_buf parent 0 [] s;
  deleted_entries_loop (Z.to_nat (block_size_ g)) no_filtering blocknr block_buf
    parent (block_size_ g - EXT3_DIR_REC_LEN 1) map s1.
End Level.

(** [iterate_over_directory] with the number of levels it may go down. *)
Fixpoint iterate_over_directory_levels (levels : nat) (blocknr : Z)
    (block_buf : Z -> ext3_dir_entry_2) (parent : list Parent) (s : iterate_state D)
    : option (iterate_state D) :=
  match levels with
  | O => None
  | S levels' =>
      iterate_over_directory_level (iterate_over_directory_levels levels')
        blocknr block_buf parent s
  end.

(** [iterate_over_directory].  A level goes down only while
    [depth < commandline_depth], and it increments [depth] when it does,
    so that the recursion is at most [commandline_depth - depth] levels
    deep. *)
Definition iterate_over_directory (blocknr : Z)
    (block_buf : Z -> ext3_dir_entry_2) (parent : list Parent) (s : iterate_state D)
    : option (iterate_state D) :=
  iterate_over_directory_levels (S (Z.to_nat (commandline_depth cl - depth s)))
    blocknr block_buf parent s.
End Directories.

(** ** Owner of an extended directory block *)

Section ExtendedBlocks.
Variable inode_count_ : Z.
Variable dir_inode_to_block_cache : list blocknr_vector_type.
(** [get_block] of a directory start block, read at a byte offset. *)
Variable get_block_entry : Z -> option (Z -> ext3_dir_entry_2).

Definition extended_directory_action
    : dir_entry_action extended_directory_action_data_st :=
  fun dir_entry inode deleted allocated reallocated zero_inode linked filtered
      parent data =>
  let file_type := Z.land (de_file_type dir_entry) 7 in
  if (file_type =? EXT3_FT_DIR) && negb zero_inode then
    blocknr2 ← dir_inode_to_block inode_count_ dir_inode_to_block_cache
                 (de_inode dir_entry);
    if blocknr2 =? -1 then Some (true, data)
    else
      block_buf ← get_block_entry blocknr2;
      let dir_entry1 := block_buf 0 in
      if negb (de_inode dir_entry1 =? de_inode dir_entry) then None
      else
        let dir_entry2 := block_buf (de_rec_len dir_entry1) in
        if negb ((de_name_len dir_entry2 =? 2)
                 && (nth 0 (de_name dir_entry2) 0 =? char_dot)
                 && (nth 1 (de_name dir_entry2) 0 =? char_dot)) then None
        else if de_inode dir_entry2 =? 0 then None
        else
          let key := int_of_u32 (de_inode dir_entry2) in
          Some (false,
                if linked
                then {| ed_linked := count_vote key (ed_linked data);
                        ed_unlinked := ed_unlinked data |}
                else {| ed_linked := ed_linked data;
                        ed_unlinked := count_vote key (ed_unlinked data) |})
  else Some (false, data).
End ExtendedBlocks.

(** [filename_heuristics_action]: the names of the entries, as a set. *)
Definition filename_heuristics_action : dir_entry_action (gset (list Z)) :=
  fun dir_entry inode deleted allocated reallocated zero_inode linked filtered
      parent filenames =>
  Some (false, {[ entry_name dir_entry ]} ∪ filenames).

(** [all_directories], keyed by path, and [inode_to_directory], whose
    iterators into [all_directories] are the keys they point to. *)
Record Directories := {
  all_directories : gmap (list Z) Directory;
  inode_to_directory : gmap Z (list Z)
}.

Section InitDirectories.
Variable g : Geometry.
Variable inode_bitmap : Z -> list Z.
Variable all_inodes : Z -> list Inode.
Variable block_count_ : Z.
Variable inode_count_ : Z.
Variable get_block_ptrs : Z -> option (list Z).
Variable get_block_entry : Z -> option (Z -> ext3_dir_entry_2).
Variable is_directory_at : Z -> Z -> bool.
Variable dir_inode_to_block_cache : list blocknr_vector_type.
Variable cl : Commandline.
Variable no_filtering : Z.
Variable read_block : Z -> option (list DirEntry).
Variable block_to_dir_inode_map : gmap Z Z.
(** Modelled from the spec: the collaborators of [locate.h], which is not
    part of the sources at hand: "[path_exists(path) → bool]" and
    "[parent_directory(block, filename_set) → path]: heuristic owner
    inference for extended blocks via external name index". *)
Variable path_exists : list Z -> bool.
Variable parent_directory : Z -> gset (list Z) -> list Z.

Definition init_directories_action : dir_entry_action Directories :=
  fun dir_entry inode deleted allocated reallocated zero_inode linked filtered
      parent d =>
  let inode_number := de_inode dir_entry in
  if negb (de_name_len dir_entry =? 1) || negb (nth 0 (de_name dir_entry) 0 =? char_dot)
  then Some (bool_decide (is_Some (inode_to_directory d !! inode_number)), d)
  else
    first_block ← dir_inode_to_block inode_count_ dir_inode_to_block_cache inode_number;
    if first_block =? -1 then None
    else
      path ← dirname parent;
      entries ← read_block first_block;
      let directory :=
        {| M_inode_number := inode_number;
           M_blocks := [{| DB_block := first_block; DB_dir_entry := entries |}] |} in
      same ← match all_directories d !! path with
             | None => Some false
             | Some found =>
                 (* [first_block()] asserts that there is a block, in the
                    test or in the message that follows it. *)
                 first ← head (M_blocks found);
                 Some ((inode_number =? M_inode_number found)
                       && (first_block =? DB_block first))
             end;
      if same : bool then Some (true, d)
      else
        let dirs :=
          match all_directories d !! path with
          | None => <[path := directory]> (all_directories d)
          | Some _ => all_directories d
          end in
        match inode_to_directory d !! inode_number with
        | None =>
            Some (false, {| all_directories := dirs;
                            inode_to_directory :=
                              <[inode_number := path]> (inode_to_directory d) |})
        | Some old =>
            found ← dirs !! old;
            if (inode_number =? M_inode_number found) && bool_decide (path = old)
            then Some (true, {| all_directories := dirs;
                                inode_to_directory := inode_to_directory d |})
            else
              let new_path := path_exists path in
              let old_path := path_exists old in
              if new_path && old_path then None
              else
                Some (false,
                      {| all_directories := dirs;
                         inode_to_directory :=
                           if new_path && negb old_path
                           then <[inode_number := path]> (inode_to_directory d)
                           else inode_to_directory d |})
        end.

(** [strncpy(dest, src.c_str(), n)]: the bytes of [src] up to its first
    null byte, and null bytes from there on, [n] bytes in all. *)
Fixpoint strncpy (src : list Z) (n : nat) {struct n} : list Z :=
  match n with
  | O => []
  | S k =>
      match src with
      | [] => replicate n 0
      | c :: rest => if c =? 0 then replicate n 0 else c :: strncpy rest k
      end
  end.

(** [link_extended_directory_block_to_inode]. *)
Definition link_extended_directory_block_to_inode
    (block_buf : Z -> ext3_dir_entry_2) (blocknr inode : Z)
    (s : iterate_state Directories) : option (iterate_state Directories) :=
  let d := callback_data s in
  match inode_to_directory d !! u32 inode with
  | None => Some s
  | Some path =>
      directory ← all_directories d !! path;
      entries ← read_block blocknr;
      let linked :=
        {| all_directories :=
             <[path := {| M_inode_number := M_inode_number directory;
                          M_blocks := M_blocks directory ++
                            [{| DB_block := blocknr; DB_dir_entry := entries |}] |}]>
               (all_directories d);
           inode_to_directory := inode_to_directory d |} in
      let name_len := Z.of_nat (length path) mod 256 in
      let fake_dir_entry :=
        {| de_inode := u32 inode; de_rec_len := 0; de_name_len := name_len;
           de_file_type := 0; de_name := strncpy path (Z.to_nat name_len) |} in
      owner ← get_inode g all_inodes inode;
      let parent :=
        [ {| M_dir_entry := Some fake_dir_entry; Parent_M_inode := Some owner;
             M_inodenr := u32 inode |};
          {| M_dir_entry := None; Parent_M_inode := None; M_inodenr := 0 |} ] in
      name ← dirname parent;
      if negb (bool_decide (name = path)) then None
      else
        iterate_over_directory g inode_bitmap all_inodes block_count_ inode_count_
          get_block_ptrs get_block_entry is_directory_at dir_inode_to_block_cache
          (set_commandline_depth cl 10000) no_filtering init_directories_action false
          blocknr block_buf parent (set_callback_data s linked)
  end.

(** The body of the loop over [extended_blocks]. *)
Definition process_extended_block (blocknr : Z) (s : iterate_state Directories)
    : option (iterate_state Directories) :=
  let inode_from_journal :=
    match block_to_dir_inode_map !! blocknr with
    | None => -1
    | Some inode => inode
    end in
  block_buf ← get_block_entry blocknr;
  voted ← iterate_over_directory g inode_bitmap all_inodes block_count_ inode_count_
            get_block_ptrs get_block_entry is_directory_at dir_inode_to_block_cache
            cl (no_filtering + 1)
            (extended_directory_action inode_count_ dir_inode_to_block_cache
               get_block_entry)
            false blocknr block_buf []
            (set_callback_data s {| ed_linked := ∅; ed_unlinked := ∅ |});
  let data := callback_data voted in
  let s := set_callback_data voted (callback_data s) in
  let linked := negb (bool_decide (ed_linked data = ∅)) in
  let inode_to_count := if linked then ed_linked data else ed_unlinked data in
  if negb (bool_decide (inode_to_count = ∅)) then
    match map_to_list inode_to_count with
    | [(inode, count)] => link_extended_directory_block_to_inode block_buf blocknr inode s
    | _ => None
    end
  else
    named ← iterate_over_directory g inode_bitmap all_inodes block_count_ inode_count_
              get_block_ptrs get_block_entry is_directory_at dir_inode_to_block_cache
              cl (no_filtering + 1) filename_heuristics_action
              false blocknr block_buf [] (set_callback_data s (∅ : gset (list Z)));
    let filenames := callback_data named in
    let s := set_callback_data named (callback_data s) in
    let from_journal :=
      if inode_from_journal =? -1 then Some s
      else link_extended_directory_block_to_inode block_buf blocknr inode_from_journal s in
    if bool_decide (filenames = ∅) then from_journal
    else
      let dir := parent_directory blocknr filenames in
      if bool_decide (dir = []) then from_journal
      else
        match all_directories (callback_data s) !! dir with
        | None => from_journal
        | Some directory =>
            link_extended_directory_block_to_inode block_buf blocknr
              (int_of_u32 (M_inode_number directory)) s
        end.
End InitDirectories.

(** ** Auxiliary notions used in the statements *)

(** The result of a loop that was left by [break] after reaching [r]. *)
Definition stopped {S : Type} (r : option (bool * S)) : option (bool * S) :=
  match r with
  | None => None
  | Some (_, s) => Some (true, s)
  end.

(** What a run of slots emits when every slot is zero or a block number. *)
Definition emitted_of (block_ptr : list Z) : list Z :=
  int_of_u32 <$> filter (fun p => p <> 0) block_ptr.

(** S3: the indirect block 17 of the scenario, on a file system of 100000
    blocks with 4096-byte blocks, and an inode that has only that block. *)
Definition s3_block_17 : list Z := [42; 0x7FFFFFFF; 19] ++ replicate 1021 0.

Definition s3_device (block : Z) : option (list Z) :=
  if block =? 17 then Some s3_block_17 else None.

Definition s3_inode : Inode :=
  {| i_mode := 0x81a4; i_atime := 1; i_dtime := 0; i_blocks := 16;
     i_block := replicate 12 0 ++ [17; 0; 0] |}.

(** An indirect block with a hole in front of a block number. *)
Definition hole_block_17 : list Z := [0; 42] ++ replicate 1022 0.

Definition hole_device (block : Z) : option (list Z) :=
  if block =? 17 then Some hole_block_17 else None.

(** An inode whose first direct slot is not a block number of a file
    system of 100000 blocks. *)
Definition wild_inode : Inode :=
  {| i_mode := 0x81a4; i_atime := 1; i_dtime := 0; i_blocks := 8;
     i_block := [0x7FFFFFFF] ++ replicate 14 0 |}.

(** A value handed to the action that was read from an indirect block and
    passed [is_block_number], and one taken from the inode's own slots. *)
Definition checked_pointer (block_count_ : Z) (e : Z) : Prop :=
  exists p, p <> 0 /\ p < block_count_ /\ e = int_of_u32 p.

Definition inode_pointer (inode : Inode) (e : Z) : Prop :=
  exists p, p ∈ i_block inode /\ p <> 0 /\ e = int_of_u32 p.

(** Two runs of the walk, with two callbacks, that end alike: both abort,
    or both return the same flag in related states. *)
Definition rel_res {S1 S2 : Type} (R : S1 -> S2 -> Prop)
    (r1 : option (bool * S1)) (r2 : option (bool * S2)) : Prop :=
  match r1, r2 with
  | None, None => True
  | Some (f1, s1), Some (f2, s2) => f1 = f2 /\ R s1 s2
  | _, _ => False
  end.

(** The callback that records the calls of the loops of [init_journal]:
    sequence number of the tag, block, inode number. *)
Definition log_action (seq inode_number blocknr : Z) (log : list (Z * Z * Z))
    : list (Z * Z * Z) :=
  log ++ [(seq, blocknr, inode_number)].

(** [block_to_dir_inode_map] after the writes of a log, in order. *)
Definition replay (log : list (Z * Z * Z)) (m : gmap Z Z) : gmap Z Z :=
  foldl (fun m '(_, blocknr, inode_number) => <[blocknr := inode_number]> m) m log.

(** The test of the loop over the inode copies, read positively: a
    directory that is not deleted ([dtime] zero, [atime] set) and has a
    first block. *)
Definition live_directory_copy (inode : Inode) : bool :=
  is_directory inode && (i_dtime inode =? 0) && negb (i_atime inode =? 0)
  && negb (nth 0 (i_block inode) 0 =? 0).

Definition rel_opt {D1 D2 : Type} (R : D1 -> D2 -> Prop)
    (r1 : option D1) (r2 : option D2) : Prop :=
  match r1, r2 with
  | None, None => True
  | Some d1, Some d2 => R d1 d2
  | _, _ => False
  end.

(** A log whose sequence numbers never decrease. *)
Definition log_le (e1 e2 : Z * Z * Z) : Prop := e1.1.1 <= e2.1.1.

Definition log_sorted (log : list (Z * Z * Z)) : Prop := StronglySorted log_le log.

Definition log_bounded (bound : Z) (log : list (Z * Z * Z)) : Prop :=
  Forall (fun e => e.1.1 <= bound) log.

(** No write to block [b] in a log. *)
Definition no_write_to (b : Z) (log : list (Z * Z * Z)) : Prop :=
  forall e, e ∈ log -> e.1.2 <> b.

(** S4 and the journal scenarios: a file system whose single inode table
    starts at block 5 (1024-byte blocks, 128-byte inodes, 16 inodes per
    group), and a journal with two tags for block 5, in the journal blocks
    101 (sequence 7) and 103 (sequence 12). *)
Definition s4_geometry : Geometry :=
  {| first_data_block := 0; blocks_per_group := 8192; inodes_per_group_ := 16;
     inode_size_ := 128; block_size_ := 1024; bg_inode_table := fun _ => 5 |}.

Definition s4_descriptors : list Descriptor :=
  [DescriptorTag 101 7 5 0; DescriptorCommit 102 7;
   DescriptorTag 103 12 5 8; DescriptorCommit 104 12].

Definition free_copy : Inode :=
  {| i_mode := 0; i_atime := 0; i_dtime := 0; i_blocks := 0; i_block := replicate 15 0 |}.

Definition dir_copy (first_block dtime : Z) : Inode :=
  {| i_mode := 0x41ed; i_atime := 1; i_dtime := dtime; i_blocks := 2;
     i_block := first_block :: replicate 14 0 |}.

(** The copy of sequence 7 holds directory inode 2 with first block 500;
    in the copy of sequence 12 inode 2 is deleted and inode 3 is a
    directory with first block 500. *)
Definition s4_journal_inodes (block : Z) : option (list Inode) :=
  if block =? 101 then Some ([free_copy; dir_copy 500 0] ++ replicate 6 free_copy)
  else if block =? 103
  then Some ([free_copy; dir_copy 0 900; dir_copy 500 0] ++ replicate 5 free_copy)
  else None.

(** The invariant of [block_to_descriptors_map] while the sorted
    descriptors are indexed: every list is sorted by sequence number and
    bounded by the sequence number reached. *)
Definition descriptors_sorted_upto (bound : Z) (m : gmap Z (list Descriptor)) : Prop :=
  forall k l, m !! k = Some l ->
    StronglySorted sequence_le l /\ Forall (fun d => sequence d <= bound) l.

Definition is_tag (d : Descriptor) : bool :=
  match d with
  | DescriptorTag _ _ _ _ => true
  | _ => false
  end.

(** A copy that makes the loop of [get_undeleted_inode] go on to the next. *)
Definition passed_over (commandline_after : Z) (c : Z * Inode) : Prop :=
  i_dtime c.2 <> 0 /\ (commandline_after = 0 \/ commandline_after <= i_dtime c.2).

(** S4: the inode table of the scenario; inode 2 is deleted. *)
Definition s4_all_inodes (group : Z) : list Inode :=
  [free_copy; dir_copy 0 900] ++ replicate 14 free_copy.

(** S4: the index [init_journal] builds from the descriptors of the scenario. *)
Definition s4_index : JournalIndex :=
  default JournalIndex_empty (index_descriptors s4_descriptors JournalIndex_empty).

(** The block numbers a [blocknr_vector_type] stands for.  An array keeps
    its capacity when [remove] shortens it: [junk] are the slots past the
    length. *)
Definition bv_holds (bv : blocknr_vector_type) (es : list Z) : Prop :=
  match bv with
  | bv_blocknr w =>
      (w = 0 /\ es = []) \/ (exists b, es = [b] /\ w = 2 * b + 1 /\ 0 <= b < 2 ^ 31)
  | bv_vector v =>
      exists junk, v = Z.of_nat (length es) :: es ++ junk /\
                   (2 <= length es)%nat /\ Z.of_nat (length es) < 2 ^ 32
  end.

(** S5: inode 2008 is allocated (bit 2007 of the inode bitmap of group 0)
    and is a directory whose first block is 500. *)
Definition s5_geometry : Geometry :=
  {| first_data_block := 0; blocks_per_group := 32768; inodes_per_group_ := 8192;
     inode_size_ := 128; block_size_ := 4096; bg_inode_table := fun _ => 5 |}.

Definition s5_inode_bitmap (group : Z) : list Z := replicate 31 0 ++ [2 ^ 23].

Definition s5_all_inodes (group : Z) : list Inode :=
  replicate 2007 free_copy ++ [dir_copy 500 0].

Definition s5_candidates : blocknr_vector_type := bv_vector [3; 500; 900; 901].

(** The body of the second [for] loop over the inodes ("Resolve shared
    inodes") up to the end of the journal rule: the new value of the cache
    slot. *)
Definition resolve_by_journal (jb : JournalBlocks) (ix : JournalIndex)
    (read_block : Z -> option (list DirEntry)) (bv : blocknr_vector_type)
    : option blocknr_vector_type :=
  if bv_empty bv then Some bv
  else
    size ← bv_size bv;
    if size =? 1 then Some bv
    else
      '(dirs, bv', size') ← journal_rule jb ix read_block bv;
      Some bv'.

(** The sequence number of the descriptor of a journal block, the highest
    one among candidates, and the test the journal rule applies to a
    candidate. *)
Definition journal_sequence (ix : JournalIndex) (b : Z) : Z :=
  match block_in_journal_to_descriptors_map ix !! b with
  | Some d => sequence d
  | None => 0
  end.

Definition highest_journal_sequence (ix : JournalIndex) (h : Z) (es : list Z) : Z :=
  foldl (fun h b => Z.max h (journal_sequence ix b)) h es.

Definition journal_keep (jb : JournalBlocks) (ix : JournalIndex)
    (need_keep_one_journal : bool) (highest_sequence : Z) (b : Z) : bool :=
  negb (is_journal jb b)
  || (need_keep_one_journal && (journal_sequence ix b =? highest_sequence)).

(** The journal of the stage 2 scenarios: it occupies the blocks 100 to
    199; one transaction (sequence 7) logged two blocks, in the journal
    blocks 101 and 102, a later one (sequence 12) one block, in 104. *)
Definition c3_journal : JournalBlocks :=
  {| s_journal_dev := 0; min_journal_block := 100; max_journal_block := 200;
     journal_block_bitmap := [2 ^ 64 - 1; 2 ^ 36 - 1] |}.

Definition c3_descriptors : list Descriptor :=
  [DescriptorTag 101 7 5 0; DescriptorTag 102 7 6 8; DescriptorCommit 103 7;
   DescriptorTag 104 12 5 8; DescriptorCommit 105 12].

Definition c3_index : JournalIndex :=
  default JournalIndex_empty (index_descriptors c3_descriptors JournalIndex_empty).

Definition c3_read_block (block : Z) : option (list DirEntry) :=
  Some [ {| M_file_type := 2; M_inode := 12; M_name := [46]; index_next := 1 |};
         {| M_file_type := 2; M_inode := 2; M_name := [46; 46]; index_next := 0 |} ].

(** What is left of the candidates: the blocks of [dirs] and the cache slot. *)
Definition rule_outcome (r : option (list DirectoryBlock * blocknr_vector_type * Z))
    : option (list Z * blocknr_vector_type) :=
  match r with
  | Some (dirs, bv, size) => Some (DB_block <$> dirs, bv)
  | None => None
  end.

(** S6: the extended directory block 700 holds three live sub-directory
    entries, for the inodes 21, 22 and 23, whose start blocks are 621, 622
    and 623.  The parameter of [s6_device] is the inode of the [..] entry of block
    623; in the scenario it is 77, like the other two. *)
Definition s6_geometry : Geometry :=
  {| first_data_block := 0; blocks_per_group := 8192; inodes_per_group_ := 8192;
     inode_size_ := 128; block_size_ := 1024; bg_inode_table := fun _ => 5 |}.

Definition s6_inode_bitmap (group : Z) : list Z := replicate 128 0.

Definition s6_all_inodes (group : Z) : list Inode := replicate 100 free_copy.

Definition s6_cache : list blocknr_vector_type :=
  replicate 21 (bv_blocknr 0)
  ++ [bv_blocknr (2 * 621 + 1); bv_blocknr (2 * 622 + 1); bv_blocknr (2 * 623 + 1)]
  ++ replicate 76 (bv_blocknr 0).

Definition sub_directory_entry (inode rec_len : Z) (name : list Z) : ext3_dir_entry_2 :=
  {| de_inode := inode; de_rec_len := rec_len; de_name_len := Z.of_nat (length name);
     de_file_type := EXT3_FT_DIR; de_name := name |}.

Definition start_block_view (self parent : Z) (offset : Z) : ext3_dir_entry_2 :=
  if offset =? 0 then sub_directory_entry self 12 [char_dot]
  else sub_directory_entry parent 1012 [char_dot; char_dot].

Definition extended_block_view (offset : Z) : ext3_dir_entry_2 :=
  if offset =? 0 then sub_directory_entry 21 16 [97]
  else if offset =? 16 then sub_directory_entry 22 16 [98]
  else sub_directory_entry 23 992 [99].

Definition s6_device (parent_of_23 : Z) (block : Z) : option (Z -> ext3_dir_entry_2) :=
  if block =? 700 then Some extended_block_view
  else if block =? 621 then Some (start_block_view 21 77)
  else if block =? 622 then Some (start_block_view 22 77)
  else if block =? 623 then Some (start_block_view 23 parent_of_23)
  else None.

Definition s6_read_block (block : Z) : option (list DirEntry) :=
  Some [ {| M_file_type := 2; M_inode := 21; M_name := [97]; index_next := 1 |};
         {| M_file_type := 2; M_inode := 22; M_name := [98]; index_next := 2 |};
         {| M_file_type := 2; M_inode := 23; M_name := [99]; index_next := 0 |} ].

Definition s6_directory_77 : Directory :=
  {| M_inode_number := 77;
     M_blocks := [ {| DB_block := 677; DB_dir_entry := [] |} ] |}.

(** ** Which entries a walk over a directory block visits *)

(** A callback of [iterate_over_directory] that records the entries it is
    called with, in order. *)
Definition record_entry : dir_entry_action (list ext3_dir_entry_2) :=
  fun dir_entry inode deleted allocated reallocated zero_inode linked filtered
      parent entries =>
  Some (false, entries ++ [dir_entry]).

(** One step after the other, until one aborts. *)
Fixpoint visit_all {S : Type} (step : Z -> S -> option S) (offsets : list Z) (s : S)
    : option S :=
  match offsets with
  | [] => Some s
  | offset :: rest => s1 ← step offset s; visit_all step rest s1
  end.

(** The records of a block that are linked: the one at [offset] and those
    that follow it, each [rec_len] bytes behind the one before, up to the
    end of the block. *)
Inductive linked_records (block_size_ : Z) (block_buf : Z -> ext3_dir_entry_2)
    : Z -> list Z -> Prop :=
| linked_records_end (offset : Z) :
    block_size_ <= offset -> linked_records block_size_ block_buf offset []
| linked_records_next (offset : Z) (offsets : list Z) :
    offset < block_size_ ->
    linked_records block_size_ block_buf (offset + de_rec_len (block_buf offset)) offsets ->
    linked_records block_size_ block_buf offset (offset :: offsets).

(** The places where the second loop of [iterate_over_directory] looks for
    a deleted entry: every fourth byte from [offset] down, as long as the
    offset is positive. *)
Definition offsets_down_from (offset : Z) : list Z :=
  filter (fun o => 0 < o) ((fun k => offset - EXT3_DIR_PAD * k) <$> seqZ 0 (offset / EXT3_DIR_PAD + 1)).

(** The entries that the second loop takes for deleted entries: those at
    a place that is not the start of a linked record and where
    [is_directory] sees the start of a chain of records. *)
Definition deleted_records (block_size_ : Z) (is_directory_at : Z -> bool)
    (linked : list Z) : list Z :=
  filter (fun o => negb (existsb (Z.eqb (Z.quot o EXT3_DIR_PAD))
                           ((fun o => Z.quot o EXT3_DIR_PAD) <$> linked))
                   && is_directory_at o = true)
    (offsets_down_from (block_size_ - EXT3_DIR_REC_LEN 1)).

(** ** The vote on the owner of an extended directory block *)

(** The vote of one entry: the inode of the [..] entry of the start block
    of a sub-directory, for an entry of file type DIR with an inode that
    has a candidate start block. *)
Definition parent_vote (inode_count_ : Z) (dir_inode_to_block_cache : list blocknr_vector_type)
    (get_block_entry : Z -> option (Z -> ext3_dir_entry_2))
    (dir_entry : ext3_dir_entry_2) : option Z :=
  if (Z.land (de_file_type dir_entry) 7 =? EXT3_FT_DIR) && negb (de_inode dir_entry =? 0)
  then
    match dir_inode_to_block inode_count_ dir_inode_to_block_cache (de_inode dir_entry) with
    | Some blocknr2 =>
        if blocknr2 =? -1 then None
        else
          match get_block_entry blocknr2 with
          | Some start_block =>
              Some (int_of_u32 (de_inode (start_block (de_rec_len (start_block 0)))))
          | None => None
          end
    | None => None
    end
  else None.

(** The tally of the votes of a list of entries: for every inode the number
    of entries that vote for it, and no entry for an inode without votes. *)
Definition tally_of (vote : ext3_dir_entry_2 -> option Z) (entries : list ext3_dir_entry_2)
    (p : Z) : option Z :=
  let n := Z.of_nat (length (filter (fun e => vote e = Some p) entries)) in
  if n =? 0 then None else Some n.

(** The tally [init_directories] consults: the linked one when it has an
    entry, else the unlinked one. *)
Definition chosen_tally (data : extended_directory_action_data_st) : gmap Z Z :=
  if bool_decide (ed_linked data = ∅) then ed_unlinked data else ed_linked data.

(** A vote, if there is one, added to the tally of the linked or of the
    unlinked entries. *)
Definition cast_vote (vote : option Z) (linked : bool)
    (data : extended_directory_action_data_st) : extended_directory_action_data_st :=
  match vote with
  | None => data
  | Some key =>
      if linked
      then {| ed_linked := count_vote key (ed_linked data);
              ed_unlinked := ed_unlinked data |}
      else {| ed_linked := ed_linked data;
              ed_unlinked := count_vote key (ed_unlinked data) |}
  end.

(** S6, continued: no command line option is given, the statics are as at
    the start of the program, and the directory of inode 77 is known under
    the path [home]. *)
Definition no_options : Commandline :=
  {| commandline_zeroed_inodes := false; commandline_allocated := false;
     commandline_unallocated := false; commandline_deleted := false;
     commandline_directory := false; commandline_reallocated := false;
     commandline_after := 0; commandline_before := 0; commandline_depth := 0 |}.

Definition statics_at_start {D : Type} (data : D) : iterate_state D :=
  {| callback_data := data; depth := 0; inodes := replicate 64 0;
     using_static_buffer_indirect := false; using_static_buffer_double := false;
     using_static_buffer_tripple := false |}.

Definition s6_home : list Z := [104; 111; 109; 101].

Definition s6_directories : Directories :=
  {| all_directories := {[ s6_home := s6_directory_77 ]};
     inode_to_directory := {[ 77 := s6_home ]} |}.

(** [process_extended_block] in the scenario, for a given inode in the
    [..] entry of block 623. *)
Definition s6_process (parent_of_23 : Z) : option (iterate_state Directories) :=
  process_extended_block s6_geometry s6_inode_bitmap s6_all_inodes 100000 99
    (fun _ => None) (s6_device parent_of_23) (fun _ _ => false) s6_cache no_options 0
    s6_read_block ∅ (fun _ => false) (fun _ _ => []) 700
    (statics_at_start s6_directories).

(** The walk of the vote in the scenario. *)
Definition s6_vote (parent_of_23 : Z)
    : option (iterate_state extended_directory_action_data_st) :=
  iterate_over_directory s6_geometry s6_inode_bitmap s6_all_inodes 100000 99
    (fun _ => None) (s6_device parent_of_23) (fun _ _ => false) s6_cache no_options
    (0 + 1) (extended_directory_action 99 s6_cache (s6_device parent_of_23)) false
    700 extended_block_view []
    (set_callback_data (statics_at_start s6_directories)
       {| ed_linked := ∅; ed_unlinked := ∅ |}).

(** The range of an [unsigned char]. *)
Definition is_byte (b : Z) : Prop := 0 <= b < 256.

(** The three facts about [get_bitmap_mask] that depend on [bit mod 64]
    only, checked on each of the 64 residues. *)
Definition mask_layout_ok (m : Z) : bool :=
  let bmp := get_bitmap_mask m in
  (mask bmp =? 2 ^ m)
  && forallb (fun j => nth j (byte bmp) 0 =?
                         (if Z.of_nat j =? Z.shiftr m 3 then Z.shiftl 1 (Z.land m 7) else 0))
       (seq 0 8)
  && (length (byte bmp) =? 8)%nat.

(** ** What a walk emits when no block is reused or corrupted *)

Section CleanWalk.
Variable block_count_ : Z.
Variable get_block_ptrs : Z -> option (list Z).
Variable indirect_mask : Z.

(** An indirect block that can be read and holds zeros and block numbers
    only (it is not read at all unless [direct_bit] is asked for), and the
    same one and two levels up. *)
Definition clean_indirect (p : Z) : Prop :=
  has_bit indirect_mask direct_bit = true ->
  exists block_ptr, get_block_ptrs (int_of_u32 p) = Some block_ptr /\
                    Forall (fun q => q = 0 \/ q < block_count_) block_ptr.

Definition clean_double (p : Z) : Prop :=
  exists block_ptr, get_block_ptrs (int_of_u32 p) = Some block_ptr /\
                    Forall (fun q => q = 0 \/ (q < block_count_ /\ clean_indirect q)) block_ptr.

Definition clean_tripple (p : Z) : Prop :=
  exists block_ptr, get_block_ptrs (int_of_u32 p) = Some block_ptr /\
                    Forall (fun q => q = 0 \/ (q < block_count_ /\ clean_double q)) block_ptr.

(** The slots of the block a pointer refers to. *)
Definition slots_of (p : Z) : list Z := default [] (get_block_ptrs (int_of_u32 p)).

(** The number of an indirect block itself, emitted under [indirect_bit]. *)
Definition own_number (p : Z) : list Z :=
  if has_bit indirect_mask indirect_bit then [int_of_u32 p] else [].

(** The blocks below a slot that refers to an indirect, a double indirect
    and a triple indirect block, in the order of the slots. *)
Definition indirect_blocks (p : Z) : list Z :=
  if p =? 0 then []
  else own_number p ++
       (if has_bit indirect_mask direct_bit then emitted_of (slots_of p) else []).

Definition double_indirect_blocks (p : Z) : list Z :=
  if p =? 0 then [] else own_number p ++ concat (indirect_blocks <$> slots_of p).

Definition tripple_indirect_blocks (p : Z) : list Z :=
  if p =? 0 then [] else own_number p ++ concat (double_indirect_blocks <$> slots_of p).
End CleanWalk.

(** ** Blocks, groups and byte offsets *)

Definition offset_to_block (g : Geometry) (offset : Z) : Z :=
  int_of_size_t (offset / u64 (block_size_ g)).

(** [group_to_block]: the product and the sum are evaluated in [int]. *)
Definition group_to_block (g : Geometry) (group : Z) : Z :=
  int_of_u32 (u32 (first_data_block g
                   + int_of_u32 (u32 (group * blocks_per_group g)))).

(** [block_to_offset]: the block number, widened to [off_t], shifted by
    [block_size_log_]. *)
Definition block_to_offset (block_size_log_ : Z) (block : Z) : Z :=
  Z.shiftl block block_size_log_.

(** ** The blocks of the journal *)

(** [journal_block_to_real_block]: the file system block behind block
    [blocknr] of the journal file.  [vpb * vpb * vpb] is within [int] for
    the block sizes up to 4096 that ext3 uses on the hosts of the program. *)
Definition journal_block_to_real_block (journal_maxlen_ block_size_ : Z)
    (get_block_ptrs : Z -> option (list Z)) (journal_inode : Inode) (blocknr : Z)
    : option Z :=
  if negb ((0 <=? blocknr) && (blocknr <? journal_maxlen_)) then None
  else if blocknr <? 12 then
    Some (int_of_u32 (nth (Z.to_nat blocknr) (i_block journal_inode) 0))
  else
    let blocknr := blocknr - 12 in
    let vpb := int_of_size_t (u64 block_size_ / 4) in
    if blocknr <? vpb then
      indirect_block ←
        get_block_ptrs (int_of_u32 (nth EXT3_IND_BLOCK (i_block journal_inode) 0));
      e ← indirect_block !! Z.to_nat blocknr;
      Some (int_of_u32 e)
    else
      let blocknr := blocknr - vpb in
      if blocknr <? vpb * vpb then
        double_indirect_block ←
          get_block_ptrs (int_of_u32 (nth EXT3_DIND_BLOCK (i_block journal_inode) 0));
        p ← double_indirect_block !! Z.to_nat (Z.quot blocknr vpb);
        indirect_block ← get_block_ptrs (int_of_u32 p);
        e ← indirect_block !! Z.to_nat (Z.rem blocknr vpb);
        Some (int_of_u32 e)
      else
        let blocknr := blocknr - vpb * vpb in
        if negb (blocknr <? vpb * vpb * vpb) then None
        else
          tripple_indirect_block ←
            get_block_ptrs (int_of_u32 (nth EXT3_TIND_BLOCK (i_block journal_inode) 0));
          p ← tripple_indirect_block !! Z.to_nat (Z.quot blocknr (vpb * vpb));
          double_indirect_block ← get_block_ptrs (int_of_u32 p);
          q ← double_indirect_block !! Z.to_nat (Z.rem (Z.quot blocknr vpb) vpb);
          indirect_block ← get_block_ptrs (int_of_u32 q);
          e ← indirect_block !! Z.to_nat (Z.rem blocknr vpb);
          Some (int_of_u32 e).

(** [find_blocknr_range_action] on the pair
    ([smallest_block_nr], [largest_block_nr]). *)
Definition find_blocknr_range_action (blocknr : Z) (range : Z * Z) : Z * Z :=
  let largest := if range.2 <? blocknr then blocknr else range.2 in
  let smallest := if blocknr <? range.1 then blocknr else range.1 in
  (smallest, largest).

(** [fill_journal_bitmap_action] and [indirect_journal_block_action]:
    [bitmap[bmp.index] |= bmp.mask] for the bit [blocknr - min_journal_block].
    A write past the end of the array has no defined effect; the list is
    left alone there. *)
Definition fill_journal_bitmap_action (min_journal_block : Z) (blocknr : Z)
    (bitmap : list Z) : list Z :=
  let bmp := get_bitmap_mask (u32 (blocknr - min_journal_block)) in
  let i := Z.to_nat (index bmp) in
  <[i := Z.lor (nth i bitmap 0) (mask bmp)]> bitmap.

(** The first part of [init_journal], "Determine which blocks belong to
    the journal": the range and [journal_block_bitmap], and
    [is_indirect_block_in_journal_bitmap]. *)
Definition init_journal_blocks (g : Geometry) (inode_bitmap : Z -> list Z)
    (all_inodes : Z -> list Inode) (block_count_ : Z)
    (get_block_ptrs : Z -> option (list Z)) (s_journal_dev s_journal_inum : Z)
    : option (JournalBlocks * list Z) :=
  allocated ← is_allocated g inode_bitmap (int_of_u32 s_journal_inum);
  if negb allocated then None
  else
    journal_inode ← get_inode g all_inodes (int_of_u32 s_journal_inum);
    '(reused4, range) ←
      iterate_over_all_blocks_of block_count_ get_block_ptrs find_blocknr_range_action
        journal_inode (Z.lor indirect_bit direct_bit) (int_of_u32 block_count_, 0);
    if reused4 : bool then None
    else if negb (range.1 <? range.2) then None
    else
      let min_journal_block := range.1 in
      let max_journal_block := range.2 + 1 in
      let size := Z.to_nat (Z.quot (max_journal_block - min_journal_block + 63) 64) in
      '(reused5, indirect_bitmap) ←
        iterate_over_all_blocks_of block_count_ get_block_ptrs
          (fill_journal_bitmap_action min_journal_block)
          journal_inode indirect_bit (replicate size 0);
      if reused5 : bool then None
      else
        '(reused6, bitmap) ←
          iterate_over_all_blocks_of block_count_ get_block_ptrs
            (fill_journal_bitmap_action min_journal_block)
            journal_inode (Z.lor indirect_bit direct_bit) (replicate size 0);
        if reused6 : bool then None
        else Some ({| s_journal_dev := s_journal_dev;
                      min_journal_block := min_journal_block;
                      max_journal_block := max_journal_block;
                      journal_block_bitmap := bitmap |}, indirect_bitmap).

Definition is_indirect_block_in_journal (jb : JournalBlocks)
    (is_indirect_block_in_journal_bitmap : list Z) (blocknr : Z) : bool :=
  if (max_journal_block jb <=? blocknr) || (blocknr <? min_journal_block jb) then false
  else bitmap_test is_indirect_block_in_journal_bitmap
         (u32 (blocknr - min_journal_block jb)).

Definition journal_block_contains_inodes (g : Geometry) (ix : JournalIndex) (blocknr : Z)
    : Z :=
  match block_in_journal_to_descriptors_map ix !! blocknr with
  | Some (DescriptorTag _ _ M_blocknr _) =>
      if is_inode g (int_of_u32 M_blocknr) then int_of_u32 M_blocknr else 0
  | _ => 0
  end.

(** [is_inode_block]: the inode table block a block holds inodes of, or 0. *)
Definition is_inode_block (g : Geometry) (jb : JournalBlocks)
    (is_indirect_block_in_journal_bitmap : list Z) (ix : JournalIndex) (block : Z) : Z :=
  if is_inode g block then block
  else if negb (is_journal jb block)
          || is_indirect_block_in_journal jb is_indirect_block_in_journal_bitmap block
  then 0
  else journal_block_contains_inodes g ix block.

(** [Transaction::contains_tag_for_block]. *)
Definition contains_tag_for_block (t : Transaction) (block : Z) : bool :=
  existsb (fun d => match d with
                    | DescriptorTag _ _ M_blocknr _ => M_blocknr =? u32 block
                    | _ => false
                    end) (T_descriptor t).

(** A journal of three blocks, 100 to 102, held by inode 8 of a file
    system of 8192 blocks; inode 8 is allocated. *)
Definition j_inode_bitmap (group : Z) : list Z := [2 ^ 7] ++ replicate 15 0.

Definition j_journal_inode : Inode :=
  {| i_mode := 0x8180; i_atime := 1; i_dtime := 0; i_blocks := 6;
     i_block := [100; 101; 102] ++ replicate 12 0 |}.

Definition j_all_inodes (group : Z) : list Inode :=
  replicate 7 free_copy ++ [j_journal_inode] ++ replicate 8 free_copy.

(** The first [n] slots of a block are there and none of them is zero. *)
Definition dense_upto (n : Z) (block_ptr : list Z) : Prop :=
  forall i : nat, Z.of_nat i < n -> exists q, block_ptr !! i = Some q /\ q <> 0.

(** No slot on the way to block [k] of a file, or to a block in front of
    it, is zero: the file has no hole up to block [k].  [vpb] is the
    number of slots of a block; [k] lies below the triple indirect range. *)
Definition no_hole_upto (get_block_ptrs : Z -> option (list Z)) (vpb : Z)
    (inode : Inode) (k : Z) : Prop :=
  if k <? 12 then dense_upto (k + 1) (i_block inode)
  else
    dense_upto 12 (i_block inode) /\
    nth EXT3_IND_BLOCK (i_block inode) 0 <> 0 /\
    let ind := slots_of get_block_ptrs (nth EXT3_IND_BLOCK (i_block inode) 0) in
    if k - 12 <? vpb then dense_upto (k - 12 + 1) ind
    else
      dense_upto vpb ind /\
      nth EXT3_DIND_BLOCK (i_block inode) 0 <> 0 /\
      let dind := slots_of get_block_ptrs (nth EXT3_DIND_BLOCK (i_block inode) 0) in
      let k' := k - 12 - vpb in
      dense_upto (k' / vpb + 1) dind /\
      (forall i : nat, Z.of_nat i < k' / vpb ->
         dense_upto vpb (slots_of get_block_ptrs (nth i dind 0))) /\
      dense_upto (k' mod vpb + 1)
        (slots_of get_block_ptrs (nth (Z.to_nat (k' / vpb)) dind 0)).

(** An inode bitmap block of 4096 bytes in which bit 2007 alone is set:
    bit 7 of byte 250. *)
Definition bit_2007_block : list Z := replicate 250 0 ++ [128] ++ replicate 3845 0.

(** The entries left by [remove(b)] on [l1 ++ b :: l2], [b] not in [l1]:
    the former last entry has taken the place of [b]. *)
Definition after_remove (l1 l2 : list Z) : list Z :=
  match last l2 with
  | Some y => l1 ++ y :: removelast l2
  | None => l1
  end.

(** ** What the journal index holds *)

(** The entries a descriptor adds to the list of file system block [k] in
    [block_to_descriptors_map]: a tag for [k] one, a revoke descriptor one
    for each time it lists [k], a commit block none. *)
Definition mentions (k : Z) (d : Descriptor) : list Descriptor :=
  match d with
  | DescriptorTag _ _ M_blocknr _ => if bool_decide (int_of_u32 M_blocknr = k) then [d] else []
  | DescriptorRevoke _ _ M_blocks =>
      (fun _ => d) <$> filter (fun b => int_of_u32 b = k) M_blocks
  | DescriptorCommit _ _ => []
  end.

(** The descriptors [init_journal] calls [add_block_descriptors] on: tags
    and revoke descriptors. *)
Definition indexed (d : Descriptor) : bool :=
  match d with
  | DescriptorCommit _ _ => false
  | _ => true
  end.

(** The key of a descriptor in [block_in_journal_to_descriptors_map] and
    in [sequence_transaction_map]. *)
Definition journal_key (d : Descriptor) : Z := int_of_u32 (Descriptor_block d).

Definition sequence_key (d : Descriptor) : Z := int_of_u32 (sequence d).

(** The descriptors of the transaction with sequence number [s]: the tags
    and revoke descriptors that carry it. *)
Definition in_transaction (s : Z) (d : Descriptor) : bool :=
  indexed d && (sequence_key d =? s).

(** The transactions of a [sequence_transaction_map] are filed under their
    sequence number and have a first descriptor, whose journal block is
    the block of the transaction. *)
Definition transactions_wf (m : gmap Z Transaction) : Prop :=
  forall s t, m !! s = Some t ->
    T_sequence t = s /\
    exists d0 rest, T_descriptor t = d0 :: rest /\ T_block t = journal_key d0.

(** ** Does a block look like a directory: [is_directory] on a block *)

Inductive filename_char_type := fnct_ok | fnct_illegal | fnct_unlikely.

(** The table of legal but unlikely characters is compiled out
    ([#if 0]). *)
Definition is_filename_char (c : Z) : filename_char_type :=
  if (c <? 32) || (126 <? c) || (c =? 47) then fnct_illegal else fnct_ok.

Inductive is_directory_type := isdir_no | isdir_start | isdir_extended.

(** Modelled from the spec: the constants of [ext3.h], which is not part of
    the sources at hand: records are "[rec_len]-padded to 4", so the mask
    of the padding is 3; [EXT3_FT_UNKNOWN] is the index of the first entry
    of [mode_map]. *)
Definition EXT3_DIR_ROUND : Z := EXT3_DIR_PAD - 1.
Definition EXT3_FT_UNKNOWN : Z := 0.

Definition char_underscore : Z := 95.
Definition char_Z : Z := 90.

(** The six characters of ["&nbsp;"]. *)
Definition nbsp : list Z := [38; 110; 98; 115; 112; 59].

(** [strncmp(&name[c - 5], "&nbsp;", 6) == 0]. *)
Definition nbsp_at (name : list Z) (c : Z) : bool :=
  bool_decide (take 6 (drop (Z.to_nat (c - 5)) name) = nbsp).

Definition is_illegal (t : filename_char_type) : bool :=
  match t with fnct_illegal => true | _ => false end.

Definition is_ok (t : filename_char_type) : bool :=
  match t with fnct_ok => true | _ => false end.

(** "If the inode is zero and the filename makes no sense": the first
    loop over the characters of a name. *)
Definition name_has_illegal_char (dir_entry : ext3_dir_entry_2) : bool :=
  existsb (fun c => is_illegal (is_filename_char (nth c (de_name dir_entry) 0)))
    (seq 0 (Z.to_nat (de_name_len dir_entry))).

(** "The file name may only exist of certain characters": the second loop,
    over the positions that are left; the result is [ok]. *)
Fixpoint name_chars_loop (dir_entry : ext3_dir_entry_2) (cs : list nat) (ok : bool) : bool :=
  match cs with
  | [] => ok
  | c :: rest =>
      let t := is_filename_char (nth c (de_name dir_entry) 0) in
      if is_ok t then name_chars_loop dir_entry rest ok
      else if (de_name_len dir_entry - Z.of_nat c =? 1) && (6 <? de_name_len dir_entry)
              && nbsp_at (de_name dir_entry) (Z.of_nat c)
      then name_chars_loop dir_entry rest ok
      else if is_illegal t then false
      else name_chars_loop dir_entry rest false
  end.

Section IsDirectory.
Variable block_size_ : Z.
Variable inode_count_ : Z.
(** The constant of [ext3.h] that bounds the file types. *)
Variable EXT3_FT_MAX : Z.
(** The block buffer read at a byte offset as an [ext3_dir_entry_2]. *)
Variable entry_at : Z -> ext3_dir_entry_2.

(** "The first block has the [.] and [..] directories at the start." *)
Definition is_start_block : bool :=
  let dir_entry := entry_at 0 in
  let parent_dir_entry := entry_at (EXT3_DIR_REC_LEN 1) in
  (de_name_len dir_entry =? 1)
  && (nth 0 (de_name dir_entry) 0 =? char_dot)
  && (de_rec_len dir_entry =? EXT3_DIR_REC_LEN 1)
  && (de_file_type dir_entry =? EXT3_FT_DIR)
  && (de_name_len parent_dir_entry =? 2)
  && (nth 0 (de_name parent_dir_entry) 0 =? char_dot)
  && (nth 1 (de_name parent_dir_entry) 0 =? char_dot)
  && (de_file_type parent_dir_entry =? EXT3_FT_DIR).

(** "Add some extra paranoia in the case that the whole block appears to
    exist of a single direntry." *)
Definition single_entry_paranoia (dir_entry : ext3_dir_entry_2) : bool :=
  (de_rec_len dir_entry =? block_size_)
  && ((de_file_type dir_entry =? EXT3_FT_UNKNOWN)
      || (EXT3_FT_MAX <=? de_file_type dir_entry)
      || (de_name_len dir_entry =? 1)
      || ((nth 0 (de_name dir_entry) 0 =? char_underscore)
          && (nth 1 (de_name dir_entry) 0 =? char_Z))).

(** [is_directory(block, blocknr, start_block, certainly_linked, offset)];
    [blocknr], [certainly_linked] and [accepted_filenames] only bear on
    the warnings it prints.  The recursion along the chain of records is
    counted down by [fuel]; [None] is the failed [assert], or no fuel. *)
Fixpoint is_directory_loop (fuel : nat) (start_block : bool) (offset : Z)
    : option is_directory_type :=
  match fuel with
  | O => None
  | S fuel' =>
      if start_block && negb (offset =? 0) then None
      else if negb (Z.land offset EXT3_DIR_ROUND =? 0) then Some isdir_no
      else if block_size_ <? offset + EXT3_DIR_REC_LEN 1 then Some isdir_no
      else
        let dir_entry := entry_at offset in
        let is_start := (offset =? 0) && is_start_block in
        if start_block && negb is_start then Some isdir_no
        else if (de_inode dir_entry =? 0) && (0 <? de_name_len dir_entry)
                && name_has_illegal_char dir_entry then Some isdir_no
        else if inode_count_ <? de_inode dir_entry then Some isdir_no
        else if de_name_len dir_entry =? 0 then Some isdir_no
        else if negb (Z.land (de_rec_len dir_entry) EXT3_DIR_ROUND =? 0)
                || (de_rec_len dir_entry <? EXT3_DIR_REC_LEN (de_name_len dir_entry))
                || (block_size_ <? offset + de_rec_len dir_entry) then Some isdir_no
        else if single_entry_paranoia dir_entry then Some isdir_no
        else
          let offset' := offset + de_rec_len dir_entry in
          chained ←
            (if offset' =? block_size_ then Some true
             else
               r ← is_directory_loop fuel' false offset';
               Some (match r with isdir_no => false | _ => true end));
          if negb chained then Some isdir_no
          else
            let ok := name_chars_loop dir_entry
                        (seq 0 (Z.to_nat (de_name_len dir_entry))) true in
            Some (if ok then (if is_start then isdir_start else isdir_extended)
                  else isdir_no)
  end.

Definition is_directory_block (start_block : bool) (offset : Z)
    : option is_directory_type :=
  is_directory_loop (Z.to_nat block_size_) start_block offset.

(** A record that passed every test of [is_directory]. *)
Definition sane_entry (offset : Z) : Prop :=
  let dir_entry := entry_at offset in
  Z.land offset 3 = 0 /\
  de_inode dir_entry <= inode_count_ /\
  1 <= de_name_len dir_entry /\
  Z.land (de_rec_len dir_entry) 3 = 0 /\
  EXT3_DIR_REC_LEN (de_name_len dir_entry) <= de_rec_len dir_entry /\
  offset + de_rec_len dir_entry <= block_size_ /\
  forall c : nat, Z.of_nat c < de_name_len dir_entry ->
    32 <= nth c (de_name dir_entry) 0 <= 126 /\ nth c (de_name dir_entry) 0 <> 47.

(** The records from [offset] on chain to the end of the block. *)
Inductive chain_to_end : Z -> list Z -> Prop :=
| chain_last (offset : Z) :
    sane_entry offset ->
    offset + de_rec_len (entry_at offset) = block_size_ ->
    chain_to_end offset [offset]
| chain_next (offset : Z) (offsets : list Z) :
    sane_entry offset ->
    chain_to_end (offset + de_rec_len (entry_at offset)) offsets ->
    chain_to_end offset (offset :: offsets).
End IsDirectory.

(** ** Restoring a regular file: [restore_file_action] *)

(** [struct Data]: the bytes written to [out] so far and [remaining_size],
    an [int]. *)
Record Data := { out : list Z; remaining_size : Z }.

(** [restore_file_action].  [get_block] is the device: [None] when the read
    fails, which trips [assert(device.good())]; a callback state of [None]
    is a run that has been aborted. *)
Definition restore_file_action (block_size_ : Z) (get_block : Z -> option (list Z))
    (blocknr : Z) (data : option Data) : option Data :=
  data ← data;
  block_buf ← get_block blocknr;
  let len := Z.min (remaining_size data) block_size_ in
  Some {| out := out data ++ take (Z.to_nat len) block_buf;
          remaining_size := remaining_size data - len |}.

(** The regular-file branch of [restore_file]: [Data data(out, inode.size())]
    converts the [uint32_t] size to [int], and the walk runs with the
    default [indirect_mask]. *)
Definition restore_regular_file (block_count_ : Z) (get_block_ptrs : Z -> option (list Z))
    (block_size_ : Z) (get_block : Z -> option (list Z))
    (inode_size : Z) (inode : Inode) : option (bool * Data) :=
  r ← iterate_over_all_blocks_of block_count_ get_block_ptrs
        (restore_file_action block_size_ get_block) inode direct_bit
        (Some {| out := []; remaining_size := int_of_u32 inode_size |});
  data ← r.2;
  Some (r.1, data).

(** ** Symbolic links: [print_symlink] *)

(** Modelled from the spec: [EXT3_N_BLOCKS] of [ext3.h], the twelve direct
    and three indirect slots of [i_block]. *)
Definition EXT3_N_BLOCKS : nat := 15.

(** The [chars] member of the [translate] union: the four bytes of a
    [__le32] in memory order. *)
Definition translate_chars (block : Z) : list Z :=
  (fun j => Z.land (Z.shiftr block (8 * j)) 255) <$> [0; 1; 2; 3].

(** The inner [for] over the bytes of one slot, on the stream [os] and the
    counter [len]: [inl] is the [return len] inside the loop, [None] the
    [assert(c != 0)]. *)
Fixpoint print_symlink_chars (size : Z) (chars : list Z) (os : list Z) (len : Z)
    : option (list Z * Z + list Z * Z) :=
  match chars with
  | [] => Some (inr (os, len))
  | c :: chars' =>
      if c =? 0 then None
      else
        let os := os ++ [c] in
        let len := u32 (len + 1) in
        if len =? size then Some (inl (os, len))
        else print_symlink_chars size chars' os len
  end.

(** The outer [for] over the slots of [i_block]. *)
Fixpoint print_symlink_slots (size : Z) (blocks : list Z) (os : list Z) (len : Z)
    : option (list Z * Z) :=
  match blocks with
  | [] => Some (os, len)
  | b :: blocks' =>
      r ← print_symlink_chars size (translate_chars b) os len;
      match r with
      | inl res => Some res
      | inr (os, len) => print_symlink_slots size blocks' os len
      end
  end.

(** The bytes of a buffer up to its first NUL, as [strlen] and [os << block]
    read it. *)
Fixpoint c_string (block : list Z) : list Z :=
  match block with
  | [] => []
  | c :: rest => if c =? 0 then [] else c :: c_string rest
  end.

(** [print_symlink]: the bytes written to [os] and the [int] returned.  The
    text for a symlink of length zero goes to [std::cout], not to [os]. *)
Definition print_symlink (block_size_ : Z) (get_block : Z -> option (list Z))
    (inode_size : Z) (inode : Inode) (os : list Z) : option (list Z * Z) :=
  if i_blocks inode =? 0 then
    if inode_size =? 0 then Some (os, 0)
    else
      r ← print_symlink_slots inode_size (take EXT3_N_BLOCKS (i_block inode)) os 0;
      Some (r.1, int_of_u32 r.2)
  else
    b0 ← i_block inode !! 0%nat;
    b1 ← i_block inode !! 1%nat;
    if b0 =? 0 then None
    else if negb (b1 =? 0) then None
    else
      block ← get_block (int_of_u32 b0);
      last ← block !! Z.to_nat (block_size_ - 1);
      if negb (last =? 0) then None
      else
        let str := c_string block in
        Some (os ++ str, int_of_u32 (u32 (Z.of_nat (length str)))).

(** A name stored in [i_block]: four bytes per [__le32], first byte lowest. *)
Fixpoint pack_le32 (bytes : list Z) : list Z :=
  match bytes with
  | a :: b :: c :: d :: rest => le_word [a; b; c; d] :: pack_le32 rest
  | _ => []
  end.

(** ** Histogram *)

Definition histsize : Z := 100.

(** The statics [S_min], [S_max], [S_bs], [histo] and [S_maxcount]. *)
Record Histogram := {
  S_min : Z;
  S_max : Z;
  S_bs : Z;
  histo : list Z;
  S_maxcount : Z
}.

(** The [while] loop of [hist_init]; the arithmetic is carried out in
    [size_t]. *)
Fixpoint hist_init_loop (fuel : nat) (min max bs : Z) : option Z :=
  match fuel with
  | O => None
  | S fuel' =>
      if size_t_of_int (histsize - 1) <? u64 (u64 (max - 1) - min) / bs
      then hist_init_loop fuel' min max (u64 (bs + 1))
      else Some bs
  end.

(** [hist_init]; [None] is the [assert(max > min)]. *)
Definition hist_init (fuel : nat) (min max : Z) : option Histogram :=
  if min <? max then
    bs ← hist_init_loop fuel min max 1;
    Some {| S_min := min; S_max := max; S_bs := bs;
            histo := replicate (Z.to_nat histsize) 0; S_maxcount := 0 |}
  else None.

(** [hist_add]; [None] is the [assert] on the range of [val], or an index
    outside [histo]. *)
Definition hist_add (val : Z) (h : Histogram) : option Histogram :=
  if (S_min h <=? val) && (val <? S_max h) then
    let i := Z.to_nat (u64 (val - S_min h) / S_bs h) in
    count ← histo h !! i;
    let count := int_of_u32 (u32 (count + 1)) in
    Some {| S_min := S_min h; S_max := S_max h; S_bs := S_bs h;
            histo := <[i := count]> (histo h);
            S_maxcount := Z.max (S_maxcount h) count |}
  else None.

(** The number of values of [vals] that fall in bucket [k]. *)
Definition bucket_count (min bs : Z) (k : nat) (vals : list Z) : Z :=
  Z.of_nat (length (filter (fun v => (v - min) / bs = Z.of_nat k) vals)).

(** A file of six bytes in two blocks of four bytes; block [b] of the device
    holds the byte [b] four times. *)
Definition r_inode : Inode :=
  {| i_mode := 0x81a4; i_atime := 1; i_dtime := 0; i_blocks := 2;
     i_block := [5; 6] ++ replicate 13 0 |}.

Definition r_device (block : Z) : option (list Z) := Some (replicate 4 block).

(** A fast symlink to [a/b]: the three bytes of the name in [i_block],
    followed by whatever the slots held before. *)
Definition l_inode : Inode :=
  {| i_mode := 0xa1ff; i_atime := 1; i_dtime := 0; i_blocks := 0;
     i_block := pack_le32 ([97; 47; 98] ++ replicate 57 7) |}.

(** ** Where a walk stops *)

Section CorruptWalk.
Variable block_count_ : Z.
Variable get_block_ptrs : Z -> option (list Z).
Variable indirect_mask : Z.

(** [corrupt_indirect slots out]: the slots of an indirect block hold,
    behind slots that are zero or block numbers, a slot that is neither;
    [out] is what the slots in front of it stand for. *)
Inductive corrupt_indirect : list Z -> list Z -> Prop :=
| corrupt_indirect_here (pre post : list Z) (bad : Z) :
    Forall (fun q => q = 0 \/ q < block_count_) pre ->
    bad <> 0 -> block_count_ <= bad ->
    corrupt_indirect (pre ++ bad :: post) (emitted_of pre).

(** The same for the slots of a double indirect block: behind slots that
    are zero or refer to clean indirect blocks comes a slot that is not a
    block number, or one that refers to an indirect block with such a slot
    (which is only read under [direct_bit]). *)
Inductive corrupt_double : list Z -> list Z -> Prop :=
| corrupt_double_here (pre post : list Z) (bad : Z) :
    Forall (fun q => q = 0 \/
              (q < block_count_ /\
               clean_indirect block_count_ get_block_ptrs indirect_mask q)) pre ->
    bad <> 0 -> block_count_ <= bad ->
    corrupt_double (pre ++ bad :: post)
      (concat (indirect_blocks get_block_ptrs indirect_mask <$> pre))
| corrupt_double_below (pre post : list Z) (q : Z) (below out : list Z) :
    Forall (fun q => q = 0 \/
              (q < block_count_ /\
               clean_indirect block_count_ get_block_ptrs indirect_mask q)) pre ->
    q <> 0 -> q < block_count_ ->
    has_bit indirect_mask direct_bit = true ->
    get_block_ptrs (int_of_u32 q) = Some below ->
    corrupt_indirect below out ->
    corrupt_double (pre ++ q :: post)
      (concat (indirect_blocks get_block_ptrs indirect_mask <$> pre)
       ++ own_number indirect_mask q ++ out).

(** And for the slots of a triple indirect block. *)
Inductive corrupt_tripple : list Z -> list Z -> Prop :=
| corrupt_tripple_here (pre post : list Z) (bad : Z) :
    Forall (fun q => q = 0 \/
              (q < block_count_ /\
               clean_double block_count_ get_block_ptrs indirect_mask q)) pre ->
    bad <> 0 -> block_count_ <= bad ->
    corrupt_tripple (pre ++ bad :: post)
      (concat (double_indirect_blocks get_block_ptrs indirect_mask <$> pre))
| corrupt_tripple_below (pre post : list Z) (q : Z) (below out : list Z) :
    Forall (fun q => q = 0 \/
              (q < block_count_ /\
               clean_double block_count_ get_block_ptrs indirect_mask q)) pre ->
    q <> 0 -> q < block_count_ ->
    get_block_ptrs (int_of_u32 q) = Some below ->
    corrupt_double below out ->
    corrupt_tripple (pre ++ q :: post)
      (concat (double_indirect_blocks get_block_ptrs indirect_mask <$> pre)
       ++ own_number indirect_mask q ++ out).

(** The fifteen slots of an inode whose first reused or corrupted block
    lies below the indirect, the double indirect or the triple indirect
    slot, everything in front of it being clean; [out] is what the three
    slots stand for up to the offending pointer. *)
Inductive corrupt_inode (block_ptr : list Z) : list Z -> Prop :=
| corrupt_below_ind (slots out : list Z) :
    nth EXT3_IND_BLOCK block_ptr 0 <> 0 ->
    has_bit indirect_mask direct_bit = true ->
    get_block_ptrs (int_of_u32 (nth EXT3_IND_BLOCK block_ptr 0)) = Some slots ->
    corrupt_indirect slots out ->
    corrupt_inode block_ptr
      (own_number indirect_mask (nth EXT3_IND_BLOCK block_ptr 0) ++ out)
| corrupt_below_dind (slots out : list Z) :
    (nth EXT3_IND_BLOCK block_ptr 0 = 0 \/
     clean_indirect block_count_ get_block_ptrs indirect_mask
       (nth EXT3_IND_BLOCK block_ptr 0)) ->
    nth EXT3_DIND_BLOCK block_ptr 0 <> 0 ->
    get_block_ptrs (int_of_u32 (nth EXT3_DIND_BLOCK block_ptr 0)) = Some slots ->
    corrupt_double slots out ->
    corrupt_inode block_ptr
      (indirect_blocks get_block_ptrs indirect_mask (nth EXT3_IND_BLOCK block_ptr 0)
       ++ own_number indirect_mask (nth EXT3_DIND_BLOCK block_ptr 0) ++ out)
| corrupt_below_tind (slots out : list Z) :
    (nth EXT3_IND_BLOCK block_ptr 0 = 0 \/
     clean_indirect block_count_ get_block_ptrs indirect_mask
       (nth EXT3_IND_BLOCK block_ptr 0)) ->
    (nth EXT3_DIND_BLOCK block_ptr 0 = 0 \/
     clean_double block_count_ get_block_ptrs indirect_mask
       (nth EXT3_DIND_BLOCK block_ptr 0)) ->
    nth EXT3_TIND_BLOCK block_ptr 0 <> 0 ->
    get_block_ptrs (int_of_u32 (nth EXT3_TIND_BLOCK block_ptr 0)) = Some slots ->
    corrupt_tripple slots out ->
    corrupt_inode block_ptr
      (indirect_blocks get_block_ptrs indirect_mask (nth EXT3_IND_BLOCK block_ptr 0)
       ++ double_indirect_blocks get_block_ptrs indirect_mask
            (nth EXT3_DIND_BLOCK block_ptr 0)
       ++ own_number indirect_mask (nth EXT3_TIND_BLOCK block_ptr 0) ++ out).
End CorruptWalk.

(** A double indirect block 30 whose first slot refers to the clean
    indirect block 31 and whose second slot refers to the indirect block 17
    of S3, and an inode that has only that double indirect block. *)
Definition nested_device (block : Z) : option (list Z) :=
  if block =? 30 then Some ([31; 17; 33] ++ replicate 1021 0)
  else if block =? 31 then Some ([40; 41] ++ replicate 1022 0)
  else if block =? 17 then Some s3_block_17
  else None.

Definition nested_inode : Inode :=
  {| i_mode := 0x81a4; i_atime := 1; i_dtime := 0; i_blocks := 16;
     i_block := [7] ++ replicate 12 0 ++ [30; 0] |}.

(** * Properties *)

(** ** Bits of little-endian words *)

Lemma testbit_byte_cons (b r i : Z) :
  is_byte b -> 0 <= i ->
  Z.testbit (b + 256 * r) i =
  if i <? 8 then Z.testbit b i else Z.testbit r (i - 8).
Proof.
  intros Hb Hi. destruct (Z.ltb_spec i 8) as [Hlt | Hge].
  - rewrite <- (Z.mod_pow2_bits_low (b + 256 * r) 8 i) by lia.
    replace (2 ^ 8) with 256 by reflexivity.
    replace ((b + 256 * r) mod 256) with b; [done |].
    replace (256 * r) with (r * 256) by lia. rewrite Z_mod_plus_full.
    symmetry. apply Z.mod_small. exact Hb.
  - replace i with ((i - 8) + 8) at 1 by lia.
    rewrite <- Z.div_pow2_bits by lia.
    replace (2 ^ 8) with 256 by reflexivity.
    replace ((b + 256 * r) / 256) with r; [done |].
    replace (256 * r) with (r * 256) by lia. rewrite Z.div_add by lia.
    rewrite (Z.div_small b 256) by exact Hb. lia.
Qed.

Lemma testbit_le_word (bytes : list Z) :
  Forall is_byte bytes ->
  forall i, 0 <= i ->
  Z.testbit (le_word bytes) i = Z.testbit (nth (Z.to_nat (i / 8)) bytes 0) (i mod 8).
Proof.
  induction 1 as [| b rest Hb _ IH]; intros i Hi; simpl le_word.
  - rewrite Z.bits_0. destruct (Z.to_nat (i / 8)); simpl; by rewrite Z.bits_0.
  - rewrite testbit_byte_cons by done.
    destruct (Z.ltb_spec i 8) as [Hlt | Hge].
    + rewrite Z.div_small, Z.mod_small by lia. done.
    + rewrite IH by lia.
      replace i with ((i - 8) + 1 * 8) at 3 4 by lia.
      rewrite Z.div_add, Z_mod_plus_full by lia.
      replace (Z.to_nat ((i - 8) / 8 + 1)) with (Datatypes.S (Z.to_nat ((i - 8) / 8))).
      * done.
      * assert (0 <= (i - 8) / 8) by (apply Z.div_pos; lia). lia.
Qed.

Lemma land_pow2_eqb (w i : Z) :
  0 <= i -> (Z.land w (2 ^ i) =? 0) = negb (Z.testbit w i).
Proof.
  intros Hi. destruct (Z.testbit w i) eqn:Hbit; simpl.
  - apply Z.eqb_neq. intros Hz.
    assert (Z.testbit (Z.land w (2 ^ i)) i = true) as Ht.
    { rewrite Z.land_spec, Hbit, Z.pow2_bits_true by done. done. }
    rewrite Hz, Z.bits_0 in Ht. done.
  - apply Z.eqb_eq. apply Z.bits_inj'. intros j Hj.
    rewrite Z.land_spec, Z.bits_0, Z.pow2_bits_eqb by done.
    destruct (Z.eqb_spec i j) as [-> | _]; [by rewrite Hbit | by rewrite andb_false_r].
Qed.

Lemma words_of_bytes_nth (fuel k : nat) (bytes : list Z) :
  (k < fuel)%nat ->
  nth k (words_of_bytes fuel bytes) 0 = le_word (take 8 (drop (8 * k) bytes)).
Proof.
  revert k bytes. induction fuel as [| fuel IH]; intros k bytes Hk; [lia |].
  destruct k as [| k]; simpl words_of_bytes; simpl nth.
  - done.
  - rewrite IH by lia. rewrite drop_drop. do 3 f_equal. lia.
Qed.

Lemma nth_take_drop (l : list Z) (a j n : nat) :
  (j < n)%nat -> nth j (take n (drop a l)) 0 = nth (a + j) l 0.
Proof.
  intros Hj. rewrite !nth_lookup, lookup_take_lt, lookup_drop by done. done.
Qed.

Lemma mask_layout_residues : forallb mask_layout_ok (seqZ 0 64) = true.
Proof. vm_compute. reflexivity. Qed.

Lemma get_bitmap_mask_mod (n : Z) :
  0 <= n -> byte (get_bitmap_mask n) = byte (get_bitmap_mask (n mod 64)).
Proof.
  intros Hn. unfold get_bitmap_mask. simpl byte.
  change 63 with (Z.ones 6). change 7 with (Z.ones 3).
  rewrite !Z.land_ones by lia.
  change (2 ^ 6) with 64. change (2 ^ 3) with 8.
  rewrite Z.mod_mod by lia.
  replace ((n mod 64) mod 8) with (n mod 8); [done |].
  rewrite (Z.div_mod n 64) at 1 by lia.
  replace (64 * (n / 64) + n mod 64) with (n mod 64 + (8 * (n / 64)) * 8) by lia.
  by rewrite Z_mod_plus_full.
Qed.

Lemma mask_layout_at (n : Z) :
  0 <= n -> mask_layout_ok (n mod 64) = true.
Proof.
  intros Hn. pose proof mask_layout_residues as Hall.
  rewrite forallb_forall in Hall. apply Hall.
  apply list_elem_of_In, elem_of_seqZ.
  pose proof (Z.mod_pos_bound n 64). lia.
Qed.

Lemma residue_byte_index (n : Z) :
  0 <= n -> Z.shiftr (n mod 64) 3 = Z.shiftr n 3 mod 8.
Proof.
  intros Hn. rewrite !Z.shiftr_div_pow2 by lia. change (2 ^ 3) with 8.
  Z.to_euclidean_division_equations. lia.
Qed.

Lemma residue_bit_index (n : Z) :
  0 <= n -> Z.land (n mod 64) 7 = Z.land n 7.
Proof.
  intros Hn. change 7 with (Z.ones 3). rewrite !Z.land_ones by lia.
  change (2 ^ 3) with 8. Z.to_euclidean_division_equations. lia.
Qed.

(** C9: [get_bitmap_mask n] has index [n >> 6]; of its eight bytes the one
    at position [(n >> 3) mod 8] is [1 << (n & 7)] and the others are zero,
    so its mask is [2 ^ (n mod 64)]; on a bitmap block loaded as 64-bit
    words the query of bit [n] reads bit [n & 7] of byte [n >> 3] of the
    block; for bit 13 the index is 0, byte 1 is 0x20 and the mask 0x2000. *)
Theorem get_bitmap_mask_round_trip (n : Z) :
  0 <= n < 2 ^ 32 ->
  index (get_bitmap_mask n) = Z.shiftr n 6 /\
  length (byte (get_bitmap_mask n)) = 8%nat /\
  (forall j : nat, (j < 8)%nat ->
     nth j (byte (get_bitmap_mask n)) 0 =
     if decide (Z.of_nat j = Z.shiftr n 3 mod 8) then Z.shiftl 1 (Z.land n 7) else 0) /\
  mask (get_bitmap_mask n) = 2 ^ (n mod 64) /\
  (forall block : list Z,
     Forall is_byte block ->
     n < 64 * Z.of_nat (length block / 8) ->
     bitmap_test (load_bitmap block) n =
     Z.testbit (nth (Z.to_nat (Z.shiftr n 3)) block 0) (Z.land n 7)) /\
  (index (get_bitmap_mask 13) = 0 /\
   nth 1 (byte (get_bitmap_mask 13)) 0 = 0x20 /\
   mask (get_bitmap_mask 13) = 0x2000).
Proof.
  intros [Hn _].
  pose proof (mask_layout_at n Hn) as Hok. unfold mask_layout_ok in Hok.
  apply andb_prop in Hok as [Hok Hlen]. apply andb_prop in Hok as [Hmask Hbytes].
  apply Z.eqb_eq in Hmask. apply Nat.eqb_eq in Hlen.
  rewrite forallb_forall in Hbytes.
  assert (mask (get_bitmap_mask n) = 2 ^ (n mod 64)) as Hm.
  { unfold mask in *. by rewrite get_bitmap_mask_mod. }
  split; [done |]. split; [by rewrite get_bitmap_mask_mod |].
  split; [| split; [exact Hm | split; [| by vm_compute]]].
  - intros j Hj. rewrite get_bitmap_mask_mod by done.
    specialize (Hbytes j). rewrite <- list_elem_of_In, elem_of_seq in Hbytes.
    specialize (Hbytes ltac:(lia)). apply Z.eqb_eq in Hbytes. rewrite Hbytes.
    rewrite residue_byte_index, residue_bit_index by done.
    destruct (Z.eqb_spec (Z.of_nat j) (Z.shiftr n 3 mod 8)); by case_decide.
  - intros block Hblock Hrange. unfold bitmap_test.
    pose proof (Z.mod_pos_bound n 64 ltac:(lia)) as Hres.
    fold (mask (get_bitmap_mask n)). rewrite Hm, land_pow2_eqb, negb_involutive by lia.
    simpl index. rewrite Z.shiftr_div_pow2 by lia. change (2 ^ 6) with 64.
    unfold load_bitmap. rewrite words_of_bytes_nth.
    2:{ apply Nat2Z.inj_lt. rewrite Z2Nat.id by (apply Z.div_pos; lia).
        apply Z.div_lt_upper_bound; lia. }
    rewrite testbit_le_word.
    2:{ apply Forall_take, Forall_drop, Hblock. }
    2:{ lia. }
    rewrite nth_take_drop.
    2:{ apply Nat2Z.inj_lt. rewrite Z2Nat.id by (apply Z.div_pos; lia).
        change (Z.of_nat 8) with 8. apply Z.div_lt_upper_bound; lia. }
    change 7 with (Z.ones 3). rewrite Z.land_ones, Z.shiftr_div_pow2 by lia.
    change (2 ^ 3) with 8.
    f_equal.
    + f_equal. apply Nat2Z.inj. rewrite Nat2Z.inj_add, Nat2Z.inj_mul.
      rewrite !Z2Nat.id by (apply Z.div_pos; lia).
      change (Z.of_nat 8) with 8. Z.to_euclidean_division_equations. lia.
    + Z.to_euclidean_division_equations. lia.
Qed.

Lemma get_bitmap_mask_round_trip_witness :
  0 <= 13 < 2 ^ 32 /\ mask (get_bitmap_mask 13) = 2 ^ (13 mod 64).
Proof.
  split; [lia |]. apply (get_bitmap_mask_round_trip 13). lia.
Defined.

(** ** The tagged single value of [blocknr_vector_type] *)

Lemma lor_1_even (k : Z) : Z.lor (2 * k) 1 = 2 * k + 1.
Proof.
  apply Z.bits_inj'. intros i Hi. rewrite Z.lor_spec.
  destruct (Z.eq_dec i 0) as [-> | Hne].
  - by rewrite Z.testbit_even_0, Z.testbit_odd_0.
  - replace i with (Z.succ (i - 1)) by lia.
    rewrite Z.testbit_even_succ, Z.testbit_odd_succ by lia.
    change 1 with (2 * 0 + 1). rewrite Z.testbit_odd_succ, Z.bits_0 by lia.
    apply orb_false_r.
Qed.

Lemma tag_u32_value (b : Z) : tag_u32 b = 2 * (b mod 2 ^ 31) + 1.
Proof.
  unfold tag_u32, u32. rewrite Z.shiftl_mul_pow2 by lia.
  change (2 ^ 1) with 2. change (2 ^ 32) with (2 * 2 ^ 31).
  rewrite (Z.mul_comm b 2), Z.mul_mod_distr_l by lia.
  apply lor_1_even.
Qed.

Lemma tagged_is_single (k : Z) :
  0 <= k < 2 ^ 31 ->
  bv_is_vector (bv_blocknr (2 * k + 1)) = Some false /\
  u32 (Z.shiftr (2 * k + 1) 1) = k.
Proof.
  intros Hk. split.
  - unfold bv_is_vector.
    destruct (Z.eqb_spec (2 * k + 1) 0); [lia |].
    change 1 with (Z.ones 1) at 2. rewrite Z.land_ones by lia.
    change (2 ^ 1) with 2.
    replace ((2 * k + 1) mod 2) with 1 by (Z.to_euclidean_division_equations; lia).
    done.
  - rewrite Z.shiftr_div_pow2 by lia. change (2 ^ 1) with 2.
    replace ((2 * k + 1) / 2) with k by (Z.to_euclidean_division_equations; lia).
    unfold u32. apply Z.mod_small. lia.
Qed.

(** C10: pushing a block number [b] on an empty [blocknr_vector_type]
    yields a non-empty vector of size 1 whose first entry is [b mod 2^31]:
    it is [b] itself when [b < 2^31], and differs from [b] otherwise,
    because [(b << 1) | 1] is evaluated in 32 bits. *)
Theorem push_back_single_round_trip (b : Z) :
  0 < b < 2 ^ 32 ->
  exists bv,
    bv_push_back (bv_blocknr 0) b = Some bv /\
    bv_empty bv = false /\
    bv_size bv = Some 1 /\
    bv_first_entry bv = Some (b mod 2 ^ 31) /\
    (b < 2 ^ 31 -> bv_first_entry bv = Some b) /\
    (2 ^ 31 <= b -> bv_first_entry bv <> Some b).
Proof.
  intros Hb. exists (bv_blocknr (tag_u32 b)).
  pose proof (Z.mod_pos_bound b (2 ^ 31) ltac:(lia)) as Hk.
  destruct (tagged_is_single (b mod 2 ^ 31) Hk) as [Hsingle Hread].
  assert (bv_first_entry (bv_blocknr (tag_u32 b)) = Some (b mod 2 ^ 31)) as Hfirst.
  { unfold bv_first_entry. rewrite tag_u32_value, Hsingle. simpl. by rewrite Hread. }
  repeat split.
  - unfold bv_push_back. simpl bv_empty. simpl.
    destruct (Z.eqb_spec b 0); [lia | done].
  - simpl. rewrite tag_u32_value. apply Z.eqb_neq. lia.
  - unfold bv_size. rewrite tag_u32_value, Hsingle. done.
  - exact Hfirst.
  - intros Hlt. rewrite Hfirst, Z.mod_small by lia. done.
  - intros Hge. rewrite Hfirst. intros [= Heq]. lia.
Qed.

Lemma push_back_single_round_trip_witness :
  0 < 500 < 2 ^ 32 /\
  exists bv, bv_push_back (bv_blocknr 0) 500 = Some bv /\ bv_first_entry bv = Some 500.
Proof.
  split; [lia |].
  destruct (push_back_single_round_trip 500 ltac:(lia)) as (bv & Hpush & _ & _ & _ & Hsmall & _).
  exists bv. split; [exact Hpush | apply Hsmall; lia].
Defined.

(** ** The indirect-block walker *)

Section WalkerFacts.
Context {S : Type}.
Variable block_count_ : Z.
Variable get_block_ptrs : Z -> option (list Z).
Variable action : Z -> S -> S.

Local Abbreviation ind_loop := (indirect_block_loop block_count_ action).
Local Abbreviation dind_loop := (double_indirect_block_loop block_count_ get_block_ptrs action).
Local Abbreviation tind_loop := (tripple_indirect_block_loop block_count_ get_block_ptrs action).

(** A slot that holds zero is passed over. *)
Lemma indirect_block_loop_zero (pre post : list Z) (s : S) :
  ind_loop (pre ++ 0 :: post) s = ind_loop (pre ++ post) s.
Proof.
  revert s. induction pre as [| p pre IH]; intros s; simpl; [done |].
  destruct (p =? 0); [apply IH |].
  destruct (is_block_number block_count_ p); simpl; [apply IH | done].
Qed.

Lemma double_indirect_block_loop_zero (mask : Z) (pre post : list Z) (s : S) :
  dind_loop mask (pre ++ 0 :: post) s = dind_loop mask (pre ++ post) s.
Proof.
  revert s. induction pre as [| p pre IH]; intros s; simpl; [done |].
  destruct (p =? 0); [apply IH |].
  destruct (is_block_number block_count_ p); simpl; [| done].
  destruct (has_bit mask direct_bit); [| apply IH].
  destruct (iterate_over_all_blocks_of_indirect_block _ _ _ _ _) as [[[] s2] |];
    [done | apply IH | done].
Qed.

Lemma tripple_indirect_block_loop_zero (mask : Z) (pre post : list Z) (s : S) :
  tind_loop mask (pre ++ 0 :: post) s = tind_loop mask (pre ++ post) s.
Proof.
  revert s. induction pre as [| p pre IH]; intros s; simpl; [done |].
  destruct (p =? 0); [apply IH |].
  destruct (is_block_number block_count_ p); simpl; [| done].
  destruct (iterate_over_all_blocks_of_double_indirect_block _ _ _ _ _ _)
    as [[[] s2] |]; [done | apply IH | done].
Qed.

(** A non-zero slot that is not a block number ends the loop: the state
    is the one reached on the slots before it. *)
Lemma indirect_block_loop_invalid (pre post : list Z) (bad : Z) (s : S) :
  bad <> 0 -> block_count_ <= bad ->
  ind_loop (pre ++ bad :: post) s = (true, (ind_loop pre s).2).
Proof.
  intros Hnz Hbad. revert s. induction pre as [| p pre IH]; intros s; simpl.
  - destruct (Z.eqb_spec bad 0); [done |]. unfold is_block_number.
    destruct (Z.ltb_spec bad block_count_); [lia | done].
  - destruct (p =? 0); [apply IH |].
    destruct (is_block_number block_count_ p); simpl; [apply IH | done].
Qed.

Lemma double_indirect_block_loop_invalid (mask : Z) (pre post : list Z) (bad : Z) (s : S) :
  bad <> 0 -> block_count_ <= bad ->
  dind_loop mask (pre ++ bad :: post) s = stopped (dind_loop mask pre s).
Proof.
  intros Hnz Hbad. revert s. induction pre as [| p pre IH]; intros s; simpl.
  - destruct (Z.eqb_spec bad 0); [done |]. unfold is_block_number.
    destruct (Z.ltb_spec bad block_count_); [lia | done].
  - destruct (p =? 0); [apply IH |].
    destruct (is_block_number block_count_ p); simpl; [| done].
    destruct (has_bit mask direct_bit); [| apply IH].
    destruct (iterate_over_all_blocks_of_indirect_block _ _ _ _ _) as [[[] s2] |];
      [done | apply IH | done].
Qed.

Lemma tripple_indirect_block_loop_invalid (mask : Z) (pre post : list Z) (bad : Z) (s : S) :
  bad <> 0 -> block_count_ <= bad ->
  tind_loop mask (pre ++ bad :: post) s = stopped (tind_loop mask pre s).
Proof.
  intros Hnz Hbad. revert s. induction pre as [| p pre IH]; intros s; simpl.
  - destruct (Z.eqb_spec bad 0); [done |]. unfold is_block_number.
    destruct (Z.ltb_spec bad block_count_); [lia | done].
  - destruct (p =? 0); [apply IH |].
    destruct (is_block_number block_count_ p); simpl; [| done].
    destruct (iterate_over_all_blocks_of_double_indirect_block _ _ _ _ _ _)
      as [[[] s2] |]; [done | apply IH | done].
Qed.
End WalkerFacts.

Lemma emitted_of_cons (p : Z) (rest : list Z) :
  emitted_of (p :: rest) =
  if p =? 0 then emitted_of rest else int_of_u32 p :: emitted_of rest.
Proof.
  unfold emitted_of. rewrite filter_cons.
  destruct (Z.eqb_spec p 0); case_decide; done.
Qed.

Lemma direct_blocks_loop_trace (block_ptr : list Z) (tr : list Z) :
  direct_blocks_loop record_action block_ptr tr = tr ++ emitted_of block_ptr.
Proof.
  revert tr. induction block_ptr as [| p rest IH]; intros tr; simpl.
  - by rewrite app_nil_r.
  - rewrite IH, emitted_of_cons. destruct (p =? 0); [done |].
    unfold record_action. by rewrite <- app_assoc.
Qed.

Lemma indirect_block_loop_trace (block_count_ : Z) (block_ptr : list Z) (tr : list Z) :
  Forall (fun p => p = 0 \/ p < block_count_) block_ptr ->
  indirect_block_loop block_count_ record_action block_ptr tr =
  (false, tr ++ emitted_of block_ptr).
Proof.
  intros Hvalid. revert tr.
  induction Hvalid as [| p rest Hp _ IH]; intros tr; simpl.
  - by rewrite app_nil_r.
  - rewrite emitted_of_cons. destruct (Z.eqb_spec p 0); [apply IH |].
    unfold is_block_number. destruct (Z.ltb_spec p block_count_); [| lia].
    simpl. rewrite IH. unfold record_action. by rewrite <- app_assoc.
Qed.




Section WalkerInvariant.
Variable block_count_ : Z.
Variable get_block_ptrs : Z -> option (list Z).
(** A property of emitted values that holds of every checked pointer. *)
Variable Q : Z -> Prop.
Hypothesis Q_checked : forall e, checked_pointer block_count_ e -> Q e.

Lemma checked_slot (p : Z) :
  (p =? 0) = false -> is_block_number block_count_ p = true -> Q (int_of_u32 p).
Proof.
  intros Hnz Hlt. apply Q_checked. exists p.
  apply Z.eqb_neq in Hnz. apply Z.ltb_lt in Hlt. done.
Qed.

Lemma indirect_block_loop_inv (block_ptr : list Z) (tr : list Z) :
  Forall Q tr ->
  Forall Q (indirect_block_loop block_count_ record_action block_ptr tr).2.
Proof.
  revert tr. induction block_ptr as [| p rest IH]; intros tr Htr; simpl; [done |].
  destruct (p =? 0) eqn:Hnz; [by apply IH |].
  destruct (is_block_number block_count_ p) eqn:Hlt; simpl; [| done].
  apply IH, Forall_app. split; [done |]. constructor; [| done].
  by apply checked_slot.
Qed.

Lemma iterate_indirect_inv (block : Z) (tr : list Z) (r : bool * list Z) :
  Forall Q tr ->
  iterate_over_all_blocks_of_indirect_block block_count_ get_block_ptrs
    record_action block tr = Some r ->
  Forall Q r.2.
Proof.
  intros Htr. unfold iterate_over_all_blocks_of_indirect_block.
  destruct (get_block_ptrs block) as [ptrs |]; simpl; [| done].
  intros [= <-]. by apply indirect_block_loop_inv.
Qed.

Lemma optional_action_inv (flag : bool) (p : Z) (tr : list Z) :
  Forall Q tr -> Q (int_of_u32 p) ->
  Forall Q (if flag then record_action (int_of_u32 p) tr else tr).
Proof.
  intros Htr Hp. destruct flag; [| done].
  apply Forall_app. split; [done | by constructor].
Qed.

Lemma double_indirect_block_loop_inv (mask : Z) (block_ptr : list Z) (tr : list Z)
    (r : bool * list Z) :
  Forall Q tr ->
  double_indirect_block_loop block_count_ get_block_ptrs record_action mask
    block_ptr tr = Some r ->
  Forall Q r.2.
Proof.
  revert tr. induction block_ptr as [| p rest IH]; intros tr Htr; simpl.
  - by intros [= <-].
  - destruct (p =? 0) eqn:Hnz; [by apply IH |].
    destruct (is_block_number block_count_ p) eqn:Hlt; simpl; [| by intros [= <-]].
    pose proof (optional_action_inv (has_bit mask indirect_bit) p tr Htr
                  (checked_slot p Hnz Hlt)) as Hs1.
    destruct (has_bit mask direct_bit); [| by apply IH].
    destruct (iterate_over_all_blocks_of_indirect_block _ _ _ _ _)
      as [[[] s2] |] eqn:Hrun; [| | done].
    + intros [= <-]. apply (iterate_indirect_inv _ _ _ Hs1 Hrun).
    + apply IH. apply (iterate_indirect_inv _ _ _ Hs1 Hrun).
Qed.

Lemma iterate_double_indirect_inv (block mask : Z) (tr : list Z) (r : bool * list Z) :
  Forall Q tr ->
  iterate_over_all_blocks_of_double_indirect_block block_count_ get_block_ptrs
    record_action block mask tr = Some r ->
  Forall Q r.2.
Proof.
  intros Htr. unfold iterate_over_all_blocks_of_double_indirect_block.
  destruct (get_block_ptrs block) as [ptrs |]; simpl; [| done].
  by apply double_indirect_block_loop_inv.
Qed.

Lemma tripple_indirect_block_loop_inv (mask : Z) (block_ptr : list Z) (tr : list Z)
    (r : bool * list Z) :
  Forall Q tr ->
  tripple_indirect_block_loop block_count_ get_block_ptrs record_action mask
    block_ptr tr = Some r ->
  Forall Q r.2.
Proof.
  revert tr. induction block_ptr as [| p rest IH]; intros tr Htr; simpl.
  - by intros [= <-].
  - destruct (p =? 0) eqn:Hnz; [by apply IH |].
    destruct (is_block_number block_count_ p) eqn:Hlt; simpl; [| by intros [= <-]].
    pose proof (optional_action_inv (has_bit mask indirect_bit) p tr Htr
                  (checked_slot p Hnz Hlt)) as Hs1.
    destruct (iterate_over_all_blocks_of_double_indirect_block _ _ _ _ _ _)
      as [[[] s2] |] eqn:Hrun; [| | done].
    + intros [= <-]. apply (iterate_double_indirect_inv _ _ _ _ Hs1 Hrun).
    + apply IH. apply (iterate_double_indirect_inv _ _ _ _ Hs1 Hrun).
Qed.

Lemma iterate_tripple_indirect_inv (block mask : Z) (tr : list Z) (r : bool * list Z) :
  Forall Q tr ->
  iterate_over_all_blocks_of_tripple_indirect_block block_count_ get_block_ptrs
    record_action block mask tr = Some r ->
  Forall Q r.2.
Proof.
  intros Htr. unfold iterate_over_all_blocks_of_tripple_indirect_block.
  destruct (get_block_ptrs block) as [ptrs |]; simpl; [| done].
  by apply tripple_indirect_block_loop_inv.
Qed.
End WalkerInvariant.

Section WalkerTotal.
Context {S : Type}.
Variable block_count_ : Z.
Variable get_block_ptrs : Z -> option (list Z).
Variable action : Z -> S -> S.
(** Every block the walk asks for can be read. *)
Hypothesis readable : forall block, is_Some (get_block_ptrs block).

Lemma iterate_indirect_total (block : Z) (s : S) :
  is_Some (iterate_over_all_blocks_of_indirect_block block_count_ get_block_ptrs
             action block s).
Proof.
  unfold iterate_over_all_blocks_of_indirect_block.
  destruct (readable block) as [ptrs ->]. simpl. eauto.
Qed.

Lemma double_indirect_block_loop_total (mask : Z) (block_ptr : list Z) (s : S) :
  is_Some (double_indirect_block_loop block_count_ get_block_ptrs action mask
             block_ptr s).
Proof.
  revert s. induction block_ptr as [| p rest IH]; intros s; simpl; [eauto |].
  destruct (p =? 0); [apply IH |].
  destruct (is_block_number block_count_ p); simpl; [| eauto].
  destruct (has_bit mask direct_bit); [| apply IH].
  destruct (iterate_indirect_total (int_of_u32 p)
              (if has_bit mask indirect_bit then action (int_of_u32 p) s else s))
    as [[[] s2] ->]; [eauto | apply IH].
Qed.

Lemma iterate_double_indirect_total (block mask : Z) (s : S) :
  is_Some (iterate_over_all_blocks_of_double_indirect_block block_count_
             get_block_ptrs action block mask s).
Proof.
  unfold iterate_over_all_blocks_of_double_indirect_block.
  destruct (readable block) as [ptrs ->]. simpl.
  apply double_indirect_block_loop_total.
Qed.

Lemma tripple_indirect_block_loop_total (mask : Z) (block_ptr : list Z) (s : S) :
  is_Some (tripple_indirect_block_loop block_count_ get_block_ptrs action mask
             block_ptr s).
Proof.
  revert s. induction block_ptr as [| p rest IH]; intros s; simpl; [eauto |].
  destruct (p =? 0); [apply IH |].
  destruct (is_block_number block_count_ p); simpl; [| eauto].
  destruct (iterate_double_indirect_total (int_of_u32 p) mask
              (if has_bit mask indirect_bit then action (int_of_u32 p) s else s))
    as [[[] s2] ->]; [eauto | apply IH].
Qed.

Lemma iterate_tripple_indirect_total (block mask : Z) (s : S) :
  is_Some (iterate_over_all_blocks_of_tripple_indirect_block block_count_
             get_block_ptrs action block mask s).
Proof.
  unfold iterate_over_all_blocks_of_tripple_indirect_block.
  destruct (readable block) as [ptrs ->]. simpl.
  apply tripple_indirect_block_loop_total.
Qed.

(** On a device that can be read the walk returns. *)
Lemma iterate_over_all_blocks_of_total (inode : Inode) (mask : Z) (s : S) :
  is_Some (iterate_over_all_blocks_of block_count_ get_block_ptrs action inode mask s).
Proof.
  unfold iterate_over_all_blocks_of, walk_indirect_slots.
  destruct (is_symlink inode && (i_blocks inode =? 0)); [eauto |].
  set (s0 := if has_bit mask direct_bit then _ else s). clearbody s0.
  assert (is_Some (walk_ind_slot block_count_ get_block_ptrs action
                     (nth EXT3_IND_BLOCK (i_block inode) 0) mask s0)) as [[[] s1] ->].
  { unfold walk_ind_slot. destruct (_ =? 0); [eauto |].
    destruct (has_bit mask direct_bit); [apply iterate_indirect_total | eauto]. }
  { eauto. }
  assert (is_Some (walk_dind_slot block_count_ get_block_ptrs action
                     (nth EXT3_DIND_BLOCK (i_block inode) 0) mask s1)) as [[[] s2] ->].
  { unfold walk_dind_slot. destruct (_ =? 0); [eauto |].
    apply iterate_double_indirect_total. }
  { eauto. }
  assert (is_Some (walk_tind_slot block_count_ get_block_ptrs action
                     (nth EXT3_TIND_BLOCK (i_block inode) 0) mask s2)) as [[[] s3] ->].
  { unfold walk_tind_slot. destruct (_ =? 0); [eauto |].
    apply iterate_tripple_indirect_total. }
  all: eauto.
Qed.
End WalkerTotal.

Lemma nth_nonzero_elem (l : list Z) (i : nat) : nth i l 0 <> 0 -> nth i l 0 ∈ l.
Proof.
  rewrite nth_lookup. destruct (l !! i) as [x |] eqn:Hl; simpl; [| done].
  intros _. by eapply list_elem_of_lookup_2.
Qed.

Lemma emitted_of_spec (block_ptr : list Z) (e : Z) :
  e ∈ emitted_of block_ptr <-> exists p, p ∈ block_ptr /\ p <> 0 /\ e = int_of_u32 p.
Proof.
  unfold emitted_of. rewrite list_elem_of_fmap. split.
  - intros (p & -> & Hp). apply list_elem_of_filter in Hp as [Hnz Hin]. eauto.
  - intros (p & Hin & Hnz & ->). exists p. split; [done |].
    by apply list_elem_of_filter.
Qed.

Lemma checked_pointer_below (block_count_ e : Z) :
  checked_pointer block_count_ e -> e < block_count_.
Proof.
  intros (p & _ & Hlt & ->). unfold int_of_u32.
  destruct (p <? 2 ^ 31); lia.
Qed.

(** C5 (as stated, refuted): the first direct slot of [wild_inode] holds
    0x7FFFFFFF on a file system of 100000 blocks, and the walk hands that
    value to the action. *)
Lemma direct_slot_is_not_checked :
  iterate_over_all_blocks_of 100000 (fun _ => None) record_action wild_inode direct_bit []
  = Some (false, [0x7FFFFFFF]) /\
  is_block_number 100000 0x7FFFFFFF = false.
Proof. split; by vm_compute. Qed.

(** C5 (amended): every value the walk hands to the action is either one of
    the inode's own fifteen slots, handed over unchecked, or a non-zero
    pointer read from an indirect, double or triple indirect block that
    passed [is_block_number], and such a value is below the block count;
    on a device that can be read the walk returns. *)
Theorem emitted_pointers_checked_below_inode
    (block_count_ : Z) (get_block_ptrs : Z -> option (list Z))
    (inode : Inode) (indirect_mask : Z) :
  (forall flag emitted,
     iterate_over_all_blocks_of block_count_ get_block_ptrs record_action
       inode indirect_mask [] = Some (flag, emitted) ->
     Forall (fun e => inode_pointer inode e \/ checked_pointer block_count_ e) emitted) /\
  (forall e, checked_pointer block_count_ e -> e < block_count_) /\
  ((forall block, is_Some (get_block_ptrs block)) ->
   is_Some (iterate_over_all_blocks_of block_count_ get_block_ptrs record_action
              inode indirect_mask [])).
Proof.
  split; [| split; [apply checked_pointer_below |
                    intros Hread; by apply iterate_over_all_blocks_of_total]].
  set (Q := fun e => inode_pointer inode e \/ checked_pointer block_count_ e).
  assert (forall e, checked_pointer block_count_ e -> Q e) as HQ by (intros; by right).
  assert (forall i, nth i (i_block inode) 0 <> 0 ->
                    Q (int_of_u32 (nth i (i_block inode) 0))) as Hslot.
  { intros i Hnz. left. exists (nth i (i_block inode) 0).
    split; [by apply nth_nonzero_elem | done]. }
  intros flag emitted. unfold iterate_over_all_blocks_of, walk_indirect_slots.
  destruct (is_symlink inode && (i_blocks inode =? 0)); [by intros [= _ <-] |].
  set (s0 := if has_bit indirect_mask direct_bit then _ else []).
  assert (Forall Q s0) as Hs0.
  { subst s0. destruct (has_bit indirect_mask direct_bit); [| done].
    rewrite direct_blocks_loop_trace. simpl. apply Forall_forall. intros e He.
    apply emitted_of_spec in He as (p & Hin & Hnz & ->). left. exists p.
    split; [| done]. by apply (subseteq_take EXT3_NDIR_BLOCKS). }
  clearbody s0.
  destruct (walk_ind_slot _ _ _ _ _ s0) as [[brk1 s1] |] eqn:H1; [| done].
  assert (Forall Q s1) as Hs1.
  { unfold walk_ind_slot in H1.
    destruct (Z.eqb_spec (nth EXT3_IND_BLOCK (i_block inode) 0) 0) as [| Hnz];
      [by injection H1 as _ <- |].
    pose proof (optional_action_inv Q (has_bit indirect_mask indirect_bit) _ s0 Hs0
                  (Hslot _ Hnz)) as Hact.
    destruct (has_bit indirect_mask direct_bit); [| by injection H1 as _ <-].
    apply (iterate_indirect_inv _ _ Q HQ _ _ _ Hact H1). }
  destruct brk1; [by intros [= _ <-] |].
  destruct (walk_dind_slot _ _ _ _ _ s1) as [[brk2 s2] |] eqn:H2; [| done].
  assert (Forall Q s2) as Hs2.
  { unfold walk_dind_slot in H2.
    destruct (Z.eqb_spec (nth EXT3_DIND_BLOCK (i_block inode) 0) 0) as [| Hnz];
      [by injection H2 as _ <- |].
    pose proof (optional_action_inv Q (has_bit indirect_mask indirect_bit) _ s1 Hs1
                  (Hslot _ Hnz)) as Hact.
    apply (iterate_double_indirect_inv _ _ Q HQ _ _ _ _ Hact H2). }
  destruct brk2; [by intros [= _ <-] |].
  destruct (walk_tind_slot _ _ _ _ _ s2) as [[brk3 s3] |] eqn:H3; [| done].
  assert (Forall Q s3) as Hs3.
  { unfold walk_tind_slot in H3.
    destruct (Z.eqb_spec (nth EXT3_TIND_BLOCK (i_block inode) 0) 0) as [| Hnz];
      [by injection H3 as _ <- |].
    pose proof (optional_action_inv Q (has_bit indirect_mask indirect_bit) _ s2 Hs2
                  (Hslot _ Hnz)) as Hact.
    apply (iterate_tripple_indirect_inv _ _ Q HQ _ _ _ _ Hact H3). }
  destruct brk3; by intros [= _ <-].
Qed.

Lemma emitted_pointers_checked_below_inode_witness :
  Forall (fun e => inode_pointer s3_inode e \/ checked_pointer 100000 e) [42].
Proof.
  apply (proj1 (emitted_pointers_checked_below_inode 100000 s3_device s3_inode
                  direct_bit) true [42]).
  vm_compute. reflexivity.
Defined.

(** ** The walk does not depend on what the callback does *)

Section WalkerSim.
Context {S1 S2 : Type}.
Variable block_count_ : Z.
Variable get_block_ptrs : Z -> option (list Z).
Variable action1 : Z -> S1 -> S1.
Variable action2 : Z -> S2 -> S2.
Variable R : S1 -> S2 -> Prop.
Hypothesis R_step : forall b s1 s2, R s1 s2 -> R (action1 b s1) (action2 b s2).

Lemma optional_action_sim (flag : bool) (b : Z) (s1 : S1) (s2 : S2) :
  R s1 s2 -> R (if flag then action1 b s1 else s1) (if flag then action2 b s2 else s2).
Proof. intros HR. destruct flag; [by apply R_step | done]. Qed.

Lemma direct_blocks_loop_sim (block_ptr : list Z) (s1 : S1) (s2 : S2) :
  R s1 s2 ->
  R (direct_blocks_loop action1 block_ptr s1) (direct_blocks_loop action2 block_ptr s2).
Proof.
  revert s1 s2. induction block_ptr as [| p rest IH]; intros s1 s2 HR; simpl; [done |].
  apply IH. destruct (p =? 0); [done | by apply R_step].
Qed.

Lemma indirect_block_loop_sim (block_ptr : list Z) (s1 : S1) (s2 : S2) :
  R s1 s2 ->
  rel_res R (Some (indirect_block_loop block_count_ action1 block_ptr s1))
            (Some (indirect_block_loop block_count_ action2 block_ptr s2)).
Proof.
  revert s1 s2. induction block_ptr as [| p rest IH]; intros s1 s2 HR; simpl; [done |].
  destruct (p =? 0); [by apply IH |].
  destruct (is_block_number block_count_ p); simpl; [| done].
  by apply IH, R_step.
Qed.

Lemma iterate_indirect_sim (block : Z) (s1 : S1) (s2 : S2) :
  R s1 s2 ->
  rel_res R
    (iterate_over_all_blocks_of_indirect_block block_count_ get_block_ptrs action1 block s1)
    (iterate_over_all_blocks_of_indirect_block block_count_ get_block_ptrs action2 block s2).
Proof.
  intros HR. unfold iterate_over_all_blocks_of_indirect_block.
  destruct (get_block_ptrs block) as [ptrs |]; simpl; [| done].
  by apply indirect_block_loop_sim.
Qed.

Lemma double_indirect_block_loop_sim (mask : Z) (block_ptr : list Z) (s1 : S1) (s2 : S2) :
  R s1 s2 ->
  rel_res R
    (double_indirect_block_loop block_count_ get_block_ptrs action1 mask block_ptr s1)
    (double_indirect_block_loop block_count_ get_block_ptrs action2 mask block_ptr s2).
Proof.
  revert s1 s2. induction block_ptr as [| p rest IH]; intros s1 s2 HR; simpl; [done |].
  destruct (p =? 0); [by apply IH |].
  destruct (is_block_number block_count_ p); simpl; [| done].
  pose proof (optional_action_sim (has_bit mask indirect_bit) (int_of_u32 p) s1 s2 HR)
    as HR1.
  destruct (has_bit mask direct_bit); [| by apply IH].
  pose proof (iterate_indirect_sim (int_of_u32 p) _ _ HR1) as Hrun.
  destruct (iterate_over_all_blocks_of_indirect_block _ _ action1 _ _) as [[f1 t1] |],
           (iterate_over_all_blocks_of_indirect_block _ _ action2 _ _) as [[f2 t2] |];
    simpl in Hrun; try done.
  destruct Hrun as [<- HR2]. destruct f1; [done | by apply IH].
Qed.

Lemma iterate_double_indirect_sim (block mask : Z) (s1 : S1) (s2 : S2) :
  R s1 s2 ->
  rel_res R
    (iterate_over_all_blocks_of_double_indirect_block block_count_ get_block_ptrs
       action1 block mask s1)
    (iterate_over_all_blocks_of_double_indirect_block block_count_ get_block_ptrs
       action2 block mask s2).
Proof.
  intros HR. unfold iterate_over_all_blocks_of_double_indirect_block.
  destruct (get_block_ptrs block) as [ptrs |]; simpl; [| done].
  by apply double_indirect_block_loop_sim.
Qed.

Lemma tripple_indirect_block_loop_sim (mask : Z) (block_ptr : list Z) (s1 : S1) (s2 : S2) :
  R s1 s2 ->
  rel_res R
    (tripple_indirect_block_loop block_count_ get_block_ptrs action1 mask block_ptr s1)
    (tripple_indirect_block_loop block_count_ get_block_ptrs action2 mask block_ptr s2).
Proof.
  revert s1 s2. induction block_ptr as [| p rest IH]; intros s1 s2 HR; simpl; [done |].
  destruct (p =? 0); [by apply IH |].
  destruct (is_block_number block_count_ p); simpl; [| done].
  pose proof (optional_action_sim (has_bit mask indirect_bit) (int_of_u32 p) s1 s2 HR)
    as HR1.
  pose proof (iterate_double_indirect_sim (int_of_u32 p) mask _ _ HR1) as Hrun.
  destruct (iterate_over_all_blocks_of_double_indirect_block _ _ action1 _ _ _)
    as [[f1 t1] |],
    (iterate_over_all_blocks_of_double_indirect_block _ _ action2 _ _ _)
    as [[f2 t2] |]; simpl in Hrun; try done.
  destruct Hrun as [<- HR2]. destruct f1; [done | by apply IH].
Qed.

Lemma iterate_tripple_indirect_sim (block mask : Z) (s1 : S1) (s2 : S2) :
  R s1 s2 ->
  rel_res R
    (iterate_over_all_blocks_of_tripple_indirect_block block_count_ get_block_ptrs
       action1 block mask s1)
    (iterate_over_all_blocks_of_tripple_indirect_block block_count_ get_block_ptrs
       action2 block mask s2).
Proof.
  intros HR. unfold iterate_over_all_blocks_of_tripple_indirect_block.
  destruct (get_block_ptrs block) as [ptrs |]; simpl; [| done].
  by apply tripple_indirect_block_loop_sim.
Qed.

Lemma walk_ind_slot_sim (p mask : Z) (s1 : S1) (s2 : S2) :
  R s1 s2 ->
  rel_res R (walk_ind_slot block_count_ get_block_ptrs action1 p mask s1)
            (walk_ind_slot block_count_ get_block_ptrs action2 p mask s2).
Proof.
  intros HR. unfold walk_ind_slot. destruct (p =? 0); [done |].
  pose proof (optional_action_sim (has_bit mask indirect_bit) (int_of_u32 p) s1 s2 HR).
  destruct (has_bit mask direct_bit); [by apply iterate_indirect_sim | done].
Qed.

Lemma walk_dind_slot_sim (p mask : Z) (s1 : S1) (s2 : S2) :
  R s1 s2 ->
  rel_res R (walk_dind_slot block_count_ get_block_ptrs action1 p mask s1)
            (walk_dind_slot block_count_ get_block_ptrs action2 p mask s2).
Proof.
  intros HR. unfold walk_dind_slot. destruct (p =? 0); [done |].
  by apply iterate_double_indirect_sim, optional_action_sim.
Qed.

Lemma walk_tind_slot_sim (p mask : Z) (s1 : S1) (s2 : S2) :
  R s1 s2 ->
  rel_res R (walk_tind_slot block_count_ get_block_ptrs action1 p mask s1)
            (walk_tind_slot block_count_ get_block_ptrs action2 p mask s2).
Proof.
  intros HR. unfold walk_tind_slot. destruct (p =? 0); [done |].
  by apply iterate_tripple_indirect_sim, optional_action_sim.
Qed.
End WalkerSim.

Section WalkerSimTop.
Context {S1 S2 : Type}.
Variable block_count_ : Z.
Variable get_block_ptrs : Z -> option (list Z).
Variable action1 : Z -> S1 -> S1.
Variable action2 : Z -> S2 -> S2.
Variable R : S1 -> S2 -> Prop.
Hypothesis R_step : forall b s1 s2, R s1 s2 -> R (action1 b s1) (action2 b s2).

Lemma walk_indirect_slots_sim (block_ptr : list Z) (mask : Z) (s1 : S1) (s2 : S2) :
  R s1 s2 ->
  rel_res R (walk_indirect_slots block_count_ get_block_ptrs action1 block_ptr mask s1)
            (walk_indirect_slots block_count_ get_block_ptrs action2 block_ptr mask s2).
Proof.
  intros HR. unfold walk_indirect_slots.
  pose proof (walk_ind_slot_sim block_count_ get_block_ptrs action1 action2 R R_step
                (nth EXT3_IND_BLOCK block_ptr 0) mask s1 s2 HR) as H1.
  destruct (walk_ind_slot _ _ action1 _ _ _) as [[f1 t1] |],
           (walk_ind_slot _ _ action2 _ _ _) as [[f2 u1] |]; simpl in H1; try done.
  destruct H1 as [<- HR1]. destruct f1; [done |].
  pose proof (walk_dind_slot_sim block_count_ get_block_ptrs action1 action2 R R_step
                (nth EXT3_DIND_BLOCK block_ptr 0) mask t1 u1 HR1) as H2.
  destruct (walk_dind_slot _ _ action1 _ _ _) as [[f1 t2] |],
           (walk_dind_slot _ _ action2 _ _ _) as [[f2 u2] |]; simpl in H2; try done.
  destruct H2 as [<- HR2]. destruct f1; [done |].
  pose proof (walk_tind_slot_sim block_count_ get_block_ptrs action1 action2 R R_step
                (nth EXT3_TIND_BLOCK block_ptr 0) mask t2 u2 HR2) as H3.
  destruct (walk_tind_slot _ _ action1 _ _ _) as [[f1 t3] |],
           (walk_tind_slot _ _ action2 _ _ _) as [[f2 u3] |]; simpl in H3; try done.
  destruct H3 as [<- HR3]. by destruct f1.
Qed.

Lemma iterate_over_all_blocks_of_sim (inode : Inode) (mask : Z) (s1 : S1) (s2 : S2) :
  R s1 s2 ->
  rel_res R (iterate_over_all_blocks_of block_count_ get_block_ptrs action1 inode mask s1)
            (iterate_over_all_blocks_of block_count_ get_block_ptrs action2 inode mask s2).
Proof.
  intros HR. unfold iterate_over_all_blocks_of.
  destruct (is_symlink inode && (i_blocks inode =? 0)); [done |].
  apply walk_indirect_slots_sim.
  destruct (has_bit mask direct_bit); [| done].
  by apply direct_blocks_loop_sim.
Qed.
End WalkerSimTop.

(** A property of the state that every call of the callback preserves
    holds throughout the walk. *)
Section WalkerPreserves.
Context {S : Type}.
Variable block_count_ : Z.
Variable get_block_ptrs : Z -> option (list Z).
Variable action : Z -> S -> S.
Variable P : S -> Prop.
Hypothesis P_step : forall b s, P s -> P (action b s).

Local Abbreviation idle := (fun (b : Z) (u : unit) => u).
Local Abbreviation RP := (fun (s : S) (u : unit) => P s).

Lemma direct_blocks_loop_preserves (block_ptr : list Z) (s : S) :
  P s -> P (direct_blocks_loop action block_ptr s).
Proof.
  intros HP.
  apply (direct_blocks_loop_sim action idle RP (fun b s u => P_step b s) block_ptr s tt HP).
Qed.

Lemma walk_indirect_slots_preserves (block_ptr : list Z) (mask : Z) (s : S)
    (r : bool * S) :
  P s ->
  walk_indirect_slots block_count_ get_block_ptrs action block_ptr mask s = Some r ->
  P r.2.
Proof.
  intros HP Hrun.
  pose proof (walk_indirect_slots_sim block_count_ get_block_ptrs action idle RP
                (fun b s u => P_step b s) block_ptr mask s tt HP) as Hsim.
  rewrite Hrun in Hsim. destruct r as [f s'].
  destruct (walk_indirect_slots _ _ idle _ _ _) as [[f2 u] |]; simpl in Hsim; [| done].
  by destruct Hsim.
Qed.

Lemma iterate_over_all_blocks_of_preserves (inode : Inode) (mask : Z) (s : S)
    (r : bool * S) :
  P s ->
  iterate_over_all_blocks_of block_count_ get_block_ptrs action inode mask s = Some r ->
  P r.2.
Proof.
  intros HP Hrun.
  pose proof (iterate_over_all_blocks_of_sim block_count_ get_block_ptrs action idle RP
                (fun b s u => P_step b s) inode mask s tt HP) as Hsim.
  rewrite Hrun in Hsim. destruct r as [f s'].
  destruct (iterate_over_all_blocks_of _ _ idle _ _ _) as [[f2 u] |]; simpl in Hsim;
    [| done].
  by destruct Hsim.
Qed.
End WalkerPreserves.

(** ** The loops of [init_journal] over the inode copies *)

Section JournalBlockSim.
Context {D1 D2 : Type}.
Variable block_count_ : Z.
Variable get_block_ptrs : Z -> option (list Z).
Variable action1 : Z -> Z -> Z -> D1 -> D1.
Variable action2 : Z -> Z -> Z -> D2 -> D2.
Variable R : D1 -> D2 -> Prop.
Variable seq : Z.
Hypothesis R_step :
  forall ino b d1 d2, R d1 d2 -> R (action1 seq ino b d1) (action2 seq ino b d2).

Lemma journal_block_inodes_loop_sim (inodes : list Inode) (ino : Z)
    (d1 : D1) (d2 : D2) :
  R d1 d2 ->
  rel_opt R
    (journal_block_inodes_loop block_count_ get_block_ptrs action1 seq inodes ino d1)
    (journal_block_inodes_loop block_count_ get_block_ptrs action2 seq inodes ino d2).
Proof.
  revert ino d1 d2. induction inodes as [| inode rest IH]; intros ino d1 d2 HR; simpl;
    [done |].
  destruct (negb (is_directory inode)); [by apply IH |].
  destruct (negb (i_dtime inode =? 0) || (i_atime inode =? 0)
            || (nth 0 (i_block inode) 0 =? 0)); [by apply IH |].
  pose proof (iterate_over_all_blocks_of_sim block_count_ get_block_ptrs
                (action1 seq ino) (action2 seq ino) R (R_step ino)
                inode direct_bit d1 d2 HR) as Hrun.
  destruct (iterate_over_all_blocks_of _ _ (action1 seq ino) _ _ _) as [[f1 t1] |],
           (iterate_over_all_blocks_of _ _ (action2 seq ino) _ _ _) as [[f2 t2] |];
    simpl in Hrun; try done.
  destruct Hrun as [_ HR']. by apply IH.
Qed.
End JournalBlockSim.

Section JournalSim.
Context {D1 D2 : Type}.
Variable g : Geometry.
Variable block_count_ : Z.
Variable get_block_ptrs : Z -> option (list Z).
Variable get_block_inodes : Z -> option (list Inode).
Variable action1 : Z -> Z -> Z -> D1 -> D1.
Variable action2 : Z -> Z -> Z -> D2 -> D2.
Variable R : D1 -> D2 -> Prop.
Hypothesis R_step :
  forall seq ino b d1 d2, R d1 d2 -> R (action1 seq ino b d1) (action2 seq ino b d2).

Lemma journal_dir_inodes_loop_sim (descs : list Descriptor) (d1 : D1) (d2 : D2) :
  R d1 d2 ->
  rel_opt R
    (journal_dir_inodes_loop g block_count_ get_block_ptrs get_block_inodes action1
       descs d1)
    (journal_dir_inodes_loop g block_count_ get_block_ptrs get_block_inodes action2
       descs d2).
Proof.
  revert d1 d2. induction descs as [| d rest IH]; intros d1 d2 HR; simpl; [done |].
  destruct d as [jb seq blk fl | |]; [| by apply IH | by apply IH].
  destruct (is_inode g (int_of_u32 blk)); [| by apply IH].
  destruct (block_to_inode g (int_of_u32 blk)) as [first |]; simpl; [| done].
  destruct (get_block_inodes (int_of_u32 jb)) as [inodes |]; simpl; [| done].
  pose proof (journal_block_inodes_loop_sim block_count_ get_block_ptrs action1 action2
                R seq (R_step seq) inodes first d1 d2 HR) as Hrun.
  destruct (journal_block_inodes_loop _ _ action1 _ _ _ _) as [t1 |],
           (journal_block_inodes_loop _ _ action2 _ _ _ _) as [t2 |];
    simpl in *; try done.
  by apply IH.
Qed.
End JournalSim.

Lemma replay_snoc (log : list (Z * Z * Z)) (seq b ino : Z) (m : gmap Z Z) :
  replay (log ++ [(seq, b, ino)]) m = <[b := ino]> (replay log m).
Proof. unfold replay. by rewrite foldl_app. Qed.

Lemma directory_inode_action_insert (ino b : Z) (m : gmap Z Z) :
  directory_inode_action ino b m = <[b := ino]> m.
Proof. unfold directory_inode_action. by destruct (m !! b). Qed.

(** The map the source builds is the replay of the log of its writes. *)
Lemma journal_dir_inodes_loop_replay (g : Geometry) (block_count_ : Z)
    (get_block_ptrs : Z -> option (list Z)) (get_block_inodes : Z -> option (list Inode))
    (descs : list Descriptor) :
  rel_opt (fun m log => m = replay log ∅)
    (journal_dir_inodes_loop g block_count_ get_block_ptrs get_block_inodes
       (fun _ ino => directory_inode_action ino) descs ∅)
    (journal_dir_inodes_loop g block_count_ get_block_ptrs get_block_inodes
       log_action descs []).
Proof.
  apply journal_dir_inodes_loop_sim; [| done].
  intros seq ino b m log ->. unfold log_action.
  by rewrite replay_snoc, directory_inode_action_insert.
Qed.

Section JournalPreserves.
Context {D : Type}.
Variable g : Geometry.
Variable block_count_ : Z.
Variable get_block_ptrs : Z -> option (list Z).
Variable get_block_inodes : Z -> option (list Inode).
Variable action : Z -> Z -> Z -> D -> D.
Variable P : D -> Prop.

Lemma journal_block_inodes_loop_preserves (seq : Z) (inodes : list Inode) (ino : Z)
    (d d' : D) :
  (forall ino b d, P d -> P (action seq ino b d)) ->
  P d ->
  journal_block_inodes_loop block_count_ get_block_ptrs action seq inodes ino d
    = Some d' ->
  P d'.
Proof.
  intros Hstep HP Hrun.
  pose proof (journal_block_inodes_loop_sim block_count_ get_block_ptrs action
                (fun _ _ _ (u : unit) => u) (fun d _ => P d) seq
                (fun ino b d u => Hstep ino b d) inodes ino d tt HP) as Hsim.
  rewrite Hrun in Hsim.
  by destruct (journal_block_inodes_loop _ _ (fun _ _ _ (u : unit) => u) _ _ _ _).
Qed.

Lemma journal_dir_inodes_loop_preserves (descs : list Descriptor) (d d' : D) :
  (forall seq ino b d, P d -> P (action seq ino b d)) ->
  P d ->
  journal_dir_inodes_loop g block_count_ get_block_ptrs get_block_inodes action descs d
    = Some d' ->
  P d'.
Proof.
  intros Hstep HP Hrun.
  pose proof (journal_dir_inodes_loop_sim g block_count_ get_block_ptrs get_block_inodes
                action (fun _ _ _ (u : unit) => u) (fun d _ => P d)
                (fun seq ino b d u => Hstep seq ino b d) descs d tt HP) as Hsim.
  rewrite Hrun in Hsim.
  by destruct (journal_dir_inodes_loop _ _ _ _ (fun _ _ _ (u : unit) => u) _ _).
Qed.
End JournalPreserves.

Lemma log_action_keeps (x : Z * Z * Z) (seq ino b : Z) (log : list (Z * Z * Z)) :
  x ∈ log -> x ∈ log_action seq ino b log.
Proof. intros Hin. unfold log_action. apply elem_of_app. by left. Qed.

Lemma log_action_sorted (seq ino b : Z) (log : list (Z * Z * Z)) :
  log_sorted log /\ log_bounded seq log ->
  log_sorted (log_action seq ino b log) /\ log_bounded seq (log_action seq ino b log).
Proof.
  intros [Hsorted Hbound]. unfold log_action, log_sorted, log_bounded in *. split.
  - apply StronglySorted_app. split; [| split; [done | repeat constructor]].
    intros e1 e2 He1 ->%list_elem_of_singleton. unfold log_le. simpl.
    by eapply (proj1 (Forall_forall _ _)) in Hbound.
  - apply Forall_app. split; [done |]. constructor; [simpl; lia | constructor].
Qed.

Lemma is_directory_not_symlink (inode : Inode) :
  is_directory inode = true -> is_symlink inode = false.
Proof.
  unfold is_directory, is_symlink. intros ->%Z.eqb_eq. reflexivity.
Qed.

(** The walk over a directory inode with a first block calls the callback
    on that block. *)
Lemma iterate_logs_first_block (block_count_ : Z) (get_block_ptrs : Z -> option (list Z))
    (seq ino : Z) (inode : Inode) (log : list (Z * Z * Z)) (r : bool * list (Z * Z * Z)) :
  is_directory inode = true ->
  nth 0 (i_block inode) 0 <> 0 ->
  iterate_over_all_blocks_of block_count_ get_block_ptrs (log_action seq ino)
    inode direct_bit log = Some r ->
  (seq, int_of_u32 (nth 0 (i_block inode) 0), ino) ∈ r.2.
Proof.
  intros Hdir Hnz. unfold iterate_over_all_blocks_of.
  rewrite (is_directory_not_symlink inode Hdir). simpl andb.
  change (has_bit direct_bit direct_bit) with true. cbv iota.
  destruct (i_block inode) as [| p0 slots] eqn:Hslots; [done |].
  simpl in Hnz. simpl take. simpl direct_blocks_loop.
  destruct (Z.eqb_spec p0 0); [done |].
  apply walk_indirect_slots_preserves.
  - intros b s. apply log_action_keeps.
  - apply direct_blocks_loop_preserves.
    + intros b s. apply log_action_keeps.
    + unfold log_action. apply elem_of_app. right. by apply list_elem_of_singleton.
Qed.

Lemma live_directory_copy_tests (inode : Inode) :
  live_directory_copy inode = true ->
  is_directory inode = true /\
  negb (i_dtime inode =? 0) || (i_atime inode =? 0) || (nth 0 (i_block inode) 0 =? 0)
    = false /\
  nth 0 (i_block inode) 0 <> 0.
Proof.
  unfold live_directory_copy. intros H.
  apply andb_prop in H as [H Hblock]. apply andb_prop in H as [H Hatime].
  apply andb_prop in H as [Hdir Hdtime].
  apply negb_true_iff in Hblock, Hatime.
  split; [done |]. split; [by rewrite Hdtime, Hatime, Hblock |].
  by apply Z.eqb_neq.
Qed.

Lemma journal_block_logs_live_copy (block_count_ : Z)
    (get_block_ptrs : Z -> option (list Z)) (seq : Z) (inodes : list Inode)
    (first : Z) (log log' : list (Z * Z * Z)) (i : nat) (copy : Inode) :
  journal_block_inodes_loop block_count_ get_block_ptrs log_action seq inodes first log
    = Some log' ->
  inodes !! i = Some copy ->
  live_directory_copy copy = true ->
  (seq, int_of_u32 (nth 0 (i_block copy) 0), first + Z.of_nat i) ∈ log'.
Proof.
  revert first log i. induction inodes as [| inode rest IH]; intros first log i Hrun Hi Hlive;
    [done |].
  destruct i as [| i]; simpl in Hi, Hrun.
  - injection Hi as ->.
    destruct (live_directory_copy_tests copy Hlive) as (Hdir & Hskip & Hnz).
    rewrite Hdir, Hskip in Hrun. simpl in Hrun.
    destruct (iterate_over_all_blocks_of _ _ _ _ _ _) as [[f log1] |] eqn:Hwalk; [| done].
    pose proof (iterate_logs_first_block _ _ _ _ _ _ _ Hdir Hnz Hwalk) as Hin.
    simpl in Hin. replace (first + Z.of_nat 0) with first by lia.
    eapply (journal_block_inodes_loop_preserves block_count_ get_block_ptrs log_action
              (fun l => _ ∈ l)); [| exact Hin | exact Hrun].
    intros ino b l. apply log_action_keeps.
  - replace (first + Z.of_nat (Datatypes.S i)) with ((first + 1) + Z.of_nat i) by lia.
    destruct (negb (is_directory inode)); [by eapply IH |].
    destruct (negb (i_dtime inode =? 0) || (i_atime inode =? 0)
              || (nth 0 (i_block inode) 0 =? 0)); [by eapply IH |].
    destruct (iterate_over_all_blocks_of _ _ _ _ _ _) as [[f log1] |]; [| done].
    by eapply IH.
Qed.

Lemma journal_dir_logs_live_copy (g : Geometry) (block_count_ : Z)
    (get_block_ptrs : Z -> option (list Z)) (get_block_inodes : Z -> option (list Inode))
    (descs : list Descriptor) (log log' : list (Z * Z * Z))
    (jb seq blk fl first : Z) (inodes : list Inode) (i : nat) (copy : Inode) :
  journal_dir_inodes_loop g block_count_ get_block_ptrs get_block_inodes log_action
    descs log = Some log' ->
  DescriptorTag jb seq blk fl ∈ descs ->
  is_inode g (int_of_u32 blk) = true ->
  block_to_inode g (int_of_u32 blk) = Some first ->
  get_block_inodes (int_of_u32 jb) = Some inodes ->
  inodes !! i = Some copy ->
  live_directory_copy copy = true ->
  (seq, int_of_u32 (nth 0 (i_block copy) 0), first + Z.of_nat i) ∈ log'.
Proof.
  intros Hrun Hin Hinode Hfirst Hread Hi Hlive. revert log Hrun.
  induction descs as [| d rest IH]; intros log Hrun; [by apply elem_of_nil in Hin |].
  apply elem_of_cons in Hin as [<- | Hin].
  - simpl in Hrun. rewrite Hinode, Hfirst, Hread in Hrun. simpl in Hrun.
    destruct (journal_block_inodes_loop _ _ _ _ _ _ _) as [log1 |] eqn:Hblock; [| done].
    simpl in Hrun.
    pose proof (journal_block_logs_live_copy _ _ _ _ _ _ _ _ _ Hblock Hi Hlive) as Hlogged.
    eapply (journal_dir_inodes_loop_preserves g block_count_ get_block_ptrs
              get_block_inodes log_action (fun l => _ ∈ l)); [| exact Hlogged | exact Hrun].
    intros s ino b l. apply log_action_keeps.
  - simpl in Hrun.
    destruct d as [jb' seq' blk' fl' | |]; [| by eapply IH | by eapply IH].
    destruct (is_inode g (int_of_u32 blk')); [| by eapply IH].
    destruct (block_to_inode g (int_of_u32 blk')) as [first' |]; [| done].
    destruct (get_block_inodes (int_of_u32 jb')) as [inodes' |]; [| done].
    simpl in Hrun.
    destruct (journal_block_inodes_loop _ _ _ _ _ _ _) as [log1 |]; [| done].
    by eapply IH.
Qed.

Lemma log_bounded_mono (bound bound' : Z) (log : list (Z * Z * Z)) :
  bound <= bound' -> log_bounded bound log -> log_bounded bound' log.
Proof.
  intros Hle Hlog. unfold log_bounded in *.
  eapply Forall_impl; [exact Hlog |]. intros e He. simpl in *. lia.
Qed.

Lemma journal_dir_log_sorted (g : Geometry) (block_count_ : Z)
    (get_block_ptrs : Z -> option (list Z)) (get_block_inodes : Z -> option (list Inode))
    (descs : list Descriptor) (log log' : list (Z * Z * Z)) :
  StronglySorted sequence_le descs ->
  log_sorted log ->
  (forall d, d ∈ descs -> log_bounded (sequence d) log) ->
  journal_dir_inodes_loop g block_count_ get_block_ptrs get_block_inodes log_action
    descs log = Some log' ->
  log_sorted log'.
Proof.
  intros Hdescs. revert log.
  induction Hdescs as [| d rest Hrest IH Hd]; intros log Hsorted Hbound Hrun; simpl in Hrun.
  { by injection Hrun as <-. }
  assert (forall log1, log_sorted log1 -> log_bounded (sequence d) log1 ->
            journal_dir_inodes_loop g block_count_ get_block_ptrs get_block_inodes
              log_action rest log1 = Some log' -> log_sorted log') as Hnext.
  { intros log1 Hs1 Hb1. apply IH; [done |]. intros d' Hd'.
    apply (log_bounded_mono (sequence d)); [| done].
    by eapply (proj1 (Forall_forall _ _)) in Hd. }
  assert (log_bounded (sequence d) log) as Hb by (apply Hbound; by left).
  destruct d as [jb seq blk fl | |]; [| by eapply Hnext | by eapply Hnext].
  destruct (is_inode g (int_of_u32 blk)); [| by eapply Hnext].
  destruct (block_to_inode g (int_of_u32 blk)) as [first |]; [| done].
  destruct (get_block_inodes (int_of_u32 jb)) as [inodes |]; [| done].
  simpl in Hrun.
  destruct (journal_block_inodes_loop _ _ _ _ _ _ _) as [log1 |] eqn:Hblock; [| done].
  simpl in Hrun.
  pose proof (journal_block_inodes_loop_preserves block_count_ get_block_ptrs log_action
                (fun l => log_sorted l /\ log_bounded seq l) seq inodes first log log1
                (fun ino b l => log_action_sorted seq ino b l) (conj Hsorted Hb) Hblock)
    as [Hs1 Hb1].
  by eapply Hnext.
Qed.

Example s4_dir_inode_map :
  journal_dir_inodes_loop s4_geometry 100000 (fun _ => None) s4_journal_inodes
    (fun _ ino => directory_inode_action ino) s4_descriptors ∅
  = Some {[ 500 := 3 ]}.
Proof. vm_compute. reflexivity. Qed.

Section JournalTotal.
Context {D : Type}.
Variable g : Geometry.
Variable block_count_ : Z.
Variable get_block_ptrs : Z -> option (list Z).
Variable get_block_inodes : Z -> option (list Inode).
Variable action : Z -> Z -> Z -> D -> D.
Hypothesis readable_ptrs : forall block, is_Some (get_block_ptrs block).
Hypothesis readable_inodes : forall block, is_Some (get_block_inodes block).

Lemma journal_block_inodes_loop_total (seq : Z) (inodes : list Inode) (ino : Z) (d : D) :
  is_Some (journal_block_inodes_loop block_count_ get_block_ptrs action seq inodes ino d).
Proof.
  revert ino d. induction inodes as [| inode rest IH]; intros ino d; simpl; [eauto |].
  destruct (negb (is_directory inode)); [apply IH |].
  destruct (negb (i_dtime inode =? 0) || (i_atime inode =? 0)
            || (nth 0 (i_block inode) 0 =? 0)); [apply IH |].
  destruct (iterate_over_all_blocks_of_total block_count_ get_block_ptrs
              (action seq ino) readable_ptrs inode direct_bit d) as [[f d'] ->].
  apply IH.
Qed.

Lemma journal_dir_inodes_loop_total (descs : list Descriptor) (d : D) :
  is_Some (journal_dir_inodes_loop g block_count_ get_block_ptrs get_block_inodes
             action descs d).
Proof.
  revert d. induction descs as [| [jb seq blk fl | |] rest IH]; intros d; simpl;
    [eauto | | apply IH | apply IH].
  destruct (is_inode g (int_of_u32 blk)) eqn:Hinode; [| apply IH].
  unfold block_to_inode. unfold is_inode in Hinode. rewrite Hinode. simpl.
  destruct (readable_inodes (int_of_u32 jb)) as [inodes ->]. simpl.
  destruct (journal_block_inodes_loop_total seq inodes
              (int_of_size_t
                 (1 + block_to_group g (int_of_u32 blk) * inodes_per_group_ g +
                  u64 (block_size_ g *
                       (int_of_u32 blk -
                        bg_inode_table g (block_to_group g (int_of_u32 blk)))) /
                  inode_size_ g)) d) as [d' ->].
  simpl. apply IH.
Qed.
End JournalTotal.

Lemma replay_app (log1 log2 : list (Z * Z * Z)) (m : gmap Z Z) :
  replay (log1 ++ log2) m = replay log2 (replay log1 m).
Proof. unfold replay. by rewrite foldl_app. Qed.

Lemma replay_no_write (b : Z) (log : list (Z * Z * Z)) (m : gmap Z Z) :
  no_write_to b log -> replay log m !! b = m !! b.
Proof.
  revert m. induction log as [| [[seq b'] ino] log IH]; intros m Hno; [done |].
  simpl. rewrite IH.
  - apply lookup_insert_ne. intros ->. apply (Hno (seq, b, ino)); [by left | done].
  - intros e He. apply Hno. by right.
Qed.

Lemma replay_last_write (log1 log2 : list (Z * Z * Z)) (seq b ino : Z) (m : gmap Z Z) :
  no_write_to b log2 ->
  replay (log1 ++ (seq, b, ino) :: log2) m !! b = Some ino.
Proof.
  intros Hno. rewrite replay_app. simpl. rewrite replay_no_write by done.
  apply lookup_insert_eq.
Qed.

Lemma replay_lookup_Some (log : list (Z * Z * Z)) (b ino : Z) :
  replay log ∅ !! b = Some ino ->
  exists log1 seq log2, log = log1 ++ (seq, b, ino) :: log2 /\ no_write_to b log2.
Proof.
  induction log as [| [[seq b'] ino'] log IH] using rev_ind; [done |].
  rewrite replay_snoc. destruct (decide (b' = b)) as [-> | Hne].
  - rewrite lookup_insert_eq. intros [= ->]. exists log, seq, []. split; [done |].
    intros e He. by apply elem_of_nil in He.
  - rewrite lookup_insert_ne by done. intros Hlook.
    destruct (IH Hlook) as (log1 & seq1 & log2 & -> & Hno).
    exists log1, seq1, (log2 ++ [(seq, b', ino')]). split; [by rewrite <- app_assoc |].
    intros e [He | ->%list_elem_of_singleton]%elem_of_app; [by apply Hno | done].
Qed.

Lemma sorted_last_write_highest (log1 log2 : list (Z * Z * Z)) (seq b ino : Z) :
  log_sorted (log1 ++ (seq, b, ino) :: log2) ->
  no_write_to b log2 ->
  forall seq' ino', (seq', b, ino') ∈ log1 ++ (seq, b, ino) :: log2 -> seq' <= seq.
Proof.
  intros Hsorted Hno seq' ino' [Hin | Hin]%elem_of_app.
  - apply (StronglySorted_app_1_elem_of log_le _ _ (seq', b, ino') (seq, b, ino) Hsorted Hin).
    by left.
  - apply elem_of_cons in Hin as [[= -> _] | Hin]; [lia |].
    by destruct (Hno _ Hin).
Qed.

(** C7: while [init_journal] runs over the descriptors sorted by sequence
    number, every inode copy in the data block of a tag for an inode-table
    block that is a directory, not deleted ([dtime] zero, [atime] set) and
    has a first block, gets [first_block -> inode_number] written into
    [block_to_dir_inode_map]; the map is the replay of these writes in
    order, so the last write to a block is the one that stays, and it
    carries the highest sequence number among the writes to that block.
    On a device that can be read the loop returns. *)
Theorem block_to_dir_inode_last_write_wins
    (g : Geometry) (block_count_ : Z)
    (get_block_ptrs : Z -> option (list Z)) (get_block_inodes : Z -> option (list Inode))
    (descs : list Descriptor) :
  StronglySorted sequence_le descs ->
  ((forall block, is_Some (get_block_ptrs block)) ->
   (forall block, is_Some (get_block_inodes block)) ->
   is_Some (journal_dir_inodes_loop g block_count_ get_block_ptrs get_block_inodes
              (fun _ ino => directory_inode_action ino) descs ∅)) /\
  (forall m,
     journal_dir_inodes_loop g block_count_ get_block_ptrs get_block_inodes
       (fun _ ino => directory_inode_action ino) descs ∅ = Some m ->
     exists log,
       journal_dir_inodes_loop g block_count_ get_block_ptrs get_block_inodes
         log_action descs [] = Some log /\
       m = replay log ∅ /\
       (forall jb seq blk fl first inodes i copy,
          DescriptorTag jb seq blk fl ∈ descs ->
          is_inode g (int_of_u32 blk) = true ->
          block_to_inode g (int_of_u32 blk) = Some first ->
          get_block_inodes (int_of_u32 jb) = Some inodes ->
          inodes !! i = Some copy ->
          live_directory_copy copy = true ->
          (seq, int_of_u32 (nth 0 (i_block copy) 0), first + Z.of_nat i) ∈ log) /\
       (forall log1 seq b ino log2,
          log = log1 ++ (seq, b, ino) :: log2 -> no_write_to b log2 ->
          m !! b = Some ino) /\
       (forall b ino,
          m !! b = Some ino ->
          exists seq, (seq, b, ino) ∈ log /\
                      forall seq' ino', (seq', b, ino') ∈ log -> seq' <= seq)).
Proof.
  intros Hsorted. split.
  { intros Hptrs Hinodes. by apply journal_dir_inodes_loop_total. }
  intros m Hrun.
  pose proof (journal_dir_inodes_loop_replay g block_count_ get_block_ptrs
                get_block_inodes descs) as Hsim.
  rewrite Hrun in Hsim.
  destruct (journal_dir_inodes_loop _ _ _ _ log_action _ _) as [log |] eqn:Hlog;
    simpl in Hsim; [| done].
  exists log. split; [done |]. split; [done |].
  assert (log_sorted log) as Hlog_sorted.
  { eapply journal_dir_log_sorted; [exact Hsorted | constructor | | exact Hlog].
    intros d _. constructor. }
  split; [| split].
  - intros jb seq blk fl first inodes i copy Hin Hinode Hfirst Hread Hi Hlive.
    by eapply journal_dir_logs_live_copy.
  - intros log1 seq b ino log2 -> Hno. rewrite Hsim. by apply replay_last_write.
  - intros b ino Hlook. rewrite Hsim in Hlook.
    destruct (replay_lookup_Some log b ino Hlook) as (log1 & seq & log2 & -> & Hno).
    exists seq. split.
    + apply elem_of_app. right. by left.
    + by apply sorted_last_write_highest.
Qed.

Lemma block_to_dir_inode_last_write_wins_witness :
  exists log,
    journal_dir_inodes_loop s4_geometry 100000 (fun _ => None) s4_journal_inodes
      log_action s4_descriptors [] = Some log /\
    ({[ 500 := 3 ]} : gmap Z Z) = replay log ∅.
Proof.
  assert (StronglySorted sequence_le s4_descriptors) as Hsorted.
  { repeat (constructor; [| repeat (constructor; [unfold sequence_le; simpl; lia |])]);
      constructor. }
  destruct (proj2 (block_to_dir_inode_last_write_wins s4_geometry 100000 (fun _ => None)
                     s4_journal_inodes s4_descriptors Hsorted) {[ 500 := 3 ]})
    as (log & Hlog & Hreplay & _).
  - vm_compute. reflexivity.
  - exists log. split; [exact Hlog | exact Hreplay].
Defined.

(** ** The journal index and the copies of an inode *)

Lemma add_block_descriptor_sorted (block : Z) (d : Descriptor)
    (m : gmap Z (list Descriptor)) :
  descriptors_sorted_upto (sequence d) m ->
  descriptors_sorted_upto (sequence d) (add_block_descriptor block d m).
Proof.
  intros Hinv k l. unfold add_block_descriptor.
  assert (forall l0, m !! int_of_u32 block = Some l0 ->
            StronglySorted sequence_le (l0 ++ [d]) /\
            Forall (fun d' => sequence d' <= sequence d) (l0 ++ [d])) as Hsnoc.
  { intros l0 Hl0. destruct (Hinv _ _ Hl0) as [Hs Hb]. split.
    - apply StronglySorted_app. split; [| split; [done | repeat constructor]].
      intros d1 d2 Hd1 ->%list_elem_of_singleton. unfold sequence_le.
      by eapply (proj1 (Forall_forall _ _)) in Hb.
    - apply Forall_app. split; [done |]. constructor; [lia | constructor]. }
  destruct (m !! int_of_u32 block) as [l0 |] eqn:Hl0.
  - destruct (decide (k = int_of_u32 block)) as [-> | Hne].
    + rewrite lookup_insert_eq. intros [= <-]. by apply Hsnoc.
    + rewrite lookup_insert_ne by done. apply Hinv.
  - destruct (decide (k = int_of_u32 block)) as [-> | Hne].
    + rewrite lookup_insert_eq. intros [= <-]. split; repeat constructor. lia.
    + rewrite lookup_insert_ne by done. apply Hinv.
Qed.

Lemma add_revoked_blocks_sorted (d : Descriptor) (blocks : list Z)
    (m : gmap Z (list Descriptor)) :
  descriptors_sorted_upto (sequence d) m ->
  descriptors_sorted_upto (sequence d)
    (foldl (fun m b => add_block_descriptor b d m) m blocks).
Proof.
  revert m. induction blocks as [| b blocks IH]; intros m Hinv; simpl; [done |].
  by apply IH, add_block_descriptor_sorted.
Qed.

Lemma add_block_descriptors_sorted (d : Descriptor) (ix ix' : JournalIndex) :
  descriptors_sorted_upto (sequence d) (block_to_descriptors_map ix) ->
  add_block_descriptors d ix = Some ix' ->
  descriptors_sorted_upto (sequence d) (block_to_descriptors_map ix').
Proof.
  intros Hinv. unfold add_block_descriptors.
  destruct (add_block_in_journal_descriptor _ _) as [j2d |]; simpl; [| done].
  intros [= <-]. simpl. destruct d as [jb seq blk fl | jb seq blocks | jb seq].
  - by apply add_block_descriptor_sorted.
  - by apply (add_revoked_blocks_sorted (DescriptorRevoke jb seq blocks)).
  - done.
Qed.

Lemma descriptors_sorted_upto_mono (bound bound' : Z) (m : gmap Z (list Descriptor)) :
  bound <= bound' -> descriptors_sorted_upto bound m -> descriptors_sorted_upto bound' m.
Proof.
  intros Hle Hinv k l Hl. destruct (Hinv k l Hl) as [Hs Hb]. split; [done |].
  eapply Forall_impl; [exact Hb |]. intros d Hd. simpl in *. lia.
Qed.

Lemma index_descriptor_sorted (d : Descriptor) (ix ix' : JournalIndex) :
  descriptors_sorted_upto (sequence d) (block_to_descriptors_map ix) ->
  index_descriptor d ix = Some ix' ->
  descriptors_sorted_upto (sequence d) (block_to_descriptors_map ix').
Proof.
  intros Hinv. unfold index_descriptor.
  destruct (descriptor_type d) eqn:Htype.
  - done.
  - by apply add_block_descriptors_sorted.
  - by apply add_block_descriptors_sorted.
  - destruct (sequence_transaction_map ix !! int_of_u32 (sequence d)) as [t |].
    + destruct (Transaction_set_committed t); simpl; [| done]. by intros [= <-].
    + by intros [= <-].
Qed.

Lemma index_descriptors_sorted (descs : list Descriptor) (ix ix' : JournalIndex) :
  StronglySorted sequence_le descs ->
  (forall k l, block_to_descriptors_map ix !! k = Some l ->
     StronglySorted sequence_le l) ->
  (forall d, d ∈ descs ->
     descriptors_sorted_upto (sequence d) (block_to_descriptors_map ix)) ->
  index_descriptors descs ix = Some ix' ->
  forall k l, block_to_descriptors_map ix' !! k = Some l -> StronglySorted sequence_le l.
Proof.
  intros Hdescs. revert ix.
  induction Hdescs as [| d rest Hrest IH Hd]; intros ix Hsorted Hbound Hrun; simpl in Hrun.
  - by injection Hrun as <-.
  - destruct (index_descriptor d ix) as [ix1 |] eqn:Hstep; [| done].
    assert (descriptors_sorted_upto (sequence d) (block_to_descriptors_map ix1)) as H1.
    { eapply index_descriptor_sorted; [| exact Hstep]. apply Hbound. by left. }
    apply (IH ix1); [| | done].
    + intros k l Hl. by destruct (H1 k l Hl).
    + intros d' Hd'. apply (descriptors_sorted_upto_mono (sequence d)); [| done].
      by eapply (proj1 (Forall_forall _ _)) in Hd.
Qed.

Lemma StronglySorted_reverse_flip {A : Type} (R : relation A) (l : list A) :
  StronglySorted R l -> StronglySorted (flip R) (reverse l).
Proof.
  induction 1 as [| x l Hl IH Hx]; [constructor |].
  rewrite reverse_cons. apply StronglySorted_app.
  split; [| split; [done | repeat constructor]].
  intros y z Hy ->%list_elem_of_singleton. unfold flip.
  rewrite elem_of_reverse in Hy. rewrite Forall_forall in Hx. by apply Hx.
Qed.

Lemma StronglySorted_filter_keep {A : Type} (R : relation A) (f : A -> bool) (l : list A) :
  StronglySorted R l -> StronglySorted R (List.filter f l).
Proof.
  induction 1 as [| x l Hl IH Hx]; simpl; [constructor |].
  destruct (f x); [| done]. constructor; [done |].
  apply Forall_forall. intros y Hy%list_elem_of_In%filter_In.
  destruct Hy as [Hy _]. apply list_elem_of_In in Hy.
  rewrite Forall_forall in Hx. by apply Hx.
Qed.

Lemma journal_copies_loop_sequences (get_block_inodes : Z -> option (list Inode))
    (block slot : Z) (descriptors : list Descriptor) (copies : list (Z * Inode)) :
  journal_copies_loop get_block_inodes block slot descriptors = Some copies ->
  copies.*1 = (fun d => int_of_u32 (sequence d)) <$> List.filter is_tag descriptors.
Proof.
  revert copies. induction descriptors as [| d rest IH]; intros copies; simpl.
  - by intros [= <-].
  - destruct d as [jb seq blk fl | |]; simpl; [| apply IH | apply IH].
    destruct (negb (blk =? block)); [done |].
    destruct (get_block_inodes (int_of_u32 jb)) as [inodes |]; simpl; [| done].
    destruct (if slot <? 0 then None else inodes !! Z.to_nat slot) as [inode |]; simpl;
      [| done].
    destruct (journal_copies_loop _ _ _ rest) as [more |]; simpl; [| done].
    intros [= <-]. simpl. f_equal. by apply IH.
Qed.

Lemma undeleted_copies_loop_passed (after : Z) (pre rest : list (Z * Inode)) :
  Forall (passed_over after) pre ->
  undeleted_copies_loop after (pre ++ rest) = undeleted_copies_loop after rest.
Proof.
  induction 1 as [| [s c] pre [Hnz Hold] _ IH]; simpl; [done |].
  simpl in Hnz, Hold.
  destruct (Z.eqb_spec (i_dtime c) 0); [done |].
  destruct (Z.eqb_spec after 0); simpl; [done |].
  destruct (Z.ltb_spec (i_dtime c) after); [lia | done].
Qed.




(** ** [blocknr_vector_type] and the block numbers it holds *)

Lemma bv_read_from_vector (es junk : list Z) (k : nat) (j : nat) :
  (j + k <= length es)%nat ->
  bv_read_from (bv_vector (Z.of_nat (length es) :: es ++ junk)) (Z.of_nat j) k
  = Some (take k (drop j es)).
Proof.
  revert j. induction k as [| k IH]; intros j Hjk; simpl; [done |].
  assert (bv_index (bv_vector (Z.of_nat (length es) :: es ++ junk)) (Z.of_nat j)
          = es !! j) as ->.
  { unfold bv_index. simpl.
    destruct (Z.leb_spec 0 (Z.of_nat j)); [| lia].
    destruct (Z.ltb_spec (Z.of_nat j) (Z.of_nat (length es))); [| lia]. simpl.
    destruct j as [| j]; [simpl; apply lookup_app_l; simpl in Hjk; lia |].
    destruct (Z.eqb_spec (Z.of_nat (Datatypes.S j)) 0); [lia |].
    split_and?.
    - replace (Z.to_nat (Z.of_nat (Datatypes.S j) + 1))
        with (Datatypes.S (Datatypes.S j)) by lia.
      change ((es ++ junk) !! Datatypes.S j = es !! Datatypes.S j).
      apply lookup_app_l. simpl in Hjk. lia. }
  destruct (es !! j) as [e |] eqn:He; simpl.
  - replace (Z.of_nat j + 1) with (Z.of_nat (Datatypes.S j)) by lia.
    rewrite IH by lia. simpl.
    by rewrite (drop_S es e j He).
  - apply lookup_ge_None in He. lia.
Qed.

Lemma bv_holds_to_list (bv : blocknr_vector_type) (es : list Z) :
  bv_holds bv es -> bv_to_list bv = Some es.
Proof.
  destruct bv as [w | v]; simpl.
  - intros [[-> ->] | (b & -> & -> & Hb)]; [done |].
    destruct (tagged_is_single b Hb) as [Hsingle Hread].
    unfold bv_to_list, bv_empty.
    destruct (Z.eqb_spec (2 * b + 1) 0); [lia |].
    unfold bv_size at 1. rewrite Hsingle.
    change (bv_read_from (bv_blocknr (2 * b + 1)) 0 1
            = Some [b]).
    unfold bv_read_from, bv_index, bv_size, bv_first_entry. rewrite Hsingle. simpl.
    by rewrite Hread.
  - intros (junk & -> & Hlen & Hmax).
    change (bv_read_from (bv_vector (Z.of_nat (length es) :: es ++ junk)) (Z.of_nat 0)
              (Z.to_nat (Z.of_nat (length es))) = Some es).
    rewrite Nat2Z.id. rewrite (bv_read_from_vector es junk (length es) 0) by lia.
    by rewrite drop_0, firstn_all.
Qed.

Lemma bv_holds_single (b : Z) :
  0 <= b < 2 ^ 31 -> bv_holds (bv_blocknr (2 * b + 1)) [b].
Proof. intros Hb. right. by exists b. Qed.

Lemma bv_holds_erase (bv : blocknr_vector_type) (es : list Z) :
  bv_holds bv es -> es <> [] -> bv_erase bv = Some (bv_blocknr 0).
Proof.
  destruct bv as [w | v]; simpl; [| done].
  intros [[-> ->] | (b & -> & -> & Hb)] Hne; [done |].
  unfold bv_erase. by rewrite (proj1 (tagged_is_single b Hb)).
Qed.

Lemma bv_holds_empty (bv : blocknr_vector_type) (es : list Z) :
  bv_holds bv es -> bv_empty bv = bool_decide (es = []).
Proof.
  destruct bv as [w | v]; simpl.
  - intros [[-> ->] | (b & -> & -> & Hb)]; [done |].
    destruct (Z.eqb_spec (2 * b + 1) 0); [lia | done].
  - intros (junk & -> & Hlen & _). destruct es; [simpl in Hlen; lia | done].
Qed.

(** ** Stage 2: the allocated directories *)

Lemma existsb_eqb_elem (x : Z) (l : list Z) :
  existsb (Z.eqb x) l = bool_decide (x ∈ l).
Proof.
  induction l as [| y l IH].
  - symmetry. apply bool_decide_eq_false_2. by intros ?%elem_of_nil.
  - cbn [existsb]. rewrite IH. destruct (Z.eqb_spec x y) as [-> | Hne]; simpl.
    + symmetry. apply bool_decide_eq_true_2. by left.
    + apply bool_decide_ext. rewrite elem_of_cons.
      split; [by right | by intros [Heq | Hin]].
Qed.

(** C2 (as stated, refuted): inode 2008 is an allocated directory with
    first block 500, but stage 1 found no block for it; the candidate list
    stays empty. *)
Lemma allocated_directory_without_candidates :
  is_allocated s5_geometry s5_inode_bitmap 2008 = Some true /\
  (is_directory <$> get_inode s5_geometry s5_all_inodes 2008) = Some true /\
  allocated_directory_step s5_geometry s5_inode_bitmap s5_all_inodes 2008 (bv_blocknr 0)
  = Some (bv_blocknr 0) /\
  bv_to_list (bv_blocknr 0) = Some [].
Proof. repeat split; by vm_compute. Qed.

(** C2 (amended): for an inode that is allocated and has directory mode,
    whose first block pointer is non-zero (below 2^31) and is among the
    candidates stage 1 found, the candidate list is replaced by that single
    block, and the journal rule leaves it alone; when stage 1 found no
    candidate the list stays empty, and when the candidates do not contain
    the first block the run aborts on its assertion.  In scenario S5 the
    candidates 500, 900, 901 of inode 2008 become 500 alone. *)
Theorem allocated_directory_keeps_first_block
    (g : Geometry) (inode_bitmap : Z -> list Z) (all_inodes : Z -> list Inode)
    (jb : JournalBlocks) (ix : JournalIndex) (read_block : Z -> option (list DirEntry))
    (i : Z) (inode : Inode) (bv : blocknr_vector_type) (es : list Z) :
  is_allocated g inode_bitmap i = Some true ->
  get_inode g all_inodes i = Some inode ->
  is_directory inode = true ->
  bv_holds bv es ->
  0 < nth 0 (i_block inode) 0 < 2 ^ 31 ->
  (nth 0 (i_block inode) 0 ∈ es ->
   exists bv',
     allocated_directory_step g inode_bitmap all_inodes i bv = Some bv' /\
     bv_to_list bv' = Some [nth 0 (i_block inode) 0] /\
     resolve_by_journal jb ix read_block bv' = Some bv') /\
  (es = [] -> allocated_directory_step g inode_bitmap all_inodes i bv = Some bv) /\
  (es <> [] -> nth 0 (i_block inode) 0 ∉ es ->
   allocated_directory_step g inode_bitmap all_inodes i bv = None) /\
  (bv' ← allocated_directory_step s5_geometry s5_inode_bitmap s5_all_inodes 2008
           s5_candidates;
   bv_to_list bv') = Some [500].
Proof.
  intros Halloc Hinode Hdir Hholds Hfirst.
  set (first_block := nth 0 (i_block inode) 0) in *.
  assert (allocated_directory_step g inode_bitmap all_inodes i bv
          = if bv_empty bv then Some bv
            else if bool_decide (first_block ∈ es)
                 then erased ← bv_erase bv; bv_push_back erased first_block
                 else None) as Hstep.
  { unfold allocated_directory_step. rewrite Halloc. simpl.
    rewrite Hinode. simpl. rewrite Hdir. fold first_block.
    destruct (Z.eqb_spec first_block 0); [lia |].
    destruct (bv_empty bv); [done |].
    rewrite (bv_holds_to_list bv es Hholds). simpl.
    rewrite existsb_eqb_elem. by destruct (bool_decide (first_block ∈ es)). }
  rewrite (bv_holds_empty bv es Hholds) in Hstep.
  split; [| split; [| split; [| by vm_compute]]].
  - intros Hin. exists (bv_blocknr (2 * first_block + 1)).
    assert (es <> []) as Hne by (intros ->; by apply elem_of_nil in Hin).
    rewrite Hstep, bool_decide_eq_false_2, bool_decide_eq_true_2 by done.
    rewrite (bv_holds_erase bv es Hholds Hne). simpl.
    assert (bv_holds (bv_blocknr (2 * first_block + 1)) [first_block]) as Hsingle.
    { apply bv_holds_single. lia. }
    split; [| split].
    + unfold bv_push_back. simpl.
      destruct (Z.eqb_spec first_block 0); [lia |].
      by rewrite tag_u32_value, Z.mod_small by lia.
    + by apply bv_holds_to_list.
    + unfold resolve_by_journal.
      rewrite (bv_holds_empty _ _ Hsingle), bool_decide_eq_false_2 by done.
      unfold bv_size. rewrite (proj1 (tagged_is_single first_block ltac:(lia))).
      done.
  - intros ->. by rewrite Hstep.
  - intros Hne Hnotin.
    by rewrite Hstep, bool_decide_eq_false_2, bool_decide_eq_false_2.
Qed.

Lemma allocated_directory_keeps_first_block_witness :
  exists bv',
    allocated_directory_step s5_geometry s5_inode_bitmap s5_all_inodes 2008 s5_candidates
    = Some bv' /\
    bv_to_list bv' = Some [500].
Proof.
  destruct (proj1 (allocated_directory_keeps_first_block s5_geometry s5_inode_bitmap
                     s5_all_inodes
                     {| s_journal_dev := 0; min_journal_block := 0;
                        max_journal_block := 0; journal_block_bitmap := [] |}
                     JournalIndex_empty (fun _ => None) 2008 (dir_copy 500 0)
                     s5_candidates [500; 900; 901]
                     ltac:(vm_compute; reflexivity) ltac:(vm_compute; reflexivity)
                     ltac:(reflexivity)
                     ltac:(exists []; split; [reflexivity | simpl; lia])
                     ltac:(simpl; lia))
             ltac:(simpl; left))
    as (bv' & Hstep & Hlist & _).
  exists bv'. split; [exact Hstep | exact Hlist].
Defined.

(** ** [remove] on a [blocknr_vector_type] *)

Lemma bv_find_split (b : Z) (l1 l2 : list Z) (j : nat) :
  b ∉ l1 -> bv_find b (l1 ++ b :: l2) j = Some (j + length l1)%nat.
Proof.
  revert j. induction l1 as [| x l1 IH]; intros j Hnotin; simpl.
  - rewrite Z.eqb_refl. f_equal. lia.
  - destruct (Z.eqb_spec x b) as [-> | Hne].
    + exfalso. apply Hnotin. by left.
    + rewrite IH; [f_equal; lia |]. intros Hin. apply Hnotin. by right.
Qed.

Lemma tag_int_value (x : Z) : 0 <= x < 2 ^ 30 -> tag_int (int_of_u32 x) = 2 * x + 1.
Proof.
  intros Hx. unfold tag_int, size_t_of_int, u64, int_of_u32, u32.
  destruct (Z.ltb_spec x (2 ^ 31)); [| lia].
  rewrite Z.shiftl_mul_pow2 by lia. change (2 ^ 1) with 2.
  rewrite (Z.mod_small (x * 2)) by lia.
  destruct (Z.ltb_spec (x * 2) (2 ^ 31)); [| lia].
  replace (x * 2) with (2 * x) by lia. rewrite lor_1_even.
  apply Z.mod_small. lia.
Qed.

Ltac list_length :=
  repeat (rewrite ?length_app, ?length_cons, ?length_nil in *; simpl in *); lia.

(** The array after [remove]: the length is one less, the slot of the
    removed block holds the former last block. *)
Lemma bv_remove_vector (l1 l2 junk : list Z) (b : Z) :
  b ∉ l1 ->
  Z.of_nat (length (l1 ++ b :: l2)) < 2 ^ 32 ->
  exists es' junk',
    <[0%nat := u32 (Z.of_nat (length (l1 ++ b :: l2)) - 1)]>
      (<[(1 + length l1)%nat := default 0 (last (b :: l2))]>
         (Z.of_nat (length (l1 ++ b :: l2)) :: (l1 ++ b :: l2) ++ junk))
    = Z.of_nat (length es') :: es' ++ junk' /\
    es' ≡ₚ l1 ++ l2 /\
    (Z.of_nat (length (l1 ++ b :: l2)) :: (l1 ++ b :: l2) ++ junk)
      !! Z.to_nat (Z.of_nat (length (l1 ++ b :: l2)))
    = Some (default 0 (last (b :: l2))).
Proof.
  intros Hnotin Hmax.
  assert (u32 (Z.of_nat (length (l1 ++ b :: l2)) - 1) = Z.of_nat (length (l1 ++ l2)))
    as Hsize.
  { unfold u32. rewrite !length_app in *. simpl in *.
    rewrite Z.mod_small by lia. lia. }
  rewrite Hsize, Nat2Z.id.
  destruct l2 as [| y l2 _] using rev_ind.
  - exists l1, (b :: junk). split; [| split].
    + simpl. rewrite app_nil_r. f_equal.
      rewrite <- app_assoc. simpl.
      rewrite insert_app_r_alt by lia. by rewrite Nat.sub_diag.
    + by rewrite app_nil_r.
    + simpl. rewrite <- app_assoc. simpl.
      rewrite length_app. simpl.
      replace (length l1 + 1)%nat with (Datatypes.S (length l1)) by lia. simpl.
      by rewrite lookup_app_r, Nat.sub_diag by lia.
  - exists (l1 ++ y :: l2), (y :: junk).
    assert (last (b :: l2 ++ [y]) = Some y) as Hlast.
    { change (b :: l2 ++ [y]) with ((b :: l2) ++ [y]). apply last_snoc. }
    rewrite Hlast. simpl default. split; [| split].
    + simpl. f_equal.
      { f_equal. list_length. }
      rewrite <- !app_assoc. simpl.
      rewrite insert_app_r_alt by lia. rewrite Nat.sub_diag. simpl.
      by rewrite <- !app_assoc.
    + apply Permutation_app_head. apply Permutation_cons_append.
    + replace (length (l1 ++ b :: l2 ++ [y])) with (Datatypes.S (length (l1 ++ b :: l2))).
      2:{ list_length. }
      simpl.
      replace ((l1 ++ b :: l2 ++ [y]) ++ junk) with ((l1 ++ b :: l2) ++ y :: junk).
      2:{ rewrite <- !app_assoc. simpl. by rewrite <- app_assoc. }
      by rewrite lookup_app_r, Nat.sub_diag by lia.
Qed.

Lemma take_drop_header (n : Z) (es junk : list Z) :
  take (length es) (drop 1 (n :: es ++ junk)) = es.
Proof. change (drop 1 (n :: es ++ junk)) with (es ++ junk). apply take_app_length. Qed.

Lemma bv_remove_holds (bv : blocknr_vector_type) (es : list Z) (b : Z) :
  bv_holds bv es -> (2 <= length es)%nat -> b ∈ es ->
  Forall (fun x => 0 <= x < 2 ^ 30) es ->
  exists bv' es' l1 l2,
    bv_remove bv b = Some bv' /\ bv_holds bv' es' /\
    es = l1 ++ b :: l2 /\ es' ≡ₚ l1 ++ l2.
Proof.
  intros Hholds Hlen Hin Hrange.
  destruct bv as [w | v]; simpl in Hholds.
  { destruct Hholds as [[_ ->] | (x & -> & _)]; simpl in Hlen; lia. }
  destruct Hholds as (junk & -> & _ & Hmax).
  destruct (list_elem_of_split_l es b Hin) as (l1 & l2 & -> & Hnotin).
  destruct (bv_remove_vector l1 l2 junk b Hnotin Hmax) as (es' & junk' & Hv' & Hperm & Hmoved).
  assert (length es' = length (l1 ++ l2)) as Hlen' by (by rewrite Hperm).
  assert (Forall (fun x => 0 <= x < 2 ^ 30) es') as Hrange'.
  { rewrite Hperm. apply Forall_app in Hrange as [H1 H2].
    apply Forall_app. split; [done |]. by apply Forall_cons in H2 as [_ H2]. }
  assert (bv_find b
            (take (Z.to_nat (Z.of_nat (length (l1 ++ b :: l2))))
               (drop 1 (Z.of_nat (length (l1 ++ b :: l2)) :: (l1 ++ b :: l2) ++ junk))) 1
          = Some (1 + length l1)%nat) as Hfind.
  { rewrite Nat2Z.id, take_drop_header. by apply bv_find_split. }
  unfold bv_remove.
  change ((Z.of_nat (length (l1 ++ b :: l2)) :: (l1 ++ b :: l2) ++ junk) !! 0%nat)
    with (Some (Z.of_nat (length (l1 ++ b :: l2)))).
  cbn [mbind option_bind]. rewrite Hfind. cbn [mbind option_bind].
  rewrite Hmoved. cbn [mbind option_bind]. rewrite Hv'.
  assert (u32 (Z.of_nat (length (l1 ++ b :: l2)) - 1) = Z.of_nat (length es')) as ->.
  { rewrite Hlen'. unfold u32. rewrite Z.mod_small by list_length. list_length. }
  destruct (Z.eqb_spec (Z.of_nat (length es')) 1) as [Hone | Hmore].
  - destruct es' as [| x [| ? ?]]; simpl in Hone; try lia.
    cbn [lookup list_lookup app mbind option_bind].
    apply Forall_cons in Hrange' as [Hx _].
    exists (bv_blocknr (tag_int (int_of_u32 x))), [x], l1, l2.
    rewrite tag_int_value by done.
    split; [done |]. split; [apply bv_holds_single; lia | done].
  - exists (bv_vector (Z.of_nat (length es') :: es' ++ junk')), es', l1, l2.
    split; [done |]. split; [| done].
    exists junk'. split; [done |]. split; list_length.
Qed.

(** ** Stage 2: the journal rule *)

Section JournalRule.
Variable jb : JournalBlocks.
Variable ix : JournalIndex.

Lemma journal_scan_all (dirs : list DirectoryBlock) (h jc tc : Z) :
  (forall d, d ∈ dirs ->
     is_journal jb (DB_block d) = true /\
     is_Some (block_in_journal_to_descriptors_map ix !! DB_block d)) ->
  journal_scan_loop jb ix dirs h jc tc
  = Some (highest_journal_sequence ix h (DB_block <$> dirs),
          jc + Z.of_nat (length dirs), tc + Z.of_nat (length dirs)).
Proof.
  revert h jc tc. induction dirs as [| d rest IH]; intros h jc tc Hall; simpl.
  - f_equal. f_equal; [f_equal |]; lia.
  - destruct (Hall d ltac:(by left)) as [-> [desc Hdesc]]. rewrite Hdesc.
    rewrite IH by (intros d' Hd'; apply Hall; by right).
    assert (journal_sequence ix (DB_block d) = sequence desc) as Hseq.
    { unfold journal_sequence. by rewrite Hdesc. }
    unfold highest_journal_sequence. simpl. rewrite Hseq.
    f_equal. f_equal; [f_equal |]; lia.
Qed.

Lemma journal_scan_outside (dirs : list DirectoryBlock) (h jc tc : Z) :
  (exists d, d ∈ dirs /\ is_journal jb (DB_block d) = false) ->
  (forall d, d ∈ dirs -> is_journal jb (DB_block d) = true ->
     is_Some (block_in_journal_to_descriptors_map ix !! DB_block d)) ->
  exists h' jc' tc',
    journal_scan_loop jb ix dirs h jc tc = Some (h', jc', tc') /\
    tc' - jc' = tc - jc + 1.
Proof.
  revert h jc tc. induction dirs as [| d rest IH]; intros h jc tc Hout Hdesc.
  - destruct Hout as (d & Hd & _). by apply elem_of_nil in Hd.
  - simpl. destruct (is_journal jb (DB_block d)) eqn:Hj.
    + destruct (Hdesc d ltac:(by left) Hj) as [desc ->].
      destruct (IH (Z.max h (sequence desc)) (jc + 1) (tc + 1)) as (h' & jc' & tc' & -> & Hdiff).
      * destruct Hout as (d' & [-> | Hd']%elem_of_cons & Hout); [congruence | eauto].
      * intros d' Hd'. apply Hdesc. by right.
      * exists h', jc', tc'. split; [done | lia].
    + exists h, jc, (tc + 1). split; [done | lia].
Qed.
End JournalRule.

Section JournalPrune.
Variable jb : JournalBlocks.
Variable ix : JournalIndex.
Variable need : bool.
Variable highest : Z.

Local Abbreviation kept_dirs :=
  (List.filter (fun d => journal_keep jb ix need highest (DB_block d))).

Lemma journal_prune_loop_spec (dirs : list DirectoryBlock) :
  forall (bv : blocknr_vector_type) (es es_kept : list Z),
    bv_holds bv es ->
    es ≡ₚ es_kept ++ (DB_block <$> dirs) ->
    NoDup es ->
    Forall (fun x => 0 <= x < 2 ^ 30) es ->
    Z.of_nat (length es) < 2 ^ 32 ->
    (need = true -> forall d, d ∈ dirs -> is_journal jb (DB_block d) = true ->
       is_Some (block_in_journal_to_descriptors_map ix !! DB_block d)) ->
    (es_kept <> [] \/ exists d, d ∈ dirs /\ journal_keep jb ix need highest (DB_block d) = true) ->
    exists bv' es',
      journal_prune_loop jb ix need highest dirs bv (Z.of_nat (length es))
      = Some (kept_dirs dirs, bv', Z.of_nat (length es')) /\
      bv_holds bv' es' /\
      es' ≡ₚ es_kept ++ (DB_block <$> kept_dirs dirs).
Proof.
  induction dirs as [| d rest IH]; intros bv es es_kept Hholds Hperm Hnodup Hrange Hmax
    Hdesc Hsome.
  { exists bv, es. by split. }
  assert (forall es0 bv0,
            bv_holds bv0 es0 -> es0 ≡ₚ (es_kept ++ [DB_block d]) ++ (DB_block <$> rest) ->
            NoDup es0 -> Forall (fun x => 0 <= x < 2 ^ 30) es0 ->
            Z.of_nat (length es0) < 2 ^ 32 ->
            exists bv' es',
              ('(dirs', bv', size') ← journal_prune_loop jb ix need highest rest bv0
                                        (Z.of_nat (length es0));
               Some (d :: dirs', bv', size'))
              = Some (d :: kept_dirs rest, bv', Z.of_nat (length es')) /\
              bv_holds bv' es' /\
              es' ≡ₚ es_kept ++ DB_block d :: (DB_block <$> kept_dirs rest))
    as Hkept.
  { intros es0 bv0 Hh0 Hp0 Hn0 Hr0 Hm0.
    destruct (IH bv0 es0 (es_kept ++ [DB_block d]) Hh0 Hp0 Hn0 Hr0 Hm0) as (bv' & es' & -> & Hh' & Hp').
    - intros Hneed d' Hd'. apply Hdesc; [done | by right].
    - left. by destruct es_kept.
    - exists bv', es'. split; [done |]. split; [done |].
      by rewrite Hp', <- app_assoc. }
  assert (es ≡ₚ (es_kept ++ [DB_block d]) ++ (DB_block <$> rest)) as Hperm'.
  { by rewrite Hperm, <- app_assoc. }
  assert (is_journal jb (DB_block d) = true -> journal_keep jb ix need highest (DB_block d) = false ->
          exists bv' es',
            (bv1 ← (if 1 <? Z.of_nat (length es) then bv_remove bv (u32 (DB_block d))
                    else bv_erase bv);
             journal_prune_loop jb ix need highest rest bv1 (u32 (Z.of_nat (length es) - 1)))
            = Some (kept_dirs rest, bv', Z.of_nat (length es')) /\
            bv_holds bv' es' /\
            es' ≡ₚ es_kept ++ (DB_block <$> kept_dirs rest)) as Hdrop.
  { intros Hj Hk.
    assert (DB_block d ∈ es) as Hin.
    { rewrite Hperm. apply elem_of_app. right. by left. }
    assert (0 <= DB_block d < 2 ^ 30) as Hb.
    { rewrite Forall_forall in Hrange. by apply Hrange. }
    assert (es_kept <> [] \/ exists d', d' ∈ rest /\ journal_keep jb ix need highest (DB_block d') = true) as Hsome'.
    { destruct Hsome as [? | (d' & [-> | Hd']%elem_of_cons & Hkd')];
        [by left | congruence | right; eauto]. }
    assert (2 <= length es)%nat as Hlen.
    { rewrite Hperm, length_app. simpl. rewrite length_fmap.
      destruct Hsome' as [Hne | (d' & Hd' & _)].
      - destruct es_kept; [done | simpl; lia].
      - destruct rest; [by apply elem_of_nil in Hd' | simpl; lia]. }
    destruct (Z.ltb_spec 1 (Z.of_nat (length es))); [| lia].
    assert (u32 (DB_block d) = DB_block d) as -> by (unfold u32; apply Z.mod_small; lia).
    destruct (bv_remove_holds bv es (DB_block d) Hholds Hlen Hin Hrange)
      as (bv1 & es1 & l1 & l2 & -> & Hh1 & -> & Hp1).
    cbn [mbind option_bind].
    assert (length es1 = (length (l1 ++ DB_block d :: l2) - 1)%nat) as Hlen1.
    { rewrite Hp1. list_length. }
    assert (u32 (Z.of_nat (length (l1 ++ DB_block d :: l2)) - 1) = Z.of_nat (length es1))
      as ->.
    { unfold u32. rewrite Z.mod_small by lia. lia. }
    apply (IH bv1 es1 es_kept); [done | | | | lia | | done].
    - rewrite Hp1. apply (Permutation_cons_inv (a := DB_block d)).
      rewrite Permutation_middle, Hperm. by rewrite Permutation_middle.
    - rewrite Hp1. apply NoDup_app in Hnodup as (Hn1 & Hdisj & Hn2).
      apply NoDup_cons in Hn2 as [Hnotin Hn2].
      apply NoDup_app. split; [done |]. split; [| done].
      intros x Hx1 Hx2. apply (Hdisj x Hx1). by right.
    - rewrite Hp1. apply Forall_app in Hrange as [H1 H2].
      apply Forall_cons in H2 as [_ H2]. by apply Forall_app.
    - intros Hneed d' Hd'. apply Hdesc; [done | by right]. }
  cbn [journal_prune_loop List.filter].
  destruct (is_journal jb (DB_block d)) eqn:Hj.
  - destruct need eqn:Hneed.
    + destruct (Hdesc eq_refl d ltac:(by left) Hj) as [desc Hlook].
      rewrite Hlook. cbn [mbind option_bind].
      assert (journal_keep jb ix true highest (DB_block d) = (sequence desc =? highest))
        as Hkeep.
      { unfold journal_keep, journal_sequence. by rewrite Hj, Hlook. }
      rewrite <- Hkeep.
      destruct (journal_keep jb ix true highest (DB_block d)) eqn:Hk.
      * by apply Hkept.
      * by apply Hdrop.
    + cbn [mbind option_bind].
      assert (journal_keep jb ix false highest (DB_block d) = false) as Hk
        by (unfold journal_keep; by rewrite Hj).
      rewrite Hk. by apply Hdrop.
  - assert (journal_keep jb ix need highest (DB_block d) = true) as ->
      by (unfold journal_keep; by rewrite Hj).
    by apply Hkept.
Qed.
End JournalPrune.

Lemma int_of_u32_small (b : Z) : 0 <= b < 2 ^ 31 -> int_of_u32 b = b.
Proof. intros Hb. unfold int_of_u32. destruct (Z.ltb_spec b (2 ^ 31)); lia. Qed.

Lemma read_dirs_blocks (read_block : Z -> option (list DirEntry)) (es : list Z) :
  Forall (fun b => 0 <= b < 2 ^ 30) es ->
  (forall b, b ∈ es -> is_Some (read_block b)) ->
  exists dirs, read_dirs read_block es = Some dirs /\ DB_block <$> dirs = es.
Proof.
  induction es as [| b es IH]; intros Hrange Hread; simpl.
  - by exists [].
  - apply Forall_cons in Hrange as [Hb Hrange].
    rewrite int_of_u32_small by lia.
    destruct (Hread b ltac:(by left)) as [entries ->]. simpl.
    destruct (IH Hrange) as (dirs & -> & Hblocks).
    + intros b' Hb'. apply Hread. by right.
    + simpl. eexists. split; [done |]. rewrite fmap_cons. simpl. by rewrite Hblocks.
Qed.

Lemma filter_fmap_blocks (f : Z -> bool) (dirs : list DirectoryBlock) :
  DB_block <$> List.filter (fun d => f (DB_block d)) dirs
  = List.filter f (DB_block <$> dirs).
Proof.
  induction dirs as [| d rest IH]; [done |].
  rewrite fmap_cons. cbn [List.filter].
  destruct (f (DB_block d)); [rewrite fmap_cons |]; by rewrite IH.
Qed.

Lemma highest_journal_sequence_bounds (ix : JournalIndex) (es : list Z) (h : Z) :
  h <= highest_journal_sequence ix h es /\
  (forall b, b ∈ es -> journal_sequence ix b <= highest_journal_sequence ix h es) /\
  (highest_journal_sequence ix h es = h \/
   exists b, b ∈ es /\ journal_sequence ix b = highest_journal_sequence ix h es).
Proof.
  revert h. induction es as [| b es IH]; intros h; unfold highest_journal_sequence; simpl.
  - split; [lia |]. split; [by intros b ?%elem_of_nil | by left].
  - destruct (IH (Z.max h (journal_sequence ix b))) as (Hge & Hall & Hatt).
    unfold highest_journal_sequence in *. split; [lia |]. split.
    + intros b' [-> | Hb']%elem_of_cons; [lia | by apply Hall].
    + destruct Hatt as [Heq | (b' & Hb' & Heq)].
      * destruct (Z.max_spec h (journal_sequence ix b)) as [[_ Hm] | [_ Hm]].
        -- right. exists b. split; [by left | lia].
        -- left. lia.
      * right. exists b'. split; [by right | done].
Qed.

Lemma filter_unique_length (f : Z -> bool) (l : list Z) :
  NoDup l ->
  (forall x y, x ∈ l -> y ∈ l -> f x = true -> f y = true -> x = y) ->
  (length (List.filter f l) <= 1)%nat.
Proof.
  induction 1 as [| x l Hnotin Hnodup IH]; intros Huniq; simpl; [lia |].
  destruct (f x) eqn:Hfx.
  - assert (List.filter f l = []) as ->; [| simpl; lia].
    destruct (List.filter f l) as [| y rest] eqn:Hfilter; [done |].
    assert (In y (List.filter f l)) as Hy by (rewrite Hfilter; by left).
    apply filter_In in Hy as [Hy Hfy]. apply list_elem_of_In in Hy.
    assert (x = y) as -> by (apply Huniq; [by left | by right | done | done]).
    done.
  - apply IH. intros a b Ha Hb. apply Huniq; by right.
Qed.

Lemma filter_nonempty (f : Z -> bool) (l : list Z) (x : Z) :
  x ∈ l -> f x = true -> List.filter f l <> [].
Proof.
  intros Hx Hfx Hnil.
  assert (In x (List.filter f l)) as Hin.
  { apply filter_In. split; [by apply list_elem_of_In | done]. }
  by rewrite Hnil in Hin.
Qed.




(** ** The walk and its callback *)

Lemma iterate_over_all_blocks_of_fold {S : Type}
    (block_count_ : Z) (get_block_ptrs : Z -> option (list Z))
    (action : Z -> S -> S) (inode : Inode) (indirect_mask : Z) (s : S) :
  iterate_over_all_blocks_of block_count_ get_block_ptrs action inode indirect_mask s
  = match iterate_over_all_blocks_of block_count_ get_block_ptrs record_action
            inode indirect_mask [] with
    | None => None
    | Some (flag, emitted) => Some (flag, foldl (fun s b => action b s) s emitted)
    end.
Proof.
  pose proof (iterate_over_all_blocks_of_sim block_count_ get_block_ptrs
                record_action action
                (fun emitted s' => s' = foldl (fun s b => action b s) s emitted)) as Hsim.
  specialize (Hsim ltac:(intros b tr s' ->; unfold record_action; by rewrite foldl_app)
                inode indirect_mask [] s eq_refl).
  destruct (iterate_over_all_blocks_of _ _ record_action _ _ _) as [[f1 tr] |],
           (iterate_over_all_blocks_of _ _ action _ _ _) as [[f2 s'] |];
    simpl in Hsim; try done.
  by destruct Hsim as [-> ->].
Qed.

Section CleanWalkFacts.
Variable block_count_ : Z.
Variable get_block_ptrs : Z -> option (list Z).
Variable indirect_mask : Z.

Local Abbreviation c_ind := (clean_indirect block_count_ get_block_ptrs indirect_mask).
Local Abbreviation c_dind := (clean_double block_count_ get_block_ptrs indirect_mask).
Local Abbreviation b_ind := (indirect_blocks get_block_ptrs indirect_mask).
Local Abbreviation b_dind := (double_indirect_blocks get_block_ptrs indirect_mask).
Local Abbreviation b_tind := (tripple_indirect_blocks get_block_ptrs indirect_mask).

Lemma optional_record_own (p : Z) (tr : list Z) :
  (if has_bit indirect_mask indirect_bit then record_action (int_of_u32 p) tr else tr)
  = tr ++ own_number indirect_mask p.
Proof.
  unfold own_number, record_action.
  destruct (has_bit indirect_mask indirect_bit); [done | by rewrite app_nil_r].
Qed.

Lemma clean_indirect_run (p : Z) (tr : list Z) :
  has_bit indirect_mask direct_bit = true -> c_ind p ->
  iterate_over_all_blocks_of_indirect_block block_count_ get_block_ptrs record_action
    (int_of_u32 p) tr
  = Some (false, tr ++ emitted_of (slots_of get_block_ptrs p)).
Proof.
  intros Hdirect Hclean. destruct (Hclean Hdirect) as (l & Hget & Hl).
  unfold iterate_over_all_blocks_of_indirect_block, slots_of. rewrite Hget. simpl.
  by rewrite indirect_block_loop_trace.
Qed.

Lemma clean_double_loop (block_ptr : list Z) (tr : list Z) :
  Forall (fun q => q = 0 \/ (q < block_count_ /\ c_ind q)) block_ptr ->
  double_indirect_block_loop block_count_ get_block_ptrs record_action indirect_mask
    block_ptr tr
  = Some (false, tr ++ concat (b_ind <$> block_ptr)).
Proof.
  intros Hclean. revert tr.
  induction Hclean as [| q rest Hq _ IH]; intros tr; simpl.
  - by rewrite app_nil_r.
  - unfold indirect_blocks at 1.
    destruct (Z.eqb_spec q 0) as [-> | Hnz]; [apply IH |].
    destruct Hq as [? | [Hlt Hq]]; [done |].
    unfold is_block_number. destruct (Z.ltb_spec q block_count_); [| lia]. simpl.
    rewrite optional_record_own.
    destruct (has_bit indirect_mask direct_bit) eqn:Hdirect.
    + rewrite clean_indirect_run by done. rewrite IH. by rewrite <- !app_assoc.
    + rewrite IH. by rewrite app_nil_r, <- !app_assoc.
Qed.

Lemma clean_double_run (p : Z) (tr : list Z) :
  c_dind p ->
  iterate_over_all_blocks_of_double_indirect_block block_count_ get_block_ptrs
    record_action (int_of_u32 p) indirect_mask tr
  = Some (false, tr ++ concat (b_ind <$> slots_of get_block_ptrs p)).
Proof.
  intros (l & Hget & Hl).
  unfold iterate_over_all_blocks_of_double_indirect_block, slots_of. rewrite Hget. simpl.
  by apply clean_double_loop.
Qed.

Lemma clean_tripple_loop (block_ptr : list Z) (tr : list Z) :
  Forall (fun q => q = 0 \/ (q < block_count_ /\ c_dind q)) block_ptr ->
  tripple_indirect_block_loop block_count_ get_block_ptrs record_action indirect_mask
    block_ptr tr
  = Some (false, tr ++ concat (b_dind <$> block_ptr)).
Proof.
  intros Hclean. revert tr.
  induction Hclean as [| q rest Hq _ IH]; intros tr; simpl.
  - by rewrite app_nil_r.
  - unfold double_indirect_blocks at 1.
    destruct (Z.eqb_spec q 0) as [-> | Hnz]; [apply IH |].
    destruct Hq as [? | [Hlt Hq]]; [done |].
    unfold is_block_number. destruct (Z.ltb_spec q block_count_); [| lia]. simpl.
    rewrite optional_record_own.
    rewrite clean_double_run by done. rewrite IH. by rewrite <- !app_assoc.
Qed.

Lemma clean_walk_slots (block_ptr : list Z) (tr : list Z) :
  (nth EXT3_IND_BLOCK block_ptr 0 = 0 \/ c_ind (nth EXT3_IND_BLOCK block_ptr 0)) ->
  (nth EXT3_DIND_BLOCK block_ptr 0 = 0 \/ c_dind (nth EXT3_DIND_BLOCK block_ptr 0)) ->
  (nth EXT3_TIND_BLOCK block_ptr 0 = 0 \/
   clean_tripple block_count_ get_block_ptrs indirect_mask (nth EXT3_TIND_BLOCK block_ptr 0)) ->
  walk_indirect_slots block_count_ get_block_ptrs record_action block_ptr indirect_mask tr
  = Some (false, tr ++ b_ind (nth EXT3_IND_BLOCK block_ptr 0)
                    ++ b_dind (nth EXT3_DIND_BLOCK block_ptr 0)
                    ++ b_tind (nth EXT3_TIND_BLOCK block_ptr 0)).
Proof.
  intros Hind Hdind Htind. unfold walk_indirect_slots.
  assert (walk_ind_slot block_count_ get_block_ptrs record_action
            (nth EXT3_IND_BLOCK block_ptr 0) indirect_mask tr
          = Some (false, tr ++ b_ind (nth EXT3_IND_BLOCK block_ptr 0))) as ->.
  { unfold walk_ind_slot, indirect_blocks.
    destruct (Z.eqb_spec (nth EXT3_IND_BLOCK block_ptr 0) 0) as [Hz | Hnz];
      [by rewrite app_nil_r |].
    destruct Hind as [? | Hind]; [done |].
    rewrite optional_record_own.
    destruct (has_bit indirect_mask direct_bit) eqn:Hdirect.
    - rewrite clean_indirect_run by done. by rewrite <- app_assoc.
    - by rewrite app_nil_r. }
  assert (forall tr, walk_dind_slot block_count_ get_block_ptrs record_action
            (nth EXT3_DIND_BLOCK block_ptr 0) indirect_mask tr
          = Some (false, tr ++ b_dind (nth EXT3_DIND_BLOCK block_ptr 0))) as ->.
  { intros tr'. unfold walk_dind_slot, double_indirect_blocks.
    destruct (Z.eqb_spec (nth EXT3_DIND_BLOCK block_ptr 0) 0) as [Hz | Hnz];
      [by rewrite app_nil_r |].
    destruct Hdind as [? | Hdind]; [done |].
    rewrite optional_record_own, clean_double_run by done. by rewrite <- app_assoc. }
  assert (forall tr, walk_tind_slot block_count_ get_block_ptrs record_action
            (nth EXT3_TIND_BLOCK block_ptr 0) indirect_mask tr
          = Some (false, tr ++ b_tind (nth EXT3_TIND_BLOCK block_ptr 0))) as ->.
  { intros tr'. unfold walk_tind_slot, tripple_indirect_blocks.
    destruct (Z.eqb_spec (nth EXT3_TIND_BLOCK block_ptr 0) 0) as [Hz | Hnz];
      [by rewrite app_nil_r |].
    destruct Htind as [? | (l & Hget & Hl)]; [done |].
    rewrite optional_record_own.
    unfold iterate_over_all_blocks_of_tripple_indirect_block, slots_of.
    rewrite Hget. simpl. rewrite clean_tripple_loop by done. by rewrite <- app_assoc. }
  by rewrite <- !app_assoc.
Qed.
End CleanWalkFacts.

Lemma iterate_over_all_blocks_of_clean
    (block_count_ : Z) (get_block_ptrs : Z -> option (list Z))
    (inode : Inode) (indirect_mask : Z) :
  is_symlink inode && (i_blocks inode =? 0) = false ->
  (nth EXT3_IND_BLOCK (i_block inode) 0 = 0 \/
   clean_indirect block_count_ get_block_ptrs indirect_mask
     (nth EXT3_IND_BLOCK (i_block inode) 0)) ->
  (nth EXT3_DIND_BLOCK (i_block inode) 0 = 0 \/
   clean_double block_count_ get_block_ptrs indirect_mask
     (nth EXT3_DIND_BLOCK (i_block inode) 0)) ->
  (nth EXT3_TIND_BLOCK (i_block inode) 0 = 0 \/
   clean_tripple block_count_ get_block_ptrs indirect_mask
     (nth EXT3_TIND_BLOCK (i_block inode) 0)) ->
  iterate_over_all_blocks_of block_count_ get_block_ptrs record_action
    inode indirect_mask []
  = Some (false,
          (if has_bit indirect_mask direct_bit
           then emitted_of (take EXT3_NDIR_BLOCKS (i_block inode)) else []) ++
          indirect_blocks get_block_ptrs indirect_mask
            (nth EXT3_IND_BLOCK (i_block inode) 0) ++
          double_indirect_blocks get_block_ptrs indirect_mask
            (nth EXT3_DIND_BLOCK (i_block inode) 0) ++
          tripple_indirect_blocks get_block_ptrs indirect_mask
            (nth EXT3_TIND_BLOCK (i_block inode) 0)).
Proof.
  intros Hsym Hind Hdind Htind. unfold iterate_over_all_blocks_of. rewrite Hsym.
  rewrite (clean_walk_slots block_count_ get_block_ptrs indirect_mask) by done.
  destruct (has_bit indirect_mask direct_bit); [| done].
  by rewrite direct_blocks_loop_trace.
Qed.

(** ** Where the walk stops *)

Section CorruptWalkFacts.
Variable block_count_ : Z.
Variable get_block_ptrs : Z -> option (list Z).
Variable indirect_mask : Z.

Local Abbreviation c_ind := (clean_indirect block_count_ get_block_ptrs indirect_mask).
Local Abbreviation c_dind := (clean_double block_count_ get_block_ptrs indirect_mask).
Local Abbreviation b_ind := (indirect_blocks get_block_ptrs indirect_mask).
Local Abbreviation b_dind := (double_indirect_blocks get_block_ptrs indirect_mask).

Lemma corrupt_indirect_stops (slots out tr : list Z) :
  corrupt_indirect block_count_ slots out ->
  indirect_block_loop block_count_ record_action slots tr = (true, tr ++ out).
Proof.
  intros [pre post bad Hpre Hnz Hbad].
  rewrite indirect_block_loop_invalid by done.
  by rewrite indirect_block_loop_trace.
Qed.

Lemma clean_double_loop_app (pre rest : list Z) (tr : list Z) :
  Forall (fun q => q = 0 \/ (q < block_count_ /\ c_ind q)) pre ->
  double_indirect_block_loop block_count_ get_block_ptrs record_action indirect_mask
    (pre ++ rest) tr
  = double_indirect_block_loop block_count_ get_block_ptrs record_action indirect_mask
      rest (tr ++ concat (b_ind <$> pre)).
Proof.
  intros Hclean. revert tr.
  induction Hclean as [| q pre Hq _ IH]; intros tr; simpl.
  - by rewrite app_nil_r.
  - unfold indirect_blocks at 1.
    destruct (Z.eqb_spec q 0) as [-> | Hnz]; [apply IH |].
    destruct Hq as [? | [Hlt Hq]]; [done |].
    unfold is_block_number. destruct (Z.ltb_spec q block_count_); [| lia]. simpl.
    rewrite optional_record_own.
    destruct (has_bit indirect_mask direct_bit) eqn:Hdirect.
    + rewrite (clean_indirect_run block_count_ get_block_ptrs indirect_mask) by done. rewrite IH. by rewrite <- !app_assoc.
    + rewrite IH. by rewrite app_nil_r, <- !app_assoc.
Qed.

Lemma corrupt_double_stops (slots out tr : list Z) :
  corrupt_double block_count_ get_block_ptrs indirect_mask slots out ->
  double_indirect_block_loop block_count_ get_block_ptrs record_action indirect_mask
    slots tr
  = Some (true, tr ++ out).
Proof.
  intros [pre post bad Hpre Hnz Hbad | pre post q below out' Hpre Hnz Hq Hdirect Hget Hbelow];
    rewrite clean_double_loop_app by done; cbn [double_indirect_block_loop].
  - rewrite (proj2 (Z.eqb_neq bad 0)) by done. unfold is_block_number.
    by rewrite (proj2 (Z.ltb_ge bad block_count_)) by done.
  - rewrite (proj2 (Z.eqb_neq q 0)) by done. unfold is_block_number.
    rewrite (proj2 (Z.ltb_lt q block_count_)) by done. cbn [negb].
    rewrite Hdirect, optional_record_own.
    unfold iterate_over_all_blocks_of_indirect_block. rewrite Hget.
    cbn [mbind option_bind]. rewrite (corrupt_indirect_stops below out') by done.
    by rewrite <- !app_assoc.
Qed.

Lemma clean_tripple_loop_app (pre rest : list Z) (tr : list Z) :
  Forall (fun q => q = 0 \/ (q < block_count_ /\ c_dind q)) pre ->
  tripple_indirect_block_loop block_count_ get_block_ptrs record_action indirect_mask
    (pre ++ rest) tr
  = tripple_indirect_block_loop block_count_ get_block_ptrs record_action indirect_mask
      rest (tr ++ concat (b_dind <$> pre)).
Proof.
  intros Hclean. revert tr.
  induction Hclean as [| q pre Hq _ IH]; intros tr; simpl.
  - by rewrite app_nil_r.
  - unfold double_indirect_blocks at 1.
    destruct (Z.eqb_spec q 0) as [-> | Hnz]; [apply IH |].
    destruct Hq as [? | [Hlt Hq]]; [done |].
    unfold is_block_number. destruct (Z.ltb_spec q block_count_); [| lia]. simpl.
    rewrite optional_record_own.
    rewrite (clean_double_run block_count_ get_block_ptrs indirect_mask) by done. rewrite IH. by rewrite <- !app_assoc.
Qed.

Lemma corrupt_tripple_stops (slots out tr : list Z) :
  corrupt_tripple block_count_ get_block_ptrs indirect_mask slots out ->
  tripple_indirect_block_loop block_count_ get_block_ptrs record_action indirect_mask
    slots tr
  = Some (true, tr ++ out).
Proof.
  intros [pre post bad Hpre Hnz Hbad | pre post q below out' Hpre Hnz Hq Hget Hbelow];
    rewrite clean_tripple_loop_app by done; cbn [tripple_indirect_block_loop].
  - rewrite (proj2 (Z.eqb_neq bad 0)) by done. unfold is_block_number.
    by rewrite (proj2 (Z.ltb_ge bad block_count_)) by done.
  - rewrite (proj2 (Z.eqb_neq q 0)) by done. unfold is_block_number.
    rewrite (proj2 (Z.ltb_lt q block_count_)) by done. cbn [negb].
    rewrite optional_record_own.
    unfold iterate_over_all_blocks_of_double_indirect_block. rewrite Hget.
    cbn [mbind option_bind]. rewrite (corrupt_double_stops below out') by done.
    by rewrite <- !app_assoc.
Qed.

Lemma walk_ind_slot_clean (p : Z) (tr : list Z) :
  p = 0 \/ c_ind p ->
  walk_ind_slot block_count_ get_block_ptrs record_action p indirect_mask tr
  = Some (false, tr ++ b_ind p).
Proof.
  intros Hind. unfold walk_ind_slot, indirect_blocks.
  destruct (Z.eqb_spec p 0) as [Hz | Hnz]; [by rewrite app_nil_r |].
  destruct Hind as [? | Hind]; [done |].
  rewrite optional_record_own.
  destruct (has_bit indirect_mask direct_bit) eqn:Hdirect.
  - rewrite (clean_indirect_run block_count_ get_block_ptrs indirect_mask) by done. by rewrite <- app_assoc.
  - by rewrite app_nil_r.
Qed.

Lemma walk_dind_slot_clean (p : Z) (tr : list Z) :
  p = 0 \/ c_dind p ->
  walk_dind_slot block_count_ get_block_ptrs record_action p indirect_mask tr
  = Some (false, tr ++ b_dind p).
Proof.
  intros Hdind. unfold walk_dind_slot, double_indirect_blocks.
  destruct (Z.eqb_spec p 0) as [Hz | Hnz]; [by rewrite app_nil_r |].
  destruct Hdind as [? | Hdind]; [done |].
  rewrite optional_record_own, (clean_double_run block_count_ get_block_ptrs indirect_mask) by done. by rewrite <- app_assoc.
Qed.

Lemma corrupt_inode_stops (block_ptr out tr : list Z) :
  corrupt_inode block_count_ get_block_ptrs indirect_mask block_ptr out ->
  walk_indirect_slots block_count_ get_block_ptrs record_action block_ptr indirect_mask tr
  = Some (true, tr ++ out).
Proof.
  intros [slots out' Hnz Hdirect Hget Hbelow
         | slots out' Hind Hnz Hget Hbelow
         | slots out' Hind Hdind Hnz Hget Hbelow]; unfold walk_indirect_slots.
  - unfold walk_ind_slot. rewrite (proj2 (Z.eqb_neq _ 0)) by done.
    rewrite Hdirect, optional_record_own.
    unfold iterate_over_all_blocks_of_indirect_block. rewrite Hget.
    cbn [mbind option_bind]. rewrite (corrupt_indirect_stops slots out') by done.
    by rewrite <- !app_assoc.
  - rewrite walk_ind_slot_clean by done.
    unfold walk_dind_slot. rewrite (proj2 (Z.eqb_neq _ 0)) by done.
    rewrite optional_record_own.
    unfold iterate_over_all_blocks_of_double_indirect_block. rewrite Hget.
    cbn [mbind option_bind]. rewrite (corrupt_double_stops slots out') by done.
    by rewrite <- !app_assoc.
  - rewrite walk_ind_slot_clean, walk_dind_slot_clean by done.
    unfold walk_tind_slot. rewrite (proj2 (Z.eqb_neq _ 0)) by done.
    rewrite optional_record_own.
    unfold iterate_over_all_blocks_of_tripple_indirect_block. rewrite Hget.
    cbn [mbind option_bind]. rewrite (corrupt_tripple_stops slots out') by done.
    by rewrite <- !app_assoc.
Qed.
End CorruptWalkFacts.

(** C4: when the walk meets, in an indirect block at any level, a non-zero
    slot that is not below the block count, it returns the flag [true] (a
    value, not an abort) and has called the action on what lies in front of
    that slot and on nothing behind it.  For the indirect block of the
    inode: on the direct blocks, on the indirect block itself if asked to,
    and on the non-zero slots in front of the offending one.  The loops
    over a double and a triple indirect block stop at such a slot of their
    own in the same way, and they stop when the block below one of their
    slots stopped: when everything in front of the offending slot is clean,
    be it a slot of the indirect, the double indirect or the triple
    indirect block of the inode or of a block below them, the walk returns
    [true] with the blocks in front of it, in file order.  In scenario S3
    the walk returns [true] and emits block 42 only. *)
Theorem walk_stops_at_invalid_pointer
    (block_count_ : Z) (get_block_ptrs : Z -> option (list Z))
    (inode : Inode) (indirect_mask : Z) (pre post : list Z) (bad : Z) :
  is_symlink inode && (i_blocks inode =? 0) = false ->
  has_bit indirect_mask direct_bit = true ->
  nth EXT3_IND_BLOCK (i_block inode) 0 <> 0 ->
  get_block_ptrs (int_of_u32 (nth EXT3_IND_BLOCK (i_block inode) 0))
    = Some (pre ++ bad :: post) ->
  Forall (fun p => p = 0 \/ p < block_count_) pre ->
  bad <> 0 -> block_count_ <= bad ->
  iterate_over_all_blocks_of block_count_ get_block_ptrs record_action
    inode indirect_mask []
  = Some (true,
          emitted_of (take EXT3_NDIR_BLOCKS (i_block inode)) ++
          (if has_bit indirect_mask indirect_bit
           then [int_of_u32 (nth EXT3_IND_BLOCK (i_block inode) 0)] else []) ++
          emitted_of pre) /\
  (forall (mask : Z) (s : list Z),
     double_indirect_block_loop block_count_ get_block_ptrs record_action mask
       (pre ++ bad :: post) s
     = stopped (double_indirect_block_loop block_count_ get_block_ptrs record_action
                  mask pre s) /\
     tripple_indirect_block_loop block_count_ get_block_ptrs record_action mask
       (pre ++ bad :: post) s
     = stopped (tripple_indirect_block_loop block_count_ get_block_ptrs record_action
                  mask pre s)) /\
  (forall (mask : Z) (slots out tr : list Z),
     (corrupt_indirect block_count_ slots out ->
      indirect_block_loop block_count_ record_action slots tr = (true, tr ++ out)) /\
     (corrupt_double block_count_ get_block_ptrs mask slots out ->
      double_indirect_block_loop block_count_ get_block_ptrs record_action mask slots tr
      = Some (true, tr ++ out)) /\
     (corrupt_tripple block_count_ get_block_ptrs mask slots out ->
      tripple_indirect_block_loop block_count_ get_block_ptrs record_action mask slots tr
      = Some (true, tr ++ out))) /\
  (forall (other : Inode) (mask : Z) (out : list Z),
     is_symlink other && (i_blocks other =? 0) = false ->
     corrupt_inode block_count_ get_block_ptrs mask (i_block other) out ->
     iterate_over_all_blocks_of block_count_ get_block_ptrs record_action other mask []
     = Some (true,
             (if has_bit mask direct_bit
              then emitted_of (take EXT3_NDIR_BLOCKS (i_block other)) else []) ++ out)) /\
  iterate_over_all_blocks_of 100000 s3_device record_action s3_inode direct_bit []
  = Some (true, [42]).
Proof.
  intros Hsym Hdirect Hind Hblock Hpre Hnz Hbad.
  split; [| split; [| split; [| split; [| by vm_compute]]]].
  - unfold iterate_over_all_blocks_of, walk_indirect_slots. rewrite Hsym, Hdirect.
    rewrite direct_blocks_loop_trace. simpl app at 1.
    unfold walk_ind_slot.
    destruct (Z.eqb_spec (nth EXT3_IND_BLOCK (i_block inode) 0) 0); [done |].
    rewrite Hdirect. unfold iterate_over_all_blocks_of_indirect_block.
    rewrite Hblock. simpl.
    rewrite indirect_block_loop_invalid by done.
    rewrite indirect_block_loop_trace by done. simpl.
    destruct (has_bit indirect_mask indirect_bit); unfold record_action;
      by rewrite <- ?app_assoc.
  - intros mask s. split.
    + by apply double_indirect_block_loop_invalid.
    + by apply tripple_indirect_block_loop_invalid.
  - intros mask slots out tr. split; [| split].
    + apply corrupt_indirect_stops.
    + apply corrupt_double_stops.
    + apply corrupt_tripple_stops.
  - intros other mask out Hother Hcorrupt. unfold iterate_over_all_blocks_of.
    rewrite Hother.
    destruct (has_bit mask direct_bit).
    + rewrite direct_blocks_loop_trace. simpl app at 1.
      by apply corrupt_inode_stops.
    + by apply corrupt_inode_stops.
Qed.

Lemma walk_stops_at_invalid_pointer_witness :
  iterate_over_all_blocks_of 100000 s3_device record_action s3_inode
    (Z.lor direct_bit indirect_bit) []
  = Some (true, [17; 42]) /\
  iterate_over_all_blocks_of 100000 nested_device record_action nested_inode
    (Z.lor direct_bit indirect_bit) []
  = Some (true, [7; 30; 31; 40; 41; 17; 42]).
Proof.
  pose proof (walk_stops_at_invalid_pointer 100000 s3_device s3_inode
                (Z.lor direct_bit indirect_bit) [42] (19 :: replicate 1021 0)
                0x7FFFFFFF
                ltac:(reflexivity) ltac:(reflexivity) ltac:(vm_compute; discriminate)
                ltac:(reflexivity)
                ltac:(constructor; [right; reflexivity | constructor])
                ltac:(discriminate) ltac:(vm_compute; discriminate))
    as (Hs3 & _ & _ & _).
  pose proof (walk_stops_at_invalid_pointer 100000 nested_device s3_inode
                (Z.lor direct_bit indirect_bit) [42] (19 :: replicate 1021 0)
                0x7FFFFFFF
                ltac:(reflexivity) ltac:(reflexivity) ltac:(vm_compute; discriminate)
                ltac:(reflexivity)
                ltac:(constructor; [right; reflexivity | constructor])
                ltac:(discriminate) ltac:(vm_compute; discriminate))
    as (_ & _ & _ & Hnested & _).
  split; [exact Hs3 |].
  refine (eq_trans (Hnested nested_inode (Z.lor direct_bit indirect_bit) _ eq_refl _) _).
  - eapply (corrupt_below_dind _ _ _ _ ([31; 17; 33] ++ replicate 1021 0)).
    + left. reflexivity.
    + vm_compute. discriminate.
    + reflexivity.
    + eapply (corrupt_double_below _ _ _ [31] (33 :: replicate 1021 0) 17
                s3_block_17).
      * constructor; [| constructor]. right. split; [reflexivity |].
        intros _. eexists. split; [reflexivity |].
        repeat (apply Forall_cons_2; [first [left; reflexivity | right; reflexivity] |]).
        apply Forall_nil_2.
      * discriminate.
      * reflexivity.
      * reflexivity.
      * reflexivity.
      * apply (corrupt_indirect_here _ [42] (19 :: replicate 1021 0) 0x7FFFFFFF);
          [constructor; [right; reflexivity | constructor] | discriminate
          | vm_compute; discriminate].
  - vm_compute. reflexivity.
Defined.

(** X2: when no indirect block of an inode is reused or corrupted (each one
    the walk reads can be read and holds zeros and block numbers only), the
    walk returns [false] and has called the action, in file order, on the
    non-zero direct blocks (under [direct_bit]), then on what lies below the
    indirect, the double indirect and the triple indirect slot: the number
    of every indirect block itself under [indirect_bit], before the blocks
    below it, and the data blocks under [direct_bit].  Holes (zero slots)
    leave no trace: the blocks after a hole move up. *)
Theorem clean_walk_emits_blocks_in_file_order
    (block_count_ : Z) (get_block_ptrs : Z -> option (list Z))
    (inode : Inode) (indirect_mask : Z) :
  is_symlink inode && (i_blocks inode =? 0) = false ->
  (nth EXT3_IND_BLOCK (i_block inode) 0 = 0 \/
   clean_indirect block_count_ get_block_ptrs indirect_mask
     (nth EXT3_IND_BLOCK (i_block inode) 0)) ->
  (nth EXT3_DIND_BLOCK (i_block inode) 0 = 0 \/
   clean_double block_count_ get_block_ptrs indirect_mask
     (nth EXT3_DIND_BLOCK (i_block inode) 0)) ->
  (nth EXT3_TIND_BLOCK (i_block inode) 0 = 0 \/
   clean_tripple block_count_ get_block_ptrs indirect_mask
     (nth EXT3_TIND_BLOCK (i_block inode) 0)) ->
  iterate_over_all_blocks_of block_count_ get_block_ptrs record_action
    inode indirect_mask []
  = Some (false,
          (if has_bit indirect_mask direct_bit
           then emitted_of (take EXT3_NDIR_BLOCKS (i_block inode)) else []) ++
          indirect_blocks get_block_ptrs indirect_mask
            (nth EXT3_IND_BLOCK (i_block inode) 0) ++
          double_indirect_blocks get_block_ptrs indirect_mask
            (nth EXT3_DIND_BLOCK (i_block inode) 0) ++
          tripple_indirect_blocks get_block_ptrs indirect_mask
            (nth EXT3_TIND_BLOCK (i_block inode) 0)).
Proof. apply iterate_over_all_blocks_of_clean. Qed.

Lemma clean_walk_emits_blocks_in_file_order_witness :
  iterate_over_all_blocks_of 100000 hole_device record_action s3_inode
    (Z.lor direct_bit indirect_bit) []
  = Some (false, [17; 42]).
Proof.
  refine (eq_trans
            (clean_walk_emits_blocks_in_file_order 100000 hole_device s3_inode
               (Z.lor direct_bit indirect_bit) _ _ _ _) _).
  - reflexivity.
  - right. intros _. exists hole_block_17. split; [reflexivity |].
    unfold hole_block_17.
    repeat (apply Forall_cons_2; [first [left; reflexivity | right; reflexivity] |]).
    apply Forall_nil_2.
  - left. reflexivity.
  - left. reflexivity.
  - vm_compute. reflexivity.
Defined.

(** ** The bitmaps of the journal *)

Lemma get_bitmap_mask_value (n : Z) : 0 <= n -> mask (get_bitmap_mask n) = 2 ^ (n mod 64).
Proof.
  intros Hn. pose proof (mask_layout_at n Hn) as Hok. unfold mask_layout_ok in Hok.
  apply andb_prop in Hok as [Hok _]. apply andb_prop in Hok as [Hmask _].
  apply Z.eqb_eq in Hmask. unfold mask in *. by rewrite get_bitmap_mask_mod.
Qed.

Lemma bitmap_test_testbit (bitmap : list Z) (n : Z) :
  0 <= n ->
  bitmap_test bitmap n = Z.testbit (nth (Z.to_nat (n / 64)) bitmap 0) (n mod 64).
Proof.
  intros Hn. unfold bitmap_test.
  pose proof (Z.mod_pos_bound n 64 ltac:(lia)).
  rewrite get_bitmap_mask_value, land_pow2_eqb, negb_involutive by lia.
  simpl index. rewrite Z.shiftr_div_pow2 by lia. done.
Qed.

Lemma bitmap_test_zeros (size : nat) (n : Z) :
  0 <= n -> bitmap_test (replicate size 0) n = false.
Proof.
  intros Hn. rewrite bitmap_test_testbit by done.
  rewrite nth_lookup. destruct (replicate size 0 !! _) as [x |] eqn:Hx; simpl.
  - apply lookup_replicate in Hx as [-> _]. apply Z.bits_0.
  - apply Z.bits_0.
Qed.

Lemma fill_journal_bitmap_action_test (min_block b : Z) (bitmap : list Z) (j : Z) :
  0 <= b - min_block < 2 ^ 32 ->
  b - min_block < 64 * Z.of_nat (length bitmap) ->
  0 <= j ->
  bitmap_test (fill_journal_bitmap_action min_block b bitmap) j
  = (j =? b - min_block) || bitmap_test bitmap j.
Proof.
  intros Hk Hlen Hj. unfold fill_journal_bitmap_action.
  set (k := b - min_block) in *.
  unfold u32. rewrite (Z.mod_small k) by lia.
  rewrite get_bitmap_mask_value by lia. simpl index.
  rewrite Z.shiftr_div_pow2 by lia. change (2 ^ 6) with 64.
  rewrite !bitmap_test_testbit by done.
  pose proof (Z.mod_pos_bound k 64 ltac:(lia)).
  pose proof (Z.mod_pos_bound j 64 ltac:(lia)).
  assert (0 <= k / 64) by (apply Z.div_pos; lia).
  assert (0 <= j / 64) by (apply Z.div_pos; lia).
  destruct (decide (j / 64 = k / 64)) as [Heq | Hne].
  - rewrite Heq. rewrite (nth_lookup (<[_ := _]> _)), list_lookup_insert_eq.
    2:{ apply Nat2Z.inj_lt. rewrite Z2Nat.id by done.
        apply Z.div_lt_upper_bound; lia. }
    simpl. rewrite Z.lor_spec, Z.pow2_bits_eqb by lia.
    rewrite orb_comm. f_equal.
    destruct (Z.eqb_spec (k mod 64) (j mod 64)) as [Hm | Hm];
      destruct (Z.eqb_spec j k) as [Hjk | Hjk]; try done.
    + exfalso. apply Hjk.
      rewrite (Z.div_mod j 64), (Z.div_mod k 64) by lia. lia.
    + exfalso. apply Hm. by rewrite Hjk.
  - rewrite (nth_lookup (<[_ := _]> _)), list_lookup_insert_ne, <- nth_lookup by lia.
    destruct (Z.eqb_spec j k) as [Hjk | Hjk]; [| done].
    exfalso. apply Hne. by rewrite Hjk.
Qed.

Lemma fill_journal_bitmap_fold (min_block : Z) (blocks : list Z) (bitmap : list Z) (j : Z) :
  Forall (fun b => 0 <= b - min_block < 2 ^ 32 /\
                   b - min_block < 64 * Z.of_nat (length bitmap)) blocks ->
  0 <= j ->
  bitmap_test (foldl (fun bm b => fill_journal_bitmap_action min_block b bm) bitmap blocks) j
  = bool_decide (j + min_block ∈ blocks) || bitmap_test bitmap j.
Proof.
  intros Hblocks Hj. revert bitmap Hblocks.
  induction blocks as [| b rest IH]; intros bitmap Hblocks; simpl foldl.
  - rewrite bool_decide_eq_false_2; [done | by intros ?%elem_of_nil].
  - apply Forall_cons in Hblocks as [[Hb Hlen] Hrest].
    rewrite IH.
    2:{ eapply Forall_impl; [exact Hrest |]. intros x Hx. simpl in Hx.
        unfold fill_journal_bitmap_action. by rewrite length_insert. }
    rewrite fill_journal_bitmap_action_test by done.
    rewrite orb_assoc. f_equal.
    destruct (Z.eqb_spec j (b - min_block)) as [Hjb | Hjb].
    + rewrite orb_true_r. symmetry. apply bool_decide_eq_true_2.
      apply elem_of_cons. left. lia.
    + rewrite orb_false_r. apply bool_decide_ext. rewrite elem_of_cons.
      split; [by right | intros [? | ?]; [lia | done]].
Qed.

(** What [find_blocknr_range_action] leaves behind. *)
Lemma find_blocknr_range_fold (blocks : list Z) (smallest largest : Z) :
  let range := foldl (fun r b => find_blocknr_range_action b r) (smallest, largest) blocks in
  range.1 <= smallest /\ largest <= range.2 /\
  (forall b, b ∈ blocks -> range.1 <= b <= range.2) /\
  (range.1 = smallest \/ range.1 ∈ blocks) /\
  (range.2 = largest \/ range.2 ∈ blocks).
Proof.
  revert smallest largest. induction blocks as [| b rest IH]; intros smallest largest.
  - simpl. split; [lia |]. split; [lia |].
    split; [by intros x ?%elem_of_nil |]. split; by left.
  - simpl foldl. unfold find_blocknr_range_action at 2. simpl.
    specialize (IH (if b <? smallest then b else smallest)
                   (if largest <? b then b else largest)).
    simpl in IH. destruct IH as (H1 & H2 & H3 & H4 & H5).
    destruct (Z.ltb_spec b smallest), (Z.ltb_spec largest b);
      (split; [lia |]; split; [lia |]; split;
       [ intros x [-> | Hx]%elem_of_cons; [lia | by apply H3]
       | split;
         [ destruct H4 as [H4 | H4]; [first [by left | right; rewrite H4; by left]
                                     | right; by right]
         | destruct H5 as [H5 | H5]; [first [by left | right; rewrite H5; by left]
                                     | right; by right] ] ]).
Qed.

(** A walk under [indirect_bit] alone sees no block that the walk under
    both bits does not see. *)
Section WalkerMasks.
Variable block_count_ : Z.
Variable get_block_ptrs : Z -> option (list Z).

Local Abbreviation both := (Z.lor indirect_bit direct_bit).

Lemma indirect_block_loop_grows (block_ptr : list Z) (tr : list Z) :
  tr ⊆ (indirect_block_loop block_count_ record_action block_ptr tr).2.
Proof.
  revert tr. induction block_ptr as [| p rest IH]; intros tr; simpl; [done |].
  destruct (p =? 0); [apply IH |].
  destruct (negb (is_block_number block_count_ p)); [done |].
  etransitivity; [| apply IH]. unfold record_action.
  intros x Hx. apply elem_of_app. by left.
Qed.

Lemma double_indirect_block_loop_masks (block_ptr : list Z) (tr3 tr2 r3 : list Z) :
  tr2 ⊆ tr3 ->
  double_indirect_block_loop block_count_ get_block_ptrs record_action both block_ptr tr3
  = Some (false, r3) ->
  exists r2,
    double_indirect_block_loop block_count_ get_block_ptrs record_action indirect_bit
      block_ptr tr2 = Some (false, r2) /\ r2 ⊆ r3.
Proof.
  revert tr3 tr2. induction block_ptr as [| p rest IH]; intros tr3 tr2 Hsub Hrun.
  - simpl in *. injection Hrun as <-. by exists tr2.
  - simpl in Hrun. simpl double_indirect_block_loop.
    destruct (p =? 0); [by eapply IH |].
    destruct (negb (is_block_number block_count_ p)); [done |].
    change (has_bit both indirect_bit) with true in Hrun.
    change (has_bit both direct_bit) with true in Hrun.
    change (has_bit indirect_bit indirect_bit) with true.
    change (has_bit indirect_bit direct_bit) with false.
    cbv iota in Hrun |- *.
    unfold iterate_over_all_blocks_of_indirect_block in Hrun.
    destruct (get_block_ptrs (int_of_u32 p)) as [l |]; [| done]. simpl in Hrun.
    pose proof (indirect_block_loop_grows l (record_action (int_of_u32 p) tr3)) as Hgrow.
    destruct (indirect_block_loop _ _ l _) as [[|] s2]; [done |]. simpl in Hgrow.
    eapply IH; [| exact Hrun].
    etransitivity; [| exact Hgrow]. unfold record_action.
    intros x [Hx | Hx]%elem_of_app; apply elem_of_app; [left; by apply Hsub | by right].
Qed.

Lemma iterate_double_indirect_masks (block : Z) (tr3 tr2 r3 : list Z) :
  tr2 ⊆ tr3 ->
  iterate_over_all_blocks_of_double_indirect_block block_count_ get_block_ptrs
    record_action block both tr3 = Some (false, r3) ->
  exists r2,
    iterate_over_all_blocks_of_double_indirect_block block_count_ get_block_ptrs
      record_action block indirect_bit tr2 = Some (false, r2) /\ r2 ⊆ r3.
Proof.
  intros Hsub Hrun. unfold iterate_over_all_blocks_of_double_indirect_block in *.
  destruct (get_block_ptrs block) as [l |]; [| done]. simpl in *.
  by eapply double_indirect_block_loop_masks.
Qed.

Lemma record_both_sides (p : Z) (tr2 tr3 : list Z) :
  tr2 ⊆ tr3 -> record_action p tr2 ⊆ record_action p tr3.
Proof.
  intros Hsub x [Hx | Hx]%elem_of_app; apply elem_of_app; [left; by apply Hsub | by right].
Qed.

Lemma tripple_indirect_block_loop_masks (block_ptr : list Z) (tr3 tr2 r3 : list Z) :
  tr2 ⊆ tr3 ->
  tripple_indirect_block_loop block_count_ get_block_ptrs record_action both block_ptr tr3
  = Some (false, r3) ->
  exists r2,
    tripple_indirect_block_loop block_count_ get_block_ptrs record_action indirect_bit
      block_ptr tr2 = Some (false, r2) /\ r2 ⊆ r3.
Proof.
  revert tr3 tr2. induction block_ptr as [| p rest IH]; intros tr3 tr2 Hsub Hrun.
  - simpl in *. injection Hrun as <-. by exists tr2.
  - simpl in Hrun. simpl tripple_indirect_block_loop.
    destruct (p =? 0); [by eapply IH |].
    destruct (negb (is_block_number block_count_ p)); [done |].
    change (has_bit both indirect_bit) with true in Hrun.
    change (has_bit indirect_bit indirect_bit) with true.
    cbv iota in Hrun |- *.
    destruct (iterate_over_all_blocks_of_double_indirect_block _ _ _ _ both _)
      as [[[|] s3] |] eqn:Hd3; try done.
    destruct (iterate_double_indirect_masks (int_of_u32 p)
                (record_action (int_of_u32 p) tr3) (record_action (int_of_u32 p) tr2) s3
                (record_both_sides _ _ _ Hsub) Hd3) as (s2 & -> & Hs2).
    by eapply IH.
Qed.

Lemma walk_ind_slot_masks (p : Z) (tr3 tr2 r3 : list Z) :
  tr2 ⊆ tr3 ->
  walk_ind_slot block_count_ get_block_ptrs record_action p both tr3 = Some (false, r3) ->
  exists r2,
    walk_ind_slot block_count_ get_block_ptrs record_action p indirect_bit tr2
    = Some (false, r2) /\ r2 ⊆ r3.
Proof.
  intros Hsub. unfold walk_ind_slot.
  destruct (p =? 0); [intros [= <-]; by exists tr2 |].
  change (has_bit both indirect_bit) with true.
  change (has_bit both direct_bit) with true.
  change (has_bit indirect_bit indirect_bit) with true.
  change (has_bit indirect_bit direct_bit) with false. cbv iota.
  unfold iterate_over_all_blocks_of_indirect_block.
  destruct (get_block_ptrs _) as [l |]; [| done]. simpl. intros [= Heq].
  eexists. split; [done |].
  pose proof (indirect_block_loop_grows l (record_action (int_of_u32 p) tr3)) as Hgrow.
  rewrite Heq in Hgrow. simpl in Hgrow.
  etransitivity; [| exact Hgrow]. by apply record_both_sides.
Qed.

Lemma walk_dind_slot_masks (p : Z) (tr3 tr2 r3 : list Z) :
  tr2 ⊆ tr3 ->
  walk_dind_slot block_count_ get_block_ptrs record_action p both tr3 = Some (false, r3) ->
  exists r2,
    walk_dind_slot block_count_ get_block_ptrs record_action p indirect_bit tr2
    = Some (false, r2) /\ r2 ⊆ r3.
Proof.
  intros Hsub. unfold walk_dind_slot.
  destruct (p =? 0); [intros [= <-]; by exists tr2 |].
  change (has_bit both indirect_bit) with true.
  change (has_bit indirect_bit indirect_bit) with true. cbv iota.
  intros Hrun. eapply iterate_double_indirect_masks; [| exact Hrun].
  by apply record_both_sides.
Qed.

Lemma walk_tind_slot_masks (p : Z) (tr3 tr2 r3 : list Z) :
  tr2 ⊆ tr3 ->
  walk_tind_slot block_count_ get_block_ptrs record_action p both tr3 = Some (false, r3) ->
  exists r2,
    walk_tind_slot block_count_ get_block_ptrs record_action p indirect_bit tr2
    = Some (false, r2) /\ r2 ⊆ r3.
Proof.
  intros Hsub. unfold walk_tind_slot.
  destruct (p =? 0); [intros [= <-]; by exists tr2 |].
  change (has_bit both indirect_bit) with true.
  change (has_bit indirect_bit indirect_bit) with true. cbv iota.
  unfold iterate_over_all_blocks_of_tripple_indirect_block.
  destruct (get_block_ptrs _) as [l |]; [| done]. simpl.
  intros Hrun. eapply tripple_indirect_block_loop_masks; [| exact Hrun].
  by apply record_both_sides.
Qed.

Lemma iterate_over_all_blocks_of_masks (inode : Inode) (r3 : list Z) :
  iterate_over_all_blocks_of block_count_ get_block_ptrs record_action inode both []
  = Some (false, r3) ->
  exists r2,
    iterate_over_all_blocks_of block_count_ get_block_ptrs record_action inode
      indirect_bit [] = Some (false, r2) /\ r2 ⊆ r3.
Proof.
  unfold iterate_over_all_blocks_of.
  destruct (is_symlink inode && (i_blocks inode =? 0)).
  { intros [= <-]. by exists []. }
  change (has_bit both direct_bit) with true.
  change (has_bit indirect_bit direct_bit) with false. cbv iota.
  unfold walk_indirect_slots. intros Hrun.
  destruct (walk_ind_slot _ _ _ _ both _) as [[[|] a3] |] eqn:Ha; try done.
  destruct (walk_ind_slot_masks _ _ [] a3 ltac:(by intros x ?%elem_of_nil) Ha)
    as (a2 & -> & Ha2).
  destruct (walk_dind_slot _ _ _ _ both _) as [[[|] b3] |] eqn:Hb; try done.
  destruct (walk_dind_slot_masks _ _ _ b3 Ha2 Hb) as (b2 & -> & Hb2).
  destruct (walk_tind_slot _ _ _ _ both _) as [[[|] c3] |] eqn:Hc; try done.
  destruct (walk_tind_slot_masks _ _ _ c3 Hb2 Hc) as (c2 & -> & Hc2).
  injection Hrun as <-. by exists c2.
Qed.
End WalkerMasks.

Lemma journal_bitmap_size (lo hi b : Z) :
  lo <= b < hi ->
  b - lo < 64 * Z.of_nat (length (replicate (Z.to_nat (Z.quot (hi - lo + 63) 64)) 0)).
Proof.
  intros Hb. rewrite length_replicate, Z2Nat.id.
  - rewrite Z.quot_div_nonneg by lia. Z.to_euclidean_division_equations. lia.
  - apply Z.quot_pos; lia.
Qed.

Lemma journal_bitmap_filled (lo hi : Z) (blocks : list Z) (b : Z) :
  Forall (fun x => lo <= x < hi) blocks ->
  hi - lo < 2 ^ 32 ->
  lo <= b < hi ->
  bitmap_test
    (foldl (fun bm x => fill_journal_bitmap_action lo x bm)
       (replicate (Z.to_nat (Z.quot (hi - lo + 63) 64)) 0) blocks)
    (u32 (b - lo))
  = bool_decide (b ∈ blocks).
Proof.
  intros Hblocks Hsize Hb. unfold u32. rewrite Z.mod_small by lia.
  rewrite fill_journal_bitmap_fold.
  - rewrite bitmap_test_zeros, orb_false_r by lia.
    apply bool_decide_ext. by replace (b - lo + lo) with b by lia.
  - eapply Forall_impl; [exact Hblocks |]. intros x Hx. simpl in Hx.
    split; [lia |]. by apply journal_bitmap_size.
  - lia.
Qed.

(** X3: [init_journal] walks the journal inode three times.  When the walk
    under both bits returns [false] and only block numbers, at least two
    different ones, the first part of [init_journal] does not abort;
    [min_journal_block] is the smallest and [max_journal_block] one more
    than the largest block the walk emitted; afterwards [is_journal] holds
    of exactly the blocks that walk emitted (the data blocks and the
    indirect blocks of the journal inode; of none when the journal is
    external) and [is_indirect_block_in_journal] of exactly the blocks the
    walk under [indirect_bit] emits, which are among the former. *)
Theorem journal_bitmaps_mark_the_walked_blocks
    (g : Geometry) (inode_bitmap : Z -> list Z) (all_inodes : Z -> list Inode)
    (block_count_ : Z) (get_block_ptrs : Z -> option (list Z))
    (journal_dev journal_inum : Z) (journal_inode : Inode) (emitted : list Z) :
  0 < block_count_ < 2 ^ 31 - 64 ->
  is_allocated g inode_bitmap (int_of_u32 journal_inum) = Some true ->
  get_inode g all_inodes (int_of_u32 journal_inum) = Some journal_inode ->
  iterate_over_all_blocks_of block_count_ get_block_ptrs record_action journal_inode
    (Z.lor indirect_bit direct_bit) [] = Some (false, emitted) ->
  Forall (fun b => 0 <= b < block_count_) emitted ->
  (exists b1 b2, b1 ∈ emitted /\ b2 ∈ emitted /\ b1 < b2) ->
  exists jb indirect_bitmap indirect,
    init_journal_blocks g inode_bitmap all_inodes block_count_ get_block_ptrs
      journal_dev journal_inum = Some (jb, indirect_bitmap) /\
    iterate_over_all_blocks_of block_count_ get_block_ptrs record_action journal_inode
      indirect_bit [] = Some (false, indirect) /\
    indirect ⊆ emitted /\
    min_journal_block jb ∈ emitted /\
    max_journal_block jb - 1 ∈ emitted /\
    (forall b, b ∈ emitted -> min_journal_block jb <= b < max_journal_block jb) /\
    (forall b, is_journal jb b = (journal_dev =? 0) && bool_decide (b ∈ emitted)) /\
    (forall b, is_indirect_block_in_journal jb indirect_bitmap b
               = bool_decide (b ∈ indirect)).
Proof.
  intros Hcount Halloc Hinode Hwalk Hrange (b1 & b2 & Hb1 & Hb2 & Hlt).
  destruct (iterate_over_all_blocks_of_masks block_count_ get_block_ptrs journal_inode
              emitted Hwalk) as (indirect & Hwalk2 & Hsub).
  pose proof (find_blocknr_range_fold emitted (int_of_u32 block_count_) 0) as Hfold.
  unfold init_journal_blocks. rewrite Halloc. cbn [mbind option_bind negb].
  rewrite Hinode. cbn [mbind option_bind].
  rewrite (iterate_over_all_blocks_of_fold _ _ find_blocknr_range_action), Hwalk.
  cbn [mbind option_bind].
  set (range := foldl (fun r b => find_blocknr_range_action b r)
                  (int_of_u32 block_count_, 0) emitted) in *.
  cbv zeta in Hfold. destruct Hfold as (Hlo & Hhi & Hin & Hmin & Hmax).
  rewrite int_of_u32_small in Hlo, Hmin by lia.
  rewrite Forall_forall in Hrange.
  pose proof (Hrange b1 Hb1). pose proof (Hrange b2 Hb2).
  pose proof (Hin b1 Hb1). pose proof (Hin b2 Hb2).
  assert (range.1 ∈ emitted) as Hmin' by (destruct Hmin as [? | ?]; [lia | done]).
  assert (range.2 ∈ emitted) as Hmax' by (destruct Hmax as [? | ?]; [lia | done]).
  pose proof (Hrange _ Hmin'). pose proof (Hrange _ Hmax').
  destruct (Z.ltb_spec range.1 range.2) as [_ | ?]; [| lia]. cbn [negb].
  rewrite (iterate_over_all_blocks_of_fold _ _ (fill_journal_bitmap_action range.1)
             journal_inode indirect_bit), Hwalk2.
  cbn [mbind option_bind].
  rewrite (iterate_over_all_blocks_of_fold _ _ (fill_journal_bitmap_action range.1)
             journal_inode (Z.lor indirect_bit direct_bit)), Hwalk.
  cbn [mbind option_bind].
  eexists _, _, indirect. split; [reflexivity |]. split; [reflexivity |].
  split; [exact Hsub |]. cbn [min_journal_block max_journal_block].
  split; [exact Hmin' |].
  split; [by replace (range.2 + 1 - 1) with range.2 by lia |].
  split; [intros b Hb; specialize (Hin b Hb); lia |].
  assert (Forall (fun x => range.1 <= x < range.2 + 1) emitted) as Hall.
  { apply Forall_forall. intros x Hx. specialize (Hin x Hx). lia. }
  assert (Forall (fun x => range.1 <= x < range.2 + 1) indirect) as Hall2.
  { apply Forall_forall. intros x Hx. specialize (Hin x (Hsub x Hx)). lia. }
  split.
  - intros b. unfold is_journal, is_in_journal.
    cbn [s_journal_dev min_journal_block max_journal_block journal_block_bitmap].
    destruct (Z.eqb_spec journal_dev 0) as [_ | _]; [| done]. cbn [negb andb].
    destruct (Z.leb_spec range.1 b), (Z.ltb_spec b (range.2 + 1)); cbn [negb andb].
    + apply journal_bitmap_filled; [done | lia | lia].
    + symmetry. apply bool_decide_eq_false_2. intros Hb. specialize (Hin b Hb). lia.
    + symmetry. apply bool_decide_eq_false_2. intros Hb. specialize (Hin b Hb). lia.
    + symmetry. apply bool_decide_eq_false_2. intros Hb. specialize (Hin b Hb). lia.
  - intros b. unfold is_indirect_block_in_journal.
    cbn [min_journal_block max_journal_block].
    destruct (Z.leb_spec (range.2 + 1) b), (Z.ltb_spec b range.1); cbn [orb].
    + symmetry. apply bool_decide_eq_false_2. intros Hb. specialize (Hin b (Hsub b Hb)). lia.
    + symmetry. apply bool_decide_eq_false_2. intros Hb. specialize (Hin b (Hsub b Hb)). lia.
    + symmetry. apply bool_decide_eq_false_2. intros Hb. specialize (Hin b (Hsub b Hb)). lia.
    + apply journal_bitmap_filled; [done | lia | lia].
Qed.

Lemma journal_bitmaps_mark_the_walked_blocks_witness :
  exists jb indirect_bitmap,
    init_journal_blocks s4_geometry j_inode_bitmap j_all_inodes 8192 (fun _ => None) 0 8
    = Some (jb, indirect_bitmap) /\
    is_journal jb 101 = true /\ is_journal jb 103 = false.
Proof.
  destruct (journal_bitmaps_mark_the_walked_blocks s4_geometry j_inode_bitmap
              j_all_inodes 8192 (fun _ => None) 0 8 j_journal_inode [100; 101; 102])
    as (jb & ib & indirect & Hinit & _ & _ & _ & _ & _ & Hjournal & _).
  - lia.
  - vm_compute. reflexivity.
  - vm_compute. reflexivity.
  - vm_compute. reflexivity.
  - repeat (apply Forall_cons_2; [lia |]). apply Forall_nil_2.
  - exists 100, 101. split; [| split; [| lia]].
    + apply elem_of_cons. by left.
    + apply elem_of_cons. right. apply elem_of_cons. by left.
  - exists jb, ib. split; [exact Hinit |]. rewrite !Hjournal. split; reflexivity.
Defined.

(** ** Block [k] of the journal file *)

Lemma emitted_of_dense (n : Z) (block_ptr : list Z) (k : nat) :
  dense_upto n block_ptr -> Z.of_nat k < n ->
  emitted_of block_ptr !! k = int_of_u32 <$> block_ptr !! k.
Proof.
  revert n k. induction block_ptr as [| p rest IH]; intros n k Hd Hk.
  - destruct (Hd k Hk) as (q & Hq & _). by rewrite lookup_nil in Hq.
  - rewrite emitted_of_cons.
    destruct (Hd 0%nat ltac:(lia)) as (q & Hq & Hnz). simpl in Hq. injection Hq as ->.
    destruct (Z.eqb_spec q 0); [done |]. destruct k as [| k]; [done |]. simpl.
    apply (IH (n - 1)); [| lia]. intros i Hi. apply (Hd (Datatypes.S i)). lia.
Qed.

Lemma emitted_of_length (block_ptr : list Z) :
  dense_upto (Z.of_nat (length block_ptr)) block_ptr ->
  length (emitted_of block_ptr) = length block_ptr.
Proof.
  induction block_ptr as [| p rest IH]; intros Hd; [done |].
  rewrite emitted_of_cons.
  destruct (Hd 0%nat ltac:(simpl; lia)) as (q & Hq & Hnz). simpl in Hq. injection Hq as ->.
  destruct (Z.eqb_spec q 0); [done |]. simpl. f_equal. apply IH.
  intros i Hi. apply (Hd (Datatypes.S i)). simpl. lia.
Qed.

Lemma concat_lookup_uniform (ls : list (list Z)) (n a r : nat) (l : list Z) (x : Z) :
  (forall i, (i < a)%nat -> exists l', ls !! i = Some l' /\ length l' = n) ->
  ls !! a = Some l -> l !! r = Some x ->
  concat ls !! (a * n + r)%nat = Some x.
Proof.
  revert ls. induction a as [| a IH]; intros ls Hfull Hl Hx.
  - destruct ls as [| l0 rest]; [done |]. simpl in Hl. injection Hl as ->.
    simpl. by apply lookup_app_l_Some.
  - destruct ls as [| l0 rest]; [done |]. simpl in Hl.
    destruct (Hfull 0%nat ltac:(lia)) as (l' & Hl' & Hlen). simpl in Hl'.
    injection Hl' as <-. simpl concat. rewrite lookup_app_r by (simpl; lia).
    replace (Datatypes.S a * n + r - length l0)%nat with (a * n + r)%nat by (simpl; lia).
    apply IH; [| done | done]. intros i Hi. apply (Hfull (Datatypes.S i)). lia.
Qed.

Lemma slots_of_Some (get_block_ptrs : Z -> option (list Z)) (p : Z) (i : nat) (q : Z) :
  slots_of get_block_ptrs p !! i = Some q ->
  get_block_ptrs (int_of_u32 p) = Some (slots_of get_block_ptrs p).
Proof.
  unfold slots_of. destruct (get_block_ptrs (int_of_u32 p)); simpl; [done |].
  by rewrite lookup_nil.
Qed.

Lemma dense_upto_take (n : Z) (m : nat) (block_ptr : list Z) :
  dense_upto n block_ptr -> n <= Z.of_nat m -> dense_upto n (take m block_ptr).
Proof.
  intros Hd Hn i Hi. destruct (Hd i Hi) as (q & Hq & Hnz).
  exists q. split; [| done]. rewrite lookup_take_lt by lia. done.
Qed.

Lemma vpb_value (block_size : Z) :
  0 < block_size < 2 ^ 31 -> int_of_size_t (u64 block_size / 4) = block_size / 4.
Proof.
  intros Hbs. unfold int_of_size_t, u64, u32.
  rewrite (Z.mod_small block_size) by lia.
  assert (0 <= block_size / 4 < 2 ^ 31) by (Z.to_euclidean_division_equations; lia).
  rewrite Z.mod_small by lia. by apply int_of_u32_small.
Qed.

(** X4: on a journal inode whose indirect blocks are intact,
    [journal_block_to_real_block] and the walk agree: when the journal file
    has no hole up to its block [k] (below the triple indirect range), the
    file system block [journal_block_to_real_block] gives for [k] is the
    block the walk under [direct_bit] emits at position [k]. *)
Theorem journal_block_is_kth_walked_block
    (block_count_ : Z) (get_block_ptrs : Z -> option (list Z)) (journal_inode : Inode)
    (journal_maxlen_ block_size : Z) (k : Z) :
  0 < block_size < 2 ^ 31 ->
  (forall b l, get_block_ptrs b = Some l -> Z.of_nat (length l) = block_size / 4) ->
  length (i_block journal_inode) = 15%nat ->
  is_symlink journal_inode && (i_blocks journal_inode =? 0) = false ->
  (nth EXT3_IND_BLOCK (i_block journal_inode) 0 = 0 \/
   clean_indirect block_count_ get_block_ptrs direct_bit
     (nth EXT3_IND_BLOCK (i_block journal_inode) 0)) ->
  (nth EXT3_DIND_BLOCK (i_block journal_inode) 0 = 0 \/
   clean_double block_count_ get_block_ptrs direct_bit
     (nth EXT3_DIND_BLOCK (i_block journal_inode) 0)) ->
  (nth EXT3_TIND_BLOCK (i_block journal_inode) 0 = 0 \/
   clean_tripple block_count_ get_block_ptrs direct_bit
     (nth EXT3_TIND_BLOCK (i_block journal_inode) 0)) ->
  0 <= k < journal_maxlen_ ->
  k < 12 + block_size / 4 + block_size / 4 * (block_size / 4) ->
  no_hole_upto get_block_ptrs (block_size / 4) journal_inode k ->
  exists emitted b,
    iterate_over_all_blocks_of block_count_ get_block_ptrs record_action journal_inode
      direct_bit [] = Some (false, emitted) /\
    emitted !! Z.to_nat k = Some b /\
    journal_block_to_real_block journal_maxlen_ block_size get_block_ptrs journal_inode k
    = Some b.
Proof.
  intros Hbs Hlen Hslots Hsym Hci Hcd Hct Hk Hk2 Hdense.
  pose proof (iterate_over_all_blocks_of_clean block_count_ get_block_ptrs journal_inode
                direct_bit Hsym Hci Hcd Hct) as Hwalk.
  change (has_bit direct_bit direct_bit) with true in Hwalk. cbv iota in Hwalk.
  unfold journal_block_to_real_block. rewrite vpb_value by done.
  set (vpb := block_size / 4) in *.
  destruct (Z.leb_spec 0 k); [| lia]. destruct (Z.ltb_spec k journal_maxlen_); [| lia].
  cbn [andb negb].
  unfold no_hole_upto in Hdense.
  destruct (Z.ltb_spec k 12) as [Hdirect | Hdirect].
  - (* a direct block *)
    destruct (Hdense (Z.to_nat k) ltac:(lia)) as (q & Hq & Hnz).
    eexists _, (int_of_u32 q). split; [exact Hwalk |]. split.
    + apply lookup_app_l_Some.
      rewrite (emitted_of_dense (k + 1)); [| apply dense_upto_take; [done | unfold EXT3_NDIR_BLOCKS; lia] | lia].
      rewrite lookup_take_lt by (unfold EXT3_NDIR_BLOCKS; lia). by rewrite Hq.
    + by rewrite (nth_lookup_Some _ _ _ _ Hq).
  - destruct Hdense as (Hd12 & Hind & Hdense).
    assert (length (emitted_of (take EXT3_NDIR_BLOCKS (i_block journal_inode))) = 12%nat)
      as HlenD.
    { rewrite emitted_of_length; rewrite length_take, Hslots; [done |].
      apply dense_upto_take; [done | unfold EXT3_NDIR_BLOCKS; lia]. }
    unfold indirect_blocks at 1 in Hwalk.
    destruct (Z.eqb_spec (nth EXT3_IND_BLOCK (i_block journal_inode) 0) 0); [done |].
    unfold own_number at 1 in Hwalk.
    change (has_bit direct_bit indirect_bit) with false in Hwalk.
    change (has_bit direct_bit direct_bit) with true in Hwalk.
    cbv iota in Hwalk. rewrite app_nil_l in Hwalk.
    destruct (Z.ltb_spec (k - 12) vpb) as [Hsingle | Hsingle].
    + (* a block of the indirect block *)
      destruct (Hdense (Z.to_nat (k - 12)) ltac:(lia)) as (q & Hq & Hnz).
      eexists _, (int_of_u32 q). split; [exact Hwalk |]. split.
      * rewrite lookup_app_r by lia. rewrite HlenD.
        replace (Z.to_nat k - 12)%nat with (Z.to_nat (k - 12)) by lia.
        apply lookup_app_l_Some.
        rewrite (emitted_of_dense (k - 12 + 1)) by (done || lia). by rewrite Hq.
      * rewrite (slots_of_Some _ _ _ _ Hq). cbn [mbind option_bind].
        rewrite Hq. done.
    + (* a block below the double indirect block *)
      destruct Hdense as (Hdvpb & Hdind & Hda & Hfull & Hlast).
      set (k' := k - 12 - vpb) in *.
      assert (0 <= vpb) as Hvpb0 by (unfold vpb; apply Z.div_pos; lia).
      assert (0 < vpb) as Hvpb by nia.
      assert (0 <= k' / vpb) as Ha0 by (apply Z.div_pos; lia).
      pose proof (Z.mod_pos_bound k' vpb Hvpb) as Hr.
      destruct (Hdvpb 0%nat ltac:(lia)) as (q0 & Hq0 & _).
      pose proof (Hlen _ _ (slots_of_Some _ _ _ _ Hq0)) as Hlen1.
      assert (length (emitted_of (slots_of get_block_ptrs
                (nth EXT3_IND_BLOCK (i_block journal_inode) 0))) = Z.to_nat vpb) as HlenI.
      { rewrite emitted_of_length; [lia |]. by rewrite Hlen1. }
      destruct (Hda (Z.to_nat (k' / vpb)) ltac:(lia)) as (qa & Hqa & Hqanz).
      rewrite (nth_lookup_Some _ _ _ _ Hqa) in Hlast.
      destruct (Hlast (Z.to_nat (k' mod vpb)) ltac:(lia)) as (e & He & Henz).
      eexists _, (int_of_u32 e). split; [exact Hwalk |]. split.
      * rewrite lookup_app_r by lia. rewrite HlenD.
        rewrite lookup_app_r by lia. rewrite HlenI.
        apply lookup_app_l_Some.
        unfold double_indirect_blocks.
        destruct (Z.eqb_spec (nth EXT3_DIND_BLOCK (i_block journal_inode) 0) 0); [done |].
        unfold own_number at 1.
        change (has_bit direct_bit indirect_bit) with false. cbv iota.
        rewrite app_nil_l.
        replace (Z.to_nat k - 12 - Z.to_nat vpb)%nat
          with (Z.to_nat (k' / vpb) * Z.to_nat vpb + Z.to_nat (k' mod vpb))%nat.
        2:{ apply Nat2Z.inj. rewrite Nat2Z.inj_add, Nat2Z.inj_mul, !Nat2Z.inj_sub by lia.
            rewrite !Z2Nat.id by lia. change (Z.of_nat 12) with 12.
            pose proof (Z.div_mod k' vpb ltac:(lia)). unfold k' in *. lia. }
        apply (concat_lookup_uniform _ _ _ _
                 (emitted_of (slots_of get_block_ptrs qa))).
        -- intros i Hi.
           destruct (Hda i ltac:(lia)) as (qi & Hqi & Hqinz).
           exists (emitted_of (slots_of get_block_ptrs qi)). split.
           ++ rewrite list_lookup_fmap, Hqi. simpl. unfold indirect_blocks.
              destruct (Z.eqb_spec qi 0); [done |]. unfold own_number.
              change (has_bit direct_bit indirect_bit) with false.
              change (has_bit direct_bit direct_bit) with true. done.
           ++ specialize (Hfull i ltac:(lia)).
              rewrite (nth_lookup_Some _ _ _ _ Hqi) in Hfull.
              destruct (Hfull 0%nat ltac:(lia)) as (x0 & Hx0 & _).
              pose proof (Hlen _ _ (slots_of_Some _ _ _ _ Hx0)) as Hleni.
              rewrite emitted_of_length; [lia |]. by rewrite Hleni.
        -- rewrite list_lookup_fmap, Hqa. simpl. unfold indirect_blocks.
           destruct (Z.eqb_spec qa 0); [done |]. unfold own_number.
           change (has_bit direct_bit indirect_bit) with false.
           change (has_bit direct_bit direct_bit) with true. done.
        -- rewrite (emitted_of_dense (k' mod vpb + 1)) by (done || lia). by rewrite He.
      * destruct (Z.ltb_spec k' (vpb * vpb)); [| lia].
        rewrite (slots_of_Some _ _ _ _ Hqa). cbn [mbind option_bind].
        rewrite Z.quot_div_nonneg, Z.rem_mod_nonneg by lia.
        rewrite Hqa. cbn [mbind option_bind].
        rewrite (slots_of_Some _ _ _ _ He). cbn [mbind option_bind].
        rewrite He. done.
Qed.

Lemma journal_block_is_kth_walked_block_witness :
  journal_block_to_real_block 3 1024 (fun _ => None) j_journal_inode 1 = Some 101.
Proof.
  destruct (journal_block_is_kth_walked_block 8192 (fun _ => None) j_journal_inode
              3 1024 1) as (emitted & b & Hwalk & Hb & Hreal).
  - lia.
  - intros b l Hget. discriminate Hget.
  - reflexivity.
  - reflexivity.
  - left. reflexivity.
  - left. reflexivity.
  - left. reflexivity.
  - lia.
  - vm_compute. reflexivity.
  - intros i Hi. destruct i as [| [| i]]; [by exists 100 | by exists 101 | lia].
  - vm_compute in Hwalk. injection Hwalk as <-. simpl in Hb. injection Hb as <-.
    exact Hreal.
Defined.

(** ** Inodes, their group and their table block *)

Lemma bitmap_test_load_bitmap (block : list Z) (n : Z) :
  Forall is_byte block -> 0 <= n < 64 * Z.of_nat (length block / 8) ->
  bitmap_test (load_bitmap block) n
  = Z.testbit (nth (Z.to_nat (n / 8)) block 0) (n mod 8).
Proof.
  intros Hblock Hn. rewrite bitmap_test_testbit by lia.
  pose proof (Z.mod_pos_bound n 64 ltac:(lia)).
  assert (0 <= n / 64) by (apply Z.div_pos; lia).
  assert (0 <= n mod 64 / 8) by (apply Z.div_pos; lia).
  unfold load_bitmap. rewrite words_of_bytes_nth.
  2:{ apply Nat2Z.inj_lt. rewrite Z2Nat.id by done. apply Z.div_lt_upper_bound; lia. }
  rewrite testbit_le_word; [| apply Forall_take, Forall_drop, Hblock | lia].
  rewrite nth_take_drop.
  2:{ apply Nat2Z.inj_lt. rewrite Z2Nat.id by done.
      change (Z.of_nat 8) with 8. apply Z.div_lt_upper_bound; lia. }
  f_equal.
  - f_equal. apply Nat2Z.inj. rewrite Nat2Z.inj_add, Nat2Z.inj_mul.
    rewrite !Z2Nat.id by (done || apply Z.div_pos; lia).
    change (Z.of_nat 8) with 8. Z.to_euclidean_division_equations. lia.
  - Z.to_euclidean_division_equations. lia.
Qed.

(** X5: for an inode number from 1 on, [is_allocated] and [get_inode] do
    not trip their [assert] (the sanity check of [main] bounds the inodes
    of a group by the bits of a block): inode [n] is slot
    [(n - 1) mod inodes_per_group] of group [(n - 1) / inodes_per_group],
    and it is allocated when that bit of the inode bitmap block of the
    group is set, bits counted from the least significant bit of the first
    byte.  For inode number 0 both abort on the [assert]. *)
Theorem is_allocated_reads_the_inode_bitmap
    (g : Geometry) (inode_bitmap : Z -> list Z) (all_inodes : Z -> list Inode)
    (inode : Z) (block : list Z) :
  1 < inodes_per_group_ g <= 8 * block_size_ g ->
  8 * block_size_ g < 2 ^ 32 ->
  block_size_ g mod 8 = 0 ->
  1 <= inode ->
  Forall is_byte block ->
  Z.of_nat (length block) = block_size_ g ->
  inode_bitmap ((inode - 1) / inodes_per_group_ g) = load_bitmap block ->
  is_allocated g inode_bitmap inode
  = Some (Z.testbit (nth (Z.to_nat ((inode - 1) mod inodes_per_group_ g / 8)) block 0)
            ((inode - 1) mod inodes_per_group_ g mod 8)) /\
  get_inode g all_inodes inode
  = all_inodes ((inode - 1) / inodes_per_group_ g)
      !! Z.to_nat ((inode - 1) mod inodes_per_group_ g) /\
  is_allocated g inode_bitmap 0 = None /\
  get_inode g all_inodes 0 = None.
Proof.
  intros Hipg Hbs Hbs8 Hinode Hblock Hlen Hbitmap.
  pose proof (Z.mod_pos_bound (inode - 1) (inodes_per_group_ g) ltac:(lia)) as Hbit.
  assert (u32 (8 * block_size_ g) = 8 * block_size_ g) as Hu
    by (unfold u32; apply Z.mod_small; lia).
  assert (Z.quot (inode - 1) (inodes_per_group_ g) = (inode - 1) / inodes_per_group_ g)
    as Hq by (apply Z.quot_div_nonneg; lia).
  assert (u32 (inode - 1 - (inode - 1) / inodes_per_group_ g * inodes_per_group_ g)
          = (inode - 1) mod inodes_per_group_ g) as Hb.
  { unfold u32. rewrite Z.mod_small; Z.to_euclidean_division_equations; nia. }
  assert (Z.quot (0 - 1) (inodes_per_group_ g) = 0) as Hq0
    by (apply Z.quot_small_iff; lia || (right; lia)).
  split; [| split; [| split]].
  - unfold is_allocated. rewrite Hq, Hb, Hu.
    destruct (Z.ltb_spec ((inode - 1) mod inodes_per_group_ g) (8 * block_size_ g));
      [| lia].
    rewrite Hbitmap, bitmap_test_load_bitmap; [done | done |].
    split; [lia |].
    replace (Z.of_nat (length block / 8)) with (block_size_ g / 8).
    + Z.to_euclidean_division_equations. lia.
    + rewrite <- Hlen. by rewrite Nat2Z.inj_div.
  - unfold get_inode. rewrite Hq, Hb, Hu.
    destruct (Z.ltb_spec ((inode - 1) mod inodes_per_group_ g) (8 * block_size_ g));
      [done | lia].
  - unfold is_allocated. rewrite Hq0, Hu.
    replace (u32 (0 - 1 - 0 * inodes_per_group_ g)) with (2 ^ 32 - 1) by reflexivity.
    destruct (Z.ltb_spec (2 ^ 32 - 1) (8 * block_size_ g)); [lia | done].
  - unfold get_inode. rewrite Hq0, Hu.
    replace (u32 (0 - 1 - 0 * inodes_per_group_ g)) with (2 ^ 32 - 1) by reflexivity.
    destruct (Z.ltb_spec (2 ^ 32 - 1) (8 * block_size_ g)); [lia | done].
Qed.

Lemma is_allocated_reads_the_inode_bitmap_witness :
  is_allocated s5_geometry (fun _ => load_bitmap bit_2007_block) 2008 = Some true.
Proof.
  refine (eq_trans
            (proj1 (is_allocated_reads_the_inode_bitmap s5_geometry
                      (fun _ => load_bitmap bit_2007_block) s5_all_inodes 2008
                      bit_2007_block _ _ _ _ _ _ _)) _).
  - simpl. lia.
  - simpl. lia.
  - reflexivity.
  - lia.
  - unfold bit_2007_block. rewrite !Forall_app. split; [| split].
    + apply Forall_replicate. unfold is_byte. lia.
    + apply Forall_singleton. unfold is_byte. lia.
    + apply Forall_replicate. unfold is_byte. lia.
  - vm_compute. reflexivity.
  - reflexivity.
  - vm_compute. reflexivity.
Defined.

(** X6: under the sanity checks of [main] (a block holds a whole number
    of inodes, the inode table of a group a whole number of blocks) and
    with the inode table of a group lying inside the group,
    [inode_to_block], [is_inode] and [block_to_inode] fit together: the
    block [inode_to_block] gives for an inode lies in the inode table of
    its group, [is_inode] accepts it, and [block_to_inode] of it is the
    first inode of that block, at most [block_size / inode_size - 1] below
    the inode and itself mapped to the same block. *)
Theorem inode_to_block_round_trip (g : Geometry) (inode per table_blocks : Z) :
  0 < inode_size_ g ->
  0 < per -> block_size_ g = per * inode_size_ g ->
  0 < table_blocks -> inodes_per_group_ g * inode_size_ g = table_blocks * block_size_ g ->
  0 <= first_data_block g -> 0 < blocks_per_group g ->
  1 <= inode ->
  (inode_to_group g inode + 1) * inodes_per_group_ g < 2 ^ 31 ->
  block_size_ g < 2 ^ 31 ->
  let group := inode_to_group g inode in
  let inode_table := bg_inode_table g group in
  first_data_block g + group * blocks_per_group g <= inode_table ->
  inode_table + table_blocks <= first_data_block g + (group + 1) * blocks_per_group g ->
  inode_table + table_blocks < 2 ^ 31 ->
  let block := inode_to_block g inode in
  inode_table <= block < inode_table + table_blocks /\
  is_inode g block = true /\
  exists first,
    block_to_inode g block = Some first /\
    first <= inode < first + per /\
    inode_to_block g first = block.
Proof.
  intros Hisz Hper Hbs Htb Htable Hfdb Hbpg Hinode Hmax Hbsmax group inode_table
    Hlo Hhi Htmax block.
  assert (0 < inodes_per_group_ g) as Hipg by nia.
  assert (group = (inode - 1) / inodes_per_group_ g) as Hgroup
    by (unfold group, inode_to_group; apply Z.quot_div_nonneg; lia).
  assert (0 <= group) as Hg0 by (rewrite Hgroup; apply Z.div_pos; lia).
  set (x := inode - 1 - group * inodes_per_group_ g).
  assert (0 <= x < inodes_per_group_ g) as Hx.
  { unfold x. rewrite Hgroup. Z.to_euclidean_division_equations. nia. }
  assert (inodes_per_group_ g = table_blocks * per) as Hipg' by nia.
  assert (0 <= x / per < table_blocks) as Hoff.
  { split; [apply Z.div_pos; lia |]. apply Z.div_lt_upper_bound; nia. }
  assert (forall y, 0 <= y < inodes_per_group_ g ->
            u64 (y * inode_size_ g) / block_size_ g = y / per) as Hdiv.
  { intros y Hy. unfold u64. rewrite Z.mod_small by nia.
    rewrite Hbs. rewrite Z.div_mul_cancel_r by lia. done. }
  assert (forall grp y, grp = group -> 0 <= y < table_blocks ->
            int_of_size_t (bg_inode_table g grp + y) = inode_table + y) as Hint.
  { intros grp y -> Hy. fold inode_table. unfold int_of_size_t, u32.
    assert (0 <= inode_table) by nia.
    rewrite Z.mod_small by lia. apply int_of_u32_small. lia. }
  assert (block = inode_table + x / per) as Hblock.
  { unfold block, inode_to_block. fold group. fold x.
    rewrite Hdiv by done. by apply Hint. }
  assert (block_to_group g block = group) as Hbg.
  { unfold block_to_group. rewrite Z.quot_div_nonneg by nia.
    symmetry. apply Z.div_unique with (block - first_data_block g - group * blocks_per_group g).
    - lia.
    - lia. }
  assert (in_inode_table g block = true) as Htab.
  { unfold in_inode_table. rewrite Hbg. fold inode_table.
    apply andb_true_intro. split; [apply Z.leb_le; lia |].
    apply Z.leb_le. unfold u64. rewrite !Z.mod_small by nia. nia. }
  split; [lia |]. split; [exact Htab |].
  exists (1 + group * inodes_per_group_ g + per * (x / per)).
  assert (0 <= per * (x / per) <= x /\ x < per * (x / per) + per) as Hfirst
    by (Z.to_euclidean_division_equations; nia).
  split; [| split].
  - unfold block_to_inode. rewrite Htab, Hbg. fold inode_table. f_equal.
    rewrite Hblock. replace (inode_table + x / per - inode_table) with (x / per) by lia.
    unfold u64. rewrite Z.mod_small by nia.
    rewrite Hbs. replace (per * inode_size_ g * (x / per))
      with (per * (x / per) * inode_size_ g) by lia.
    rewrite Z.div_mul by lia.
    unfold int_of_size_t, u32. rewrite Z.mod_small by nia.
    apply int_of_u32_small. nia.
  - unfold x in *. lia.
  - set (first := 1 + group * inodes_per_group_ g + per * (x / per)).
    assert (inode_to_group g first = group) as Hfg.
    { unfold inode_to_group. rewrite Z.quot_div_nonneg by (unfold first; nia).
      symmetry. apply Z.div_unique with (per * (x / per)); unfold first; nia. }
    unfold inode_to_block. rewrite Hfg. fold inode_table.
    replace (first - 1 - group * inodes_per_group_ g) with (per * (x / per))
      by (unfold first; lia).
    rewrite Hdiv by lia. rewrite Z.mul_comm, Z.div_mul by lia.
    rewrite Hblock. by apply Hint.
Qed.

Lemma inode_to_block_round_trip_witness :
  is_inode s4_geometry (inode_to_block s4_geometry 12) = true.
Proof.
  refine (proj1 (proj2 (inode_to_block_round_trip s4_geometry 12 8 2
                          _ _ _ _ _ _ _ _ _ _ _ _ _)));
    vm_compute;
    first [ reflexivity | intros H; discriminate H ].
Defined.

(** X7: as long as the blocks of a group lie below 2^31, so that the
    [int] arithmetic of [group_to_block] does not wrap, [group_to_block]
    and [block_to_group] are inverse to each other on groups: the first
    block of a group is [first_data_block + group * blocks_per_group] and
    belongs to the group, a block from the first data block on lies in the
    range of [blocks_per_group] blocks that starts at the first block of
    its group, and exactly the blocks of that range belong to the group. *)
Theorem block_to_group_round_trip (g : Geometry) (group block : Z) :
  0 < blocks_per_group g ->
  0 <= first_data_block g ->
  0 <= group ->
  first_data_block g + (group + 1) * blocks_per_group g < 2 ^ 31 ->
  block < 2 ^ 31 ->
  group_to_block g group = first_data_block g + group * blocks_per_group g /\
  block_to_group g (group_to_block g group) = group /\
  (first_data_block g <= block ->
   group_to_block g (block_to_group g block) <= block
   < group_to_block g (block_to_group g block) + blocks_per_group g) /\
  (first_data_block g <= block ->
   (block_to_group g block = group <->
    group_to_block g group <= block < group_to_block g (group + 1))).
Proof.
  intros Hbpg Hfirst Hgroup Hfits Hblock.
  assert (forall k, 0 <= k ->
            first_data_block g + k * blocks_per_group g < 2 ^ 31 ->
            group_to_block g k = first_data_block g + k * blocks_per_group g) as Hplain.
  { intros k Hk Hsmall. unfold group_to_block, u32.
    rewrite (Z.mod_small (k * _)) by nia.
    rewrite (int_of_u32_small (k * _)) by nia.
    rewrite Z.mod_small by nia. apply int_of_u32_small. nia. }
  rewrite (Hplain group) by nia. rewrite (Hplain (group + 1)) by lia.
  split; [done |]. unfold block_to_group.
  split; [| split].
  - replace (first_data_block g + group * blocks_per_group g - first_data_block g)
      with (group * blocks_per_group g) by lia.
    rewrite Z.quot_div_nonneg by nia. apply Z.div_mul. lia.
  - intros Hlow. rewrite Z.quot_div_nonneg by lia.
    rewrite Hplain.
    + Z.to_euclidean_division_equations. nia.
    + apply Z.div_pos; lia.
    + Z.to_euclidean_division_equations. nia.
  - intros Hlow. rewrite Z.quot_div_nonneg by lia. split.
    + intros <-. Z.to_euclidean_division_equations. nia.
    + intros Hrange. symmetry.
      apply Z.div_unique with (block - first_data_block g - group * blocks_per_group g); lia.
Qed.

Lemma block_to_group_round_trip_witness :
  block_to_group s4_geometry (group_to_block s4_geometry 3) = 3.
Proof.
  refine (proj1 (proj2 (block_to_group_round_trip s4_geometry 3 0 _ _ _ _ _)));
    simpl; lia.
Defined.

(** X8: [offset_to_block] undoes [block_to_offset]: with a block size of
    [2 ^ block_size_log_] bytes, every byte of block [b] (from its first
    byte, which is where [block_to_offset] points, to its last) is mapped
    back to [b]. *)
Theorem offset_to_block_round_trip (g : Geometry) (block_size_log_ block r : Z) :
  0 <= block_size_log_ < 31 ->
  block_size_ g = 2 ^ block_size_log_ ->
  0 <= block < 2 ^ 31 ->
  0 <= r < block_size_ g ->
  block_to_offset block_size_log_ block = block * block_size_ g /\
  offset_to_block g (block_to_offset block_size_log_ block + r) = block.
Proof.
  intros Hlog Hbs Hblock Hr. unfold block_to_offset, offset_to_block.
  rewrite Z.shiftl_mul_pow2 by lia. rewrite <- Hbs. split; [done |].
  assert (0 < block_size_ g) as Hpos by (rewrite Hbs; apply Z.pow_pos_nonneg; lia).
  assert (block_size_ g < 2 ^ 31) as Hmax.
  { rewrite Hbs. apply Z.pow_lt_mono_r; lia. }
  unfold u64. rewrite (Z.mod_small (block_size_ g)) by lia.
  rewrite Z.add_comm, Z.div_add by lia. rewrite Z.div_small by lia.
  unfold int_of_size_t, u32. rewrite Z.mod_small by lia.
  apply int_of_u32_small. lia.
Qed.

Lemma offset_to_block_round_trip_witness :
  offset_to_block s4_geometry (block_to_offset 10 7 + 1023) = 7.
Proof.
  refine (proj2 (offset_to_block_round_trip s4_geometry 10 7 1023 _ _ _ _));
    simpl; (lia || reflexivity).
Defined.

(** ** [blocknr_vector_type]: more than one value *)

Lemma bv_remove_vector_exact (l1 l2 junk : list Z) (b : Z) :
  Z.of_nat (length (l1 ++ b :: l2)) < 2 ^ 32 ->
  exists junk',
    <[0%nat := u32 (Z.of_nat (length (l1 ++ b :: l2)) - 1)]>
      (<[(1 + length l1)%nat := default 0 (last (b :: l2))]>
         (Z.of_nat (length (l1 ++ b :: l2)) :: (l1 ++ b :: l2) ++ junk))
    = Z.of_nat (length (after_remove l1 l2)) :: after_remove l1 l2 ++ junk' /\
    length (after_remove l1 l2) = length (l1 ++ l2) /\
    (Z.of_nat (length (l1 ++ b :: l2)) :: (l1 ++ b :: l2) ++ junk)
      !! Z.to_nat (Z.of_nat (length (l1 ++ b :: l2)))
    = Some (default 0 (last (b :: l2))).
Proof.
  intros Hmax.
  assert (u32 (Z.of_nat (length (l1 ++ b :: l2)) - 1) = Z.of_nat (length (l1 ++ l2)))
    as Hsize.
  { unfold u32. rewrite !length_app in *. simpl in *.
    rewrite Z.mod_small by lia. lia. }
  rewrite Hsize, Nat2Z.id. unfold after_remove.
  destruct l2 as [| y l2 _] using rev_ind.
  - exists (b :: junk). simpl last. cbv iota. split; [| split].
    + simpl. rewrite app_nil_r. f_equal.
      rewrite <- app_assoc. simpl.
      rewrite insert_app_r_alt by lia. by rewrite Nat.sub_diag.
    + by rewrite app_nil_r.
    + simpl. rewrite <- app_assoc. simpl.
      rewrite length_app. simpl.
      replace (length l1 + 1)%nat with (Datatypes.S (length l1)) by lia. simpl.
      by rewrite lookup_app_r, Nat.sub_diag by lia.
  - exists (y :: junk).
    assert (last (b :: l2 ++ [y]) = Some y) as Hlast.
    { change (b :: l2 ++ [y]) with ((b :: l2) ++ [y]). apply last_snoc. }
    rewrite Hlast, last_snoc, removelast_last. simpl default. split; [| split].
    + simpl. f_equal.
      { f_equal. list_length. }
      rewrite <- !app_assoc. simpl.
      rewrite insert_app_r_alt by lia. rewrite Nat.sub_diag. simpl.
      by rewrite <- !app_assoc.
    + list_length.
    + replace (length (l1 ++ b :: l2 ++ [y])) with (Datatypes.S (length (l1 ++ b :: l2))).
      2:{ list_length. }
      simpl.
      replace ((l1 ++ b :: l2 ++ [y]) ++ junk) with ((l1 ++ b :: l2) ++ y :: junk).
      2:{ rewrite <- !app_assoc. simpl. by rewrite <- app_assoc. }
      by rewrite lookup_app_r, Nat.sub_diag by lia.
Qed.

Lemma after_remove_elem (l1 l2 : list Z) (x : Z) :
  x ∈ after_remove l1 l2 -> x ∈ l1 ++ l2.
Proof.
  unfold after_remove. destruct l2 as [| y l2 _] using rev_ind.
  - simpl. by rewrite app_nil_r.
  - rewrite last_snoc, removelast_last.
    rewrite !elem_of_app, !elem_of_cons, elem_of_nil. tauto.
Qed.

Lemma bv_find_absent (b : Z) (l : list Z) (j : nat) : b ∉ l -> bv_find b l j = None.
Proof.
  revert j. induction l as [| x l IH]; intros j Hnotin; simpl; [done |].
  destruct (Z.eqb_spec x b) as [-> | Hne].
  - exfalso. apply Hnotin. by left.
  - apply IH. intros Hin. apply Hnotin. by right.
Qed.

(** X9: [remove(b)] on a [blocknr_vector_type] of two or more entries
    (block numbers below 2^30) that has [b] among them takes out the first
    [b] and puts the last entry in its place, so the order of the entries
    changes; without [b] among the entries, or with fewer than two
    entries, it aborts on its [assert]. *)
Theorem remove_moves_the_last_entry
    (bv : blocknr_vector_type) (es : list Z) (b : Z) :
  bv_holds bv es ->
  (forall l1 l2,
     es = l1 ++ b :: l2 -> b ∉ l1 ->
     (2 <= length es)%nat ->
     Forall (fun x => 0 <= x < 2 ^ 30) es ->
     exists bv',
       bv_remove bv b = Some bv' /\
       bv_holds bv' (after_remove l1 l2) /\
       bv_to_list bv' = Some (after_remove l1 l2)) /\
  (b ∉ es -> bv_remove bv b = None) /\
  ((length es <= 1)%nat -> bv_remove bv b = None).
Proof.
  intros Hholds. split; [| split].
  - intros l1 l2 -> Hnotin Hlen Hrange.
    destruct bv as [w | v]; simpl in Hholds.
    { destruct Hholds as [[_ Heq] | (x & Heq & _)]; rewrite Heq in Hlen; simpl in Hlen; lia. }
    destruct Hholds as (junk & -> & _ & Hmax).
    destruct (bv_remove_vector_exact l1 l2 junk b Hmax) as (junk' & Hv' & Hlen' & Hmoved).
    assert (Forall (fun x => 0 <= x < 2 ^ 30) (after_remove l1 l2)) as Hrange'.
    { rewrite Forall_forall in Hrange. apply Forall_forall. intros x Hx.
      apply Hrange. apply after_remove_elem in Hx.
      rewrite elem_of_app in Hx. rewrite elem_of_app, elem_of_cons. tauto. }
    assert (bv_find b
              (take (Z.to_nat (Z.of_nat (length (l1 ++ b :: l2))))
                 (drop 1 (Z.of_nat (length (l1 ++ b :: l2)) :: (l1 ++ b :: l2) ++ junk))) 1
            = Some (1 + length l1)%nat) as Hfind.
    { rewrite Nat2Z.id, take_drop_header. by apply bv_find_split. }
    assert (exists bv', bv_remove
              (bv_vector (Z.of_nat (length (l1 ++ b :: l2)) :: (l1 ++ b :: l2) ++ junk)) b
              = Some bv' /\ bv_holds bv' (after_remove l1 l2)) as (bv' & Hrun & Hholds').
    { unfold bv_remove.
      change ((Z.of_nat (length (l1 ++ b :: l2)) :: (l1 ++ b :: l2) ++ junk) !! 0%nat)
        with (Some (Z.of_nat (length (l1 ++ b :: l2)))).
      cbn [mbind option_bind]. rewrite Hfind. cbn [mbind option_bind].
      rewrite Hmoved. cbn [mbind option_bind]. rewrite Hv'.
      assert (u32 (Z.of_nat (length (l1 ++ b :: l2)) - 1)
              = Z.of_nat (length (after_remove l1 l2))) as ->.
      { rewrite Hlen'. unfold u32. rewrite Z.mod_small by list_length. list_length. }
      destruct (Z.eqb_spec (Z.of_nat (length (after_remove l1 l2))) 1) as [Hone | Hmore].
      - destruct (after_remove l1 l2) as [| x [| ? ?]]; simpl in Hone; try lia.
        cbn [lookup list_lookup app mbind option_bind].
        apply Forall_cons in Hrange' as [Hx _].
        exists (bv_blocknr (tag_int (int_of_u32 x))).
        rewrite tag_int_value by done.
        split; [done |]. apply bv_holds_single. lia.
      - eexists. split; [done |].
        exists junk'. split; [done |]. split; list_length. }
    exists bv'. split; [done |]. split; [done |]. by apply bv_holds_to_list.
  - intros Hnotin. destruct bv as [w | v]; [done |]. simpl in Hholds.
    destruct Hholds as (junk & -> & _ & _). unfold bv_remove.
    change ((Z.of_nat (length es) :: es ++ junk) !! 0%nat) with (Some (Z.of_nat (length es))).
    cbn [mbind option_bind]. rewrite Nat2Z.id, take_drop_header.
    by rewrite bv_find_absent.
  - intros Hlen. destruct bv as [w | v]; [done |]. simpl in Hholds.
    destruct Hholds as (junk & _ & ? & _). lia.
Qed.

Lemma remove_moves_the_last_entry_witness :
  exists bv', bv_remove s5_candidates 500 = Some bv' /\ bv_to_list bv' = Some [901; 900].
Proof.
  destruct (proj1 (remove_moves_the_last_entry s5_candidates [500; 900; 901] 500
                     ltac:(exists []; split; [reflexivity | split; [simpl; lia | simpl; lia]]))
              [] [900; 901] eq_refl ltac:(apply not_elem_of_nil) ltac:(simpl; lia)
              ltac:(repeat (apply Forall_cons_2; [lia |]); apply Forall_nil_2))
    as (bv' & Hrun & _ & Hlist).
  exists bv'. split; [exact Hrun | exact Hlist].
Defined.

(** X10: [push_back(b)] on a [blocknr_vector_type] that is not empty
    appends [b] behind the entries it has, whatever [b] is: a single value
    becomes an array of two, an array grows by one (the slots that earlier
    calls of [remove] left behind are dropped). *)
Theorem push_back_appends (bv : blocknr_vector_type) (es : list Z) (b : Z) :
  bv_holds bv es ->
  es <> [] ->
  Z.of_nat (length es) + 1 < 2 ^ 32 ->
  exists bv',
    bv_push_back bv b = Some bv' /\
    bv_holds bv' (es ++ [b]) /\
    bv_to_list bv' = Some (es ++ [b]).
Proof.
  intros Hholds Hne Hmax.
  assert (exists bv', bv_push_back bv b = Some bv' /\ bv_holds bv' (es ++ [b]))
    as (bv' & Hrun & Hholds').
  { unfold bv_push_back. rewrite (bv_holds_empty bv es Hholds).
    rewrite bool_decide_eq_false_2 by done.
    destruct bv as [w | v]; simpl in Hholds.
    - destruct Hholds as [[_ ->] | (x & -> & -> & Hx)]; [done |].
      destruct (tagged_is_single x Hx) as [-> ->]. cbn [mbind option_bind].
      eexists. split; [done |]. exists []. split; [done |]. simpl. lia.
    - destruct Hholds as (junk & -> & Hlen & _).
      change ((Z.of_nat (length es) :: es ++ junk) !! 0%nat)
        with (Some (Z.of_nat (length es))).
      cbn [mbind option_bind].
      assert (u32 (Z.of_nat (length es) + 1) = Z.of_nat (length (es ++ [b]))) as ->.
      { unfold u32. rewrite Z.mod_small by lia. list_length. }
      replace (Z.to_nat (Z.of_nat (length (es ++ [b])) - 1)) with (length es)
        by list_length.
      rewrite take_drop_header.
      eexists. split; [done |]. exists []. rewrite app_nil_r.
      split; [done |]. split; list_length. }
  exists bv'. split; [done |]. split; [done |]. by apply bv_holds_to_list.
Qed.

Lemma push_back_appends_witness :
  exists bv', bv_push_back s5_candidates 77 = Some bv' /\
              bv_to_list bv' = Some [500; 900; 901; 77].
Proof.
  destruct (push_back_appends s5_candidates [500; 900; 901] 77
              ltac:(exists []; split; [reflexivity | split; [simpl; lia | simpl; lia]])
              ltac:(discriminate) ltac:(simpl; lia))
    as (bv' & Hrun & _ & Hlist).
  exists bv'. split; [exact Hrun | exact Hlist].
Defined.

(** X11: the assignment of a [std::vector<uint32_t>] replaces whatever the
    [blocknr_vector_type] held by the entries of the vector, in order (a
    single entry has to be below 2^31 to fit the tagged encoding).  So the
    entries read out of a [blocknr_vector_type], as they are written to the
    stage 1 cache file, and assigned again, as they are when the file is
    loaded, give the same entries. *)
Theorem assignment_round_trip
    (bv : blocknr_vector_type) (es : list Z) (vec : list Z) :
  bv_holds bv es ->
  (forall bv0 es0,
     bv_holds bv0 es0 ->
     Z.of_nat (length vec) < 2 ^ 32 ->
     (forall b, vec = [b] -> 0 <= b < 2 ^ 31) ->
     exists bv',
       bv_assign bv0 vec = Some bv' /\ bv_holds bv' vec /\ bv_to_list bv' = Some vec) /\
  exists bv',
    bv_assign (bv_blocknr 0) es = Some bv' /\ bv_to_list bv' = bv_to_list bv.
Proof.
  intros Hholds.
  assert (forall bv0 es0,
            bv_holds bv0 es0 ->
            Z.of_nat (length vec) < 2 ^ 32 ->
            (forall b, vec = [b] -> 0 <= b < 2 ^ 31) ->
            exists bv',
              bv_assign bv0 vec = Some bv' /\ bv_holds bv' vec /\
              bv_to_list bv' = Some vec) as Hassign.
  { clear. intros bv0 es0 Hholds Hlen Hsingle.
    assert (exists bv', bv_assign bv0 vec = Some bv' /\ bv_holds bv' vec)
      as (bv' & Hrun & Hholds').
    { unfold bv_assign. rewrite (bv_holds_empty bv0 es0 Hholds).
      assert ((if bool_decide (es0 = []) then Some bv0 else bv_erase bv0)
              = Some (bv_blocknr 0)) as ->.
      { case_bool_decide as He.
        - subst es0. destruct bv0 as [w | v]; simpl in Hholds.
          + destruct Hholds as [[-> _] | (x & ? & _)]; done.
          + destruct Hholds as (junk & _ & ? & _). simpl in *. lia.
        - by apply (bv_holds_erase bv0 es0). }
      cbn [mbind option_bind].
      destruct vec as [| x [| y rest]].
      - eexists. split; [done |]. by left.
      - eexists. split; [done |]. rewrite tag_u32_value.
        specialize (Hsingle x eq_refl). rewrite Z.mod_small by lia.
        by apply bv_holds_single.
      - eexists. split; [done |]. exists [].
        rewrite app_nil_r. unfold u32. rewrite Z.mod_small by lia.
        split; [done |]. split; [simpl; lia | done]. }
    exists bv'. split; [done |]. split; [done |]. by apply bv_holds_to_list. }
  split; [exact Hassign |].
  clear Hassign.
  assert (exists bv', bv_assign (bv_blocknr 0) es = Some bv' /\ bv_holds bv' es)
    as (bv' & Hrun & Hholds').
  { unfold bv_assign. simpl bv_empty. cbn [mbind option_bind].
    destruct bv as [w | v]; simpl in Hholds.
    - destruct Hholds as [[_ ->] | (x & -> & _ & Hx)].
      + eexists. split; [done |]. by left.
      + eexists. split; [done |]. rewrite tag_u32_value, Z.mod_small by lia.
        by apply bv_holds_single.
    - destruct Hholds as (junk & _ & Hlen & Hmax).
      destruct es as [| x [| y rest]]; simpl in Hlen; try lia.
      eexists. split; [done |]. exists [].
      rewrite app_nil_r. unfold u32. rewrite Z.mod_small by lia.
      split; [done |]. split; [simpl; lia | done]. }
  exists bv'. split; [done |].
  by rewrite (bv_holds_to_list _ _ Hholds'), (bv_holds_to_list _ _ Hholds).
Qed.

Lemma assignment_round_trip_witness :
  exists bv', bv_assign (bv_blocknr 0) [500; 900; 901] = Some bv' /\
              bv_to_list bv' = bv_to_list s5_candidates.
Proof.
  exact (proj2 (assignment_round_trip s5_candidates [500; 900; 901] []
                  ltac:(exists []; split;
                        [reflexivity | split; [simpl; lia | simpl; lia]]))).
Defined.

(** ** The maps of the journal index *)

Lemma add_block_descriptor_lookup (block : Z) (d : Descriptor)
    (m : gmap Z (list Descriptor)) (k : Z) :
  default [] (add_block_descriptor block d m !! k)
  = default [] (m !! k) ++ (if bool_decide (int_of_u32 block = k) then [d] else []).
Proof.
  unfold add_block_descriptor.
  case_bool_decide as Hk.
  - subst k. destruct (m !! int_of_u32 block) as [l |] eqn:Hl;
      by rewrite lookup_insert_eq.
  - destruct (m !! int_of_u32 block) as [l |] eqn:Hl;
      rewrite lookup_insert_ne by done; by rewrite app_nil_r.
Qed.

Lemma add_block_descriptor_nonempty (block : Z) (d : Descriptor)
    (m : gmap Z (list Descriptor)) :
  (forall k l, m !! k = Some l -> l <> []) ->
  forall k l, add_block_descriptor block d m !! k = Some l -> l <> [].
Proof.
  intros Hinv k l. unfold add_block_descriptor.
  destruct (m !! int_of_u32 block) as [l0 |] eqn:Hl0;
    (destruct (decide (k = int_of_u32 block)) as [-> | Hne];
     [rewrite lookup_insert_eq; intros [= <-]
     | rewrite lookup_insert_ne by done; apply Hinv]).
  - by destruct l0.
  - done.
Qed.

Lemma add_revoked_blocks_lookup (d : Descriptor) (blocks : list Z)
    (m : gmap Z (list Descriptor)) (k : Z) :
  default [] (foldl (fun m b => add_block_descriptor b d m) m blocks !! k)
  = default [] (m !! k) ++ ((fun _ => d) <$> filter (fun b => int_of_u32 b = k) blocks).
Proof.
  revert m. induction blocks as [| b rest IH]; intros m; simpl.
  - by rewrite app_nil_r.
  - rewrite IH, add_block_descriptor_lookup, filter_cons.
    case_bool_decide; case_decide; try done.
    + by rewrite <- app_assoc.
    + by rewrite app_nil_r.
Qed.

Lemma add_revoked_blocks_nonempty (d : Descriptor) (blocks : list Z)
    (m : gmap Z (list Descriptor)) :
  (forall k l, m !! k = Some l -> l <> []) ->
  forall k l, foldl (fun m b => add_block_descriptor b d m) m blocks !! k = Some l -> l <> [].
Proof.
  revert m. induction blocks as [| b rest IH]; intros m Hinv; simpl; [done |].
  apply IH. by apply add_block_descriptor_nonempty.
Qed.

Lemma index_descriptor_blocks (d : Descriptor) (ix ix' : JournalIndex) :
  index_descriptor d ix = Some ix' ->
  (forall k, default [] (block_to_descriptors_map ix' !! k)
             = default [] (block_to_descriptors_map ix !! k) ++ mentions k d) /\
  ((forall k l, block_to_descriptors_map ix !! k = Some l -> l <> []) ->
   forall k l, block_to_descriptors_map ix' !! k = Some l -> l <> []).
Proof.
  unfold index_descriptor. destruct d as [jb sq b fl | jb sq blocks | jb sq]; simpl.
  - unfold add_block_descriptors. simpl.
    destruct (add_block_in_journal_descriptor _ _) as [j2d |]; [| done]. simpl.
    intros [= <-]. simpl. split.
    + intros k. apply add_block_descriptor_lookup.
    + apply add_block_descriptor_nonempty.
  - unfold add_block_descriptors. simpl.
    destruct (add_block_in_journal_descriptor _ _) as [j2d |]; [| done]. simpl.
    intros [= <-]. simpl. split.
    + intros k. apply add_revoked_blocks_lookup.
    + apply add_revoked_blocks_nonempty.
  - destruct (sequence_transaction_map ix !! int_of_u32 sq) as [t |].
    + destruct (Transaction_set_committed t) as [t' |]; [| done]. simpl.
      intros [= <-]. simpl. split; [intros k; by rewrite app_nil_r | done].
    + intros [= <-]. split; [intros k; by rewrite app_nil_r | done].
Qed.

Lemma index_descriptors_blocks (descs : list Descriptor) (ix ix' : JournalIndex) :
  index_descriptors descs ix = Some ix' ->
  (forall k, default [] (block_to_descriptors_map ix' !! k)
             = default [] (block_to_descriptors_map ix !! k)
               ++ concat (mentions k <$> descs)) /\
  ((forall k l, block_to_descriptors_map ix !! k = Some l -> l <> []) ->
   forall k l, block_to_descriptors_map ix' !! k = Some l -> l <> []).
Proof.
  revert ix. induction descs as [| d rest IH]; intros ix; simpl.
  - intros [= <-]. split; [intros k; by rewrite app_nil_r | done].
  - destruct (index_descriptor d ix) as [ix1 |] eqn:Hstep; [| done].
    intros Hrest. destruct (index_descriptor_blocks d ix ix1 Hstep) as [H1 H1'].
    destruct (IH ix1 Hrest) as [H2 H2']. split.
    + intros k. by rewrite H2, H1, <- app_assoc.
    + intros Hinv. by apply H2', H1'.
Qed.

(** X12: after [init_journal] has indexed the descriptors,
    [block_to_descriptors_map] holds for every file system block exactly
    the descriptors that mention it (a tag for the block; a revoke
    descriptor once for each time it lists the block; never a commit
    block), in the order in which they were processed, and no entry for a
    block that none mentions; [find_largest_journal_sequence_number] is
    the sequence number of the last descriptor processed that mentions the
    block, and 0 when there is none. *)
Theorem block_to_descriptors_lists_the_mentions
    (descs : list Descriptor) (ix : JournalIndex) (k : Z) :
  index_descriptors descs JournalIndex_empty = Some ix ->
  default [] (block_to_descriptors_map ix !! k) = concat (mentions k <$> descs) /\
  (block_to_descriptors_map ix !! k = None <-> concat (mentions k <$> descs) = []) /\
  find_largest_journal_sequence_number ix k
  = match last (concat (mentions k <$> descs)) with
    | Some d => sequence d
    | None => 0
    end.
Proof.
  intros Hindex. destruct (index_descriptors_blocks descs _ ix Hindex) as [Hlist Hne].
  specialize (Hlist k). simpl in Hlist. rewrite lookup_empty in Hlist. simpl in Hlist.
  assert (forall k l, block_to_descriptors_map ix !! k = Some l -> l <> []) as Hne'.
  { apply Hne. intros k' l. simpl. by rewrite lookup_empty. }
  split; [exact Hlist |]. unfold find_largest_journal_sequence_number.
  destruct (block_to_descriptors_map ix !! k) as [l |] eqn:Hl; simpl in Hlist.
  - rewrite <- Hlist. split; [| done]. split; [done |].
    intros ->. by destruct (Hne' k [] Hl).
  - by rewrite <- Hlist.
Qed.

Lemma block_to_descriptors_lists_the_mentions_witness :
  default [] (block_to_descriptors_map s4_index !! 5)
  = [DescriptorTag 101 7 5 0; DescriptorTag 103 12 5 8].
Proof.
  refine (eq_trans
            (proj1 (block_to_descriptors_lists_the_mentions s4_descriptors s4_index 5 _)) _).
  - vm_compute. reflexivity.
  - vm_compute. reflexivity.
Defined.

Lemma index_descriptor_journal (d : Descriptor) (ix ix' : JournalIndex) :
  index_descriptor d ix = Some ix' ->
  if indexed d
  then block_in_journal_to_descriptors_map ix !! journal_key d = None /\
       block_in_journal_to_descriptors_map ix'
       = <[journal_key d := d]> (block_in_journal_to_descriptors_map ix)
  else block_in_journal_to_descriptors_map ix' = block_in_journal_to_descriptors_map ix.
Proof.
  unfold index_descriptor, journal_key.
  destruct d as [jb sq b fl | jb sq blocks | jb sq]; simpl.
  - unfold add_block_descriptors, add_block_in_journal_descriptor. simpl.
    destruct (block_in_journal_to_descriptors_map ix !! int_of_u32 jb); [done |].
    simpl. by intros [= <-].
  - unfold add_block_descriptors, add_block_in_journal_descriptor. simpl.
    destruct (block_in_journal_to_descriptors_map ix !! int_of_u32 jb); [done |].
    simpl. by intros [= <-].
  - destruct (sequence_transaction_map ix !! int_of_u32 sq) as [t |].
    + destruct (Transaction_set_committed t) as [t' |]; [| done]. simpl.
      by intros [= <-].
    + by intros [= <-].
Qed.

Lemma index_descriptors_journal (descs : list Descriptor) (ix ix' : JournalIndex) :
  index_descriptors descs ix = Some ix' ->
  NoDup (journal_key <$> List.filter indexed descs) /\
  (forall d, d ∈ descs -> indexed d = true ->
     block_in_journal_to_descriptors_map ix !! journal_key d = None /\
     block_in_journal_to_descriptors_map ix' !! journal_key d = Some d) /\
  (forall k d, block_in_journal_to_descriptors_map ix !! k = Some d ->
     block_in_journal_to_descriptors_map ix' !! k = Some d) /\
  (forall k d, block_in_journal_to_descriptors_map ix' !! k = Some d ->
     block_in_journal_to_descriptors_map ix !! k = Some d \/
     (d ∈ descs /\ indexed d = true /\ k = journal_key d)).
Proof.
  revert ix. induction descs as [| d rest IH]; intros ix; simpl.
  - intros [= <-]. split; [constructor |]. split; [by intros d ?%elem_of_nil |].
    split; [done |]. intros k d Hk. by left.
  - destruct (index_descriptor d ix) as [ix1 |] eqn:Hstep; [| done].
    intros Hrest. pose proof (index_descriptor_journal d ix ix1 Hstep) as Hd.
    destruct (IH ix1 Hrest) as (Hnodup & Hin & Hmono & Hfrom).
    destruct (indexed d) eqn:Hindexed.
    + destruct Hd as [Hfresh Hmap]. split; [| split; [| split]].
      * simpl. constructor; [| done]. intros Hdup.
        apply list_elem_of_fmap in Hdup as (d' & Hkey & Hd').
        apply list_elem_of_In, filter_In in Hd' as [Hd' Hix'].
        apply list_elem_of_In in Hd'.
        destruct (Hin d' Hd' Hix') as [Hnone _].
        rewrite <- Hkey, Hmap, lookup_insert_eq in Hnone. done.
      * intros d' [-> | Hd']%elem_of_cons Hix'.
        -- split; [done |]. apply Hmono. rewrite Hmap. apply lookup_insert_eq.
        -- destruct (Hin d' Hd' Hix') as [Hnone Hsome]. split; [| done].
           rewrite Hmap in Hnone.
           destruct (decide (journal_key d = journal_key d')) as [Heq | Hne].
           ++ by rewrite Heq, lookup_insert_eq in Hnone.
           ++ by rewrite lookup_insert_ne in Hnone.
      * intros k d' Hk. apply Hmono. rewrite Hmap.
        destruct (decide (journal_key d = k)) as [<- | Hne].
        -- by rewrite Hfresh in Hk.
        -- by rewrite lookup_insert_ne.
      * intros k d' Hk. destruct (Hfrom k d' Hk) as [Hold | (Hd' & Hix' & ->)].
        -- rewrite Hmap in Hold.
           destruct (decide (journal_key d = k)) as [<- | Hne].
           ++ rewrite lookup_insert_eq in Hold. injection Hold as <-.
              right. split; [by left | done].
           ++ rewrite lookup_insert_ne in Hold by done. by left.
        -- right. split; [by right | done].
    + rewrite Hd in *. split; [done |]. split; [| split; [done |]].
      * intros d' [-> | Hd']%elem_of_cons Hix'; [congruence | by apply Hin].
      * intros k d' Hk. destruct (Hfrom k d' Hk) as [Hold | (Hd' & Hix' & ->)].
        -- by left.
        -- right. split; [by right | done].
Qed.

(** X13: when [init_journal] gets through the descriptors,
    [block_in_journal_to_descriptors_map] maps the journal block of every
    tag and revoke descriptor to that descriptor and holds nothing else (no
    commit block); the [assert] of [add_block_in_journal_descriptor] has
    seen to it that no two of these descriptors share a journal block. *)
Theorem block_in_journal_map_is_injective (descs : list Descriptor) (ix : JournalIndex) :
  index_descriptors descs JournalIndex_empty = Some ix ->
  NoDup (journal_key <$> List.filter indexed descs) /\
  (forall d, d ∈ descs -> indexed d = true ->
     block_in_journal_to_descriptors_map ix !! journal_key d = Some d) /\
  (forall k d, block_in_journal_to_descriptors_map ix !! k = Some d ->
     d ∈ descs /\ indexed d = true /\ k = journal_key d).
Proof.
  intros Hindex.
  destruct (index_descriptors_journal descs _ ix Hindex) as (Hnodup & Hin & _ & Hfrom).
  split; [done |]. split.
  - intros d Hd Hix. by destruct (Hin d Hd Hix).
  - intros k d Hk. destruct (Hfrom k d Hk) as [Hold | ?]; [| done].
    simpl in Hold. by rewrite lookup_empty in Hold.
Qed.

Lemma block_in_journal_map_is_injective_witness :
  block_in_journal_to_descriptors_map s4_index !! 103 = Some (DescriptorTag 103 12 5 8).
Proof.
  refine (proj1 (proj2 (block_in_journal_map_is_injective s4_descriptors s4_index _))
            (DescriptorTag 103 12 5 8) _ _).
  - vm_compute. reflexivity.
  - unfold s4_descriptors. apply elem_of_cons. right. apply elem_of_cons. right.
    apply elem_of_cons. by left.
  - reflexivity.
Defined.

Lemma index_descriptor_transactions (d : Descriptor) (ix ix' : JournalIndex) :
  index_descriptor d ix = Some ix' ->
  (forall s, default [] (T_descriptor <$> sequence_transaction_map ix' !! s)
             = default [] (T_descriptor <$> sequence_transaction_map ix !! s)
               ++ List.filter (in_transaction s) [d]) /\
  (transactions_wf (sequence_transaction_map ix) ->
   transactions_wf (sequence_transaction_map ix')) /\
  (forall s t, sequence_transaction_map ix' !! s = Some t -> T_committed t = true ->
     (exists t0, sequence_transaction_map ix !! s = Some t0 /\ T_committed t0 = true) \/
     (indexed d = false /\ sequence_key d = s)).
Proof.
  unfold index_descriptor.
  assert (forall ix0 ix1, add_block_descriptors d ix0 = Some ix1 ->
            sequence_transaction_map ix1 = sequence_transaction_map ix0) as Hkeep.
  { intros ix0 ix1. unfold add_block_descriptors.
    destruct (add_block_in_journal_descriptor _ _); [| done]. simpl. by intros [= <-]. }
  assert (indexed d = true ->
          add_block_descriptors d
            (set_transactions ix
               (<[int_of_u32 (sequence d) :=
                    Transaction_append
                      match sequence_transaction_map ix !! int_of_u32 (sequence d) with
                      | Some t => t
                      | None => Transaction_init Transaction_new
                                  (int_of_u32 (Descriptor_block d)) (int_of_u32 (sequence d))
                      end d]> (sequence_transaction_map ix))) = Some ix' ->
          (forall s, default [] (T_descriptor <$> sequence_transaction_map ix' !! s)
                     = default [] (T_descriptor <$> sequence_transaction_map ix !! s)
                       ++ List.filter (in_transaction s) [d]) /\
          (transactions_wf (sequence_transaction_map ix) ->
           transactions_wf (sequence_transaction_map ix')) /\
          (forall s t, sequence_transaction_map ix' !! s = Some t -> T_committed t = true ->
             (exists t0, sequence_transaction_map ix !! s = Some t0 /\ T_committed t0 = true) \/
             (indexed d = false /\ sequence_key d = s))) as Hindexed.
  { intros Hix Hadd. rewrite (Hkeep _ _ Hadd). simpl. clear Hadd Hkeep.
    fold (sequence_key d). fold (journal_key d).
    split; [| split].
    - intros s. simpl. unfold in_transaction. rewrite Hix. simpl.
      destruct (Z.eqb_spec (sequence_key d) s) as [<- | Hne].
      + rewrite lookup_insert_eq. simpl.
        by destruct (sequence_transaction_map ix !! sequence_key d).
      + rewrite lookup_insert_ne by done. by rewrite app_nil_r.
    - intros Hwf s t.
      destruct (decide (sequence_key d = s)) as [<- | Hne].
      + rewrite lookup_insert_eq. intros [= <-].
        destruct (sequence_transaction_map ix !! sequence_key d) as [t0 |] eqn:Ht0.
        * destruct (Hwf _ _ Ht0) as (Hs & d0 & rest & Hd & Hb). simpl.
          split; [done |]. exists d0, (rest ++ [d]). by rewrite Hd.
        * simpl. split; [done |]. by exists d, [].
      + rewrite lookup_insert_ne by done. apply Hwf.
    - intros s t.
      destruct (decide (sequence_key d = s)) as [<- | Hne].
      + rewrite lookup_insert_eq. intros [= <-].
        destruct (sequence_transaction_map ix !! sequence_key d) as [t0 |] eqn:Ht0;
          simpl; [| done].
        intros Hc. left. by exists t0.
      + rewrite lookup_insert_ne by done. intros Ht Hc. left. by exists t. }
  destruct d as [jb sq b fl | jb sq blocks | jb sq]; simpl descriptor_type; cbv iota.
  - by apply Hindexed.
  - by apply Hindexed.
  - clear Hindexed Hkeep. simpl sequence.
    destruct (sequence_transaction_map ix !! int_of_u32 sq) as [t |] eqn:Ht.
    + unfold Transaction_set_committed.
      destruct (T_committed t) eqn:Hc; [done |]. simpl. intros [= <-]. simpl.
      split; [| split].
      * intros s. rewrite app_nil_r.
        destruct (decide (int_of_u32 sq = s)) as [<- | Hne].
        -- by rewrite lookup_insert_eq, Ht.
        -- by rewrite lookup_insert_ne.
      * intros Hwf s t'.
        destruct (decide (int_of_u32 sq = s)) as [<- | Hne].
        -- rewrite lookup_insert_eq. intros [= <-]. simpl. by apply Hwf.
        -- rewrite lookup_insert_ne by done. apply Hwf.
      * intros s t'.
        destruct (decide (int_of_u32 sq = s)) as [<- | Hne].
        -- rewrite lookup_insert_eq. intros _ _. by right.
        -- rewrite lookup_insert_ne by done. intros Ht' Hc'. left. by exists t'.
    + intros [= <-]. split; [| split].
      * intros s. by rewrite app_nil_r.
      * done.
      * intros s t Ht' Hc. left. by exists t.
Qed.

Lemma index_descriptors_transactions (descs : list Descriptor) (ix ix' : JournalIndex) :
  index_descriptors descs ix = Some ix' ->
  (forall s, default [] (T_descriptor <$> sequence_transaction_map ix' !! s)
             = default [] (T_descriptor <$> sequence_transaction_map ix !! s)
               ++ List.filter (in_transaction s) descs) /\
  (transactions_wf (sequence_transaction_map ix) ->
   transactions_wf (sequence_transaction_map ix')) /\
  (forall s t, sequence_transaction_map ix' !! s = Some t -> T_committed t = true ->
     (exists t0, sequence_transaction_map ix !! s = Some t0 /\ T_committed t0 = true) \/
     (exists d, d ∈ descs /\ indexed d = false /\ sequence_key d = s)).
Proof.
  revert ix. induction descs as [| d rest IH]; intros ix; simpl index_descriptors.
  - intros [= <-]. split; [intros s; by rewrite app_nil_r |]. split; [done |].
    intros s t Ht Hc. left. by exists t.
  - destruct (index_descriptor d ix) as [ix1 |] eqn:Hstep; [| done].
    intros Hrest.
    destruct (index_descriptor_transactions d ix ix1 Hstep) as (H1 & H1' & H1'').
    destruct (IH ix1 Hrest) as (H2 & H2' & H2''). split; [| split].
    + intros s. rewrite H2, H1, <- app_assoc. f_equal.
      change (d :: rest) with ([d] ++ rest). by rewrite List.filter_app.
    + intros Hwf. by apply H2', H1'.
    + intros s t Ht Hc.
      destruct (H2'' s t Ht Hc) as [(t1 & Ht1 & Hc1) | (d' & Hd' & Hrest')].
      * destruct (H1'' s t1 Ht1 Hc1) as [Hold | [Hd Hs]]; [by left |].
        right. exists d. split; [by left | done].
      * right. exists d'. split; [by right | done].
Qed.

(** X14: when [init_journal] gets through the descriptors,
    [sequence_transaction_map] holds a transaction for exactly the sequence
    numbers that a tag or a revoke descriptor carries (a commit block alone
    makes none).  The transaction filed under a sequence number has that
    sequence number, lists the tags and revoke descriptors that carry it
    in the order in which they were processed, has the journal block of the
    first of them as its block, is marked committed only if a commit block
    carries the sequence number, and [contains_tag_for_block] holds of it
    for exactly the blocks one of its tags is for. *)
Theorem transactions_collect_their_descriptors
    (descs : list Descriptor) (ix : JournalIndex) (s : Z) :
  index_descriptors descs JournalIndex_empty = Some ix ->
  (sequence_transaction_map ix !! s = None <->
   List.filter (in_transaction s) descs = []) /\
  (forall t, sequence_transaction_map ix !! s = Some t ->
     T_sequence t = s /\
     T_descriptor t = List.filter (in_transaction s) descs /\
     (exists d0, head (T_descriptor t) = Some d0 /\ T_block t = journal_key d0) /\
     (T_committed t = true ->
      exists d, d ∈ descs /\ indexed d = false /\ sequence_key d = s) /\
     (forall block,
        contains_tag_for_block t block = true <->
        exists jb sq fl,
          DescriptorTag jb sq (u32 block) fl ∈ descs /\ int_of_u32 sq = s)).
Proof.
  intros Hindex.
  destruct (index_descriptors_transactions descs _ ix Hindex) as (Hlist & Hwf & Hcommit).
  specialize (Hlist s). simpl in Hlist. rewrite lookup_empty in Hlist. simpl in Hlist.
  assert (transactions_wf (sequence_transaction_map ix)) as Hwf'.
  { apply Hwf. intros s' t. simpl. by rewrite lookup_empty. }
  split.
  - destruct (sequence_transaction_map ix !! s) as [t |] eqn:Ht; simpl in Hlist.
    + destruct (Hwf' s t Ht) as (_ & d0 & rest & Hd & _).
      rewrite <- Hlist, Hd. split; done.
    + by rewrite <- Hlist.
  - intros t Ht. rewrite Ht in Hlist. simpl in Hlist.
    destruct (Hwf' s t Ht) as (Hs & d0 & rest & Hd & Hb).
    split; [done |]. split; [done |]. split; [| split].
    + exists d0. by rewrite Hd.
    + intros Hc. destruct (Hcommit s t Ht Hc) as [(t0 & Ht0 & _) | ?]; [| done].
      simpl in Ht0. by rewrite lookup_empty in Ht0.
    + intros block. unfold contains_tag_for_block. rewrite Hlist, existsb_exists.
      split.
      * intros (d & Hd' & Htag). apply filter_In in Hd' as [Hd' Hin].
        destruct d as [jb sq b fl | |]; try done.
        apply Z.eqb_eq in Htag as ->. exists jb, sq, fl.
        split; [by apply list_elem_of_In |].
        unfold in_transaction in Hin. apply andb_prop in Hin as [_ Hseq].
        by apply Z.eqb_eq in Hseq.
      * intros (jb & sq & fl & Hd' & Hseq).
        exists (DescriptorTag jb sq (u32 block) fl). split.
        -- apply filter_In. split; [by apply list_elem_of_In |].
           unfold in_transaction, sequence_key. simpl. by apply Z.eqb_eq.
        -- apply Z.eqb_refl.
Qed.

Lemma transactions_collect_their_descriptors_witness :
  (T_descriptor <$> sequence_transaction_map s4_index !! 12)
  = Some [DescriptorTag 103 12 5 8].
Proof.
  destruct (sequence_transaction_map s4_index !! 12) as [t |] eqn:Ht.
  - simpl. f_equal.
    exact (proj1 (proj2 (proj2 (transactions_collect_their_descriptors
                                  s4_descriptors s4_index 12 eq_refl) t Ht))).
  - vm_compute in Ht. discriminate Ht.
Defined.

(** X15: [is_inode_block] returns the block itself for a block of an
    inode table; for any other block it returns 0 unless the block is a
    journal block, not one of the indirect blocks of the journal, that
    holds the copy a tag logged of an inode table block, in which case it
    returns that inode table block, not the journal block.  So a result
    other than 0 is always a block of an inode table. *)
Theorem is_inode_block_names_an_inode_table_block
    (g : Geometry) (jb : JournalBlocks) (indirect_bitmap : list Z)
    (descs : list Descriptor) (ix : JournalIndex) (block : Z) :
  index_descriptors descs JournalIndex_empty = Some ix ->
  (is_inode_block g jb indirect_bitmap ix block <> 0 ->
   is_inode g (is_inode_block g jb indirect_bitmap ix block) = true) /\
  (is_inode g block = true -> is_inode_block g jb indirect_bitmap ix block = block) /\
  (is_inode g block = false ->
   is_inode_block g jb indirect_bitmap ix block <> 0 ->
   is_journal jb block = true /\
   is_indirect_block_in_journal jb indirect_bitmap block = false /\
   exists M_block M_sequence M_blocknr M_flags,
     DescriptorTag M_block M_sequence M_blocknr M_flags ∈ descs /\
     int_of_u32 M_block = block /\
     is_inode_block g jb indirect_bitmap ix block = int_of_u32 M_blocknr) /\
  (forall M_block M_sequence M_blocknr M_flags,
     DescriptorTag M_block M_sequence M_blocknr M_flags ∈ descs ->
     int_of_u32 M_block = block ->
     is_inode g block = false ->
     is_journal jb block = true ->
     is_indirect_block_in_journal jb indirect_bitmap block = false ->
     is_inode_block g jb indirect_bitmap ix block
     = if is_inode g (int_of_u32 M_blocknr) then int_of_u32 M_blocknr else 0).
Proof.
  intros Hindex.
  destruct (index_descriptors_journal descs _ ix Hindex) as (_ & Hin & _ & Hfrom).
  assert (is_inode g block = false ->
          is_inode_block g jb indirect_bitmap ix block <> 0 ->
          is_journal jb block = true /\
          is_indirect_block_in_journal jb indirect_bitmap block = false /\
          exists M_block M_sequence M_blocknr M_flags,
            DescriptorTag M_block M_sequence M_blocknr M_flags ∈ descs /\
            int_of_u32 M_block = block /\
            is_inode g (int_of_u32 M_blocknr) = true /\
            is_inode_block g jb indirect_bitmap ix block = int_of_u32 M_blocknr) as Hother.
  { intros Hno. unfold is_inode_block. rewrite Hno.
    destruct (is_journal jb block); [| done].
    destruct (is_indirect_block_in_journal jb indirect_bitmap block); [done |]. simpl.
    unfold journal_block_contains_inodes.
    destruct (block_in_journal_to_descriptors_map ix !! block) as [d |] eqn:Hd; [| done].
    destruct d as [jblk sq b fl | |]; try done.
    destruct (is_inode g (int_of_u32 b)) eqn:Hb; [| done]. intros _.
    split; [done |]. split; [done |]. exists jblk, sq, b, fl.
    destruct (Hfrom _ _ Hd) as [Hold | (Hd' & _ & ->)].
    - simpl in Hold. by rewrite lookup_empty in Hold.
    - done. }
  split; [| split; [| split]].
  - destruct (is_inode g block) eqn:Hblock.
    + unfold is_inode_block. by rewrite Hblock.
    + intros Hnz. destruct (Hother eq_refl Hnz) as (_ & _ & ? & ? & b & ? & _ & _ & Hb & ->).
      exact Hb.
  - intros Hyes. unfold is_inode_block. by rewrite Hyes.
  - intros Hno Hnz.
    destruct (Hother Hno Hnz) as (Hj & Hi & jblk & sq & b & fl & Hd & Hk & _ & Hr).
    split; [done |]. split; [done |]. by exists jblk, sq, b, fl.
  - intros jblk sq b fl Hd Hk Hno Hj Hi. unfold is_inode_block.
    rewrite Hno, Hj, Hi. simpl. unfold journal_block_contains_inodes.
    destruct (Hin _ Hd eq_refl) as [_ Hsome]. unfold journal_key in Hsome. simpl in Hsome.
    rewrite Hk in Hsome. by rewrite Hsome.
Qed.

Lemma is_inode_block_names_an_inode_table_block_witness :
  is_inode_block s4_geometry c3_journal [] c3_index 104 = 5.
Proof.
  refine (eq_trans
            (proj2 (proj2 (proj2 (is_inode_block_names_an_inode_table_block s4_geometry
                                    c3_journal [] c3_descriptors c3_index 104 _)))
               104 12 5 8 _ _ _ _ _) _).
  - vm_compute. reflexivity.
  - unfold c3_descriptors. do 3 (apply elem_of_cons; right). apply elem_of_cons. by left.
  - reflexivity.
  - vm_compute. reflexivity.
  - vm_compute. reflexivity.
  - vm_compute. reflexivity.
  - vm_compute. reflexivity.
Defined.

(** ** Blocks that look like a directory *)

Lemma EXT3_DIR_REC_LEN_value (n : Z) : EXT3_DIR_REC_LEN n = 4 * ((n + 11) / 4).
Proof.
  unfold EXT3_DIR_REC_LEN. replace (n + 8 + 3) with (n + 11) by lia.
  rewrite <- Z.ldiff_land. change 3 with (Z.ones 2).
  rewrite Z.ldiff_ones_r by lia.
  rewrite Z.shiftl_mul_pow2, Z.shiftr_div_pow2 by lia. change (2 ^ 2) with 4. lia.
Qed.

Lemma EXT3_DIR_REC_LEN_min (n : Z) : 1 <= n -> 12 <= EXT3_DIR_REC_LEN n.
Proof.
  intros Hn. rewrite EXT3_DIR_REC_LEN_value. Z.to_euclidean_division_equations. lia.
Qed.

Lemma name_chars_loop_false (dir_entry : ext3_dir_entry_2) (cs : list nat) :
  name_chars_loop dir_entry cs false = false.
Proof.
  induction cs as [| c rest IH]; simpl; [done |].
  destruct (is_ok _); [done |].
  destruct (_ && nbsp_at _ _); [done |]. by destruct (is_illegal _).
Qed.

Lemma nbsp_at_last_char (name : list Z) (c : nat) :
  (5 <= c)%nat -> nbsp_at name (Z.of_nat c) = true -> nth c name 0 = 59.
Proof.
  intros Hc Hnbsp. unfold nbsp_at in Hnbsp. apply bool_decide_eq_true_1 in Hnbsp.
  assert (take 6 (drop (Z.to_nat (Z.of_nat c - 5)) name) !! 5%nat = Some 59) as Hlast
    by (by rewrite Hnbsp).
  rewrite lookup_take_lt, lookup_drop in Hlast by lia.
  replace (Z.to_nat (Z.of_nat c - 5) + 5)%nat with c in Hlast by lia.
  by apply nth_lookup_Some.
Qed.

(** The exception for names that end in ["&nbsp;"] never applies: the
    last of these characters is a legal one. *)
Lemma name_chars_loop_ok (dir_entry : ext3_dir_entry_2) (cs : list nat) :
  name_chars_loop dir_entry cs true = true ->
  forall c, c ∈ cs -> is_ok (is_filename_char (nth c (de_name dir_entry) 0)) = true.
Proof.
  induction cs as [| c rest IH]; intros Hrun c' Hc'; [by apply elem_of_nil in Hc' |].
  simpl in Hrun.
  destruct (is_ok (is_filename_char (nth c (de_name dir_entry) 0))) eqn:Hok.
  - apply elem_of_cons in Hc' as [-> | Hc']; [done | by apply IH].
  - exfalso.
    destruct ((de_name_len dir_entry - Z.of_nat c =? 1) && (6 <? de_name_len dir_entry)
              && nbsp_at (de_name dir_entry) (Z.of_nat c)) eqn:Hex.
    + apply andb_prop in Hex as [Hex Hnbsp]. apply andb_prop in Hex as [H1 H6].
      apply Z.eqb_eq in H1. apply Z.ltb_lt in H6.
      rewrite (nbsp_at_last_char _ c ltac:(lia) Hnbsp) in Hok. done.
    + destruct (is_illegal _); [done |]. by rewrite name_chars_loop_false in Hrun.
Qed.

Lemma is_filename_char_ok (c : Z) :
  is_ok (is_filename_char c) = true -> 32 <= c <= 126 /\ c <> 47.
Proof.
  unfold is_filename_char.
  destruct (Z.ltb_spec c 32), (Z.ltb_spec 126 c), (Z.eqb_spec c 47); simpl; try done.
Qed.

Section IsDirectoryFacts.
Variable block_size_ : Z.
Variable inode_count_ : Z.
Variable EXT3_FT_MAX : Z.
Variable entry_at : Z -> ext3_dir_entry_2.
Hypothesis name_len_unsigned : forall offset, 0 <= de_name_len (entry_at offset).

Local Abbreviation loop := (is_directory_loop block_size_ inode_count_ EXT3_FT_MAX entry_at).
Local Abbreviation sane := (sane_entry block_size_ inode_count_ entry_at).
Local Abbreviation chain := (chain_to_end block_size_ inode_count_ entry_at).

Lemma is_directory_loop_chain (fuel : nat) (start_block : bool) (offset : Z)
    (r : is_directory_type) :
  loop fuel start_block offset = Some r -> r <> isdir_no ->
  exists offsets, chain offset offsets.
Proof.
  revert start_block offset r.
  induction fuel as [| fuel IH]; intros start_block offset r Hrun Hr; [done |].
  cbn [is_directory_loop] in Hrun.
  destruct (start_block && negb (offset =? 0)); [done |].
  destruct (Z.eqb_spec (Z.land offset EXT3_DIR_ROUND) 0) as [Halign |];
    [| by injection Hrun as <-].
  cbn [negb] in Hrun.
  destruct (block_size_ <? offset + EXT3_DIR_REC_LEN 1); [by injection Hrun as <- |].
  destruct (start_block && negb _); [by injection Hrun as <- |].
  destruct (_ && name_has_illegal_char _); [by injection Hrun as <- |].
  destruct (Z.ltb_spec inode_count_ (de_inode (entry_at offset))) as [| Hinode];
    [by injection Hrun as <- |].
  destruct (Z.eqb_spec (de_name_len (entry_at offset)) 0) as [| Hname];
    [by injection Hrun as <- |].
  destruct (Z.eqb_spec (Z.land (de_rec_len (entry_at offset)) EXT3_DIR_ROUND) 0)
    as [Hpad |]; [| by injection Hrun as <-].
  cbn [negb orb] in Hrun.
  destruct (Z.ltb_spec (de_rec_len (entry_at offset))
              (EXT3_DIR_REC_LEN (de_name_len (entry_at offset)))) as [| Hlen];
    [by injection Hrun as <- |].
  cbn [orb] in Hrun.
  destruct (Z.ltb_spec block_size_ (offset + de_rec_len (entry_at offset))) as [| Hfit];
    [by injection Hrun as <- |].
  destruct (single_entry_paranoia _ _ _); [by injection Hrun as <- |].
  assert (name_chars_loop (entry_at offset)
            (seq 0 (Z.to_nat (de_name_len (entry_at offset)))) true = true ->
          sane offset) as Hsane.
  { intros Hok. pose proof (name_len_unsigned offset).
    split; [exact Halign |]. split; [lia |]. split; [lia |]. split; [exact Hpad |].
    split; [lia |]. split; [lia |].
    intros c Hc. apply is_filename_char_ok, (name_chars_loop_ok _ _ Hok).
    apply elem_of_seq. lia. }
  destruct (Z.eqb_spec (offset + de_rec_len (entry_at offset)) block_size_) as [Hend | Hmore].
  - cbn [mbind option_bind negb] in Hrun.
    destruct (name_chars_loop _ _ true) eqn:Hok; [| by injection Hrun as <-].
    exists [offset]. apply chain_last; [by apply Hsane | done].
  - destruct (loop fuel false (offset + de_rec_len (entry_at offset))) as [r' |] eqn:Hrest;
      [| done].
    cbn [mbind option_bind] in Hrun.
    assert (r' <> isdir_no) as Hr'.
    { intros ->. cbn [negb] in Hrun. by injection Hrun as <-. }
    destruct (IH _ _ _ Hrest Hr') as (offsets & Hchain).
    assert (negb match r' with isdir_no => false | _ => true end = false) as Hneg
      by (by destruct r').
    rewrite Hneg in Hrun.
    destruct (name_chars_loop _ _ true) eqn:Hok; [| by injection Hrun as <-].
    exists (offset :: offsets). apply chain_next; [by apply Hsane | done].
Qed.

Lemma is_directory_loop_total (fuel : nat) (start_block : bool) (offset : Z) :
  (start_block = true -> offset = 0) ->
  (0 < fuel)%nat ->
  block_size_ - offset < 12 * Z.of_nat fuel ->
  is_Some (loop fuel start_block offset).
Proof.
  revert start_block offset.
  induction fuel as [| fuel IH]; intros start_block offset Hstart Hpos Hfuel; [lia |].
  cbn [is_directory_loop].
  assert (start_block && negb (offset =? 0) = false) as ->.
  { destruct start_block; [| done]. by rewrite (Hstart eq_refl). }
  destruct (negb (Z.land offset EXT3_DIR_ROUND =? 0)); [done |].
  destruct (block_size_ <? offset + EXT3_DIR_REC_LEN 1); [done |].
  destruct (start_block && negb _); [done |].
  destruct (_ && name_has_illegal_char _); [done |].
  destruct (inode_count_ <? _); [done |].
  destruct (Z.eqb_spec (de_name_len (entry_at offset)) 0) as [| Hname]; [done |].
  destruct (Z.eqb_spec (Z.land (de_rec_len (entry_at offset)) EXT3_DIR_ROUND) 0);
    [| done].
  cbn [negb orb].
  destruct (Z.ltb_spec (de_rec_len (entry_at offset))
              (EXT3_DIR_REC_LEN (de_name_len (entry_at offset)))) as [| Hlen]; [done |].
  cbn [orb].
  destruct (Z.ltb_spec block_size_ (offset + de_rec_len (entry_at offset))) as [| Hfit];
    [done |].
  destruct (single_entry_paranoia _ _ _); [done |].
  destruct (Z.eqb_spec (offset + de_rec_len (entry_at offset)) block_size_) as [| Hmore].
  - cbn [mbind option_bind negb]. done.
  - pose proof (name_len_unsigned offset).
    pose proof (EXT3_DIR_REC_LEN_min (de_name_len (entry_at offset)) ltac:(lia)).
    destruct (IH false (offset + de_rec_len (entry_at offset)) ltac:(done) ltac:(lia)
                ltac:(lia)) as [r' ->].
    cbn [mbind option_bind]. by destruct (negb _).
Qed.
End IsDirectoryFacts.

(** X16: [is_directory] on a block returns a verdict for every offset from
    0 on (with [start_block] only for offset 0, as its [assert] demands):
    the recursion along the records ends.  When the verdict is not
    [isdir_no], the records chain from the offset to the end of the block
    exactly: each one starts at a multiple of 4, has an inode number up to
    [inode_count_], a name of at least one character, all of them in
    [32, 126] and none a slash, and a record length that is a multiple of
    4, holds the name, and leads to the next record or to the end of the
    block. *)
Theorem accepted_block_chains_to_its_end
    (block_size : Z) (inode_count_ EXT3_FT_MAX : Z) (entry_at : Z -> ext3_dir_entry_2)
    (start_block : bool) (offset : Z) :
  0 < block_size ->
  (forall o, 0 <= de_name_len (entry_at o)) ->
  0 <= offset ->
  (start_block = true -> offset = 0) ->
  exists r,
    is_directory_block block_size inode_count_ EXT3_FT_MAX entry_at start_block offset
    = Some r /\
    (r <> isdir_no ->
     exists offsets, chain_to_end block_size inode_count_ entry_at offset offsets).
Proof.
  intros Hbs Hname Hoffset Hstart. unfold is_directory_block.
  destruct (is_directory_loop_total block_size inode_count_ EXT3_FT_MAX entry_at Hname
              (Z.to_nat block_size) start_block offset Hstart ltac:(lia) ltac:(lia))
    as [r Hr].
  exists r. split; [done |]. intros Hyes.
  by eapply is_directory_loop_chain.
Qed.

Lemma accepted_block_chains_to_its_end_witness :
  exists offsets, chain_to_end 1024 99 (start_block_view 21 77) 0 offsets.
Proof.
  destruct (accepted_block_chains_to_its_end 1024 99 8 (start_block_view 21 77) true 0)
    as (r & Hr & Hchain).
  - lia.
  - intros o. unfold start_block_view. destruct (o =? 0); simpl; lia.
  - lia.
  - reflexivity.
  - apply Hchain. vm_compute in Hr. injection Hr as <-. discriminate.
Defined.

(** ** The entries a walk over a directory block visits *)

Lemma visit_all_app {S : Type} (step : Z -> S -> option S) (l1 l2 : list Z) (s : S) :
  visit_all step (l1 ++ l2) s = visit_all step l1 s ≫= visit_all step l2.
Proof.
  revert s. induction l1 as [| o l1 IH]; intros s; simpl; [done |].
  destruct (step o s) as [s1 |]; simpl; [apply IH | done].
Qed.

Lemma existsb_reverse {A : Type} (f : A -> bool) (l : list A) :
  existsb f (reverse l) = existsb f l.
Proof.
  induction l as [| x l IH]; [done |].
  rewrite reverse_cons, existsb_app, IH. simpl. rewrite orb_false_r. apply orb_comm.
Qed.

Lemma offsets_down_from_step (offset : Z) :
  offsets_down_from offset
  = if 0 <? offset then offset :: offsets_down_from (offset - EXT3_DIR_PAD) else [].
Proof.
  unfold offsets_down_from, EXT3_DIR_PAD.
  destruct (Z.ltb_spec 0 offset) as [Hpos | Hneg].
  - assert (0 <= offset / 4) by (apply Z.div_pos; lia).
    rewrite (seqZ_cons 0 (offset / 4 + 1)) by lia. rewrite fmap_cons, filter_cons.
    rewrite decide_True by lia. f_equal; [lia |].
    replace (Z.pred (offset / 4 + 1)) with (offset / 4) by lia.
    replace ((offset - 4) / 4 + 1) with (offset / 4).
    2:{ replace (offset - 4) with (offset + (-1) * 4) by lia.
        rewrite Z.div_add by lia. lia. }
    assert ((fun k => offset - 4 * k) <$> seqZ (Z.succ 0) (offset / 4)
            = (fun k => offset - 4 - 4 * k) <$> seqZ 0 (offset / 4)) as ->; [| done].
    change (Z.succ 0) with (1 + 0). rewrite <- fmap_add_seqZ, <- list_fmap_compose.
    apply list_fmap_ext. intros _ k _. simpl. lia.
  - assert (offset / 4 + 1 <= 1) as Hsmall.
    { assert (offset / 4 <= 0); [| lia]. apply Z.div_le_upper_bound; lia. }
    destruct (decide (offset / 4 + 1 <= 0)) as [Hle | Hgt].
    + rewrite seqZ_nil by lia. done.
    + replace (offset / 4 + 1) with 1 by lia.
      change (seqZ 0 1) with [0]. cbn [fmap list_fmap]. rewrite filter_cons, filter_nil.
      rewrite decide_False by lia. done.
Qed.

Lemma set_callback_data_same {D : Type} (s : iterate_state D) :
  set_callback_data s (callback_data s) = s.
Proof. by destruct s. Qed.

Section DirectoryFacts.
Context {D : Type}.
Variable g : Geometry.
Variable inode_bitmap : Z -> list Z.
Variable all_inodes : Z -> list Inode.
Variable block_count_ : Z.
Variable inode_count_ : Z.
Variable get_block_ptrs : Z -> option (list Z).
Variable get_block_entry : Z -> option (Z -> ext3_dir_entry_2).
Variable is_directory_at : Z -> Z -> bool.
Variable dir_inode_to_block_cache : list blocknr_vector_type.
Variable cl : Commandline.
Variable action : dir_entry_action D.
Variable below :
  Z -> (Z -> ext3_dir_entry_2) -> list Parent -> iterate_state D ->
  option (iterate_state D).

Local Abbreviation filter_entry :=
  (filter_dir_entry g inode_bitmap all_inodes block_count_ inode_count_ get_block_ptrs
     get_block_entry dir_inode_to_block_cache cl action below).
Local Abbreviation live_loop :=
  (live_entries_loop g inode_bitmap all_inodes block_count_ inode_count_ get_block_ptrs
     get_block_entry dir_inode_to_block_cache cl action below).
Local Abbreviation deleted_loop :=
  (deleted_entries_loop g inode_bitmap all_inodes block_count_ inode_count_ get_block_ptrs
     get_block_entry is_directory_at dir_inode_to_block_cache cl action below).

Lemma live_entries_loop_visits (no_filtering : Z) (block_buf : Z -> ext3_dir_entry_2)
    (parent : list Parent) (offset : Z) (offsets : list Z) :
  linked_records (block_size_ g) block_buf offset offsets ->
  forall (fuel : nat) (map : list Z) (s : iterate_state D),
    (length offsets <= fuel)%nat ->
    live_loop fuel no_filtering block_buf parent offset map s
    = s1 ← visit_all (fun o => filter_entry no_filtering (block_buf o) false true parent)
             offsets s;
      Some (reverse ((fun o => Z.quot o EXT3_DIR_PAD) <$> offsets) ++ map, s1).
Proof.
  induction 1 as [offset Hend | offset offsets Hin _ IH]; intros fuel map s Hfuel.
  - destruct fuel; simpl; by rewrite (proj2 (Z.leb_le _ _)) by done.
  - destruct fuel as [| fuel]; [simpl in Hfuel; lia |].
    cbn [live_entries_loop visit_all].
    rewrite (proj2 (Z.leb_gt _ _)) by done.
    destruct (filter_entry _ _ _ _ _ _) as [s1 |]; cbn [mbind option_bind]; [| done].
    rewrite IH by (simpl in Hfuel; lia).
    destruct (visit_all _ _ _); cbn [mbind option_bind]; [| done].
    by rewrite fmap_cons, reverse_cons, <- app_assoc.
Qed.

Lemma live_entries_loop_linked (no_filtering : Z) (block_buf : Z -> ext3_dir_entry_2)
    (parent : list Parent) (fuel : nat) (offset : Z) (map : list Z) (s : iterate_state D)
    (r : list Z * iterate_state D) :
  live_loop fuel no_filtering block_buf parent offset map s = Some r ->
  exists offsets, linked_records (block_size_ g) block_buf offset offsets /\
                  (length offsets <= fuel)%nat.
Proof.
  revert offset map s. induction fuel as [| fuel IH]; intros offset map s; simpl.
  - destruct (Z.leb_spec (block_size_ g) offset); [| done].
    intros _. exists []. split; [by constructor | done].
  - destruct (Z.leb_spec (block_size_ g) offset).
    + intros _. exists []. split; [by constructor | simpl; lia].
    + destruct (filter_entry _ _ _ _ _ _) as [s1 |]; simpl; [| done].
      intros Hrest. destruct (IH _ _ _ Hrest) as (offsets & Hlinked & Hlen).
      exists (offset :: offsets). split; [by constructor | simpl; lia].
Qed.

Lemma deleted_entries_loop_visits (no_filtering blocknr : Z)
    (block_buf : Z -> ext3_dir_entry_2) (parent : list Parent) (map : list Z)
    (fuel : nat) (offset : Z) (s : iterate_state D) :
  offset <= 4 * Z.of_nat fuel ->
  deleted_loop fuel no_filtering blocknr block_buf parent offset map s
  = visit_all (fun o => filter_entry no_filtering (block_buf o) true false parent)
      (filter (fun o => negb (existsb (Z.eqb (Z.quot o EXT3_DIR_PAD)) map)
                        && is_directory_at blocknr o = true)
         (offsets_down_from offset)) s.
Proof.
  revert offset s. induction fuel as [| fuel IH]; intros offset s Hfuel;
    rewrite offsets_down_from_step; cbn [deleted_entries_loop].
  - rewrite (proj2 (Z.leb_le offset 0)) by lia.
    by rewrite (proj2 (Z.ltb_ge 0 offset)) by lia.
  - destruct (Z.leb_spec offset 0) as [Hle | Hgt].
    + by rewrite (proj2 (Z.ltb_ge 0 offset)) by lia.
    + rewrite (proj2 (Z.ltb_lt 0 offset)) by lia. rewrite filter_cons.
      destruct (negb _ && is_directory_at blocknr offset) eqn:Hfound.
      * rewrite decide_True by done. cbn [visit_all].
        destruct (filter_entry _ _ _ _ _ _) as [s1 |]; cbn [mbind option_bind]; [| done].
        apply IH. unfold EXT3_DIR_PAD. lia.
      * rewrite decide_False by (cbn beta; congruence). cbn [mbind option_bind].
        apply IH. unfold EXT3_DIR_PAD. lia.
Qed.

(** What one level of [iterate_over_directory] does: it goes to the linked
    records, in their order, and then to the deleted ones, from the end of
    the block down. *)
Lemma iterate_over_directory_level_visits (no_filtering : Z) (read_block_action : bool)
    (blocknr : Z) (block_buf : Z -> ext3_dir_entry_2) (parent : list Parent)
    (s s' : iterate_state D) (entered : Z) :
  entered = (if read_block_action then no_filtering + 1 else no_filtering) ->
  iterate_over_directory_level g inode_bitmap all_inodes block_count_ inode_count_
    get_block_ptrs get_block_entry is_directory_at dir_inode_to_block_cache cl
    no_filtering action read_block_action below blocknr block_buf parent s = Some s' ->
  exists offsets,
    linked_records (block_size_ g) block_buf 0 offsets /\
    (visit_all (fun o => filter_entry entered (block_buf o) false true parent) offsets s
     ≫= visit_all (fun o => filter_entry entered (block_buf o) true false parent)
          (deleted_records (block_size_ g) (is_directory_at blocknr) offsets))
    = Some s'.
Proof.
  unfold iterate_over_directory_level. intros <- Hrun.
  destruct (live_loop _ _ _ _ _ _ _) as [[map s1] |] eqn:Hlive;
    cbn [mbind option_bind] in Hrun; [| done].
  destruct (live_entries_loop_linked _ _ _ _ _ _ _ _ Hlive) as (offsets & Hlinked & Hlen).
  exists offsets. split; [done |].
  rewrite (live_entries_loop_visits _ _ _ _ _ Hlinked) in Hlive by done.
  destruct (visit_all _ offsets s) as [s1' |]; cbn [mbind option_bind] in Hlive |- *;
    [| done].
  injection Hlive as <- <-. rewrite app_nil_r in Hrun.
  rewrite deleted_entries_loop_visits in Hrun.
  - rewrite <- Hrun. unfold deleted_records. f_equal.
    apply list_filter_iff. intros o. by rewrite existsb_reverse.
  - pose proof (EXT3_DIR_REC_LEN_min 1 ltac:(lia)). lia.
Qed.

Lemma filter_dir_entry_no_filtering (no_filtering : Z) (dir_entry : ext3_dir_entry_2)
    (deleted linked : bool) (parent : list Parent) (s : iterate_state D) :
  no_filtering <> 0 ->
  filter_entry no_filtering dir_entry deleted linked parent s
  = flags ← filter_dir_entry_flags g inode_bitmap all_inodes cl dir_entry deleted;
    r ← action dir_entry flags.1.1.1.1 flags.1.1.1.2 flags.1.1.2 flags.1.2
          (de_inode dir_entry =? 0) linked flags.2 parent (callback_data s);
    Some (set_callback_data s r.2).
Proof.
  intros Hnf. unfold filter_dir_entry.
  destruct (filter_dir_entry_flags _ _ _ _ _ _) as [[[[[inode del] alloc] realloc] filt] |];
    cbn [mbind option_bind fst snd]; [| done].
  rewrite (proj2 (Z.eqb_neq _ _)) by done. cbn [negb].
  by destruct (action _ _ _ _ _ _ _ _ _ _) as [[abort data] |].
Qed.

(** While [no_filtering] is set nothing but the data of the callback
    changes. *)
Lemma filter_dir_entry_statics (no_filtering : Z) (dir_entry : ext3_dir_entry_2)
    (deleted linked : bool) (parent : list Parent) (s s' : iterate_state D) :
  no_filtering <> 0 ->
  filter_entry no_filtering dir_entry deleted linked parent s = Some s' ->
  s' = set_callback_data s (callback_data s').
Proof.
  intros Hnf. rewrite filter_dir_entry_no_filtering by done.
  destruct (filter_dir_entry_flags _ _ _ _ _ _); cbn [mbind option_bind]; [| done].
  destruct (action _ _ _ _ _ _ _ _ _ _); cbn [mbind option_bind]; [| done].
  by intros [= <-].
Qed.

Lemma visit_all_statics (no_filtering : Z) (block_buf : Z -> ext3_dir_entry_2)
    (deleted linked : bool) (parent : list Parent) (offsets : list Z)
    (s s' : iterate_state D) :
  no_filtering <> 0 ->
  visit_all (fun o => filter_entry no_filtering (block_buf o) deleted linked parent)
    offsets s = Some s' ->
  s' = set_callback_data s (callback_data s').
Proof.
  intros Hnf. revert s. induction offsets as [| o offsets IH]; intros s; simpl.
  - intros [= <-]. by rewrite set_callback_data_same.
  - destruct (filter_entry _ _ _ _ _ _) as [s1 |] eqn:Hstep; cbn [mbind option_bind];
      [| done].
    intros Hrest. rewrite (IH _ Hrest).
    by rewrite (filter_dir_entry_statics _ _ _ _ _ _ _ Hnf Hstep).
Qed.

Lemma iterate_over_directory_level_statics (no_filtering : Z) (read_block_action : bool)
    (blocknr : Z) (block_buf : Z -> ext3_dir_entry_2) (parent : list Parent)
    (s s' : iterate_state D) :
  (if read_block_action then no_filtering + 1 else no_filtering) <> 0 ->
  iterate_over_directory_level g inode_bitmap all_inodes block_count_ inode_count_
    get_block_ptrs get_block_entry is_directory_at dir_inode_to_block_cache cl
    no_filtering action read_block_action below blocknr block_buf parent s = Some s' ->
  s' = set_callback_data s (callback_data s').
Proof.
  intros Hnf Hrun.
  eapply (iterate_over_directory_level_visits _ _ _ _ _ _ _ _ eq_refl) in Hrun
    as (offsets & _ & Hvisits).
  destruct (visit_all _ offsets s) as [s1 |] eqn:Hlive; cbn [mbind option_bind] in Hvisits;
    [| done].
  apply visit_all_statics in Hlive; [| done]. apply visit_all_statics in Hvisits; [| done].
  rewrite Hvisits. by rewrite Hlive.
Qed.
End DirectoryFacts.

(** ** The vote on the owner of an extended directory block *)

Lemma tally_of_snoc (vote : ext3_dir_entry_2 -> option Z) (entries : list ext3_dir_entry_2)
    (e : ext3_dir_entry_2) (p : Z) :
  tally_of vote (entries ++ [e]) p
  = match vote e with
    | Some k => if decide (k = p)
                then Some (default 0 (tally_of vote entries p) + 1)
                else tally_of vote entries p
    | None => tally_of vote entries p
    end.
Proof.
  unfold tally_of. rewrite filter_app, length_app, filter_cons, filter_nil.
  set (n := length (filter _ entries)).
  destruct (vote e) as [k |].
  - destruct (decide (k = p)) as [-> | Hne].
    + rewrite decide_True by done. simpl length.
      destruct (Z.eqb_spec (Z.of_nat (n + 1)) 0); [lia |].
      destruct (Z.eqb_spec (Z.of_nat n) 0) as [Hn | Hn]; simpl; f_equal; lia.
    + rewrite decide_False by congruence. simpl length. by rewrite Nat.add_0_r.
  - rewrite decide_False by done. simpl length. by rewrite Nat.add_0_r.
Qed.

Lemma count_vote_tally (vote : ext3_dir_entry_2 -> option Z)
    (entries : list ext3_dir_entry_2) (m : gmap Z Z) (k p : Z) :
  (forall q, m !! q = tally_of vote entries q) ->
  count_vote k m !! p
  = if decide (k = p) then Some (default 0 (tally_of vote entries p) + 1)
    else tally_of vote entries p.
Proof.
  intros Hm. unfold count_vote. destruct (decide (k = p)) as [-> | Hne].
  - rewrite <- Hm. destruct (m !! p); by rewrite lookup_insert_eq.
  - destruct (m !! k); rewrite lookup_insert_ne by done; apply Hm.
Qed.

Lemma cast_votes_other (vote : ext3_dir_entry_2 -> option Z) (linked : bool)
    (rest : list ext3_dir_entry_2) (data : extended_directory_action_data_st) :
  (if linked then ed_unlinked else ed_linked)
    (foldl (fun d e => cast_vote (vote e) linked d) data rest)
  = (if linked then ed_unlinked else ed_linked) data.
Proof.
  revert data. induction rest as [| e rest IH]; intros data; simpl; [done |].
  rewrite IH. unfold cast_vote. by destruct (vote e), linked.
Qed.

Lemma cast_votes_tally (vote : ext3_dir_entry_2 -> option Z) (linked : bool)
    (rest done : list ext3_dir_entry_2) (data : extended_directory_action_data_st) :
  (forall q, (if linked then ed_linked else ed_unlinked) data !! q
             = tally_of vote done q) ->
  forall p, (if linked then ed_linked else ed_unlinked)
              (foldl (fun d e => cast_vote (vote e) linked d) data rest) !! p
            = tally_of vote (done ++ rest) p.
Proof.
  revert done data. induction rest as [| e rest IH]; intros done data Hm p; simpl.
  - by rewrite app_nil_r.
  - replace (done ++ e :: rest) with ((done ++ [e]) ++ rest) by (by rewrite <- app_assoc).
    apply IH. intros q. rewrite tally_of_snoc. unfold cast_vote.
    destruct (vote e) as [k |]; [| apply Hm].
    destruct linked; simpl; by apply count_vote_tally.
Qed.

Section VoteFacts.
Variable g : Geometry.
Variable inode_bitmap : Z -> list Z.
Variable all_inodes : Z -> list Inode.
Variable block_count_ : Z.
Variable inode_count_ : Z.
Variable get_block_ptrs : Z -> option (list Z).
Variable get_block_entry : Z -> option (Z -> ext3_dir_entry_2).
Variable is_directory_at : Z -> Z -> bool.
Variable dir_inode_to_block_cache : list blocknr_vector_type.
Variable cl : Commandline.

Local Abbreviation vote :=
  (parent_vote inode_count_ dir_inode_to_block_cache get_block_entry).
Local Abbreviation vote_action :=
  (extended_directory_action inode_count_ dir_inode_to_block_cache get_block_entry).

Lemma extended_directory_action_vote (dir_entry : ext3_dir_entry_2)
    (inode : option Inode) (deleted allocated reallocated linked filtered : bool)
    (parent : list Parent) (data : extended_directory_action_data_st)
    (r : bool * extended_directory_action_data_st) :
  vote_action dir_entry inode deleted allocated reallocated (de_inode dir_entry =? 0)
    linked filtered parent data = Some r ->
  r.2 = cast_vote (vote dir_entry) linked data.
Proof.
  unfold extended_directory_action, parent_vote.
  destruct ((Z.land (de_file_type dir_entry) 7 =? EXT3_FT_DIR)
            && negb (de_inode dir_entry =? 0)); [| by intros [= <-]].
  destruct (dir_inode_to_block _ _ _) as [blocknr2 |]; cbn [mbind option_bind]; [| done].
  destruct (blocknr2 =? -1); [by intros [= <-] |].
  destruct (get_block_entry blocknr2) as [block_buf |]; cbn [mbind option_bind]; [| done].
  destruct (negb (de_inode (block_buf 0) =? de_inode dir_entry)); [done |].
  destruct (negb _); [done |].
  destruct (de_inode (block_buf (de_rec_len (block_buf 0))) =? 0); [done |].
  by intros [= <-].
Qed.

Section Below.
Variable below :
  Z -> (Z -> ext3_dir_entry_2) -> list Parent ->
  iterate_state extended_directory_action_data_st ->
  option (iterate_state extended_directory_action_data_st).

Local Abbreviation vote_entry :=
  (filter_dir_entry g inode_bitmap all_inodes block_count_ inode_count_ get_block_ptrs
     get_block_entry dir_inode_to_block_cache cl vote_action below).

Lemma vote_entry_casts (no_filtering : Z) (dir_entry : ext3_dir_entry_2)
    (deleted linked : bool) (parent : list Parent)
    (s s' : iterate_state extended_directory_action_data_st) :
  no_filtering <> 0 ->
  vote_entry no_filtering dir_entry deleted linked parent s = Some s' ->
  s' = set_callback_data s (cast_vote (vote dir_entry) linked (callback_data s)).
Proof.
  intros Hnf. rewrite filter_dir_entry_no_filtering by done.
  destruct (filter_dir_entry_flags _ _ _ _ _ _); cbn [mbind option_bind]; [| done].
  destruct (vote_action _ _ _ _ _ _ _ _ _ _) as [r |] eqn:Hvote;
    cbn [mbind option_bind]; [| done].
  intros [= <-]. by rewrite (extended_directory_action_vote _ _ _ _ _ _ _ _ _ _ Hvote).
Qed.

Lemma vote_entries_cast (no_filtering : Z) (block_buf : Z -> ext3_dir_entry_2)
    (deleted linked : bool) (parent : list Parent) (offsets : list Z)
    (s s' : iterate_state extended_directory_action_data_st) :
  no_filtering <> 0 ->
  visit_all (fun o => vote_entry no_filtering (block_buf o) deleted linked parent)
    offsets s = Some s' ->
  s' = set_callback_data s
         (foldl (fun d e => cast_vote (vote e) linked d) (callback_data s)
            (block_buf <$> offsets)).
Proof.
  intros Hnf. revert s. induction offsets as [| o offsets IH]; intros s; simpl.
  - intros [= <-]. by rewrite set_callback_data_same.
  - destruct (vote_entry _ _ _ _ _ _) as [s1 |] eqn:Hstep; cbn [mbind option_bind];
      [| done].
    intros Hrest. rewrite (IH _ Hrest).
    by rewrite (vote_entry_casts _ _ _ _ _ _ _ Hnf Hstep).
Qed.
End Below.

(** The walk of [init_directories] over an extended block with
    [extended_directory_action]: what the two tallies hold. *)
Lemma extended_block_tallies (no_filtering blocknr : Z)
    (block_buf : Z -> ext3_dir_entry_2) (parent : list Parent)
    (s voted : iterate_state extended_directory_action_data_st) :
  0 <= no_filtering ->
  callback_data s = {| ed_linked := ∅; ed_unlinked := ∅ |} ->
  iterate_over_directory g inode_bitmap all_inodes block_count_ inode_count_
    get_block_ptrs get_block_entry is_directory_at dir_inode_to_block_cache cl
    (no_filtering + 1) vote_action false blocknr block_buf parent s = Some voted ->
  exists offsets,
    linked_records (block_size_ g) block_buf 0 offsets /\
    voted = set_callback_data s (callback_data voted) /\
    (forall p, ed_linked (callback_data voted) !! p
               = tally_of vote (block_buf <$> offsets) p) /\
    (forall p, ed_unlinked (callback_data voted) !! p
               = tally_of vote
                   (block_buf <$> deleted_records (block_size_ g)
                                    (is_directory_at blocknr) offsets) p).
Proof.
  intros Hnf Hempty. unfold iterate_over_directory.
  cbn [iterate_over_directory_levels]. intros Hrun.
  eapply (iterate_over_directory_level_visits _ _ _ _ _ _ _ _ _ _ _ _ _ false
            _ _ _ _ _ (no_filtering + 1) eq_refl) in Hrun
    as (offsets & Hlinked & Hvisits).
  exists offsets. split; [done |].
  destruct (visit_all _ offsets s) as [s1 |] eqn:Hlive; cbn [mbind option_bind] in Hvisits;
    [| done].
  apply vote_entries_cast in Hlive; [| lia]. apply vote_entries_cast in Hvisits; [| lia].
  rewrite Hvisits, Hlive. cbn [callback_data set_callback_data]. rewrite Hempty.
  split; [done |]. split; intros p.
  - rewrite (cast_votes_other vote false).
    apply (cast_votes_tally vote true _ []). intros q. apply lookup_empty.
  - apply (cast_votes_tally vote false _ []). intros q.
    rewrite (cast_votes_other vote true). apply lookup_empty.
Qed.
End VoteFacts.

(** ** What a walk over directories keeps *)

Section StaticWalkerPreserves.
Context {D : Type}.
Variable block_count_ : Z.
Variable get_block_ptrs : Z -> option (list Z).
Variable action : Z -> iterate_state D -> option (iterate_state D).
Variable P : D -> Prop.
Hypothesis action_keeps :
  forall b s s', P (callback_data s) -> action b s = Some s' -> P (callback_data s').

Lemma optional_action_keeps (flag : bool) (b : Z) (s s' : iterate_state D) :
  P (callback_data s) ->
  (if flag then action b s else Some s) = Some s' -> P (callback_data s').
Proof. destruct flag; [apply action_keeps | by intros ? [= <-]]. Qed.

Lemma static_indirect_block_loop_keeps (block_ptr : list Z) (s : iterate_state D)
    (r : bool * iterate_state D) :
  P (callback_data s) ->
  WithStatics.indirect_block_loop block_count_ action block_ptr s = Some r ->
  P (callback_data r.2).
Proof.
  revert s. induction block_ptr as [| p rest IH]; intros s HP; simpl.
  - by intros [= <-].
  - destruct (p =? 0); [by apply IH |].
    destruct (negb _); [by intros [= <-] |].
    destruct (action _ s) as [s1 |] eqn:Hstep; simpl; [| done].
    apply IH. by eapply action_keeps.
Qed.

Lemma static_indirect_keeps (block : Z) (s : iterate_state D)
    (r : bool * iterate_state D) :
  P (callback_data s) ->
  WithStatics.iterate_over_all_blocks_of_indirect_block block_count_ get_block_ptrs
    action block s = Some r ->
  P (callback_data r.2).
Proof.
  intros HP. unfold WithStatics.iterate_over_all_blocks_of_indirect_block.
  destruct (using_static_buffer_indirect s); [done |].
  destruct (get_block_ptrs block) as [block_ptr |]; simpl; [| done].
  destruct (WithStatics.indirect_block_loop _ _ _ _) as [[flag s1] |] eqn:Hloop;
    simpl; [| done].
  intros [= <-]. simpl.
  eapply static_indirect_block_loop_keeps in Hloop; [exact Hloop | exact HP].
Qed.

Lemma static_double_indirect_block_loop_keeps (mask : Z) (block_ptr : list Z)
    (s : iterate_state D) (r : bool * iterate_state D) :
  P (callback_data s) ->
  WithStatics.double_indirect_block_loop block_count_ get_block_ptrs action mask
    block_ptr s = Some r ->
  P (callback_data r.2).
Proof.
  revert s. induction block_ptr as [| p rest IH]; intros s HP; simpl.
  - by intros [= <-].
  - destruct (p =? 0); [by apply IH |].
    destruct (negb _); [by intros [= <-] |].
    destruct (if has_bit mask indirect_bit then _ else _) as [s1 |] eqn:Hown; simpl;
      [| done].
    pose proof (optional_action_keeps _ _ _ _ HP Hown) as HP1.
    destruct (has_bit mask direct_bit); [| by apply IH].
    destruct (WithStatics.iterate_over_all_blocks_of_indirect_block _ _ _ _ _)
      as [[flag s2] |] eqn:Hbelow; simpl; [| done].
    pose proof (static_indirect_keeps _ _ _ HP1 Hbelow) as HP2.
    destruct flag; [by intros [= <-] | by apply IH].
Qed.

Lemma static_double_keeps (block mask : Z) (s : iterate_state D)
    (r : bool * iterate_state D) :
  P (callback_data s) ->
  WithStatics.iterate_over_all_blocks_of_double_indirect_block block_count_
    get_block_ptrs action block mask s = Some r ->
  P (callback_data r.2).
Proof.
  intros HP. unfold WithStatics.iterate_over_all_blocks_of_double_indirect_block.
  destruct (using_static_buffer_double s); [done |].
  destruct (get_block_ptrs block) as [block_ptr |]; simpl; [| done].
  destruct (WithStatics.double_indirect_block_loop _ _ _ _ _ _) as [[flag s1] |]
    eqn:Hloop; simpl; [| done].
  intros [= <-]. simpl.
  eapply static_double_indirect_block_loop_keeps in Hloop; [exact Hloop | exact HP].
Qed.

Lemma static_tripple_indirect_block_loop_keeps (mask : Z) (block_ptr : list Z)
    (s : iterate_state D) (r : bool * iterate_state D) :
  P (callback_data s) ->
  WithStatics.tripple_indirect_block_loop block_count_ get_block_ptrs action mask
    block_ptr s = Some r ->
  P (callback_data r.2).
Proof.
  revert s. induction block_ptr as [| p rest IH]; intros s HP; simpl.
  - by intros [= <-].
  - destruct (p =? 0); [by apply IH |].
    destruct (negb _); [by intros [= <-] |].
    destruct (if has_bit mask indirect_bit then _ else _) as [s1 |] eqn:Hown; simpl;
      [| done].
    pose proof (optional_action_keeps _ _ _ _ HP Hown) as HP1.
    destruct (WithStatics.iterate_over_all_blocks_of_double_indirect_block _ _ _ _ _ _)
      as [[flag s2] |] eqn:Hbelow; simpl; [| done].
    pose proof (static_double_keeps _ _ _ _ HP1 Hbelow) as HP2.
    destruct flag; [by intros [= <-] | by apply IH].
Qed.

Lemma static_tripple_keeps (block mask : Z) (s : iterate_state D)
    (r : bool * iterate_state D) :
  P (callback_data s) ->
  WithStatics.iterate_over_all_blocks_of_tripple_indirect_block block_count_
    get_block_ptrs action block mask s = Some r ->
  P (callback_data r.2).
Proof.
  intros HP. unfold WithStatics.iterate_over_all_blocks_of_tripple_indirect_block.
  destruct (using_static_buffer_tripple s); [done |].
  destruct (get_block_ptrs block) as [block_ptr |]; simpl; [| done].
  destruct (WithStatics.tripple_indirect_block_loop _ _ _ _ _ _) as [[flag s1] |]
    eqn:Hloop; simpl; [| done].
  intros [= <-]. simpl.
  eapply static_tripple_indirect_block_loop_keeps in Hloop; [exact Hloop | exact HP].
Qed.

Lemma static_direct_blocks_loop_keeps (block_ptr : list Z) (s s' : iterate_state D) :
  P (callback_data s) ->
  WithStatics.direct_blocks_loop action block_ptr s = Some s' ->
  P (callback_data s').
Proof.
  revert s. induction block_ptr as [| p rest IH]; intros s HP; simpl.
  - by intros [= <-].
  - destruct (if p =? 0 then _ else _) as [s1 |] eqn:Hstep; simpl; [| done].
    apply IH. destruct (p =? 0); [by injection Hstep as <- | by eapply action_keeps].
Qed.

Lemma static_walk_keeps (inode : Inode) (mask : Z) (s : iterate_state D)
    (r : bool * iterate_state D) :
  P (callback_data s) ->
  WithStatics.iterate_over_all_blocks_of block_count_ get_block_ptrs action inode mask s
    = Some r ->
  P (callback_data r.2).
Proof.
  intros HP. unfold WithStatics.iterate_over_all_blocks_of.
  destruct (is_symlink inode && _); [by intros [= <-] |].
  destruct (if has_bit mask direct_bit then _ else _) as [s1 |] eqn:Hdirect; simpl;
    [| done].
  assert (P (callback_data s1)) as HP1.
  { destruct (has_bit mask direct_bit);
      [by eapply static_direct_blocks_loop_keeps | by injection Hdirect as <-]. }
  clear Hdirect HP.
  destruct (if nth EXT3_IND_BLOCK _ 0 =? 0 then _ else _) as [[flag2 s2] |] eqn:Hind;
    simpl; [| done].
  assert (P (callback_data s2)) as HP2.
  { destruct (nth EXT3_IND_BLOCK _ 0 =? 0); [by injection Hind as _ <- |].
    destruct (if has_bit mask indirect_bit then _ else _) as [s1' |] eqn:Hown;
      simpl in Hind; [| done].
    pose proof (optional_action_keeps _ _ _ _ HP1 Hown) as HP1'.
    destruct (has_bit mask direct_bit); [| by injection Hind as _ <-].
    apply (static_indirect_keeps _ _ _ HP1' Hind). }
  clear Hind HP1. destruct flag2; [by intros [= <-] |].
  destruct (if nth EXT3_DIND_BLOCK _ 0 =? 0 then _ else _) as [[flag3 s3] |] eqn:Hdind;
    simpl; [| done].
  assert (P (callback_data s3)) as HP3.
  { destruct (nth EXT3_DIND_BLOCK _ 0 =? 0); [by injection Hdind as _ <- |].
    destruct (if has_bit mask indirect_bit then _ else _) as [s2' |] eqn:Hown;
      simpl in Hdind; [| done].
    pose proof (optional_action_keeps _ _ _ _ HP2 Hown) as HP2'.
    apply (static_double_keeps _ _ _ _ HP2' Hdind). }
  clear Hdind HP2. destruct flag3; [by intros [= <-] |].
  destruct (if nth EXT3_TIND_BLOCK _ 0 =? 0 then _ else _) as [[flag4 s4] |] eqn:Htind;
    simpl; [| done].
  intros [= <-]. simpl.
  destruct (nth EXT3_TIND_BLOCK _ 0 =? 0); [by injection Htind as _ <- |].
  destruct (if has_bit mask indirect_bit then _ else _) as [s3' |] eqn:Hown;
    simpl in Htind; [| done].
  pose proof (optional_action_keeps _ _ _ _ HP3 Hown) as HP3'.
  apply (static_tripple_keeps _ _ _ _ HP3' Htind).
Qed.
End StaticWalkerPreserves.

Section DirectoryPreserves.
Context {D : Type}.
Variable g : Geometry.
Variable inode_bitmap : Z -> list Z.
Variable all_inodes : Z -> list Inode.
Variable block_count_ : Z.
Variable inode_count_ : Z.
Variable get_block_ptrs : Z -> option (list Z).
Variable get_block_entry : Z -> option (Z -> ext3_dir_entry_2).
Variable is_directory_at : Z -> Z -> bool.
Variable dir_inode_to_block_cache : list blocknr_vector_type.
Variable cl : Commandline.
Variable no_filtering : Z.
Variable action : dir_entry_action D.
Variable action_is_read_block_action : bool.
Variable P : D -> Prop.
Hypothesis action_keeps :
  forall dir_entry inode deleted allocated reallocated zero_inode linked filtered
         parent d r,
    P d ->
    action dir_entry inode deleted allocated reallocated zero_inode linked filtered
      parent d = Some r ->
    P r.2.

Section Level.
Variable below :
  Z -> (Z -> ext3_dir_entry_2) -> list Parent -> iterate_state D ->
  option (iterate_state D).
Hypothesis below_keeps :
  forall blocknr block_buf parent s s',
    P (callback_data s) -> below blocknr block_buf parent s = Some s' ->
    P (callback_data s').

Local Abbreviation filter_entry :=
  (filter_dir_entry g inode_bitmap all_inodes block_count_ inode_count_ get_block_ptrs
     get_block_entry dir_inode_to_block_cache cl action below).

Lemma filter_dir_entry_recursion_preserves (dir_entry : ext3_dir_entry_2)
    (inode : option Inode) (deleted allocated reallocated : bool)
    (parent : list Parent) (s s' : iterate_state D) :
  P (callback_data s) ->
  filter_dir_entry_recursion g all_inodes block_count_ inode_count_ get_block_ptrs
    get_block_entry dir_inode_to_block_cache below dir_entry inode deleted allocated
    reallocated parent s = Some s' ->
  P (callback_data s').
Proof.
  intros HP. unfold filter_dir_entry_recursion.
  destruct (_ || _); [by intros [= <-] |].
  destruct (existsb _ _);
    [destruct (dirname _); cbn [mbind option_bind]; [by intros [= <-] | done] |].
  destruct (negb _); [done |].
  match goal with
  | |- (?body ≫= _) = _ -> _ => destruct body as [s1 |] eqn:Hbody
  end; cbn [mbind option_bind]; [| done].
  intros [= <-]. cbn [callback_data set_depth].
  destruct (negb deleted && allocated && negb reallocated).
  - destruct (get_inode _ _ _) as [existing |]; cbn [mbind option_bind] in Hbody;
      [| done].
    destruct (WithStatics.iterate_over_all_blocks_of _ _ _ _ _ _) as [[reused s2] |]
      eqn:Hwalk; cbn [mbind option_bind] in Hbody; [| done].
    destruct reused; [done |]. injection Hbody as <-.
    eapply (static_walk_keeps block_count_ get_block_ptrs _ P) in Hwalk;
      [exact Hwalk | | exact HP].
    intros b t t' Ht. unfold iterate_over_existing_directory_action.
    destruct (get_block_entry b); cbn [mbind option_bind]; [| done].
    by apply below_keeps.
  - destruct (dir_inode_to_block _ _ _) as [blocknr |]; cbn [mbind option_bind] in Hbody;
      [| done].
    destruct (blocknr =? -1); [by injection Hbody as <- |].
    destruct (parent_dtime parent) as [dtime |]; cbn [mbind option_bind] in Hbody;
      [| done].
    destruct (if dtime =? 0 then _ else _) as [go |]; cbn [mbind option_bind] in Hbody;
      [| done].
    destruct go; [| by injection Hbody as <-].
    destruct (get_block_entry blocknr) as [block_buf |];
      cbn [mbind option_bind] in Hbody; [| done].
    destruct (negb _); [done |]. destruct (negb _); [done |].
    destruct (head parent) as [p |]; cbn [mbind option_bind] in Hbody; [| done].
    destruct (_ =? M_inodenr p);
      [| destruct (dirname _); cbn [mbind option_bind] in Hbody;
         [by injection Hbody as <- | done]].
    unfold iterate_over_directory_action in Hbody.
    eapply below_keeps in Hbody; [exact Hbody | exact HP].
Qed.

Lemma filter_dir_entry_preserves (entered : Z) (dir_entry : ext3_dir_entry_2)
    (deleted linked : bool) (parent : list Parent) (s s' : iterate_state D) :
  P (callback_data s) ->
  filter_entry entered dir_entry deleted linked parent s = Some s' ->
  P (callback_data s').
Proof.
  intros HP. unfold filter_dir_entry.
  destruct (filter_dir_entry_flags _ _ _ _ _ _) as [[[[[inode del] alloc] realloc] filt] |];
    cbn [mbind option_bind]; [| done].
  destruct (negb (entered =? 0)).
  - destruct (action _ _ _ _ _ _ _ _ _ _) as [[abort data] |] eqn:Hstep;
      cbn [mbind option_bind]; [| done].
    intros [= <-]. apply (action_keeps _ _ _ _ _ _ _ _ _ _ _ HP Hstep).
  - destruct (negb filt); [| by intros [= <-]].
    destruct (action _ _ _ _ _ _ _ _ _ _) as [[abort data] |] eqn:Hstep;
      cbn [mbind option_bind]; [| done].
    pose proof (action_keeps _ _ _ _ _ _ _ _ _ _ _ HP Hstep) as HP1.
    destruct abort; [by intros [= <-] |].
    destruct (_ && _ && _); [| by intros [= <-]].
    by apply filter_dir_entry_recursion_preserves.
Qed.

Lemma visit_all_preserves (step : Z -> iterate_state D -> option (iterate_state D))
    (offsets : list Z) (s s' : iterate_state D) :
  (forall o t t', P (callback_data t) -> step o t = Some t' -> P (callback_data t')) ->
  P (callback_data s) -> visit_all step offsets s = Some s' -> P (callback_data s').
Proof.
  intros Hstep. revert s. induction offsets as [| o offsets IH]; intros s HP; simpl.
  - by intros [= <-].
  - destruct (step o s) as [s1 |] eqn:Hs; cbn [mbind option_bind]; [| done].
    apply IH. by eapply Hstep.
Qed.

Lemma iterate_over_directory_level_preserves (blocknr : Z)
    (block_buf : Z -> ext3_dir_entry_2) (parent : list Parent) (s s' : iterate_state D) :
  P (callback_data s) ->
  iterate_over_directory_level g inode_bitmap all_inodes block_count_ inode_count_
    get_block_ptrs get_block_entry is_directory_at dir_inode_to_block_cache cl
    no_filtering action action_is_read_block_action below blocknr block_buf parent s
  = Some s' ->
  P (callback_data s').
Proof.
  intros HP Hrun.
  eapply (iterate_over_directory_level_visits _ _ _ _ _ _ _ _ _ _ _ _ _ _ _ _ _ _ _
            _ eq_refl) in Hrun as (offsets & _ & Hvisits).
  destruct (visit_all _ offsets s) as [s1 |] eqn:Hlive; cbn [mbind option_bind] in Hvisits;
    [| done].
  eapply visit_all_preserves in Hvisits; [exact Hvisits | |].
  - intros o t t'. apply filter_dir_entry_preserves.
  - eapply visit_all_preserves in Hlive; [exact Hlive | | exact HP].
    intros o t t'. apply filter_dir_entry_preserves.
Qed.
End Level.

Lemma iterate_over_directory_levels_preserves (levels : nat) (blocknr : Z)
    (block_buf : Z -> ext3_dir_entry_2) (parent : list Parent) (s s' : iterate_state D) :
  P (callback_data s) ->
  iterate_over_directory_levels g inode_bitmap all_inodes block_count_ inode_count_
    get_block_ptrs get_block_entry is_directory_at dir_inode_to_block_cache cl
    no_filtering action action_is_read_block_action levels blocknr block_buf parent s
  = Some s' ->
  P (callback_data s').
Proof.
  revert blocknr block_buf parent s s'.
  induction levels as [| levels IH]; intros blocknr block_buf parent s s' HP; [done |].
  cbn [iterate_over_directory_levels].
  apply iterate_over_directory_level_preserves; [| done].
  intros. by eapply IH.
Qed.

Lemma iterate_over_directory_preserves (blocknr : Z)
    (block_buf : Z -> ext3_dir_entry_2) (parent : list Parent) (s s' : iterate_state D) :
  P (callback_data s) ->
  iterate_over_directory g inode_bitmap all_inodes block_count_ inode_count_
    get_block_ptrs get_block_entry is_directory_at dir_inode_to_block_cache cl
    no_filtering action action_is_read_block_action blocknr block_buf parent s
  = Some s' ->
  P (callback_data s').
Proof. apply iterate_over_directory_levels_preserves. Qed.
End DirectoryPreserves.

(** ** Attaching an extended block to its directory *)

Lemma init_directories_action_grows (inode_count_ : Z)
    (cache : list blocknr_vector_type) (read_block : Z -> option (list DirEntry))
    (path_exists : list Z -> bool) (dir_entry : ext3_dir_entry_2) (inode : option Inode)
    (deleted allocated reallocated zero_inode linked filtered : bool)
    (parent : list Parent) (d : Directories) (r : bool * Directories)
    (k : list Z) (directory : Directory) :
  init_directories_action inode_count_ cache read_block path_exists dir_entry inode
    deleted allocated reallocated zero_inode linked filtered parent d = Some r ->
  all_directories d !! k = Some directory ->
  all_directories r.2 !! k = Some directory.
Proof.
  unfold init_directories_action. intros Hrun Hk.
  destruct (negb _ || negb _); [by injection Hrun as <- |].
  destruct (dir_inode_to_block _ _ _) as [first_block |]; cbn [mbind option_bind] in Hrun;
    [| done].
  destruct (first_block =? -1); [done |].
  destruct (dirname parent) as [path |]; cbn [mbind option_bind] in Hrun; [| done].
  destruct (read_block first_block) as [entries |]; cbn [mbind option_bind] in Hrun;
    [| done].
  assert ((match all_directories d !! path with
           | Some _ => all_directories d
           | None => <[path := {| M_inode_number := de_inode dir_entry;
                                  M_blocks := [{| DB_block := first_block;
                                                  DB_dir_entry := entries |}] |}]>
                       (all_directories d)
           end) !! k = Some directory) as Hkept.
  { destruct (all_directories d !! path) eqn:Hpath; [done |].
    rewrite lookup_insert_ne; [done | congruence]. }
  destruct (match all_directories d !! path with
            | Some found => _
            | None => Some false
            end) as [same |]; cbn [mbind option_bind] in Hrun; [| done].
  destruct same; [by injection Hrun as <- |].
  destruct (inode_to_directory d !! de_inode dir_entry) as [old |];
    [| by injection Hrun as <-].
  match type of Hrun with
  | (?lookup ≫= _) = _ => destruct lookup as [found |]
  end; cbn [mbind option_bind] in Hrun; [| done].
  destruct (_ && bool_decide _); [by injection Hrun as <- |].
  destruct (path_exists path && path_exists old); [done |].
  by injection Hrun as <-.
Qed.

Lemma length_strncpy (src : list Z) (n : nat) : length (strncpy src n) = n.
Proof.
  revert src. induction n as [| n IH]; intros src; [done |].
  destruct src as [| c rest]; [apply length_replicate |]. cbn [strncpy].
  destruct (c =? 0); [apply length_replicate |]. cbn [length]. by rewrite IH.
Qed.

Lemma entry_name_strncpy (name : list Z) (n : nat) (dir_entry : ext3_dir_entry_2) :
  de_name dir_entry = strncpy name n -> de_name_len dir_entry = Z.of_nat n ->
  entry_name dir_entry = strncpy name n.
Proof.
  intros Hname Hlen. unfold entry_name. rewrite Hname, Hlen, Nat2Z.id.
  apply list_eq. intros i. rewrite list_lookup_fmap.
  destruct (decide (i < n)%nat) as [Hi | Hi].
  - rewrite lookup_seq_lt by done. simpl.
    destruct (strncpy name n !! i) as [x |] eqn:Hx.
    + by rewrite (nth_lookup_Some _ _ _ _ Hx).
    + apply lookup_ge_None in Hx. rewrite length_strncpy in Hx. lia.
  - rewrite lookup_seq_ge by lia. simpl. symmetry. apply lookup_ge_None.
    rewrite length_strncpy. lia.
Qed.

Section Attach.
Variable g : Geometry.
Variable inode_bitmap : Z -> list Z.
Variable all_inodes : Z -> list Inode.
Variable block_count_ : Z.
Variable inode_count_ : Z.
Variable get_block_ptrs : Z -> option (list Z).
Variable get_block_entry : Z -> option (Z -> ext3_dir_entry_2).
Variable is_directory_at : Z -> Z -> bool.
Variable dir_inode_to_block_cache : list blocknr_vector_type.
Variable cl : Commandline.
Variable no_filtering : Z.
Variable read_block : Z -> option (list DirEntry).
Variable path_exists : list Z -> bool.

Local Abbreviation link :=
  (link_extended_directory_block_to_inode g inode_bitmap all_inodes block_count_
     inode_count_ get_block_ptrs get_block_entry is_directory_at
     dir_inode_to_block_cache cl no_filtering read_block path_exists).

Lemma link_extended_directory_block_attaches (block_buf : Z -> ext3_dir_entry_2)
    (blocknr inode : Z) (s s' : iterate_state Directories) :
  link block_buf blocknr inode s = Some s' ->
  match inode_to_directory (callback_data s) !! u32 inode with
  | None => s' = s
  | Some path =>
      exists directory entries,
        all_directories (callback_data s) !! path = Some directory /\
        read_block blocknr = Some entries /\
        Z.of_nat (length path) < 256 /\
        all_directories (callback_data s') !! path
        = Some {| M_inode_number := M_inode_number directory;
                  M_blocks := M_blocks directory ++
                    [{| DB_block := blocknr; DB_dir_entry := entries |}] |} /\
        (forall k other,
           k <> path ->
           all_directories (callback_data s) !! k = Some other ->
           all_directories (callback_data s') !! k = Some other)
  end.
Proof.
  unfold link_extended_directory_block_to_inode.
  destruct (inode_to_directory (callback_data s) !! u32 inode) as [path |];
    [| by intros [= <-]].
  destruct (all_directories (callback_data s) !! path) as [directory |] eqn:Hdir;
    cbn [mbind option_bind]; [| done].
  destruct (read_block blocknr) as [entries |]; cbn [mbind option_bind]; [| done].
  destruct (get_inode g all_inodes inode) as [owner |]; cbn [mbind option_bind];
    [| done].
  cbn [dirname dirname_loop M_dir_entry].
  set (n := Z.of_nat (length path) mod 256).
  assert (0 <= n < 256) as Hn by (apply Z.mod_pos_bound; lia).
  rewrite (entry_name_strncpy path (Z.to_nat n))
    by (cbn [de_name de_name_len]; first [reflexivity | lia]).
  cbn [mbind option_bind].
  case_bool_decide as Hname; cbn [negb]; [| done].
  intros Hwalk. exists directory, entries.
  assert (Z.of_nat (length path) < 256) as Hshort.
  { apply (f_equal length) in Hname. rewrite length_strncpy in Hname. lia. }
  split; [done |]. split; [done |]. split; [done |].
  pose proof (iterate_over_directory_preserves g inode_bitmap all_inodes block_count_
                inode_count_ get_block_ptrs get_block_entry is_directory_at
                dir_inode_to_block_cache (set_commandline_depth cl 10000) no_filtering
                (init_directories_action inode_count_ dir_inode_to_block_cache
                   read_block path_exists) false) as Hkeep.
  split.
  - eapply (Hkeep (fun d => all_directories d !! path = Some _)) in Hwalk;
      [exact Hwalk | | ].
    + intros e i del alloc realloc z l f parent d r Hd Hstep.
      by eapply init_directories_action_grows.
    + cbn [callback_data set_callback_data all_directories]. apply lookup_insert_eq.
  - intros k other Hk Hother.
    eapply (Hkeep (fun d => all_directories d !! k = Some other)) in Hwalk;
      [exact Hwalk | | ].
    + intros e i del alloc realloc z l f parent d r Hd Hstep.
      by eapply init_directories_action_grows.
    + cbn [callback_data set_callback_data all_directories].
      by rewrite lookup_insert_ne.
Qed.

Lemma link_extended_directory_block_long_path (block_buf : Z -> ext3_dir_entry_2)
    (blocknr inode : Z) (s : iterate_state Directories) (path : list Z) :
  inode_to_directory (callback_data s) !! u32 inode = Some path ->
  256 <= Z.of_nat (length path) ->
  link block_buf blocknr inode s = None.
Proof.
  intros Hpath Hlong. destruct (link block_buf blocknr inode s) as [s' |] eqn:Hrun;
    [| done].
  apply link_extended_directory_block_attaches in Hrun. rewrite Hpath in Hrun.
  destruct Hrun as (? & ? & _ & _ & ? & _). lia.
Qed.
End Attach.

(** ** Owner of an extended directory block *)

Lemma tally_of_voter (vote : ext3_dir_entry_2 -> option Z)
    (entries : list ext3_dir_entry_2) (p : Z) :
  is_Some (tally_of vote entries p) -> exists e, e ∈ entries /\ vote e = Some p.
Proof.
  unfold tally_of. intros Hsome.
  destruct (filter (fun e => vote e = Some p) entries) as [| e rest] eqn:Hfilter.
  - simpl in Hsome. by destruct Hsome.
  - exists e.
    assert (e ∈ filter (fun e => vote e = Some p) entries) as Hin
      by (rewrite Hfilter; apply list_elem_of_here).
    apply list_elem_of_filter in Hin as [He Hin]. done.
Qed.

Lemma parent_vote_names (inode_count_ : Z) (cache : list blocknr_vector_type)
    (get_block_entry : Z -> option (Z -> ext3_dir_entry_2)) (parent : Z)
    (dir_entry : ext3_dir_entry_2) (p : Z) :
  (forall ino blk v,
     dir_inode_to_block inode_count_ cache ino = Some blk ->
     get_block_entry blk = Some v ->
     de_inode (v (de_rec_len (v 0))) = parent) ->
  parent_vote inode_count_ cache get_block_entry dir_entry = Some p ->
  p = int_of_u32 parent.
Proof.
  intros Hparent. unfold parent_vote.
  destruct (_ && _); [| done].
  destruct (dir_inode_to_block _ _ _) as [blk |] eqn:Hblk; [| done].
  destruct (blk =? -1); [done |].
  destruct (get_block_entry blk) as [v |] eqn:Hv; [| done].
  intros [= <-]. by rewrite (Hparent _ _ _ Hblk Hv).
Qed.

Lemma tally_of_one_key (m : gmap Z Z) (p : Z) :
  m <> ∅ -> (forall k, is_Some (m !! k) -> k = p) -> exists c, m = {[ p := c ]}.
Proof.
  intros Hne Hkeys. destruct (map_choose m Hne) as (k & c & Hk).
  assert (k = p) as -> by (apply Hkeys; eauto).
  exists c. apply map_eq. intros i. destruct (decide (i = p)) as [-> | Hip].
  - by rewrite lookup_singleton_eq.
  - rewrite lookup_singleton_ne by done.
    destruct (m !! i) eqn:Hi; [| done]. exfalso. apply Hip, Hkeys. eauto.
Qed.




Section IsDirectoryWalk.
Variable g : Geometry.
Variable inode_bitmap : Z -> list Z.
Variable all_inodes : Z -> list Inode.
Variable block_count_ : Z.
Variable inode_count_ : Z.
Variable get_block_ptrs : Z -> option (list Z).
Variable get_block_entry : Z -> option (Z -> ext3_dir_entry_2).
Variable dir_inode_to_block_cache : list blocknr_vector_type.
Variable cl : Commandline.
Variable block_buf : Z -> ext3_dir_entry_2.

Local Abbreviation chain := (chain_to_end (block_size_ g) inode_count_ block_buf).

Lemma sane_entry_inside (offset : Z) :
  sane_entry (block_size_ g) inode_count_ block_buf offset ->
  12 <= de_rec_len (block_buf offset) /\ offset + 12 <= block_size_ g.
Proof.
  intros (_ & _ & Hname & _ & Hlen & Hfit & _).
  pose proof (EXT3_DIR_REC_LEN_min _ Hname). lia.
Qed.

Lemma chain_to_end_length (offset : Z) (offsets : list Z) :
  chain offset offsets -> 12 * Z.of_nat (length offsets) <= block_size_ g - offset.
Proof.
  induction 1 as [offset Hsane Hend | offset offsets Hsane _ IH].
  - apply sane_entry_inside in Hsane. simpl. lia.
  - apply sane_entry_inside in Hsane. simpl length. lia.
Qed.

Lemma chain_to_end_linked (offset : Z) (offsets : list Z) :
  chain offset offsets -> linked_records (block_size_ g) block_buf offset offsets.
Proof.
  induction 1 as [offset Hsane Hend | offset offsets Hsane _ IH].
  - apply sane_entry_inside in Hsane. constructor; [lia |]. constructor. lia.
  - apply sane_entry_inside in Hsane. constructor; [lia | done].
Qed.

Hypothesis inode_unsigned : forall offset, 0 <= de_inode (block_buf offset).
Hypothesis lookups :
  forall inode, 0 < inode <= inode_count_ ->
    is_Some (get_inode g all_inodes (int_of_u32 inode)) /\
    is_Some (is_allocated g inode_bitmap (int_of_u32 inode)).

Variable below :
  Z -> (Z -> ext3_dir_entry_2) -> list Parent ->
  iterate_state (list ext3_dir_entry_2) -> option (iterate_state (list ext3_dir_entry_2)).

Lemma filter_dir_entry_records (no_filtering offset : Z) (deleted linked : bool)
    (parent : list Parent) (s : iterate_state (list ext3_dir_entry_2)) :
  no_filtering <> 0 ->
  sane_entry (block_size_ g) inode_count_ block_buf offset ->
  filter_dir_entry g inode_bitmap all_inodes block_count_ inode_count_ get_block_ptrs
    get_block_entry dir_inode_to_block_cache cl record_entry below no_filtering
    (block_buf offset) deleted linked parent s
  = Some (set_callback_data s (callback_data s ++ [block_buf offset])).
Proof.
  intros Hnf (_ & Hinode & _). rewrite filter_dir_entry_no_filtering by done.
  unfold filter_dir_entry_flags.
  destruct (Z.eqb_spec (de_inode (block_buf offset)) 0) as [| Hnz]; [done |].
  pose proof (inode_unsigned offset).
  destruct (lookups (de_inode (block_buf offset)) ltac:(lia)) as [[i ->] [a ->]]. done.
Qed.

Lemma visit_all_records (no_filtering : Z) (parent : list Parent) (offset : Z)
    (offsets : list Z) :
  no_filtering <> 0 ->
  chain offset offsets ->
  forall s : iterate_state (list ext3_dir_entry_2),
    visit_all
      (fun o =>
         filter_dir_entry g inode_bitmap all_inodes block_count_ inode_count_
           get_block_ptrs get_block_entry dir_inode_to_block_cache cl record_entry below
           no_filtering (block_buf o) false true parent)
      offsets s
    = Some (set_callback_data s (callback_data s ++ (block_buf <$> offsets))).
Proof.
  intros Hnf. induction 1 as [offset Hsane Hend | offset offsets Hsane _ IH]; intros s.
  - cbn [visit_all]. rewrite filter_dir_entry_records by done. done.
  - cbn [visit_all]. rewrite filter_dir_entry_records by done. cbn [mbind option_bind].
    rewrite IH. cbn [callback_data set_callback_data fmap list_fmap].
    by rewrite <- app_assoc.
Qed.
End IsDirectoryWalk.

(** X17: a block that [is_directory] accepts from offset 0 is walked by
    the first loop of [iterate_over_directory] without leaving the block:
    the loop calls [filter_dir_entry] on the records of the chain, in order
    and each once, marks their slots, and ends at the end of the block.
    While [no_filtering] is set (as in [read_block], in the vote over an
    extended block and in the file name heuristics) each of these calls is a
    call of the callback, the inodes up to [inode_count_] being there to
    look up; without it the display filters and the recursion of
    [filter_dir_entry] decide. *)
Theorem accepted_block_is_walked_to_its_end
    (g : Geometry) (inode_bitmap : Z -> list Z) (all_inodes : Z -> list Inode)
    (block_count_ inode_count_ EXT3_FT_MAX : Z) (get_block_ptrs : Z -> option (list Z))
    (get_block_entry : Z -> option (Z -> ext3_dir_entry_2))
    (cache : list blocknr_vector_type) (cl : Commandline)
    (block_buf : Z -> ext3_dir_entry_2) (start_block : bool) (r : is_directory_type) :
  0 < block_size_ g ->
  (forall o, 0 <= de_name_len (block_buf o)) ->
  (forall o, 0 <= de_inode (block_buf o)) ->
  (forall inode, 0 < inode <= inode_count_ ->
     is_Some (get_inode g all_inodes (int_of_u32 inode)) /\
     is_Some (is_allocated g inode_bitmap (int_of_u32 inode))) ->
  is_directory_block (block_size_ g) inode_count_ EXT3_FT_MAX block_buf start_block 0
  = Some r ->
  r <> isdir_no ->
  exists offsets,
    chain_to_end (block_size_ g) inode_count_ block_buf 0 offsets /\
    (forall (D : Type) (action : dir_entry_action D)
            (below : Z -> (Z -> ext3_dir_entry_2) -> list Parent -> iterate_state D ->
                     option (iterate_state D))
            (no_filtering : Z) (parent : list Parent) (s : iterate_state D),
       live_entries_loop g inode_bitmap all_inodes block_count_ inode_count_
         get_block_ptrs get_block_entry cache cl action below
         (Z.to_nat (block_size_ g)) no_filtering block_buf parent 0 [] s
       = s1 ← visit_all
                (fun o =>
                   filter_dir_entry g inode_bitmap all_inodes block_count_ inode_count_
                     get_block_ptrs get_block_entry cache cl action below no_filtering
                     (block_buf o) false true parent)
                offsets s;
         Some (reverse ((fun o => Z.quot o EXT3_DIR_PAD) <$> offsets), s1)) /\
    (forall (below : Z -> (Z -> ext3_dir_entry_2) -> list Parent ->
                     iterate_state (list ext3_dir_entry_2) ->
                     option (iterate_state (list ext3_dir_entry_2)))
            (no_filtering : Z) (parent : list Parent)
            (s : iterate_state (list ext3_dir_entry_2)),
       no_filtering <> 0 ->
       live_entries_loop g inode_bitmap all_inodes block_count_ inode_count_
         get_block_ptrs get_block_entry cache cl record_entry below
         (Z.to_nat (block_size_ g)) no_filtering block_buf parent 0 [] s
       = Some (reverse ((fun o => Z.quot o EXT3_DIR_PAD) <$> offsets),
               set_callback_data s (callback_data s ++ (block_buf <$> offsets)))).
Proof.
  intros Hbs Hname Hinode Hlookups Hrun Hr.
  destruct (is_directory_loop_chain _ _ _ _ Hname _ _ _ _ Hrun Hr) as (offsets & Hchain).
  exists offsets. split; [done |].
  pose proof (chain_to_end_length g inode_count_ block_buf 0 offsets Hchain) as Hlen.
  pose proof (chain_to_end_linked g inode_count_ block_buf 0 offsets Hchain) as Hlinked.
  assert (forall (D : Type) (action : dir_entry_action D)
            (below : Z -> (Z -> ext3_dir_entry_2) -> list Parent -> iterate_state D ->
                     option (iterate_state D))
            (no_filtering : Z) (parent : list Parent) (s : iterate_state D),
       live_entries_loop g inode_bitmap all_inodes block_count_ inode_count_
         get_block_ptrs get_block_entry cache cl action below
         (Z.to_nat (block_size_ g)) no_filtering block_buf parent 0 [] s
       = s1 ← visit_all
                (fun o =>
                   filter_dir_entry g inode_bitmap all_inodes block_count_ inode_count_
                     get_block_ptrs get_block_entry cache cl action below no_filtering
                     (block_buf o) false true parent)
                offsets s;
         Some (reverse ((fun o => Z.quot o EXT3_DIR_PAD) <$> offsets), s1)) as Hwalk.
  { intros D action below no_filtering parent s.
    rewrite (live_entries_loop_visits _ _ _ _ _ _ _ _ _ _ _ _ _ _ _ _ Hlinked) by lia.
    destruct (visit_all _ _ _); cbn [mbind option_bind]; [| done].
    by rewrite app_nil_r. }
  split; [exact Hwalk |].
  intros below no_filtering parent s Hnf. rewrite Hwalk.
  by rewrite (visit_all_records g inode_bitmap all_inodes block_count_ inode_count_
                get_block_ptrs get_block_entry cache cl block_buf Hinode Hlookups
                below no_filtering parent 0 offsets Hnf Hchain).
Qed.

Lemma accepted_block_is_walked_to_its_end_witness :
  exists offsets,
    live_entries_loop s6_geometry s6_inode_bitmap s6_all_inodes 100000 99 (fun _ => None)
      (s6_device 77) s6_cache no_options record_entry (fun _ _ _ _ => None)
      1024 1 (start_block_view 21 77) [] 0 [] (statics_at_start [])
    = Some (reverse ((fun o => Z.quot o EXT3_DIR_PAD) <$> offsets),
            statics_at_start (start_block_view 21 77 <$> offsets)).
Proof.
  destruct (accepted_block_is_walked_to_its_end s6_geometry s6_inode_bitmap s6_all_inodes
              100000 99 8 (fun _ => None) (s6_device 77) s6_cache no_options
              (start_block_view 21 77) true isdir_start)
    as (offsets & _ & _ & Hlive).
  - simpl. lia.
  - intros o. unfold start_block_view. destruct (o =? 0); simpl; lia.
  - intros o. unfold start_block_view. destruct (o =? 0); simpl; lia.
  - intros inode Hinode.
    assert (forallb (fun i =>
              match get_inode s6_geometry s6_all_inodes (int_of_u32 i),
                    is_allocated s6_geometry s6_inode_bitmap (int_of_u32 i) with
              | Some _, Some _ => true
              | _, _ => false
              end) (seqZ 1 99) = true) as Hall by (vm_compute; reflexivity).
    rewrite forallb_forall in Hall.
    specialize (Hall inode). rewrite <- list_elem_of_In, elem_of_seqZ in Hall.
    specialize (Hall ltac:(lia)).
    destruct (get_inode _ _ _), (is_allocated _ _ _); try discriminate Hall.
    split; eexists; reflexivity.
  - vm_compute. reflexivity.
  - discriminate.
  - exists offsets. apply (Hlive (fun _ _ _ _ => None) 1 [] (statics_at_start [])).
    discriminate.
Defined.

Section IsDirectoryStart.
Variable block_size_ : Z.
Variable inode_count_ : Z.
Variable EXT3_FT_MAX : Z.
Variable entry_at : Z -> ext3_dir_entry_2.

Local Abbreviation loop := (is_directory_loop block_size_ inode_count_ EXT3_FT_MAX entry_at).

(** The verdict at offset 0, with and without [start_block], in terms of
    what the two calls have in common. *)
Lemma is_directory_loop_at_0 (fuel : nat) :
  exists common : option bool,
    forall start_block,
      loop (Datatypes.S fuel) start_block 0
      = if start_block && negb (is_start_block entry_at) then Some isdir_no
        else match common with
             | None => None
             | Some false => Some isdir_no
             | Some true =>
                 Some (if is_start_block entry_at then isdir_start else isdir_extended)
             end.
Proof.
  set (common :=
         if block_size_ <? 0 + EXT3_DIR_REC_LEN 1 then Some false
         else if (de_inode (entry_at 0) =? 0) && (0 <? de_name_len (entry_at 0))
                 && name_has_illegal_char (entry_at 0) then Some false
         else if inode_count_ <? de_inode (entry_at 0) then Some false
         else if de_name_len (entry_at 0) =? 0 then Some false
         else if negb (Z.land (de_rec_len (entry_at 0)) EXT3_DIR_ROUND =? 0)
                 || (de_rec_len (entry_at 0) <? EXT3_DIR_REC_LEN (de_name_len (entry_at 0)))
                 || (block_size_ <? 0 + de_rec_len (entry_at 0)) then Some false
         else if single_entry_paranoia block_size_ EXT3_FT_MAX (entry_at 0) then Some false
         else
           chained ←
             (if 0 + de_rec_len (entry_at 0) =? block_size_ then Some true
              else
                r ← loop fuel false (0 + de_rec_len (entry_at 0));
                Some (match r with isdir_no => false | _ => true end));
           if negb chained then Some false
           else Some (name_chars_loop (entry_at 0)
                        (seq 0 (Z.to_nat (de_name_len (entry_at 0)))) true)).
  exists common. intros start_block. cbn [is_directory_loop]. unfold common.
  change (0 =? 0) with true. change (Z.land 0 EXT3_DIR_ROUND =? 0) with true.
  cbn [negb andb]. rewrite andb_false_r. cbv iota.
  destruct (block_size_ <? 0 + EXT3_DIR_REC_LEN 1); [by destruct (_ && _) |].
  destruct (start_block && negb (is_start_block entry_at)); [done |].
  destruct (_ && name_has_illegal_char _); [done |].
  destruct (inode_count_ <? _); [done |].
  destruct (de_name_len (entry_at 0) =? 0); [done |].
  destruct (_ || _ || _); [done |].
  destruct (single_entry_paranoia _ _ _); [done |].
  destruct (0 + de_rec_len (entry_at 0) =? block_size_).
  - cbn [mbind option_bind negb]. by destruct (name_chars_loop _ _ _).
  - destruct (loop fuel false _) as [r |]; [| done].
    cbn [mbind option_bind]. destruct r; cbn [negb]; try done;
      by destruct (name_chars_loop _ _ _).
Qed.
End IsDirectoryStart.

(** X18: a block is a directory start block only at offset 0 and only
    when its first record is [.] (one character, record length 12,
    file type DIR) and the record at offset 12 is [..] (file type DIR);
    asking for a start block ([start_block] set) never yields
    [isdir_extended], yields [isdir_start] exactly when the plain call
    does, and trips the [assert] when the offset is not 0. *)
Theorem start_block_has_dot_and_dotdot
    (block_size : Z) (inode_count_ EXT3_FT_MAX : Z) (entry_at : Z -> ext3_dir_entry_2) :
  (forall r,
     is_directory_block block_size inode_count_ EXT3_FT_MAX entry_at true 0 = Some r ->
     r = isdir_start \/ r = isdir_no) /\
  (is_directory_block block_size inode_count_ EXT3_FT_MAX entry_at true 0
   = Some isdir_start <->
   is_directory_block block_size inode_count_ EXT3_FT_MAX entry_at false 0
   = Some isdir_start) /\
  (forall start_block,
     is_directory_block block_size inode_count_ EXT3_FT_MAX entry_at start_block 0
     = Some isdir_start ->
     de_name_len (entry_at 0) = 1 /\ nth 0 (de_name (entry_at 0)) 0 = char_dot /\
     de_rec_len (entry_at 0) = 12 /\ de_file_type (entry_at 0) = EXT3_FT_DIR /\
     de_name_len (entry_at (de_rec_len (entry_at 0))) = 2 /\
     nth 0 (de_name (entry_at (de_rec_len (entry_at 0)))) 0 = char_dot /\
     nth 1 (de_name (entry_at (de_rec_len (entry_at 0)))) 0 = char_dot /\
     de_file_type (entry_at (de_rec_len (entry_at 0))) = EXT3_FT_DIR) /\
  (forall offset,
     offset <> 0 ->
     is_directory_block block_size inode_count_ EXT3_FT_MAX entry_at true offset = None /\
     is_directory_block block_size inode_count_ EXT3_FT_MAX entry_at false offset
     <> Some isdir_start).
Proof.
  unfold is_directory_block.
  assert (is_start_block entry_at = true ->
          de_name_len (entry_at 0) = 1 /\ nth 0 (de_name (entry_at 0)) 0 = char_dot /\
          de_rec_len (entry_at 0) = 12 /\ de_file_type (entry_at 0) = EXT3_FT_DIR /\
          de_name_len (entry_at (de_rec_len (entry_at 0))) = 2 /\
          nth 0 (de_name (entry_at (de_rec_len (entry_at 0)))) 0 = char_dot /\
          nth 1 (de_name (entry_at (de_rec_len (entry_at 0)))) 0 = char_dot /\
          de_file_type (entry_at (de_rec_len (entry_at 0))) = EXT3_FT_DIR) as Hstart.
  { unfold is_start_block. intros H.
    repeat (apply andb_prop in H as [H ?%Z.eqb_eq]). apply Z.eqb_eq in H.
    assert (de_rec_len (entry_at 0) = 12) as Hlen by done.
    rewrite Hlen. repeat split; done. }
  destruct (Z.to_nat block_size) as [| fuel].
  { simpl. repeat split; done. }
  destruct (is_directory_loop_at_0 block_size inode_count_ EXT3_FT_MAX entry_at fuel)
    as (common & Hcommon).
  rewrite !Hcommon. cbn [andb negb].
  split; [| split; [| split]].
  - intros r. destruct (is_start_block entry_at); cbn [negb].
    + destruct common as [[|] |]; intros [= <-]; first [by left | by right].
    + intros [= <-]. by right.
  - destruct (is_start_block entry_at); cbn [negb]; [done |].
    split; [done |]. by destruct common as [[|] |].
  - intros start_block Hrun. apply Hstart.
    rewrite Hcommon in Hrun.
    destruct (is_start_block entry_at); [done |].
    destruct start_block; cbn [andb negb] in Hrun; [done |].
    by destruct common as [[|] |].
  - intros offset Hne. split.
    + cbn [is_directory_loop]. destruct (Z.eqb_spec offset 0); [done |]. done.
    + cbn [is_directory_loop]. destruct (Z.eqb_spec offset 0) as [| _]; [done |].
      cbn [andb negb].
      destruct (negb (Z.land offset _ =? 0)); [done |].
      destruct (block_size <? offset + EXT3_DIR_REC_LEN 1); [done |].
      destruct (_ && name_has_illegal_char _); [done |].
      destruct (inode_count_ <? _); [done |].
      destruct (de_name_len _ =? 0); [done |].
      destruct (_ || _ || _); [done |].
      destruct (single_entry_paranoia _ _ _); [done |].
      destruct (_ =? block_size).
      * cbn [mbind option_bind negb]. by destruct (name_chars_loop _ _ _).
      * destruct (is_directory_loop _ _ _ _ fuel false _) as [r |]; [| done].
        cbn [mbind option_bind]. destruct r; cbn [negb]; try done;
          by destruct (name_chars_loop _ _ _).
Qed.

(** ** Restoring a regular file *)

Lemma restore_file_action_fold (block_size_ : Z) (get_block : Z -> option (list Z))
    (emitted : list Z) (blocks : list (list Z)) (d : Data) :
  0 < block_size_ ->
  Forall2 (fun b bytes => get_block b = Some bytes) emitted blocks ->
  Forall (fun bytes => Z.of_nat (length bytes) = block_size_) blocks ->
  0 <= remaining_size d ->
  foldl (fun s b => restore_file_action block_size_ get_block b s) (Some d) emitted
  = Some {| out := out d ++ take (Z.to_nat (remaining_size d)) (concat blocks);
            remaining_size :=
              Z.max 0 (remaining_size d - block_size_ * Z.of_nat (length emitted)) |}.
Proof.
  intros Hbs Hread. revert d.
  induction Hread as [| b bytes emitted blocks Hb Hread IH]; intros d Hlen Hrem.
  - simpl. rewrite take_nil, app_nil_r.
    replace (Z.max 0 (remaining_size d - block_size_ * Z.of_nat 0)) with (remaining_size d)
      by lia.
    by destruct d.
  - apply Forall_cons in Hlen as [Hbytes Hlen].
    cbn [foldl]. unfold restore_file_action at 2. cbn [mbind option_bind].
    rewrite Hb. cbn [mbind option_bind].
    rewrite IH by (cbn [remaining_size]; first [done | lia]).
    cbn [out remaining_size concat]. f_equal. f_equal.
    + rewrite <- app_assoc. f_equal. rewrite take_app.
      f_equal.
      * destruct (Z.min_spec (remaining_size d) block_size_) as [[Hlt ->] | [Hge ->]];
          [done |].
        rewrite !take_ge by lia. done.
      * f_equal. lia.
    + rewrite length_cons. lia.
Qed.

(** X19: restoring a regular file of [size] bytes (below 2^31) writes the
    first [size] bytes of the blocks that the walk over the inode hands
    out, in the walk's order, and nothing else: full blocks while more than
    a block remains, then the rest of [size] from the next block, then
    nothing.  The flag of the walk is passed on. *)
Theorem restore_writes_the_prefix_of_the_walked_blocks
    (block_count_ : Z) (get_block_ptrs : Z -> option (list Z))
    (block_size_ : Z) (get_block : Z -> option (list Z))
    (inode_size : Z) (inode : Inode)
    (flag : bool) (emitted : list Z) (blocks : list (list Z)) :
  0 < block_size_ ->
  0 <= inode_size < 2 ^ 31 ->
  iterate_over_all_blocks_of block_count_ get_block_ptrs record_action
    inode direct_bit [] = Some (flag, emitted) ->
  Forall2 (fun b bytes => get_block b = Some bytes) emitted blocks ->
  Forall (fun bytes => Z.of_nat (length bytes) = block_size_) blocks ->
  restore_regular_file block_count_ get_block_ptrs block_size_ get_block
    inode_size inode
  = Some (flag,
          {| out := take (Z.to_nat inode_size) (concat blocks);
             remaining_size :=
               Z.max 0 (inode_size - block_size_ * Z.of_nat (length emitted)) |}).
Proof.
  intros Hbs Hsize Hwalk Hread Hlen. unfold restore_regular_file.
  rewrite iterate_over_all_blocks_of_fold, Hwalk. cbn [mbind option_bind snd fst].
  rewrite (restore_file_action_fold block_size_ get_block emitted blocks)
    by (rewrite ?int_of_u32_small; cbn [remaining_size]; try done; lia).
  cbn [mbind option_bind out remaining_size app].
  by rewrite int_of_u32_small by lia.
Qed.

Lemma restore_writes_the_prefix_of_the_walked_blocks_witness :
  restore_regular_file 100 (fun _ => None) 4 r_device 6 r_inode
  = Some (false, {| out := [5; 5; 5; 5; 6; 6]; remaining_size := 0 |}).
Proof.
  exact (restore_writes_the_prefix_of_the_walked_blocks
           100 (fun _ => None) 4 r_device 6 r_inode false [5; 6]
           [[5; 5; 5; 5]; [6; 6; 6; 6]]
           ltac:(lia) ltac:(lia) ltac:(reflexivity)
           ltac:(repeat constructor) ltac:(repeat constructor)).
Defined.

(** ** Histogram *)

Lemma hist_init_loop_result (min max : Z) (fuel : nat) (bs : Z) :
  0 <= min < max -> max < 2 ^ 64 ->
  1 <= bs <= (max - 1 - min) / histsize + 1 ->
  (Z.to_nat ((max - 1 - min) / histsize + 1 - bs) < fuel)%nat ->
  hist_init_loop fuel min max bs = Some ((max - 1 - min) / histsize + 1).
Proof.
  intros Hmin Hmax. unfold histsize.
  assert (u64 (u64 (max - 1) - min) = max - 1 - min) as Hd.
  { unfold u64. rewrite (Z.mod_small (max - 1)) by lia. apply Z.mod_small. lia. }
  assert ((max - 1 - min) / 100 < 2 ^ 64 - 1) as Hq.
  { apply Z.div_lt_upper_bound; lia. }
  revert bs. induction fuel as [| fuel IH]; intros bs Hbs Hfuel; [lia |].
  cbn [hist_init_loop]. rewrite Hd.
  change (size_t_of_int (histsize - 1)) with 99.
  destruct (Z.ltb_spec 99 ((max - 1 - min) / bs)) as [Hmore | Hdone].
  - assert (bs <= (max - 1 - min) / 100) as Hle.
    { apply Z.div_le_lower_bound; [lia |].
      assert (100 <= (max - 1 - min) / bs) as H100 by lia.
      pose proof (Z.mul_div_le (max - 1 - min) bs ltac:(lia)). nia. }
    assert (u64 (bs + 1) = bs + 1) as -> by (apply Z.mod_small; lia).
    apply IH; lia.
  - f_equal.
    assert ((max - 1 - min) / 100 < bs); [| lia].
    apply Z.div_lt_upper_bound; [lia |].
    assert ((max - 1 - min) / bs < 100) as H100 by lia.
    pose proof (Z.mod_pos_bound (max - 1 - min) bs ltac:(lia)).
    pose proof (Z.div_mod (max - 1 - min) bs ltac:(lia)). nia.
Qed.

Lemma bucket_in_range (min max val : Z) :
  0 <= min -> min <= val < max ->
  0 <= (val - min) / ((max - 1 - min) / histsize + 1) < histsize.
Proof.
  intros Hmin Hval. unfold histsize.
  assert (0 <= (max - 1 - min) / 100) by (apply Z.div_pos; lia).
  split; [apply Z.div_pos; lia |].
  apply Z.div_lt_upper_bound; [lia |].
  pose proof (Z.mod_pos_bound (max - 1 - min) 100 ltac:(lia)).
  pose proof (Z.div_mod (max - 1 - min) 100 ltac:(lia)). lia.
Qed.

Lemma max_count_insert (l : list Z) (i : nat) (c : Z) :
  l !! i = Some c ->
  foldr Z.max 0 (<[i := c + 1]> l) = Z.max (foldr Z.max 0 l) (c + 1).
Proof.
  revert i. induction l as [| x l IH]; intros [| i] Hi; try done; simpl in *.
  - injection Hi as ->. lia.
  - rewrite (IH i Hi). lia.
Qed.

(** X20: after [hist_init(min, max)] the bucket size is
    [(max - 1 - min) / 100 + 1]; every [hist_add] of a value in
    [min .. max - 1] then succeeds and stays inside the 100 entries of
    [histo]: bucket [k] holds the number of added values [v] with
    [(v - min) / S_bs = k], and [S_maxcount] is the largest bucket. *)
Theorem histogram_counts_every_value_in_its_bucket
    (fuel : nat) (min max : Z) (vals : list Z) :
  0 <= min < max ->
  max < 2 ^ 64 ->
  (Z.to_nat ((max - 1 - min) / histsize) < fuel)%nat ->
  Forall (fun v => min <= v < max) vals ->
  Z.of_nat (length vals) < 2 ^ 31 ->
  exists h h',
    hist_init fuel min max = Some h /\
    S_bs h = (max - 1 - min) / histsize + 1 /\
    foldl (fun s v => s ≫= hist_add v) (Some h) vals = Some h' /\
    Z.of_nat (length (histo h')) = histsize /\
    (forall k : nat, Z.of_nat k < histsize ->
       histo h' !! k = Some (bucket_count min (S_bs h) k vals)) /\
    S_maxcount h' = foldr Z.max 0 (histo h').
Proof.
  intros Hmin Hmax Hfuel Hvals Hmany.
  assert (0 <= (max - 1 - min) / histsize) as Hq by (apply Z.div_pos; unfold histsize; lia).
  unfold hist_init. rewrite (proj2 (Z.ltb_lt min max)) by lia.
  rewrite hist_init_loop_result by lia. cbn [mbind option_bind].
  set (bs := (max - 1 - min) / histsize + 1).
  eexists. cbn [S_bs].
  enough (exists h',
            foldl (fun s v => s ≫= hist_add v)
              (Some {| S_min := min; S_max := max; S_bs := bs;
                       histo := replicate (Z.to_nat histsize) 0; S_maxcount := 0 |})
              vals = Some h' /\
            S_min h' = min /\ S_max h' = max /\ S_bs h' = bs /\
            Z.of_nat (length (histo h')) = histsize /\
            (forall k : nat, Z.of_nat k < histsize ->
               histo h' !! k = Some (bucket_count min bs k vals)) /\
            S_maxcount h' = foldr Z.max 0 (histo h'))
    as (h' & Hrun & _ & _ & _ & Hlen & Hbuckets & Hmaxcount).
  { exists h'. split; [done |]. split; [done |]. done. }
  induction vals as [| v vals IH] using rev_ind.
  - eexists. split; [done |]. cbn [S_min S_max S_bs histo S_maxcount].
    repeat split; try done.
    intros k Hk. rewrite lookup_replicate_2 by (unfold histsize in *; lia). done.
  - apply Forall_app in Hvals as [Hvals Hv]. apply Forall_inv in Hv.
    rewrite length_app in Hmany. cbn [length] in Hmany.
    destruct (IH Hvals ltac:(lia))
      as (h0 & Hrun & Hmin0 & Hmax0 & Hbs0 & Hlen & Hbuckets & Hmaxcount).
    rewrite foldl_app. cbn [foldl]. rewrite Hrun. cbn [mbind option_bind].
    unfold hist_add. rewrite Hmin0, Hmax0, Hbs0.
    rewrite (proj2 (Z.leb_le min v)), (proj2 (Z.ltb_lt v max)) by lia.
    cbn [andb].
    assert (u64 (v - min) = v - min) as -> by (apply Z.mod_small; lia).
    pose proof (bucket_in_range min max v ltac:(lia) Hv) as Hi. fold bs in Hi.
    set (i := Z.to_nat ((v - min) / bs)).
    assert (Z.of_nat i = (v - min) / bs) as Hiz by (unfold i; lia).
    rewrite (Hbuckets i) by lia. cbn [mbind option_bind].
    assert (0 <= bucket_count min bs i vals <= Z.of_nat (length vals)) as Hcount.
    { unfold bucket_count. pose proof (length_filter (fun v => (v - min) / bs = Z.of_nat i) vals).
      lia. }
    assert (int_of_u32 (u32 (bucket_count min bs i vals + 1))
            = bucket_count min bs i vals + 1) as ->.
    { unfold u32. rewrite Z.mod_small by lia. apply int_of_u32_small. lia. }
    eexists. split; [done |]. cbn [S_min S_max S_bs histo S_maxcount].
    split; [done |]. split; [done |]. split; [done |].
    split; [by rewrite length_insert |].
    split.
    + intros k Hk.
      assert (bucket_count min bs k (vals ++ [v])
              = bucket_count min bs k vals
                + (if decide ((v - min) / bs = Z.of_nat k) then 1 else 0)) as ->.
      { unfold bucket_count. rewrite filter_app, length_app, filter_cons, filter_nil.
        destruct (decide _); simpl; lia. }
      destruct (decide (k = i)) as [-> | Hne].
      * rewrite list_lookup_insert_eq by lia. by rewrite decide_True by lia.
      * rewrite list_lookup_insert_ne by done.
        rewrite decide_False by lia. rewrite Hbuckets by done. f_equal. lia.
    + rewrite Hmaxcount. symmetry. apply max_count_insert. apply Hbuckets. lia.
Qed.

Lemma histogram_counts_every_value_in_its_bucket_witness :
  exists h',
    foldl (fun s v => s ≫= hist_add v)
      (hist_init 10 0 250) [0; 5; 249; 4] = Some h' /\
    histo h' !! 1%nat = Some 2 /\ histo h' !! 83%nat = Some 1.
Proof.
  destruct (histogram_counts_every_value_in_its_bucket 10 0 250 [0; 5; 249; 4]
              ltac:(lia) ltac:(lia) ltac:(vm_compute; lia)
              ltac:(repeat constructor; lia) ltac:(simpl; lia))
    as (h & h' & Hinit & Hbs & Hrun & _ & Hbuckets & _).
  exists h'. rewrite Hinit. split; [exact Hrun |].
  rewrite Hbs in Hbuckets.
  split; [exact (Hbuckets 1%nat ltac:(unfold histsize; lia))
         | exact (Hbuckets 83%nat ltac:(unfold histsize; lia))].
Defined.

(** ** Symbolic links *)

Lemma translate_chars_le_word (a b c d : Z) :
  is_byte a -> is_byte b -> is_byte c -> is_byte d ->
  translate_chars (le_word [a; b; c; d]) = [a; b; c; d].
Proof.
  unfold is_byte, translate_chars. intros Ha Hb Hc Hd.
  cbn [fmap list_fmap le_word].
  change 255 with (Z.ones 8). rewrite !Z.land_ones, !Z.shiftr_div_pow2 by lia.
  change (2 ^ (8 * 0)) with 1. change (2 ^ (8 * 1)) with 256.
  change (2 ^ (8 * 2)) with (256 * 256). change (2 ^ (8 * 3)) with (256 * 256 * 256).
  change (2 ^ 8) with 256.
  repeat f_equal.
  - rewrite Z.div_1_r. symmetry. apply Z.mod_unique with (q := b + 256 * (c + 256 * (d + 256 * 0))); lia.
  - replace ((a + 256 * (b + 256 * (c + 256 * (d + 256 * 0)))) / 256)
      with (b + 256 * (c + 256 * d))
      by (apply Z.div_unique with (r := a); lia).
    symmetry. apply Z.mod_unique with (q := c + 256 * d); lia.
  - replace ((a + 256 * (b + 256 * (c + 256 * (d + 256 * 0)))) / (256 * 256))
      with (c + 256 * d)
      by (apply Z.div_unique with (r := a + 256 * b); lia).
    symmetry. apply Z.mod_unique with (q := d); lia.
  - replace ((a + 256 * (b + 256 * (c + 256 * (d + 256 * 0)))) / (256 * 256 * 256))
      with d
      by (apply Z.div_unique with (r := a + 256 * (b + 256 * c)); lia).
    apply Z.mod_small. lia.
Qed.

Lemma print_symlink_chars_app (size : Z) (l1 l2 : list Z) (os : list Z) (len : Z) :
  print_symlink_chars size (l1 ++ l2) os len
  = r ← print_symlink_chars size l1 os len;
    match r with
    | inl res => Some (inl res)
    | inr (os, len) => print_symlink_chars size l2 os len
    end.
Proof.
  revert os len. induction l1 as [| c l1 IH]; intros os len; [done |].
  cbn [app print_symlink_chars].
  destruct (c =? 0); [done |].
  destruct (u32 (len + 1) =? size); [done |]. apply IH.
Qed.

Lemma print_symlink_slots_flat (size : Z) (n : nat) (bytes : list Z) (os : list Z) (len : Z) :
  length bytes = (4 * n)%nat ->
  Forall is_byte bytes ->
  print_symlink_slots size (pack_le32 bytes) os len
  = r ← print_symlink_chars size bytes os len;
    Some (match r with inl res => res | inr res => res end).
Proof.
  revert bytes os len. induction n as [| n IH]; intros bytes os len Hlen Hbytes.
  - destruct bytes; [done | simpl in Hlen; lia].
  - destruct bytes as [| a [| b [| c [| d rest]]]]; try (simpl in Hlen; lia).
    apply Forall_cons in Hbytes as [Ha Hbytes].
    apply Forall_cons in Hbytes as [Hb Hbytes].
    apply Forall_cons in Hbytes as [Hc Hbytes].
    apply Forall_cons in Hbytes as [Hd Hbytes].
    cbn [pack_le32 print_symlink_slots].
    rewrite translate_chars_le_word by done.
    change (a :: b :: c :: d :: rest) with ([a; b; c; d] ++ rest).
    rewrite print_symlink_chars_app.
    destruct (print_symlink_chars size [a; b; c; d] os len) as [[res | [os' len']] |];
      cbn [mbind option_bind]; try done.
    apply IH; [simpl in Hlen; lia | done].
Qed.

Lemma print_symlink_chars_name (name pad : list Z) (os : list Z) (len : Z) :
  name <> [] ->
  Forall (fun c => c <> 0) name ->
  0 <= len -> len + Z.of_nat (length name) < 2 ^ 32 ->
  print_symlink_chars (len + Z.of_nat (length name)) (name ++ pad) os len
  = Some (inl (os ++ name, len + Z.of_nat (length name))).
Proof.
  revert os len. induction name as [| c name IH]; intros os len Hne Hname Hlen Hmax;
    [done |].
  apply Forall_cons in Hname as [Hc Hname].
  cbn [app print_symlink_chars]. rewrite (proj2 (Z.eqb_neq c 0)) by done.
  assert (u32 (len + 1) = len + 1) as ->.
  { apply Z.mod_small. rewrite length_cons in Hmax. lia. }
  destruct name as [| c' name].
  - simpl. rewrite Z.eqb_refl. done.
  - rewrite (proj2 (Z.eqb_neq _ _)) by (rewrite !length_cons; lia).
    replace (len + Z.of_nat (length (c :: c' :: name)))
      with (len + 1 + Z.of_nat (length (c' :: name))) by (rewrite !length_cons; lia).
    rewrite IH by (rewrite ?length_cons in *; first [done | lia]).
    by rewrite <- app_assoc.
Qed.

Lemma pack_le32_length (n : nat) (bytes : list Z) :
  length bytes = (4 * n)%nat -> length (pack_le32 bytes) = n.
Proof.
  revert bytes. induction n as [| n IH]; intros bytes Hlen.
  - by destruct bytes.
  - destruct bytes as [| a [| b [| c [| d rest]]]]; try (simpl in Hlen; lia).
    cbn [pack_le32 length]. f_equal. apply IH. simpl in Hlen. lia.
Qed.

(** X21: a fast symlink is read back from [i_block] byte for byte: when the
    inode has no blocks and its 60 bytes of [i_block] start with a name
    without NUL whose length is the inode's size, [print_symlink] writes
    exactly that name, whatever follows it in [i_block], and returns its
    length. *)
Theorem fast_symlink_round_trip
    (block_size_ : Z) (get_block : Z -> option (list Z))
    (inode : Inode) (name pad : list Z) (os : list Z) :
  i_blocks inode = 0 ->
  name <> [] ->
  Forall (fun c => 0 < c < 256) name ->
  Forall is_byte pad ->
  length (name ++ pad) = 60%nat ->
  i_block inode = pack_le32 (name ++ pad) ->
  print_symlink block_size_ get_block (Z.of_nat (length name)) inode os
  = Some (os ++ name, Z.of_nat (length name)).
Proof.
  intros Hblocks Hne Hname Hpad Hlen Hpacked. unfold print_symlink.
  rewrite Hblocks, Z.eqb_refl.
  assert (length name <> 0%nat) as Hpos by (by destruct name).
  assert (length name <= 60)%nat as Hshort by (rewrite length_app in Hlen; lia).
  rewrite (proj2 (Z.eqb_neq _ 0)) by lia.
  rewrite Hpacked, take_ge
    by (rewrite (pack_le32_length 15); [unfold EXT3_N_BLOCKS; lia | lia]).
  rewrite (print_symlink_slots_flat _ 15) by
    (first [lia | apply Forall_app; split;
                    [eapply Forall_impl; [exact Hname | unfold is_byte; simpl; lia]
                    | done]]).
  pose proof (print_symlink_chars_name name pad os 0 Hne) as Hrun.
  rewrite !Z.add_0_l in Hrun. rewrite Hrun.
  - cbn [mbind option_bind fst snd]. rewrite int_of_u32_small by lia. done.
  - eapply Forall_impl; [exact Hname | simpl; lia].
  - lia.
  - lia.
Qed.

Lemma fast_symlink_round_trip_witness :
  print_symlink 1024 (fun _ => None) 3 l_inode [] = Some ([97; 47; 98], 3).
Proof.
  exact (fast_symlink_round_trip 1024 (fun _ => None) l_inode
           [97; 47; 98] (replicate 57 7) []
           ltac:(reflexivity) ltac:(discriminate)
           ltac:(repeat constructor; lia)
           ltac:(apply Forall_replicate; unfold is_byte; lia)
           ltac:(reflexivity) ltac:(reflexivity)).
Defined.
